(** * Encrypted local vault: envelope codec, persistence and restore

    A shallow embedding of the vault subsystem of the desktop application:
    the envelope codec of [electron/crypto.cjs] and the persistence, unlock,
    snapshot/restore and attachment handlers of [electron/main.cjs].

    Buffers are lists of bytes, JavaScript exceptions are an explicit error
    type, and the host platform (node:crypto, String.prototype.normalize,
    sql.js, the path module) is an interface with the laws its documentation
    states.  Stateful code runs in a state-and-exception monad over an
    explicit world (disk, in-memory database, vault session). *)

From Stdlib Require Import ZArith Lia List Bool.
From Stdlib Require Import Strings.Byte Strings.Ascii.
From stdpp Require Import base option list strings gmap.

Import Stdlib.Init.Byte.

#[global] Instance byte_eq_decision : EqDecision byte := Byte.byte_eq_dec.

(** ** Buffers *)

Abbreviation bytes := (list byte).

(** A JavaScript string as its sequence of UTF-16 code units; used for
    passphrases, whose normalisation is Unicode-sensitive, and for the text
    of notes, whose length and white space count.  File names, identifiers,
    dates and messages are plain [string]s. *)
Abbreviation ustring := (list Z).

Definition byteOfZ (z : Z) : byte :=
  default x00 (Byte.of_N (Z.to_N (z mod 256))).

Definition zOfByte (b : byte) : Z := Z.of_N (Byte.to_N b).

(** [Buffer.alloc(n)]: [n] zero bytes. *)
Definition alloc (n : nat) : bytes := replicate n x00.

(** [buf.subarray(start, end)] for in-range non-negative indices (Node clamps
    both ends to the buffer, as [take] and [drop] do). *)
Definition subarray (buf : bytes) (start stop : nat) : bytes :=
  take (stop - start) (drop start buf).

(** ** Errors

    One constructor per distinct exception the modelled code can raise; the
    comment gives the message of the [Error] object. *)

Inductive CryptoError :=
| AuthFailed           (* "Unsupported state or unable to authenticate data" *)
| ScryptInvalidParams  (* invalid scrypt parameter / memory limit exceeded *)
| InvalidKeyLength     (* "Invalid key length" *)
| InvalidIv            (* "Invalid initialization vector" *)
| InvalidTagLength.    (* "Invalid authentication tag length" *)

Inductive FsOp :=
| OpRead | OpWrite | OpRename | OpUnlink | OpCopy | OpMkdir | OpRm | OpStat.

Inductive Error :=
| ErrVaultNotInitialized        (* "Vault not initialized." *)
| ErrDbTooSmall                 (* "Encrypted database is corrupted (too small)." *)
| ErrDbBadMagic                 (* "Not an eDisco Notes encrypted database." *)
| ErrDbVersion (v : byte)       (* "Unsupported encrypted DB version: v" *)
| ErrFileTooSmall               (* "Encrypted attachment is corrupted (too small)." *)
| ErrFileBadMagic               (* "Not an encrypted attachment." *)
| ErrFileVersion (v : byte)     (* "Unsupported encrypted attachment version: v" *)
| ErrRange                      (* RangeError of an out-of-range Buffer read *)
| ErrCrypto (c : CryptoError)   (* raised inside node:crypto *)
| ErrPassphraseTooShort         (* "Passphrase must be at least 12 characters." *)
| ErrUnlockGeneric              (* "Unable to unlock vault. The passphrase may be
                                    incorrect or the encrypted database may be
                                    corrupted." *)
| ErrUnableToUnlock             (* "Unable to unlock vault." *)
| ErrWriteVerification          (* "Encrypted database write verification failed." *)
| ErrVaultLocked                (* "Vault locked." *)
| ErrDatabaseNotInitialized     (* "Database not initialized." *)
| ErrInvalid (field : string)   (* "Invalid <field>." *)
| ErrValidation (msg : string)  (* the input sanitizers' messages *)
| ErrNoDatabaseFile             (* "No database file found." *)
| ErrSql                        (* raised by sql.js when opening an image *)
| ErrIo (op : FsOp) (path : list string). (* a failed node:fs call *)

#[global] Instance CryptoError_eq_dec : EqDecision CryptoError.
Proof. solve_decision. Defined.
#[global] Instance FsOp_eq_dec : EqDecision FsOp.
Proof. solve_decision. Defined.
#[global] Instance Error_eq_dec : EqDecision Error.
Proof. solve_decision. Defined.

(** Result of a pure function that may throw. *)
Inductive res (A : Type) :=
| ROk (a : A)
| RErr (e : Error).
Arguments ROk {A} a.
Arguments RErr {A} e.

#[global] Instance res_ret : MRet res := fun A a => ROk a.
#[global] Instance res_bind : MBind res := fun A B f m =>
  match m with
  | ROk a => f a
  | RErr e => RErr e
  end.

(** ** Big-endian 32-bit fields *)

(** [u32]: [buf.writeUInt32BE(value >>> 0, 0)] on a fresh 4-byte buffer. *)
Definition u32 (value : Z) : bytes :=
  let v := (value mod 2 ^ 32)%Z in
  [byteOfZ (v / 2 ^ 24); byteOfZ (v / 2 ^ 16); byteOfZ (v / 2 ^ 8); byteOfZ v].

(** [readU32]: [buf.readUInt32BE(offset)]; out of range is a RangeError. *)
Definition readU32 (buf : bytes) (offset : nat) : res Z :=
  match drop offset buf with
  | b0 :: b1 :: b2 :: b3 :: _ =>
      ROk (((zOfByte b0 * 256 + zOfByte b1) * 256 + zOfByte b2) * 256 + zOfByte b3)%Z
  | _ => RErr ErrRange
  end.

(** [buf.readUInt8(offset)]. *)
Definition readUInt8 (buf : bytes) (offset : nat) : res byte :=
  match buf !! offset with
  | Some b => ROk b
  | None => RErr ErrRange
  end.

(** ** Constants of crypto.cjs *)

(** "EDNENC01" *)
Definition DB_MAGIC : bytes := [x45; x44; x4e; x45; x4e; x43; x30; x31].
Definition DB_VERSION : byte := x01.

(** "EDNFILE1" *)
Definition FILE_MAGIC : bytes := [x45; x44; x4e; x46; x49; x4c; x45; x31].
Definition FILE_VERSION : byte := x01.

Record ScryptParams := { spN : Z; spR : Z; spP : Z }.

Definition DEFAULT_SCRYPT_PARAMS : ScryptParams :=
  {| spN := 32768; spR := 8; spP := 1 |}.

Definition SALT_LEN : nat := 16.
Definition IV_LEN : nat := 12.
Definition TAG_LEN : nat := 16.

#[global] Instance ScryptParams_eq_dec : EqDecision ScryptParams.
Proof. solve_decision. Defined.

(** ** The platform's cryptography *)

Inductive NormForm := NFC | NFD | NFKC | NFKD.

(** scrypt's N must be a power of two greater than one. *)
Definition isPow2gt1 (n : Z) : bool :=
  (1 <? n)%Z && (Z.land n (n - 1) =? 0)%Z.

(** An option of scrypt that passes Node's [validateUint32]. *)
Definition isUint32 (z : Z) : Prop := (0 <= z < 2 ^ 32)%Z.

(** What the code uses of node:crypto and of [String.prototype.normalize],
    with the parts of their contracts the development relies on.  Randomness
    is a tape: [randomBytes n g] is the [n]-byte string drawn at position [g]. *)
Class NodeCrypto := {
  normalize : NormForm -> ustring -> ustring;
  (** [crypto.scryptSync(password, salt, keylen, {N, r, p, maxmem})] *)
  scryptSync : ustring -> bytes -> nat -> Z -> Z -> Z -> Z -> res bytes;
  (** [crypto.hkdfSync("sha256", key, salt, info, keylen)] *)
  hkdfSync : bytes -> bytes -> string -> nat -> bytes;
  (** aes-256-gcm: [gcmEncrypt key iv aad plaintext] is (ciphertext, tag) *)
  gcmEncrypt : bytes -> bytes -> bytes -> bytes -> res (bytes * bytes);
  (** [gcmDecrypt key iv tag ciphertext aad] *)
  gcmDecrypt : bytes -> bytes -> bytes -> bytes -> bytes -> res bytes;
  (** [crypto.createCipheriv("aes-256-gcm", key, iv)] and
      [createDecipheriv]: the checks on key and nonce, made before any data
      is processed *)
  cipherInit : bytes -> bytes -> res unit;
  (** [decipher.update(ciphertext)] under [key] and [iv]: the bytes counter
      mode yields, before [final] checks the tag *)
  gcmUpdate : bytes -> bytes -> bytes -> bytes;
  randomBytes : nat -> nat -> bytes;

  (** canonically equivalent strings have the same NFKC form *)
  normalize_nfkc_canonical : forall a b,
    normalize NFD a = normalize NFD b -> normalize NFKC a = normalize NFKC b;
  (** scrypt rejects parameters without looking at the password *)
  scrypt_error_params_only : forall pw pw' salt len n r p mm e,
    scryptSync pw salt len n r p mm = RErr e ->
    scryptSync pw' salt len n r p mm = RErr e;
  (** an N that is given (0 stands for the default) and is not a power of
      two above one is refused, whatever the other options *)
  scrypt_rejects_bad_N : forall pw salt len n r p mm,
    isUint32 n -> n <> 0%Z -> isUint32 r -> isUint32 p -> (0 <= mm)%Z ->
    isPow2gt1 n = false ->
    scryptSync pw salt len n r p mm = RErr (ErrCrypto ScryptInvalidParams);
  hkdf_length : forall key salt info len,
    length (hkdfSync key salt info len) = len;
  (** GCM is a stream mode with a 16-byte tag, and decryption inverts it *)
  gcm_encrypt_decrypt : forall key iv aad pt,
    length key = 32 -> length iv = 12 ->
    exists ct tag,
      gcmEncrypt key iv aad pt = ROk (ct, tag) /\
      length ct = length pt /\ length tag = 16 /\
      gcmDecrypt key iv tag ct aad = ROk pt;
  (** with well-formed key, nonce and tag the only failure is the tag check *)
  gcm_decrypt_error : forall key iv tag ct aad e,
    length key = 32 -> length iv = 12 -> length tag = 16 ->
    gcmDecrypt key iv tag ct aad = RErr e -> e = ErrCrypto AuthFailed;
  (** a 32-byte key and a 12-byte nonce are accepted, and only a 32-byte
      key is *)
  cipher_init_ok : forall key iv,
    length key = 32 -> length iv = 12 -> cipherInit key iv = ROk tt;
  cipher_init_key : forall key iv, cipherInit key iv = ROk tt -> length key = 32;
  (** once the cipher exists, encryption does not fail *)
  gcm_encrypt_total : forall key iv aad pt,
    cipherInit key iv = ROk tt -> exists ct tag, gcmEncrypt key iv aad pt = ROk (ct, tag);
  (** what [update] has yielded is the plaintext, if [final] accepts the tag *)
  gcm_decrypt_update : forall key iv tag ct aad pt,
    gcmDecrypt key iv tag ct aad = ROk pt -> gcmUpdate key iv ct = pt;
  random_length : forall n g, length (randomBytes n g) = n
}.

(** ** crypto.cjs *)

Inductive PassArg :=
| PStr (s : ustring)   (* typeof passphrase === "string" *)
| PNotString.

Record Vault := {
  masterKey : bytes;
  dbKey : bytes;
  fileKey : bytes;
  kdfSalt : bytes;
  kdfParams : ScryptParams
}.

Record Opened := { plaintext : bytes; vault : Vault }.

Record GcmBox := { iv : bytes; tag : bytes; ciphertext : bytes }.

Section Codec.
Context `{NodeCrypto}.

Definition normalizePassphrase (passphrase : PassArg) : ustring :=
    match passphrase with
    | PStr s => normalize NFKC s
    | PNotString => []
    end.

Definition hkdfSubkey (masterKey : bytes) (info : string) : bytes :=
    hkdfSync masterKey (alloc 0) info 32.

Definition deriveKeysFromPassphrase
      (passphrase : PassArg) (salt : bytes) (params : ScryptParams) : res Vault :=
    let normalized := normalizePassphrase passphrase in
    masterKey ← scryptSync normalized salt 32
                  (spN params) (spR params) (spP params) (128 * 1024 * 1024)%Z;
    let dbKey := hkdfSubkey masterKey "edisconotes:db" in
    let fileKey := hkdfSubkey masterKey "edisconotes:files" in
    ROk {| masterKey := masterKey; dbKey := dbKey; fileKey := fileKey;
           kdfSalt := salt; kdfParams := params |}.

  (** The nonce is [crypto.randomBytes(IV_LEN)]; [g] is the tape position of
      that draw. *)
Definition aesGcmEncrypt (key plaintext aad : bytes) (g : nat) : res GcmBox :=
    let iv := randomBytes IV_LEN g in
    '(ciphertext, tag) ← gcmEncrypt key iv aad plaintext;
    ROk {| iv := iv; tag := tag; ciphertext := ciphertext |}.

Definition aesGcmDecrypt (key iv tag ciphertext aad : bytes) : res bytes :=
    gcmDecrypt key iv tag ciphertext aad.

Definition buildDbHeader (params : ScryptParams) (salt iv : bytes) : bytes :=
    DB_MAGIC ++ [DB_VERSION] ++ u32 (spN params) ++ u32 (spR params)
      ++ u32 (spP params) ++ salt ++ iv.

Definition sealDatabaseBytes
      (plaintext : bytes) (vault : option Vault) (g : nat) : res bytes :=
    match vault with
    | None => RErr ErrVaultNotInitialized
    | Some vault =>
        let header := buildDbHeader (kdfParams vault) (kdfSalt vault) (alloc IV_LEN) in
        box ← aesGcmEncrypt (dbKey vault) plaintext
                (subarray header 0 (length header - IV_LEN)) g;
        let fullHeader := buildDbHeader (kdfParams vault) (kdfSalt vault) (iv box) in
        ROk (fullHeader ++ tag box ++ ciphertext box)
    end.

Definition openVaultFromDatabaseEnvelope
      (envelopeBytes : bytes) (passphrase : PassArg) : res Opened :=
    let buf := envelopeBytes in
    let minLen := length DB_MAGIC + 1 + 12 + SALT_LEN + IV_LEN + TAG_LEN in
    if length buf <? minLen then RErr ErrDbTooSmall else
    let magic := subarray buf 0 (length DB_MAGIC) in
    if negb (bool_decide (magic = DB_MAGIC)) then RErr ErrDbBadMagic else
    version ← readUInt8 buf (length DB_MAGIC);
    if negb (bool_decide (version = DB_VERSION)) then RErr (ErrDbVersion version) else
    let offset := length DB_MAGIC + 1 in
    n ← readU32 buf offset;
    r ← readU32 buf (offset + 4);
    p ← readU32 buf (offset + 8);
    let params := {| spN := n; spR := r; spP := p |} in
    let offset := offset + 12 in
    let salt := subarray buf offset (offset + SALT_LEN) in
    let offset := offset + SALT_LEN in
    let iv := subarray buf offset (offset + IV_LEN) in
    let offset := offset + IV_LEN in
    let tag := subarray buf offset (offset + TAG_LEN) in
    let offset := offset + TAG_LEN in
    let ciphertext := drop offset buf in
    vault ← deriveKeysFromPassphrase passphrase salt params;
    let aad := subarray (buildDbHeader params salt (alloc IV_LEN)) 0
                 (length DB_MAGIC + 1 + 12 + SALT_LEN) in
    plaintext ← aesGcmDecrypt (dbKey vault) iv tag ciphertext aad;
    ROk {| plaintext := plaintext; vault := vault |}.

Definition buildFileHeader (iv : bytes) : bytes :=
    FILE_MAGIC ++ [FILE_VERSION] ++ iv.

Definition sealFileBytes (plaintext fileKey : bytes) (g : nat) : res bytes :=
    let aad := buildFileHeader (alloc IV_LEN) in
    box ← aesGcmEncrypt fileKey plaintext (subarray aad 0 (length aad - IV_LEN)) g;
    let header := buildFileHeader (iv box) in
    ROk (header ++ tag box ++ ciphertext box).

Definition openFileBytes (envelopeBytes fileKey : bytes) : res bytes :=
    let buf := envelopeBytes in
    let minLen := length FILE_MAGIC + 1 + IV_LEN + TAG_LEN + 1 in
    if length buf <? minLen then RErr ErrFileTooSmall else
    let magic := subarray buf 0 (length FILE_MAGIC) in
    if negb (bool_decide (magic = FILE_MAGIC)) then RErr ErrFileBadMagic else
    version ← readUInt8 buf (length FILE_MAGIC);
    if negb (bool_decide (version = FILE_VERSION)) then RErr (ErrFileVersion version) else
    let offset := length FILE_MAGIC + 1 in
    let iv := subarray buf offset (offset + IV_LEN) in
    let offset := offset + IV_LEN in
    let tag := subarray buf offset (offset + TAG_LEN) in
    let offset := offset + TAG_LEN in
    let ciphertext := drop offset buf in
    let aad := subarray (buildFileHeader (alloc IV_LEN)) 0 (length FILE_MAGIC + 1) in
    aesGcmDecrypt fileKey iv tag ciphertext aad.

  (** [destroyKeyMaterial] fills with zeros those of the three keys that are
      Buffers: [masterKey], which [scryptSync] returned.  [dbKey] and
      [fileKey] are the ArrayBuffers of [hkdfSync], which [Buffer.isBuffer]
      does not accept, and stay as they are. *)
Definition destroyKeyMaterial (vault : Vault) : Vault :=
    {| masterKey := alloc (length (masterKey vault));
       dbKey := dbKey vault;
       fileKey := fileKey vault;
       kdfSalt := kdfSalt vault; kdfParams := kdfParams vault |}.

End Codec.



(** ** The world: disk, database, session *)

Abbreviation Path := (list string).

(** A node of the file system.  The disk is a finite map from absolute
    paths to nodes; a directory's content is the set of nodes below it. *)
Inductive Node :=
| NFile (data : bytes)
| NDir.

(** [stat.isFile()] *)
Definition isFile (n : Node) : bool :=
  match n with NFile _ => true | NDir => false end.

(** [stat.size] *)
Definition fileSize (n : Node) : Z :=
  match n with NFile data => Z.of_nat (length data) | NDir => 0 end.

(** The environment may make a node:fs call throw, or stop the process
    before it.  A world carries the schedule of what happens at the next
    calls; past its end every call succeeds. *)
Inductive Fault := FPass | FThrow | FHalt.

Inductive AuditDetails :=
| DNone
| DNote (title : ustring) (noteDate : string) (contentLength : nat)
| DAttachment (originalFileName : string) (sizeBytes : Z)
| DUnlock (migratedDb : bool) (migratedAttachments : nat) (unlockSource : string)
    (seededLegacyAttachments : nat).

Record NoteRow := {
  n_id : string; n_projectId : string; n_title : ustring; n_noteDate : string;
  n_contentMarkdown : ustring; n_createdAt : string; n_updatedAt : string
}.

Record AttachmentRow := {
  a_id : string; a_projectId : string; a_originalFileName : string;
  a_storedFileName : string; a_storedRelativePath : Path;
  a_sizeBytes : Z; a_addedAt : string
}.

Record AuditRow := {
  au_id : string; au_timestamp : string; au_action : string;
  au_entityType : string; au_entityId : option string;
  au_projectId : option string; au_details : AuditDetails
}.

(** The tables of the sql.js database that the modelled code touches. *)
Record Db := {
  notes : list NoteRow;
  attachments : list AttachmentRow;
  audit_log : list AuditRow
}.

Record Manifest := {
  m_snapshotId : string; m_createdAt : string; m_reason : string;
  m_dbFileName : string; m_encryptedDatabase : bool; m_attachmentFiles : nat
}.

(** What the code uses of Electron, sql.js, the path module, JSON and Date. *)
Class HostEnv := {
  userData : Path;                       (* app.getPath("userData") *)
  tempDir : Path;                        (* app.getPath("temp") *)
  sqlExport : Db -> bytes;               (* db.export() *)
  sqlOpen : option bytes -> res Db;      (* new SQL.Database(bytes) and the schema *)
  uuidOf : bytes -> string;              (* randomUUID from 16 random bytes *)
  pathResolve : string -> Path;          (* path.resolve(p) *)
  extname : string -> string;            (* path.extname(name) *)
  dateIsValid : string -> bool;          (* !Number.isNaN(new Date(s + "T00:00:00.000Z")) *)
  manifestJson : Manifest -> bytes;      (* JSON.stringify(manifest, null, 2) + "\n" *)
  backupMetaJson : option bytes -> string -> Path -> bytes
    (* the old backup-meta.json merged with lastRestoreAt and lastBackupPath *)
}.

Record World := {
  w_fs : gmap Path Node;
  w_faults : list Fault;
  w_tape : nat;                  (* position on the random tape *)
  w_now : string;                (* new Date().toISOString() *)
  w_db : option Db;              (* let db *)
  w_locked : bool;               (* vaultState.locked *)
  w_vault : option Vault;        (* vaultState.vault *)
  w_tempOpenFiles : list Path;   (* tempOpenFiles *)
  w_console : list Error         (* what console.error was given *)
}.

Definition setFs (f : gmap Path Node) (w : World) : World :=
  {| w_fs := f; w_faults := w_faults w; w_tape := w_tape w; w_now := w_now w;
     w_db := w_db w; w_locked := w_locked w; w_vault := w_vault w;
     w_tempOpenFiles := w_tempOpenFiles w; w_console := w_console w |}.

Definition setFaults (fl : list Fault) (w : World) : World :=
  {| w_fs := w_fs w; w_faults := fl; w_tape := w_tape w; w_now := w_now w;
     w_db := w_db w; w_locked := w_locked w; w_vault := w_vault w;
     w_tempOpenFiles := w_tempOpenFiles w; w_console := w_console w |}.

Definition setTape (t : nat) (w : World) : World :=
  {| w_fs := w_fs w; w_faults := w_faults w; w_tape := t; w_now := w_now w;
     w_db := w_db w; w_locked := w_locked w; w_vault := w_vault w;
     w_tempOpenFiles := w_tempOpenFiles w; w_console := w_console w |}.

Definition setDb (d : option Db) (w : World) : World :=
  {| w_fs := w_fs w; w_faults := w_faults w; w_tape := w_tape w; w_now := w_now w;
     w_db := d; w_locked := w_locked w; w_vault := w_vault w;
     w_tempOpenFiles := w_tempOpenFiles w; w_console := w_console w |}.

Definition setLocked (b : bool) (w : World) : World :=
  {| w_fs := w_fs w; w_faults := w_faults w; w_tape := w_tape w; w_now := w_now w;
     w_db := w_db w; w_locked := b; w_vault := w_vault w;
     w_tempOpenFiles := w_tempOpenFiles w; w_console := w_console w |}.

Definition setVault (v : option Vault) (w : World) : World :=
  {| w_fs := w_fs w; w_faults := w_faults w; w_tape := w_tape w; w_now := w_now w;
     w_db := w_db w; w_locked := w_locked w; w_vault := v;
     w_tempOpenFiles := w_tempOpenFiles w; w_console := w_console w |}.

Definition setTempOpenFiles (l : list Path) (w : World) : World :=
  {| w_fs := w_fs w; w_faults := w_faults w; w_tape := w_tape w; w_now := w_now w;
     w_db := w_db w; w_locked := w_locked w; w_vault := w_vault w;
     w_tempOpenFiles := l; w_console := w_console w |}.

Definition logError (e : Error) (w : World) : World :=
  {| w_fs := w_fs w; w_faults := w_faults w; w_tape := w_tape w; w_now := w_now w;
     w_db := w_db w; w_locked := w_locked w; w_vault := w_vault w;
     w_tempOpenFiles := w_tempOpenFiles w; w_console := w_console w ++ [e] |}.

(** ** The monad of main.cjs

    A computation ends with a value, with an exception, or because the
    process stopped; [try]/[catch] sees exceptions only. *)

Inductive Outcome (A : Type) :=
| Ok (a : A)
| Throw (e : Error)
| Halt.
Arguments Ok {A} a.
Arguments Throw {A} e.
Arguments Halt {A}.

Definition M (A : Type) : Type := World -> Outcome A * World.

Definition pure {A} (a : A) : M A := fun w => (Ok a, w).
Definition throw {A} (e : Error) : M A := fun w => (Throw e, w).

Definition bind {A B} (m : M A) (f : A -> M B) : M B := fun w =>
  match m w with
  | (Ok a, w') => f a w'
  | (Throw e, w') => (Throw e, w')
  | (Halt, w') => (Halt, w')
  end.

#[global] Instance M_ret : MRet M := @pure.
#[global] Instance M_bind : MBind M := fun A B f m => bind m f.

(** [try { m } catch (e) { handler e }] *)
Definition tryCatch {A} (m : M A) (handler : Error -> M A) : M A := fun w =>
  match m w with
  | (Throw e, w') => handler e w'
  | r => r
  end.

(** [try { m } finally { cleanup }], for a cleanup that does not throw. *)
Definition tryFinally {A} (m : M A) (cleanup : M unit) : M A := fun w =>
  match m w with
  | (Halt, w') => (Halt, w')
  | (r, w') =>
      match cleanup w' with
      | (Halt, w'') => (Halt, w'')
      | (_, w'') => (r, w'')
      end
  end.

Definition gets {A} (f : World -> A) : M A := fun w => (Ok (f w), w).
Definition modify (f : World -> World) : M unit := fun w => (Ok tt, f w).

Definition liftRes {A} (r : res A) : M A :=
  match r with
  | ROk a => pure a
  | RErr e => throw e
  end.

Definition consoleError (e : Error) : M unit := modify (logError e).

(** The next position of the random tape. *)
Definition drawTape : M nat := fun w => (Ok (w_tape w), setTape (S (w_tape w)) w).

Definition nowIso : M string := gets w_now.

(** [for (const x of xs) acc = body(acc, x)] *)
Fixpoint foldM {A B} (body : B -> A -> M B) (acc : B) (xs : list A) : M B :=
  match xs with
  | [] => pure acc
  | x :: rest => acc' ← body acc x; foldM body acc' rest
  end.

(** ** node:fs *)

(** Every call that can fail consults the schedule first. *)
Definition fsGuard (op : FsOp) (p : Path) : M unit := fun w =>
  match w_faults w with
  | [] => (Ok tt, w)
  | FPass :: rest => (Ok tt, setFaults rest w)
  | FThrow :: rest => (Throw (ErrIo op p), setFaults rest w)
  | FHalt :: rest => (Halt, setFaults rest w)
  end.

Definition existsSync (p : Path) : M bool :=
  gets (fun w => bool_decide (is_Some (w_fs w !! p))).

Definition statSync (p : Path) : M Node :=
  fsGuard OpStat p;;
  node ← gets (fun w => w_fs w !! p);
  match node with
  | Some n => pure n
  | None => throw (ErrIo OpStat p)
  end.

Definition readFileSync (p : Path) : M bytes :=
  fsGuard OpRead p;;
  node ← gets (fun w => w_fs w !! p);
  match node with
  | Some (NFile data) => pure data
  | _ => throw (ErrIo OpRead p)
  end.

Definition writeFileSync (p : Path) (data : bytes) : M unit :=
  fsGuard OpWrite p;;
  node ← gets (fun w => w_fs w !! p);
  match node with
  | Some NDir => throw (ErrIo OpWrite p)
  | _ => modify (fun w => setFs (<[p := NFile data]> (w_fs w)) w)
  end.

Definition isBelow (dir p : Path) : bool :=
  bool_decide (dir `prefix_of` p).

(** The nodes strictly below a directory, with their paths relative to it. *)
Definition descendants (dir : Path) (f : gmap Path Node) : list (Path * Node) :=
  omap (fun kv : Path * Node =>
          if isBelow dir kv.1 && negb (bool_decide (kv.1 = dir))
          then Some (drop (length dir) kv.1, kv.2) else None)
    (map_to_list f).

(** The nodes at and below [src], put at and below [dst]; the rest of the
    disk stays. *)
Definition moveTree (src dst : Path) (f : gmap Path Node) : gmap Path Node :=
  list_to_map
    (omap (fun kv : Path * Node =>
             if isBelow src kv.1 then Some (dst ++ drop (length src) kv.1, kv.2)
             else None)
       (map_to_list f))
  ∪ filter (fun kv : Path * Node => isBelow src kv.1 = false) f.

(** [fs.renameSync(src, dst)], as rename(2) does it: a regular file
    replaces a regular file; a directory moves with everything below it,
    onto nothing or onto an empty directory, and not into itself. *)
Definition renameSync (src dst : Path) : M unit :=
  fsGuard OpRename src;;
  node ← gets (fun w => w_fs w !! src);
  target ← gets (fun w => w_fs w !! dst);
  match node, target with
  | None, _ => throw (ErrIo OpRename src)                        (* ENOENT *)
  | Some (NFile data), Some NDir => throw (ErrIo OpRename src)   (* EISDIR *)
  | Some (NFile data), _ =>
      modify (fun w => setFs (<[dst := NFile data]> (delete src (w_fs w))) w)
  | Some NDir, Some (NFile _) => throw (ErrIo OpRename src)      (* ENOTDIR *)
  | Some NDir, _ =>
      if bool_decide (src = dst) then pure tt else
      occupied ← gets (fun w => match descendants dst (w_fs w) with
                                | [] => false
                                | _ :: _ => true
                                end);
      if isBelow src dst || occupied                             (* EINVAL, ENOTEMPTY *)
      then throw (ErrIo OpRename src)
      else modify (fun w => setFs (moveTree src dst (w_fs w)) w)
  end.

Definition unlinkSync (p : Path) : M unit :=
  fsGuard OpUnlink p;;
  node ← gets (fun w => w_fs w !! p);
  match node with
  | Some (NFile _) => modify (fun w => setFs (delete p (w_fs w)) w)
  | _ => throw (ErrIo OpUnlink p)
  end.

Definition copyFileSync (src dst : Path) : M unit :=
  fsGuard OpCopy src;;
  node ← gets (fun w => w_fs w !! src);
  target ← gets (fun w => w_fs w !! dst);
  match node, target with
  | Some (NFile data), Some NDir => throw (ErrIo OpCopy src)
  | Some (NFile data), _ => modify (fun w => setFs (<[dst := NFile data]> (w_fs w)) w)
  | _, _ => throw (ErrIo OpCopy src)
  end.

(** The proper prefixes of a path and the path itself, shortest first. *)
Definition ancestors (p : Path) : list Path :=
  map (fun n => take n p) (seq 1 (length p)).

(** [fs.mkdirSync(p, { recursive: true })] *)
Definition mkdirSync (p : Path) : M unit :=
  fsGuard OpMkdir p;;
  blocked ← gets (fun w =>
    existsb (fun d => match w_fs w !! d with Some (NFile _) => true | _ => false end)
      (ancestors p));
  if (blocked : bool) then throw (ErrIo OpMkdir p)
  else modify (fun w =>
         setFs (foldr (fun d f => match f !! d with
                                   | None => <[d := NDir]> f
                                   | Some _ => f
                                   end) (w_fs w) (ancestors p)) w).

(** [fs.rmSync(p, { recursive: true, force: true })] *)
Definition rmSync (p : Path) : M unit :=
  fsGuard OpRm p;;
  modify (fun w => setFs (filter (fun kv => isBelow p kv.1 = false) (w_fs w)) w).

Definition ensureDir (dirPath : Path) : M unit :=
  ex ← existsSync dirPath;
  if (ex : bool) then pure tt else mkdirSync dirPath.

(** [copyDirRecursive]: the source walks the tree with [readdirSync]; on the
    flat disk that is one pass over the nodes below [sourceDir], creating
    the directories and copying the regular files. *)
Definition copyDirRecursive (sourceDir targetDir : Path) : M nat :=
  ex ← existsSync sourceDir;
  if negb ex then pure 0 else
  ensureDir targetDir;;
  entries ← gets (fun w => descendants sourceDir (w_fs w));
  foldM (fun copied (entry : Path * Node) =>
           match entry.2 with
           | NDir => ensureDir (targetDir ++ entry.1);; pure copied
           | NFile _ =>
               copyFileSync (sourceDir ++ entry.1) (targetDir ++ entry.1);;
               pure (copied + 1)
           end) 0 entries.

Definition countFilesRecursive (rootDir : Path) : M nat :=
  ex ← existsSync rootDir;
  if negb ex then pure 0 else
  entries ← gets (fun w => descendants rootDir (w_fs w));
  pure (length (filter (fun e : Path * Node => isFile e.2 = true) entries)).

(** [`${p}${suffix}`] for a path string: the suffix extends the last
    component. *)
Fixpoint pathSuffix (p : Path) (suffix : string) : Path :=
  match p with
  | [] => [suffix]
  | [name] => [name +:+ suffix]
  | d :: rest => d :: pathSuffix rest suffix
  end.

Definition basename (p : Path) : string := List.last p "".
Definition dirname (p : Path) : Path := take (length p - 1) p.

Definition isContainedPath (candidatePath basePath : Path) : bool :=
  bool_decide (candidatePath = basePath) || isBelow basePath candidatePath.


(** ** main.cjs *)

Inductive CandidateSource := SrcCurrent | SrcLegacy.

Record Candidate := {
  dbPath : Path;
  userDataRoot : Path;
  source : CandidateSource;
  isBackup : bool
}.

Record DbFileStatus := { encrypted : bool; statusDbPath : option Path }.

Record UnlockResult := {
  ur_migratedDb : bool;
  ur_migratedAttachments : nat;
  ur_unlockSource : string;
  ur_seededLegacyAttachments : nat
}.

Record SnapshotInfo := {
  si_id : string; si_createdAt : string; si_reason : string;
  si_dbFileName : string; si_encryptedDatabase : bool; si_attachmentFiles : nat
}.

Record BackupSource := { dbSourcePath : Path; restoreToEncrypted : bool }.

(** [{ ok: false, error }] or [{ ok: true, relaunching: true,
    restoredAttachments, preRestoreSnapshotId }] *)
Inductive RestoreResult :=
| RestoreFailed (error : string)
| RestoreOk (restoredAttachments : nat) (preRestoreSnapshotId : option string).

(** The JavaScript values the handlers distinguish.  [S] is the form in
    which a string value is kept: a [string] where the value is an
    identifier, a date or a path, which the code matches against ASCII
    patterns or hands to the path module; its UTF-16 code units, a
    [ustring], where it is text whose [length] and white space the code
    looks at. *)
Inductive JsValOf (S : Type) :=
| JStr (s : S)
| JNull
| JUndefined
| JOther.           (* any other value: number, boolean, object ... *)
Arguments JStr {S} s.
Arguments JNull {S}.
Arguments JUndefined {S}.
Arguments JOther {S}.

Abbreviation JsVal := (JsValOf string).
Abbreviation JsText := (JsValOf ustring).

(** The [data] argument of notes:create; [None] is a value that is not an
    object. *)
Record NoteData := { d_title : JsText; d_noteDate : JsVal; d_contentMarkdown : JsText }.

Record NotePayload := {
  p_title : ustring; p_noteDate : string; p_contentMarkdown : ustring
}.

(** *** Regular expressions of main.cjs, as character-class sequences *)

Inductive CharClass := CHex | CDigit | CDash | CFour | CVariant.

Definition isDigitChar (c : ascii) : bool :=
  let n := nat_of_ascii c in (48 <=? n) && (n <=? 57).

Definition isHexChar (c : ascii) : bool :=
  let n := nat_of_ascii c in
  isDigitChar c || ((97 <=? n) && (n <=? 102)) || ((65 <=? n) && (n <=? 70)).

Definition matchClass (k : CharClass) (c : ascii) : bool :=
  let n := nat_of_ascii c in
  match k with
  | CHex => isHexChar c
  | CDigit => isDigitChar c
  | CDash => n =? 45
  | CFour => n =? 52
  | CVariant => (n =? 56) || (n =? 57) || (n =? 97) || (n =? 98) || (n =? 65) || (n =? 66)
  end.

(** An anchored match: one character per class, nothing before or after. *)
Fixpoint matchClasses (pat : list CharClass) (s : string) : bool :=
  match pat, s with
  | [], EmptyString => true
  | k :: pat', String c s' => matchClass k c && matchClasses pat' s'
  | _, _ => false
  end.

(** /^[0-9a-f]{8}-[0-9a-f]{4}-4[0-9a-f]{3}-[89ab][0-9a-f]{3}-[0-9a-f]{12}$/i *)
Definition UUID_V4_REGEX : list CharClass :=
  replicate 8 CHex ++ [CDash] ++ replicate 4 CHex ++ [CDash; CFour]
    ++ replicate 3 CHex ++ [CDash; CVariant] ++ replicate 3 CHex ++ [CDash]
    ++ replicate 12 CHex.

(** /^\d{4}-\d{2}-\d{2}$/ *)
Definition ISO_DATE_REGEX : list CharClass :=
  replicate 4 CDigit ++ [CDash] ++ replicate 2 CDigit ++ [CDash] ++ replicate 2 CDigit.

(** The code units that ECMAScript's [trim] strips: WhiteSpace (TAB, VT,
    FF, U+FEFF and the space separators U+0020, U+00A0, U+1680,
    U+2000..U+200A, U+202F, U+205F, U+3000) and LineTerminator (LF, CR,
    U+2028, U+2029). *)
Definition isWhitespace (c : Z) : bool :=
  ((9 <=? c) && (c <=? 13) || (c =? 0x20) || (c =? 0xA0) || (c =? 0x1680)
   || (0x2000 <=? c) && (c <=? 0x200A) || (c =? 0x2028) || (c =? 0x2029)
   || (c =? 0x202F) || (c =? 0x205F) || (c =? 0x3000) || (c =? 0xFEFF))%Z.

Fixpoint trimStart (s : ustring) : ustring :=
  match s with
  | c :: s' => if isWhitespace c then trimStart s' else s
  | [] => []
  end.

Definition trimEnd (s : ustring) : ustring := rev (trimStart (rev s)).

(** [String.prototype.trim] *)
Definition trim (s : ustring) : ustring := trimEnd (trimStart s).

Definition endsWith (s suffix : string) : bool :=
  bool_decide (String.list_ascii_of_string suffix `suffix_of` String.list_ascii_of_string s).

(** [s.replace(/[:.]/g, "-")] *)
Fixpoint dashed (s : string) : string :=
  match s with
  | String c s' =>
      String (if (nat_of_ascii c =? 58) || (nat_of_ascii c =? 46) then "-"%char else c)
        (dashed s')
  | EmptyString => EmptyString
  end.

Definition slice8 (s : string) : string := String.substring 0 8 s.

Definition ENCRYPTION_ENABLED : bool := true.
Definition MIN_PASSPHRASE_LEN : nat := 12.

(** 1024 * 1024 * 1024 *)
Definition MAX_ATTACHMENT_BYTES : Z := (1024 * 1024 * 1024)%Z.

Section Main.
Context `{NodeCrypto} `{HostEnv}.

Definition attachmentsRoot : Path := userData ++ ["attachments"].
Definition tempRoot : Path := tempDir ++ ["edisconotes-decrypted"].
Definition backupMetaPath : Path := userData ++ ["backup-meta.json"].
Definition snapshotsRoot : Path := userData ++ ["snapshots"].
Definition dbPlainPath : Path := userData ++ ["edisconotes.sqlite"].
Definition dbEncPath : Path := userData ++ ["edisconotes.sqlite.enc"].

Definition listUserDataRootsForUnlock : list Path := [userData].

Definition randomUUID : M string :=
    g ← drawTape; pure (uuidOf (randomBytes 16 g)).

Definition listEncryptedDbCandidates : M (list Candidate) :=
    let currentRoot := userData in
    foldM (fun candidates root =>
             let encryptedPath := root ++ ["edisconotes.sqlite.enc"] in
             let backupPath := pathSuffix encryptedPath ".bak" in
             let src := if bool_decide (root = currentRoot) then SrcCurrent else SrcLegacy in
             e ← existsSync encryptedPath;
             let candidates :=
               if (e : bool)
               then candidates ++ [{| dbPath := encryptedPath; userDataRoot := root;
                                      source := src; isBackup := false |}]
               else candidates in
             b ← existsSync backupPath;
             pure (if (b : bool)
                   then candidates ++ [{| dbPath := backupPath; userDataRoot := root;
                                          source := src; isBackup := true |}]
                   else candidates))
      [] listUserDataRootsForUnlock.

  (** [/unable to authenticate data/i.test(error.message)]: of the messages
      above only that of [AuthFailed] contains the phrase. *)
Definition isDecryptAuthError (error : option Error) : bool :=
    match error with
    | Some (ErrCrypto AuthFailed) => true
    | _ => false
    end.

Definition describeUnlockSource (src : option Candidate) : string :=
    match src with
    | None => "new"
    | Some c =>
        let rootLabel :=
          match source c with
          | SrcCurrent => "current"
          | SrcLegacy => "legacy:" +:+ basename (userDataRoot c)
          end in
        if isBackup c then rootLabel +:+ ":backup" else rootLabel
    end.

Definition isValidProjectId (projectId : JsVal) : bool :=
    match projectId with
    | JStr s => matchClasses UUID_V4_REGEX s
    | _ => false
    end.

Definition assertUuid (value : JsVal) (fieldName : string) : M string :=
    match value with
    | JStr s => if matchClasses UUID_V4_REGEX s then pure s else throw (ErrInvalid fieldName)
    | _ => throw (ErrInvalid fieldName)
    end.

  (** [ensureText(value, fieldName, { minLen, maxLen, trim, allowEmpty })];
      [out.length] is the number of UTF-16 code units. *)
Definition ensureText (value : JsText) (fieldName : string)
      (minLen maxLen : Z) (doTrim allowEmpty : bool) : M ustring :=
    match value with
    | JStr s =>
        let out := if doTrim then trim s else s in
        if negb allowEmpty && (Z.of_nat (length out) <? minLen)%Z
        then throw (ErrValidation (fieldName +:+ " is required."))
        else if (maxLen <? Z.of_nat (length out))%Z
        then throw (ErrValidation (fieldName +:+ " is too long."))
        else pure out
    | _ => throw (ErrValidation (fieldName +:+ " must be a string."))
    end.

  (** [ensureIsoDate(value, fieldName, { allowNull })] *)
Definition ensureIsoDate (value : JsVal) (fieldName : string) (allowNull : bool)
      : M (option string) :=
    match value with
    | JNull | JUndefined | JStr "" =>
        if allowNull then pure None
        else throw (ErrValidation (fieldName +:+ " is required."))
    | JStr s =>
        if negb (matchClasses ISO_DATE_REGEX s)
        then throw (ErrValidation (fieldName +:+ " must use YYYY-MM-DD."))
        else if negb (dateIsValid s)
        then throw (ErrValidation (fieldName +:+ " is invalid."))
        else pure (Some s)
    | JOther => throw (ErrValidation (fieldName +:+ " must use YYYY-MM-DD."))
    end.

Definition sanitizeNoteInput (data : option NoteData) : M NotePayload :=
    match data with
    | None => throw (ErrValidation "Note data is required.")
    | Some data =>
        title ← ensureText (d_title data) "Note title" 1%Z 200%Z true false;
        noteDate ← ensureIsoDate (d_noteDate data) "Note date" false;
        contentMarkdown ← ensureText (d_contentMarkdown data) "Note content"
                            0%Z 2000000%Z false true;
        pure {| p_title := title; p_noteDate := default "" noteDate;
                p_contentMarkdown := contentMarkdown |}
    end.

Definition getSafeProjectAttachmentDir (projectId : JsVal) : option Path :=
    match projectId with
    | JStr s =>
        if negb (isValidProjectId projectId) then None else
        let baseDir := attachmentsRoot in
        let targetDir := baseDir ++ [s] in
        if negb (bool_decide (targetDir = baseDir)) && isBelow baseDir targetDir
        then Some targetDir else None
    | _ => None
    end.

  (** [encryptAttachmentFile].  The input stream is opened on the source
      and the cipher created; the output stream then creates
      [destPath + ".tmp"] and is given the header.  A source that cannot be
      read is reported once the streams run, when the temporary file exists
      already.  Otherwise the source is fed through the cipher into the
      temporary file, the tag is written when the cipher ends, and the
      finished file is renamed.  A failure after the temporary file was
      created leaves it where it is. *)
Definition encryptAttachmentFile (sourcePath destPath : Path) (fileKey : bytes)
      : M unit :=
    g ← drawTape;
    let iv := randomBytes IV_LEN g in
    let header := FILE_MAGIC ++ [FILE_VERSION] ++ iv in
    let aad := FILE_MAGIC ++ [FILE_VERSION] in
    let tmpPath := pathSuffix destPath ".tmp" in
    mkdirSync (dirname destPath);;
    liftRes (cipherInit fileKey iv);;
    input ← tryCatch (data ← readFileSync sourcePath; pure (inl data))
                     (fun error => pure (inr error));
    writeFileSync tmpPath header;;
    match input with
    | inr error => throw error
    | inl input =>
        '(ciphertext, tag) ← liftRes (gcmEncrypt fileKey iv aad input);
        writeFileSync tmpPath (header ++ ciphertext ++ tag);;
        renameSync tmpPath destPath
    end.

  (** [decryptAttachmentFile].  Size, magic and version are checked and the
      decipher is created before anything is written; the streams then
      write to [destPath + ".tmp"] what the decipher yields, the tag is
      checked when the input ends, and only then is the file renamed.  A
      failed tag check leaves the temporary file with what was written. *)
Definition decryptAttachmentFile (encryptedPath destPath : Path) (fileKey : bytes)
      : M unit :=
    stat ← statSync encryptedPath;
    let size := Z.to_nat (fileSize stat) in
    let headerLen := length FILE_MAGIC + 1 + IV_LEN in
    if size <? headerLen + TAG_LEN + 1 then throw ErrFileTooSmall else
    file ← readFileSync encryptedPath;
    let header := subarray file 0 headerLen in
    let magic := subarray header 0 (length FILE_MAGIC) in
    if negb (bool_decide (magic = FILE_MAGIC)) then throw ErrFileBadMagic else
    version ← liftRes (readUInt8 header (length FILE_MAGIC));
    if negb (bool_decide (version = FILE_VERSION)) then throw (ErrFileVersion version) else
    let iv := drop (length FILE_MAGIC + 1) header in
    let tag := subarray file (size - TAG_LEN) size in
    let aad := FILE_MAGIC ++ [FILE_VERSION] in
    liftRes (cipherInit fileKey iv);;
    let tmpPath := pathSuffix destPath ".tmp" in
    mkdirSync (dirname destPath);;
    let ciphertextStart := headerLen in
    let ciphertextEnd := size - TAG_LEN - 1 in
    let ciphertext := subarray file ciphertextStart (ciphertextEnd + 1) in
    writeFileSync tmpPath (gcmUpdate fileKey iv ciphertext);;
    liftRes (gcmDecrypt fileKey iv tag ciphertext aad);;
    renameSync tmpPath destPath.

Definition removeBackupIfPresent (backupPath : Path) : M unit :=
    tryCatch (b ← existsSync backupPath;
              if (b : bool) then unlinkSync backupPath else pure tt)
             (fun _ => pure tt).

Definition persistDbInternal : M unit :=
    db ← gets w_db;
    match db with
    | None => pure tt
    | Some db =>
        if negb ENCRYPTION_ENABLED then writeFileSync dbPlainPath (sqlExport db) else
        locked ← gets w_locked;
        vault ← gets w_vault;
        if (locked : bool) || negb (bool_decide (is_Some vault)) then pure tt else
        let plaintext := sqlExport db in
        g ← drawTape;
        envelope ← liftRes (sealDatabaseBytes plaintext vault g);
        let targetPath := dbEncPath in
        let tmpPath := pathSuffix targetPath ".tmp" in
        writeFileSync tmpPath envelope;;
        (* Windows rename() won't overwrite an existing file; do a safe replace. *)
        let backupPath := pathSuffix targetPath ".bak" in
        removeBackupIfPresent backupPath;;
        t ← existsSync targetPath;
        (if (t : bool)
         then tryCatch (renameSync targetPath backupPath)
                (fun _ =>
                   (* If we can't move aside, try unlink as a fallback. *)
                   tryCatch (unlinkSync targetPath) (fun _ => pure tt))
         else pure tt);;
        renameSync tmpPath targetPath;;
        removeBackupIfPresent backupPath
    end.

Definition persistDb : M unit :=
    tryCatch persistDbInternal (fun error => consoleError error).

Definition persistDbOrThrow : M unit := persistDbInternal.

  (** [new SQL.Database(bytes)] followed by the schema statements. *)
Definition initDatabase (initialDbBytes : option bytes) : M unit :=
    db ← liftRes (sqlOpen initialDbBytes);
    modify (setDb (Some db)).

Definition getDatabaseFileStatus : M DbFileStatus :=
    candidates ← listEncryptedDbCandidates;
    match candidates with
    | encryptedCandidate :: _ =>
        statSync (dbPath encryptedCandidate);;
        pure {| encrypted := true; statusDbPath := Some (dbPath encryptedCandidate) |}
    | [] =>
        let plaintextPath := dbPlainPath in
        e ← existsSync plaintextPath;
        if (e : bool)
        then statSync plaintextPath;;
             pure {| encrypted := false; statusDbPath := Some plaintextPath |}
        else pure {| encrypted := false; statusDbPath := None |}
    end.

  (** [run("INSERT INTO audit_log ...")] *)
Definition insertAudit (row : AuditRow) (db : Db) : Db :=
    {| notes := notes db; attachments := attachments db;
       audit_log := audit_log db ++ [row] |}.

Definition recordAudit (action entityType : string) (entityId projectId : option string)
      (details : AuditDetails) (persist : bool) : M (option string) :=
    db ← gets w_db;
    locked ← gets w_locked;
    match db with
    | None => pure None
    | Some db =>
        if ENCRYPTION_ENABLED && locked then pure None else
        id ← randomUUID;
        now ← nowIso;
        modify (setDb (Some (insertAudit
                  {| au_id := id; au_timestamp := now; au_action := action;
                     au_entityType := entityType; au_entityId := entityId;
                     au_projectId := projectId; au_details := details |} db)));;
        (if persist then persistDb else pure tt);;
        pure (Some id)
    end.

Definition assertUnlocked : M unit :=
    db ← gets w_db;
    locked ← gets w_locked;
    vault ← gets w_vault;
    if negb ENCRYPTION_ENABLED
    then (if bool_decide (is_Some db) then pure tt else throw ErrDatabaseNotInitialized)
    else if (locked : bool) || negb (bool_decide (is_Some vault))
              || negb (bool_decide (is_Some db))
    then throw ErrVaultLocked
    else pure tt.

  (** *** Snapshots and restore *)

Definition createLocalSnapshot (reason : string) : M SnapshotInfo :=
    db ← gets w_db;
    locked ← gets w_locked;
    (if bool_decide (is_Some db) && (negb ENCRYPTION_ENABLED || negb locked)
     then persistDbOrThrow else pure tt);;
    dbStatus ← getDatabaseFileStatus;
    match statusDbPath dbStatus with
    | None => throw ErrNoDatabaseFile
    | Some dbFile =>
        e ← existsSync dbFile;
        if negb e then throw ErrNoDatabaseFile else
        ensureDir snapshotsRoot;;
        now ← nowIso;
        uuid ← randomUUID;
        let snapshotId := dashed now +:+ "-" +:+ slice8 uuid in
        let snapshotDir := snapshotsRoot ++ [snapshotId] in
        ensureDir snapshotDir;;
        let dbFileName := basename dbFile in
        copyFileSync dbFile (snapshotDir ++ [dbFileName]);;
        let attachmentSource := attachmentsRoot in
        let attachmentTarget := snapshotDir ++ ["attachments"] in
        attachmentFiles ← copyDirRecursive attachmentSource attachmentTarget;
        createdAt ← nowIso;
        let reason := if bool_decide (reason = "") then "manual" else reason in
        let manifest :=
          {| m_snapshotId := snapshotId; m_createdAt := createdAt; m_reason := reason;
             m_dbFileName := dbFileName; m_encryptedDatabase := encrypted dbStatus;
             m_attachmentFiles := attachmentFiles |} in
        writeFileSync (snapshotDir ++ ["manifest.json"]) (manifestJson manifest);;
        pure {| si_id := snapshotId; si_createdAt := createdAt; si_reason := reason;
                si_dbFileName := dbFileName; si_encryptedDatabase := encrypted dbStatus;
                si_attachmentFiles := attachmentFiles |}
    end.

Definition resolveBackupDatabaseSource (backupDir : Path) : M (option BackupSource) :=
    let encryptedCandidate := backupDir ++ ["edisconotes.sqlite.enc"] in
    let plaintextCandidate := backupDir ++ ["edisconotes.sqlite"] in
    e ← existsSync encryptedCandidate;
    p ← existsSync plaintextCandidate;
    let dbSourcePath :=
      if (e : bool) then Some encryptedCandidate
      else if (p : bool) then Some plaintextCandidate else None in
    match dbSourcePath with
    | None => pure None
    | Some src =>
        pure (Some {| dbSourcePath := src;
                      restoreToEncrypted :=
                        bool_decide (basename src = "edisconotes.sqlite.enc") |})
    end.

  (** [tryCleanupTempFiles] *)
Definition tryCleanupTempFiles : M unit :=
    files ← gets w_tempOpenFiles;
    foldM (fun _ filePath =>
             tryCatch (e ← existsSync filePath;
                       if (e : bool) then unlinkSync filePath else pure tt)
                      (fun _ => pure tt)) tt files;;
    modify (setTempOpenFiles []);;
    let root := tempRoot in
    e ← existsSync root;
    if (e : bool)
    then names ← gets (fun w =>
                   filter (fun e : Path * Node => length e.1 = 1)
                     (descendants root (w_fs w)));
         foldM (fun _ (entry : Path * Node) =>
                  tryCatch (unlinkSync (root ++ entry.1)) (fun _ => pure tt)) tt names
    else pure tt.

Definition lockVault : M bool :=
    if negb ENCRYPTION_ENABLED
    then persistDb;; modify (setDb None);; modify (setLocked false);;
         tryCleanupTempFiles;; pure true
    else
      db ← gets w_db;
      locked ← gets w_locked;
      (* Persist/close while we still have the vault keys available. *)
      (if bool_decide (is_Some db) && negb locked
       then recordAudit "vault.lock" "vault" None None DNone false;; persistDb
       else pure tt);;
      modify (setDb None);;
      modify (fun w => setVault (destroyKeyMaterial <$> w_vault w) w);;
      modify (setVault None);;
      modify (setLocked true);;
      tryCleanupTempFiles;;
      pure true.

Definition restoreFromBackupFolder (backupDir : Path) (reason : string)
      : M RestoreResult :=
    src ← resolveBackupDatabaseSource backupDir;
    match src with
    | None =>
        pure (RestoreFailed "Selected folder does not contain a valid backup database file.")
    | Some src =>
        preRestoreSnapshotId ←
          tryCatch (snapshot ← createLocalSnapshot ("pre-restore:" +:+ reason);
                    pure (Some (si_id snapshot)))
                   (fun error => consoleError error;; pure None);
        tryCatch (lockVault;; pure tt) (fun error => consoleError error);;
        tryCatch (e ← existsSync dbEncPath;
                  if (e : bool) then unlinkSync dbEncPath else pure tt)
                 (fun _ => pure tt);;
        tryCatch (e ← existsSync dbPlainPath;
                  if (e : bool) then unlinkSync dbPlainPath else pure tt)
                 (fun _ => pure tt);;
        let dbTargetPath := if restoreToEncrypted src then dbEncPath else dbPlainPath in
        copyFileSync (dbSourcePath src) dbTargetPath;;
        let attachmentSource := backupDir ++ ["attachments"] in
        let attachmentTarget := attachmentsRoot in
        e ← existsSync attachmentTarget;
        (if (e : bool) then rmSync attachmentTarget else pure tt);;
        restoredAttachments ← copyDirRecursive attachmentSource attachmentTarget;
        existingMeta ← tryCatch (e ← existsSync backupMetaPath;
                                 if (e : bool)
                                 then raw ← readFileSync backupMetaPath; pure (Some raw)
                                 else pure None)
                                (fun _ => pure None);
        now ← nowIso;
        writeFileSync backupMetaPath (backupMetaJson existingMeta now backupDir);;
        pure (RestoreOk restoredAttachments preRestoreSnapshotId)
    end.

  (** *** Unlock *)

Definition deletePlaintextDbAfterVerifiedMigration : M bool :=
    let plain := dbPlainPath in
    e ← existsSync plain;
    if negb e then pure false else
    tryCatch (unlinkSync plain;; pure true)
             (fun error => consoleError error;; pure false).

  (** [run("UPDATE attachments SET storedFileName = ?, storedRelativePath = ?
      WHERE id = ?")] *)
Definition updateAttachmentLocation (id storedFileName : string)
      (storedRelativePath : Path) (db : Db) : Db :=
    {| notes := notes db;
       attachments :=
         map (fun a => if bool_decide (a_id a = id)
                       then {| a_id := a_id a; a_projectId := a_projectId a;
                               a_originalFileName := a_originalFileName a;
                               a_storedFileName := storedFileName;
                               a_storedRelativePath := storedRelativePath;
                               a_sizeBytes := a_sizeBytes a; a_addedAt := a_addedAt a |}
                       else a) (attachments db);
       audit_log := audit_log db |}.

Definition run (stmt : Db -> Db) : M unit :=
    db ← gets w_db;
    match db with
    | Some db => modify (setDb (Some (stmt db)))
    | None => throw ErrDatabaseNotInitialized
    end.

Definition currentFileKey : M bytes :=
    vault ← gets w_vault;
    match vault with
    | Some v => pure (fileKey v)
    | None => throw ErrVaultLocked   (* a TypeError: vaultState.vault is null *)
    end.

Definition migrateOneAttachment (baseDir : Path) (migrated : nat)
      (attachment : AttachmentRow) : M nat :=
    tryCatch
      (let rel := a_storedRelativePath attachment in
       if bool_decide (rel = []) || endsWith (basename rel) ".enc" then pure migrated else
       let fullPath := baseDir ++ rel in
       e ← existsSync fullPath;
       if negb (isContainedPath fullPath baseDir) || negb e then pure migrated else
       let oldStoredFileName := a_storedFileName attachment in
       let oldRel := rel in
       let ext :=
         if bool_decide (extname (a_originalFileName attachment) = "")
         then extname (basename rel) else extname (a_originalFileName attachment) in
       uuid ← randomUUID;
       let newStoredFileName := uuid +:+ ext +:+ ".enc" in
       let newRel := [a_projectId attachment; newStoredFileName] in
       let targetPath := baseDir ++ newRel in
       match getSafeProjectAttachmentDir (JStr (a_projectId attachment)) with
       | None => pure migrated
       | Some attachmentsDir =>
           ensureDir attachmentsDir;;
           if negb (isContainedPath targetPath attachmentsDir) then pure migrated else
           key ← currentFileKey;
           encryptAttachmentFile fullPath targetPath key;;
           run (updateAttachmentLocation (a_id attachment) newStoredFileName newRel);;
           tryCatch
             (persistDbOrThrow;; unlinkSync fullPath;; pure (migrated + 1))
             (fun error =>
                (* Roll back DB metadata and remove the newly created encrypted file. *)
                consoleError error;;
                tryCatch (run (updateAttachmentLocation (a_id attachment)
                                 oldStoredFileName oldRel);;
                          persistDb)
                         (fun _ => pure tt);;
                tryCatch (t ← existsSync targetPath;
                          if (t : bool) then unlinkSync targetPath else pure tt)
                         (fun _ => pure tt);;
                pure migrated)
       end)
      (fun error => consoleError error;; pure migrated).

Definition migrateAttachmentsToEncryptedIfNeeded : M nat :=
    assertUnlocked;;
    let baseDir := attachmentsRoot in
    e ← existsSync baseDir;
    if negb e then pure 0 else
    rows ← gets (fun w => from_option attachments [] (w_db w));
    foldM (migrateOneAttachment baseDir) 0 rows.

  (** The loop over the candidates of [unlockVault]: the first envelope that
      opens ends it; otherwise the last exception is remembered. *)
Fixpoint openFirstCandidate (passphrase : PassArg) (candidates : list Candidate)
      (lastError : option Error) : M (option (Opened * Candidate) * option Error) :=
    match candidates with
    | [] => pure (None, lastError)
    | candidate :: rest =>
        r ← tryCatch
              (envelope ← readFileSync (dbPath candidate);
               opened ← liftRes (openVaultFromDatabaseEnvelope envelope passphrase);
               pure (inl (opened, candidate)))
              (fun error => pure (inr error));
        match r with
        | inl found => pure (Some found, lastError)
        | inr error => openFirstCandidate passphrase rest (Some error)
        end
    end.

Definition passphraseLength (passphrase : PassArg) : option nat :=
    match passphrase with
    | PStr s => Some (length s)
    | PNotString => None
    end.

  (** The first part of [unlockVault]: from the passphrase check to the point
      where the key material and the initial database bytes are known. *)
Definition unlockOpen (passphrase : PassArg)
      : M (option bytes * bool * option Candidate) :=
    match passphraseLength passphrase with
    | None => throw ErrPassphraseTooShort
    | Some len =>
        if len <? MIN_PASSPHRASE_LEN then throw ErrPassphraseTooShort else
        let plainPath := dbPlainPath in
        encryptedCandidates ← listEncryptedDbCandidates;
        if 0 <? length encryptedCandidates then
          '(opened, lastError) ← openFirstCandidate passphrase encryptedCandidates None;
          match opened with
          | None =>
              if isDecryptAuthError lastError then throw ErrUnlockGeneric
              else throw (default ErrUnableToUnlock lastError)
          | Some (opened, unlockSource) =>
              modify (setVault (Some (vault opened)));;
              pure (Some (plaintext opened), false, Some unlockSource)
          end
        else
          (* First-time setup (or plaintext migration). *)
          g ← drawTape;
          let salt := randomBytes 16 g in
          v ← liftRes (deriveKeysFromPassphrase passphrase salt DEFAULT_SCRYPT_PARAMS);
          modify (setVault (Some v));;
          e ← existsSync plainPath;
          if (e : bool)
          then dbBytes ← readFileSync plainPath; pure (Some dbBytes, true, None)
          else pure (None, false, None)
    end.

  (** From there to the end of the write: the database is loaded and the
      encrypted file written. *)
Definition unlockLoadAndPersist (unlockSource : option Candidate)
      (dbBytes : option bytes) : M nat :=
    initDatabase dbBytes;;
    modify (setLocked false);;
    seededLegacyAttachments ←
      match unlockSource with
      | Some src =>
          match source src with
          | SrcLegacy =>
              let sourceAttachmentsRoot := userDataRoot src ++ ["attachments"] in
              let targetAttachmentsRoot := attachmentsRoot in
              e ← existsSync sourceAttachmentsRoot;
              n ← countFilesRecursive targetAttachmentsRoot;
              if negb (bool_decide (sourceAttachmentsRoot = targetAttachmentsRoot))
                 && e && (n =? 0)
              then copyDirRecursive sourceAttachmentsRoot targetAttachmentsRoot
              else pure 0
          | SrcCurrent => pure 0
          end
      | None => pure 0
      end;
    (* Ensure we write an encrypted DB file immediately. *)
    persistDbOrThrow;;
    pure seededLegacyAttachments.

  (** Verify the written file can be decrypted with the provided passphrase
      before deleting plaintext data. *)
Definition verifyWrittenEnvelope (passphrase : PassArg) : M unit :=
    tryCatch
      (written ← readFileSync dbEncPath;
       liftRes (openVaultFromDatabaseEnvelope written passphrase);;
       pure tt)
      (fun error => consoleError error;; throw ErrWriteVerification).

Definition unlockFinish (passphrase : PassArg) (migratedDb : bool)
      (unlockSource : option Candidate) (seededLegacyAttachments : nat)
      : M UnlockResult :=
    (if migratedDb then deletePlaintextDbAfterVerifiedMigration;; pure tt else pure tt);;
    migratedAttachments ← migrateAttachmentsToEncryptedIfNeeded;
    let unlockSourceLabel := describeUnlockSource unlockSource in
    recordAudit "vault.unlock" "vault" None None
      (DUnlock migratedDb migratedAttachments unlockSourceLabel seededLegacyAttachments)
      true;;
    pure {| ur_migratedDb := migratedDb; ur_migratedAttachments := migratedAttachments;
            ur_unlockSource := unlockSourceLabel;
            ur_seededLegacyAttachments := seededLegacyAttachments |}.

  (** [unlockVault], the four parts in the order of the source. *)
Definition unlockVault (passphrase : PassArg) : M UnlockResult :=
    if negb ENCRYPTION_ENABLED
    then db ← gets w_db;
         (if bool_decide (is_Some db) then pure tt else initDatabase None);;
         modify (setLocked false);;
         pure {| ur_migratedDb := false; ur_migratedAttachments := 0;
                 ur_unlockSource := ""; ur_seededLegacyAttachments := 0 |}
    else
      '(dbBytes, migratedDb, unlockSource) ← unlockOpen passphrase;
      seededLegacyAttachments ← unlockLoadAndPersist unlockSource dbBytes;
      verifyWrittenEnvelope passphrase;;
      unlockFinish passphrase migratedDb unlockSource seededLegacyAttachments.

  (** *** Handlers *)

  (** [run("INSERT INTO notes ...")]; the id is the primary key. *)
Definition insertNote (row : NoteRow) : M unit :=
    db ← gets w_db;
    match db with
    | None => throw ErrDatabaseNotInitialized
    | Some db =>
        if existsb (fun n => bool_decide (n_id n = n_id row)) (notes db)
        then throw ErrSql
        else modify (setDb (Some {| notes := notes db ++ [row];
                                    attachments := attachments db;
                                    audit_log := audit_log db |}))
    end.

Definition insertAttachment (row : AttachmentRow) : M unit :=
    db ← gets w_db;
    match db with
    | None => throw ErrDatabaseNotInitialized
    | Some db =>
        if existsb (fun a => bool_decide (a_id a = a_id row)) (attachments db)
        then throw ErrSql
        else modify (setDb (Some {| notes := notes db;
                                    attachments := attachments db ++ [row];
                                    audit_log := audit_log db |}))
    end.

  (** [get("SELECT * FROM notes WHERE id = ?", [id])] *)
Definition getNote (id : string) : M (option NoteRow) :=
    gets (fun w => db ← w_db w;
                   head (filter (fun n => n_id n = id) (notes db))).

Definition getAttachment (id : string) : M (option AttachmentRow) :=
    gets (fun w => db ← w_db w;
                   head (filter (fun a => a_id a = id) (attachments db))).

  (** [ipcMain.handle("notes:create", ...)] *)
Definition notesCreate (projectId : JsVal) (data : option NoteData)
      : M (option NoteRow) :=
    assertUnlocked;;
    safeProjectId ← assertUuid projectId "project ID";
    payload ← sanitizeNoteInput data;
    id ← randomUUID;
    timestamp ← nowIso;
    insertNote {| n_id := id; n_projectId := safeProjectId; n_title := p_title payload;
                  n_noteDate := p_noteDate payload;
                  n_contentMarkdown := p_contentMarkdown payload;
                  n_createdAt := timestamp; n_updatedAt := timestamp |};;
    recordAudit "note.create" "note" (Some id) (Some safeProjectId)
      (DNote (p_title payload) (p_noteDate payload)
         (length (p_contentMarkdown payload))) false;;
    persistDb;;
    getNote id.

  (** The [try] block of the loop of attachments:add, for one source path;
      [continue] leaves the list as it is. *)
Definition addOneAttachmentTry (safeProjectId : string) (attachmentsDir : Path)
      (inserted : list (option AttachmentRow)) (sourcePath : JsVal)
      : M (list (option AttachmentRow)) :=
    match sourcePath with
    | JStr s =>
        if String.length s =? 0 then pure inserted else
        let resolvedSourcePath := pathResolve s in
        e ← existsSync resolvedSourcePath;
        if negb e then pure inserted else
        sourceStat ← statSync resolvedSourcePath;
        if negb (isFile sourceStat) then pure inserted else
        if (MAX_ATTACHMENT_BYTES <? fileSize sourceStat)%Z then
          (* Limit individual files to 1GB to avoid abuse and accidental
             resource exhaustion. *)
          pure inserted
        else
        let originalFileName := basename resolvedSourcePath in
        let ext := extname originalFileName in
        uuid ← randomUUID;
        let storedFileName :=
          if ENCRYPTION_ENABLED then uuid +:+ ext +:+ ".enc" else uuid +:+ ext in
        let storedRelativePath := [safeProjectId; storedFileName] in
        let destPath := attachmentsDir ++ [storedFileName] in
        if negb (isContainedPath destPath attachmentsDir) then pure inserted else
        (if ENCRYPTION_ENABLED
         then key ← currentFileKey;
              encryptAttachmentFile resolvedSourcePath destPath key
         else copyFileSync resolvedSourcePath destPath);;
        id ← randomUUID;
        addedAt ← nowIso;
        insertAttachment
          {| a_id := id; a_projectId := safeProjectId;
             a_originalFileName := originalFileName;
             a_storedFileName := storedFileName;
             a_storedRelativePath := storedRelativePath;
             a_sizeBytes := fileSize sourceStat; a_addedAt := addedAt |};;
        recordAudit "attachment.add" "attachment" (Some id) (Some safeProjectId)
          (DAttachment originalFileName (fileSize sourceStat)) false;;
        row ← getAttachment id;
        pure (inserted ++ [row])
    | _ => pure inserted
    end.

  (** The body of the loop: the [try] block and its [catch], which logs the
      error and goes on with the next source. *)
Definition addOneAttachment (safeProjectId : string) (attachmentsDir : Path)
      (inserted : list (option AttachmentRow)) (sourcePath : JsVal)
      : M (list (option AttachmentRow)) :=
    tryCatch (addOneAttachmentTry safeProjectId attachmentsDir inserted sourcePath)
      (fun error => consoleError error;; pure inserted).

  (** [ipcMain.handle("attachments:add", ...)]; [filePaths] is [None] when
      the argument is not an array. *)
Definition attachmentsAdd (projectId : JsVal) (filePaths : option (list JsVal))
      : M (list (option AttachmentRow)) :=
    assertUnlocked;;
    safeProjectId ← assertUuid projectId "project ID";
    match getSafeProjectAttachmentDir (JStr safeProjectId), filePaths with
    | Some attachmentsDir, Some filePaths =>
        if (length filePaths =? 0) || (100 <? length filePaths) then pure [] else
        ensureDir attachmentsDir;;
        inserted ← foldM (addOneAttachment safeProjectId attachmentsDir) [] filePaths;
        persistDb;;
        pure inserted
    | _, _ => pure []
    end.

  (** *** Snapshot identifiers *)

  (** A character of the class [a-zA-Z0-9._-]. *)
Definition isSnapshotIdChar (c : ascii) : bool :=
    let n := nat_of_ascii c in
    isDigitChar c || ((97 <=? n) && (n <=? 122)) || ((65 <=? n) && (n <=? 90))
      || (n =? 46) || (n =? 95) || (n =? 45).

  (** [/^[a-zA-Z0-9._-]{8,128}$/.test(value)] *)
Definition SNAPSHOT_ID_REGEX_test (value : string) : bool :=
    forallb isSnapshotIdChar (String.list_ascii_of_string value)
      && (8 <=? String.length value) && (String.length value <=? 128).

Definition sanitizeSnapshotId (value : JsVal) : M string :=
    match value with
    | JStr s =>
        if negb (SNAPSHOT_ID_REGEX_test s)
        then throw (ErrValidation "Invalid snapshot ID.") else pure s
    | _ => throw (ErrValidation "Invalid snapshot ID.")
    end.

  (** [resolveSnapshotDir]; an identifier that passed [sanitizeSnapshotId]
      has no separator, so [path.resolve(root, safeId)] is the child of the
      root with that name. *)
Definition resolveSnapshotDir (snapshotId : JsVal) : M Path :=
    safeId ← sanitizeSnapshotId snapshotId;
    let root := snapshotsRoot in
    let snapshotDir := root ++ [safeId] in
    if negb (isContainedPath snapshotDir root)
    then throw (ErrValidation "Snapshot not found.") else
    e ← existsSync snapshotDir;
    if negb e then throw (ErrValidation "Snapshot not found.") else
    stat ← statSync snapshotDir;
    if isFile stat then throw (ErrValidation "Snapshot not found.")
    else pure snapshotDir.

  (** *** Further handlers *)

  (** [ipcMain.handle("vault:unlock", ...)]; the result without a source
      label is the object [{ ok: true, migratedDb: false,
      migratedAttachments: 0 }]. *)
Definition vaultUnlock (passphrase : PassArg) : M UnlockResult :=
    locked ← gets w_locked;
    if negb locked
    then pure {| ur_migratedDb := false; ur_migratedAttachments := 0;
                 ur_unlockSource := ""; ur_seededLegacyAttachments := 0 |}
    else unlockVault passphrase.

  (** [ipcMain.handle("vault:lock", ...)] *)
Definition vaultLock : M bool := lockVault.

  (** [run("DELETE FROM attachments WHERE id = ?", [id])] *)
Definition deleteAttachmentRow (id : string) (db : Db) : Db :=
    {| notes := notes db;
       attachments := filter (fun a => a_id a <> id) (attachments db);
       audit_log := audit_log db |}.

  (** [ipcMain.handle("attachments:delete", ...)]; the stored relative path
      is a list of names, so [path.resolve(baseDir, rel)] is [baseDir ++ rel]. *)
Definition attachmentsDelete (attachmentId : JsVal) : M bool :=
    assertUnlocked;;
    safeAttachmentId ← assertUuid attachmentId "attachment ID";
    attachment ← getAttachment safeAttachmentId;
    match attachment with
    | None => pure false
    | Some attachment =>
        let baseDir := attachmentsRoot in
        let fullPath := baseDir ++ a_storedRelativePath attachment in
        e ← existsSync fullPath;
        (if isContainedPath fullPath baseDir && e
         then tryCatch (unlinkSync fullPath) (fun error => consoleError error)
         else pure tt);;
        run (deleteAttachmentRow safeAttachmentId);;
        recordAudit "attachment.delete" "attachment" (Some safeAttachmentId)
          (Some (a_projectId attachment))
          (DAttachment (a_originalFileName attachment) (a_sizeBytes attachment)) false;;
        persistDb;;
        pure true
    end.

End Main.


(** ** A reference platform

    An executable instance of the two interfaces, used to run the model on
    concrete inputs.  Its cryptography is a stand-in with the right shapes
    (key, nonce and tag sizes, parameter checks, tag verification), not
    AES, scrypt or HKDF; its normaliser implements the Unicode algorithm
    over the code points listed in [Unicode.canonical] and
    [Unicode.compatibility] and leaves every other code point alone. *)

Module Unicode.

  (** Full canonical decompositions (UnicodeData.txt, untagged mappings). *)
Definition canonical (c : Z) : list Z :=
    if (c =? 0xC5)%Z then [0x41; 0x30A]%Z          (* A WITH RING ABOVE *)
    else if (c =? 0xE9)%Z then [0x65; 0x301]%Z     (* E WITH ACUTE *)
    else if (c =? 0x212B)%Z then [0x41; 0x30A]%Z   (* ANGSTROM SIGN *)
    else [c].

  (** Full compatibility decompositions (tagged and untagged mappings). *)
Definition compatibility (c : Z) : list Z :=
    if (c =? 0xB2)%Z then [0x32]%Z                 (* SUPERSCRIPT TWO *)
    else if (c =? 0x2460)%Z then [0x31]%Z          (* CIRCLED DIGIT ONE *)
    else if (c =? 0xFB01)%Z then [0x66; 0x69]%Z    (* LATIN SMALL LIGATURE FI *)
    else canonical c.

  (** Primary composites. *)
Definition composePair (a b : Z) : option Z :=
    if ((a =? 0x41) && (b =? 0x30A))%Z then Some 0xC5%Z
    else if ((a =? 0x65) && (b =? 0x301))%Z then Some 0xE9%Z
    else None.

Definition composeStep (acc : list Z) (c : Z) : list Z :=
    match acc with
    | lastc :: acc' =>
        match composePair lastc c with
        | Some x => x :: acc'
        | None => c :: lastc :: acc'
        end
    | [] => [c]
    end.

Definition compose (s : list Z) : list Z := rev (fold_left composeStep s []).

Definition nfd (s : list Z) : list Z := flat_map canonical s.
Definition nfkd (s : list Z) : list Z := flat_map compatibility s.

Definition normalize (form : NormForm) (s : list Z) : list Z :=
    match form with
    | NFC => compose (nfd s)
    | NFD => nfd s
    | NFKC => compose (nfkd s)
    | NFKD => nfkd s
    end.

End Unicode.

Module Ref.

  (** A small mixing function in place of the hash functions. *)
Definition mix (h x : Z) : Z := ((h * 131 + x + 1) mod 1000003)%Z.
Definition digest (l : list Z) : Z := fold_left mix l 7%Z.
Definition codes (l : bytes) : list Z := map zOfByte l.

  (** [n] bytes from a seed, by a linear congruential generator. *)
Fixpoint stream (n : nat) (h : Z) : bytes :=
    match n with
    | O => []
    | S n' => byteOfZ (h / 7) :: stream n' ((h * 75 + 74) mod 65537)%Z
    end.

Definition spread (n : nat) (seed : Z) : bytes := stream n (seed mod 65537)%Z.

Definition randomBytes (n g : nat) : bytes := spread n (Z.of_nat g * 7919 + 3).

  (** Node puts its default in place of an option of scrypt that is 0:
      N = 16384, r = 8, p = 1, maxmem = 32 MiB. *)
Definition orDefault (z d : Z) : Z := if (z =? 0)%Z then d else z.

  (** The checks of OpenSSL on the parameters: N a power of two above one,
      r and p positive with p r below 2^30, N below 2^(16 r), and the memory
      128 r p + 128 r (N + 2) within [maxmem]. *)
Definition scryptRefuses (n r p maxmem : Z) : bool :=
    (negb (isPow2gt1 n) || (r <=? 0) || (p <=? 0) || ((2 ^ 30 - 1) / r <? p)
     || (if 16 * r <=? 63 then 2 ^ (16 * r) <=? n else false)
     || (maxmem <? 128 * r * p + 128 * r * (n + 2)))%Z.

Definition scryptSync (pw : ustring) (salt : bytes) (len : nat) (n r p maxmem : Z)
      : res bytes :=
    let n := orDefault n 16384 in
    let r := orDefault r 8 in
    let p := orDefault p 1 in
    let maxmem := orDefault maxmem (32 * 1024 * 1024) in
    if scryptRefuses n r p maxmem
    then RErr (ErrCrypto ScryptInvalidParams)
    else ROk (spread len (digest (pw ++ [-1; n; r; p]%Z ++ codes salt))).

Definition stringCodes (s : string) : list Z :=
    map (fun c => Z.of_nat (nat_of_ascii c)) (String.list_ascii_of_string s).

Definition hkdfSync (key salt : bytes) (info : string) (len : nat) : bytes :=
    spread len (digest (codes key ++ [-1]%Z ++ stringCodes info ++ [-1]%Z ++ codes salt)).

Definition keystream (key iv : bytes) (n : nat) : list Z :=
    codes (spread n (digest (codes key ++ [-2]%Z ++ codes iv))).

Definition addStream (data : bytes) (ks : list Z) : bytes :=
    zip_with (fun b k => byteOfZ (zOfByte b + k)) data ks.

Definition subStream (data : bytes) (ks : list Z) : bytes :=
    zip_with (fun b k => byteOfZ (zOfByte b - k)) data ks.

Definition mac (key iv aad ct : bytes) : bytes :=
    spread 16 (digest (codes key ++ [-3]%Z ++ codes iv ++ [-3]%Z ++ codes aad
                         ++ [-3]%Z ++ codes ct)).

Definition cipherInit (key iv : bytes) : res unit :=
    if negb (length key =? 32) then RErr (ErrCrypto InvalidKeyLength) else
    if length iv =? 0 then RErr (ErrCrypto InvalidIv) else ROk tt.

Definition gcmEncrypt (key iv aad pt : bytes) : res (bytes * bytes) :=
    cipherInit key iv;;
    let ct := addStream pt (keystream key iv (length pt)) in
    ROk (ct, mac key iv aad ct).

Definition gcmUpdate (key iv ct : bytes) : bytes :=
    subStream ct (keystream key iv (length ct)).

Definition gcmDecrypt (key iv tag ct aad : bytes) : res bytes :=
    cipherInit key iv;;
    if negb (length tag =? 16) then RErr (ErrCrypto InvalidTagLength) else
    if bool_decide (tag = mac key iv aad ct)
    then ROk (gcmUpdate key iv ct)
    else RErr (ErrCrypto AuthFailed).

  (** *** The host *)

Definition userData : Path := ["home"; "user"; ".config"; "edisconotes-desktop"].
Definition tempDir : Path := ["tmp"].

Definition emptyDb : Db := {| notes := []; attachments := []; audit_log := [] |}.

  (** A stand-in for the SQLite image: the three row counts. *)
Definition sqlExport (db : Db) : bytes :=
    [byteOfZ (Z.of_nat (length (notes db)));
     byteOfZ (Z.of_nat (length (attachments db)));
     byteOfZ (Z.of_nat (length (audit_log db)))].

Definition sqlOpen (image : option bytes) : res Db :=
    match image with
    | None | Some [_; _; _] => ROk emptyDb
    | Some _ => RErr ErrSql
    end.

Definition hexDigit (n : Z) : ascii :=
    ascii_of_nat (Z.to_nat (if (n <? 10)%Z then 48 + n else 87 + n)%Z).

Fixpoint hexOf (l : bytes) : list ascii :=
    match l with
    | [] => []
    | b :: r => hexDigit (zOfByte b / 16) :: hexDigit (zOfByte b mod 16) :: hexOf r
    end.

  (** xxxxxxxx-xxxx-4xxx-8xxx-xxxxxxxxxxxx from the first 16 bytes. *)
Definition uuidOf (b : bytes) : string :=
    let h := hexOf (take 16 (b ++ alloc 16)) in
    String.string_of_list_ascii
      (take 8 h ++ ["-"%char] ++ take 4 (drop 8 h) ++ ["-"%char; "4"%char]
         ++ take 3 (drop 13 h) ++ ["-"%char; "8"%char] ++ take 3 (drop 17 h)
         ++ ["-"%char] ++ take 12 (drop 20 h)).

Fixpoint splitPath (cur : string) (s : list ascii) : Path :=
    match s with
    | [] => if bool_decide (cur = "") then [] else [cur]
    | c :: r =>
        if Ascii.eqb c "/"
        then (if bool_decide (cur = "") then splitPath "" r else cur :: splitPath "" r)
        else splitPath (cur +:+ String c "") r
    end.

Definition pathResolve (s : string) : Path :=
    splitPath "" (String.list_ascii_of_string s).

Fixpoint lastDot (s : list ascii) (best : option (list ascii)) : option (list ascii) :=
    match s with
    | [] => best
    | c :: r => lastDot r (if Ascii.eqb c "." then Some s else best)
    end.

Definition extname (name : string) : string :=
    match String.list_ascii_of_string name with
    | [] => ""
    | _ :: r => from_option String.string_of_list_ascii "" (lastDot r None)
    end.

Definition dateIsValid (s : string) : bool :=
    match String.list_ascii_of_string s with
    | [_; _; _; _; _; m1; m2; _; d1; d2] =>
        let month := 10 * (nat_of_ascii m1 - 48) + (nat_of_ascii m2 - 48) in
        let day := 10 * (nat_of_ascii d1 - 48) + (nat_of_ascii d2 - 48) in
        (1 <=? month) && (month <=? 12) && (1 <=? day) && (day <=? 31)
    | _ => false
    end.

Definition manifestJson (m : Manifest) : bytes :=
    String.list_byte_of_string
      ("{snapshotId:" +:+ m_snapshotId m +:+ ",createdAt:" +:+ m_createdAt m
         +:+ ",reason:" +:+ m_reason m +:+ ",dbFileName:" +:+ m_dbFileName m +:+ "}").

Definition backupMetaJson (old : option bytes) (now : string) (dir : Path) : bytes :=
    String.list_byte_of_string ("{lastRestoreAt:" +:+ now +:+ "}").

End Ref.


(** ** Definitions used to state the properties *)

Definition u32Range (z : Z) : Prop := (0 <= z < 2 ^ 32)%Z.

(** Cost parameters that fit the header's 32-bit fields. *)
Definition validParams (params : ScryptParams) : Prop :=
  u32Range (spN params) /\ u32Range (spR params) /\ u32Range (spP params).

Section SpecDefs.
Context `{NodeCrypto} `{HostEnv}.

  (** The additional authenticated data of a database envelope: the header
      without its nonce. *)
Definition dbAad (params : ScryptParams) (salt : bytes) : bytes :=
    DB_MAGIC ++ [DB_VERSION] ++ u32 (spN params) ++ u32 (spR params)
      ++ u32 (spP params) ++ salt.

  (** [openVaultFromDatabaseEnvelope] seen as a function of the four parts of
      the envelope: the 37-byte authenticated header, nonce, tag, ciphertext. *)
Definition openParts (hdr iv tag ct : bytes) (passphrase : PassArg) : res Opened :=
    if negb (bool_decide (take 8 hdr = DB_MAGIC)) then RErr ErrDbBadMagic else
    version ← readUInt8 hdr 8;
    if negb (bool_decide (version = DB_VERSION)) then RErr (ErrDbVersion version) else
    n ← readU32 hdr 9;
    r ← readU32 hdr 13;
    p ← readU32 hdr 17;
    vault ← deriveKeysFromPassphrase passphrase (drop 21 hdr)
               {| spN := n; spR := r; spP := p |};
    plaintext ← aesGcmDecrypt (dbKey vault) iv tag ct hdr;
    ROk {| plaintext := plaintext; vault := vault |}.

  (** The cost parameters and salt as they stand in an envelope's header. *)
Definition u32At (buf : bytes) (offset : nat) : Z :=
    match readU32 buf offset with
    | ROk z => z
    | RErr _ => 0%Z
    end.

Definition headerParams (buf : bytes) : ScryptParams :=
    {| spN := u32At buf 9; spR := u32At buf 13; spP := u32At buf 17 |}.

Definition headerSalt (buf : bytes) : bytes := subarray buf 21 37.


End SpecDefs.

(** ** Properties of computations *)

(** [m] raises only exceptions that satisfy [P]. *)
Definition ThrowsOnly {A} (P : Error -> Prop) (m : M A) : Prop :=
  forall w e w', m w = (Throw e, w') -> P e.

(** [m] never raises. *)
Definition NeverThrows {A} (m : M A) : Prop :=
  forall w e w', m w <> (Throw e, w').

(** [m] leaves every path outside [S] as it found it. *)
Definition Touches {A} (S : Path -> Prop) (m : M A) : Prop :=
  forall w r w' q, m w = (r, w') -> ~ S q -> w_fs w' !! q = w_fs w !! q.

(** [m] changes neither the disk nor the database. *)
Definition ReadOnly {A} (m : M A) : Prop :=
  forall w r w', m w = (r, w') -> w_fs w' = w_fs w /\ w_db w' = w_db w.

Definition isIoError (e : Error) : Prop := exists op p, e = ErrIo op p.

(** The environment stops the process at some point but makes no call fail. *)
Definition crashOnly (faults : list Fault) : Prop := Forall (fun f => f <> FThrow) faults.

(** Two byte strings that are the same envelope up to nonce, tag and
    ciphertext: both too short to be one, or both long enough and with the
    same 37 header bytes. *)
Definition envelopeAlike (d1 d2 : bytes) : Prop :=
  (length d1 < 65 /\ length d2 < 65) \/
  (65 <= length d1 /\ 65 <= length d2 /\ take 37 d1 = take 37 d2).

Definition nodeAlike (n1 n2 : option Node) : Prop :=
  match n1, n2 with
  | None, None => True
  | Some NDir, Some NDir => True
  | Some (NFile d1), Some (NFile d2) => envelopeAlike d1 d2
  | _, _ => False
  end.

(** A passphrase that passes the length check of [unlockVault]. *)
Definition acceptablePassphrase (passphrase : PassArg) : Prop :=
  exists s, passphrase = PStr s /\ MIN_PASSPHRASE_LEN <= length s.

Section DiskSpec.
Context `{HostEnv}.

Definition dbBakPath : Path := pathSuffix dbEncPath ".bak".
Definition dbTmpPath : Path := pathSuffix dbEncPath ".tmp".

(** Two disks whose envelope and backup files are alike. *)
Definition disksAlike (f1 f2 : gmap Path Node) : Prop :=
  nodeAlike (f1 !! dbEncPath) (f2 !! dbEncPath) /\
  nodeAlike (f1 !! dbBakPath) (f2 !! dbBakPath).

(** What [listEncryptedDbCandidates] finds on a disk. *)
Definition candidatesOf (disk : gmap Path Node) : list Candidate :=
  (if bool_decide (is_Some (disk !! dbEncPath))
   then [{| dbPath := dbEncPath; userDataRoot := userData;
            source := SrcCurrent; isBackup := false |}] else [])
  ++ (if bool_decide (is_Some (disk !! dbBakPath))
      then [{| dbPath := dbBakPath; userDataRoot := userData;
               source := SrcCurrent; isBackup := true |}] else []).

(** The database file of a disk, in the order [getDatabaseFileStatus]
    looks for it: the envelope, else its backup, else the plaintext
    database. *)
Definition databaseFileOn (disk : gmap Path Node) : Path :=
  if bool_decide (is_Some (disk !! dbEncPath)) then dbEncPath
  else if bool_decide (is_Some (disk !! dbBakPath)) then dbBakPath
  else dbPlainPath.

(** The process as it is after a restart over the disk that was left. *)
Definition restart (w : World) : World :=
  {| w_fs := w_fs w; w_faults := []; w_tape := w_tape w; w_now := w_now w;
     w_db := None; w_locked := true; w_vault := None;
     w_tempOpenFiles := []; w_console := [] |}.

End DiskSpec.

Section UnlockSpec.
Context `{NodeCrypto} `{HostEnv}.

(** One turn of the loop of [openFirstCandidate]. *)
Definition tryCandidate (passphrase : PassArg) (candidate : Candidate)
    : M (Opened * Candidate + Error) :=
  tryCatch
    (envelope ← readFileSync (dbPath candidate);
     opened ← liftRes (openVaultFromDatabaseEnvelope envelope passphrase);
     pure (inl (opened, candidate)))
    (fun error => pure (inr error)).

(** What reading the envelope back and opening it with the passphrase meets
    in a world: the error of the read (refused by the environment, or nothing
    or a directory at the envelope path), the error of opening what was
    read, or none. *)
Definition readBackError (passphrase : PassArg) (w : World) : option Error :=
  match w_faults w with
  | FThrow :: _ => Some (ErrIo OpRead dbEncPath)
  | _ =>
      match w_fs w !! dbEncPath with
      | Some (NFile written) =>
          match openVaultFromDatabaseEnvelope written passphrase with
          | ROk _ => None
          | RErr e => Some e
          end
      | _ => Some (ErrIo OpRead dbEncPath)
      end
  end.

(** The environment stops the process at the next file-system call. *)
Definition haltsNext (w : World) : Prop := head (w_faults w) = Some FHalt.

(** Same schedule, alike envelope files. *)
Definition worldsAlike (w1 w2 : World) : Prop :=
  w_faults w1 = w_faults w2 /\ disksAlike (w_fs w1) (w_fs w2).

End UnlockSpec.

(** A source that attachments:add passes over: nothing at the path, not a
    regular file, or more than 1 GiB. *)
Definition rejectedSource (disk : gmap Path Node) (p : Path) : Prop :=
  match disk !! p with
  | None => True
  | Some n => isFile n = false \/ (MAX_ATTACHMENT_BYTES < fileSize n)%Z
  end.

(** A change of the disk that, outside [S], leaves every path as it was or
    puts a directory where there was nothing. *)
Definition addsDirsOutside (S : Path -> Prop) (disk disk' : gmap Path Node) : Prop :=
  forall q, ~ S q ->
    disk' !! q = disk !! q \/ (disk !! q = None /\ disk' !! q = Some NDir).

(** [m] changes the disk in that way only. *)
Definition Extends {A} (S : Path -> Prop) (m : M A) : Prop :=
  forall w r w', m w = (r, w') -> addsDirsOutside S (w_fs w) (w_fs w').

Section AttachSpec.
Context `{HostEnv}.

(** An element of the list given to attachments:add that is passed over:
    not a string, the empty string, or the path of a rejected source. *)
Definition skippedSource (disk : gmap Path Node) (sourcePath : JsVal) : Prop :=
  match sourcePath with
  | JStr s => s = "" \/ rejectedSource disk (pathResolve s)
  | _ => True
  end.

(** An attachment row that stands for one of the sources given: it carries
    the base name of a source that is, on [disk], a regular file of at most
    1 GiB whose size it records, or of a source that lies in the project's
    attachment directory [dir], where the call itself writes. *)
Definition rowOfAcceptedSource (disk : gmap Path Node) (dir : Path)
    (filePaths : list JsVal) (a : AttachmentRow) : Prop :=
  exists s,
    JStr s ∈ filePaths /\
    a_originalFileName a = basename (pathResolve s) /\
    ((exists data, disk !! pathResolve s = Some (NFile data) /\
                   a_sizeBytes a = fileSize (NFile data) /\
                   (a_sizeBytes a <= MAX_ATTACHMENT_BYTES)%Z) \/
     dir `prefix_of` pathResolve s).

End AttachSpec.

Section PersistSpec.
Context `{HostEnv}.

(** The three paths [persistDbInternal] works on: the envelope, its
    temporary file and its backup, each with whatever lies below it should a
    directory stand in its place ([renameSync] moves a directory with its
    contents). *)
Definition envelopeArea (q : Path) : Prop :=
  dbTmpPath `prefix_of` q \/ dbEncPath `prefix_of` q \/ dbBakPath `prefix_of` q.

(** Those and the attachment tree with the directories above it. *)
Definition envelopeOrAttachments (q : Path) : Prop :=
  envelopeArea q \/ q `prefix_of` attachmentsRoot \/ attachmentsRoot `prefix_of` q.

End PersistSpec.

Section CrashSpec.
Context `{NodeCrypto} `{HostEnv}.

(** After a stop inside the replacement of the envelope: the old envelope is
    still in its place, or it is in the backup while its place is empty or
    holds the complete new envelope. *)
Definition recoverable (old new : bytes) (disk : gmap Path Node) : Prop :=
  disk !! dbEncPath = Some (NFile old) \/
  (disk !! dbEncPath = None /\ disk !! dbBakPath = Some (NFile old)) \/
  (disk !! dbEncPath = Some (NFile new) /\ disk !! dbBakPath = Some (NFile old)).

End CrashSpec.

Section RestoreSpec.
Context `{NodeCrypto} `{HostEnv}.

(** The first [try] of [restoreFromBackupFolder]: the safety snapshot, whose
    failure is logged and leaves the identifier null. *)
Definition preRestoreSnapshot (reason : string) : M (option string) :=
  tryCatch (snapshot ← createLocalSnapshot ("pre-restore:" +:+ reason);
            pure (Some (si_id snapshot)))
           (fun error => consoleError error;; pure None).

(** What [restoreFromBackupFolder] does after it: the vault is locked, the
    current database files are removed, the backup is copied in and the
    attachment tree is replaced. *)
Definition restoreReplace (backupDir : Path) (src : BackupSource)
    (preRestoreSnapshotId : option string) : M RestoreResult :=
  tryCatch (lockVault;; pure tt) (fun error => consoleError error);;
  tryCatch (e ← existsSync dbEncPath;
            if (e : bool) then unlinkSync dbEncPath else pure tt)
           (fun _ => pure tt);;
  tryCatch (e ← existsSync dbPlainPath;
            if (e : bool) then unlinkSync dbPlainPath else pure tt)
           (fun _ => pure tt);;
  let dbTargetPath := if restoreToEncrypted src then dbEncPath else dbPlainPath in
  copyFileSync (dbSourcePath src) dbTargetPath;;
  let attachmentSource := backupDir ++ ["attachments"] in
  let attachmentTarget := attachmentsRoot in
  e ← existsSync attachmentTarget;
  (if (e : bool) then rmSync attachmentTarget else pure tt);;
  restoredAttachments ← copyDirRecursive attachmentSource attachmentTarget;
  existingMeta ← tryCatch (e ← existsSync backupMetaPath;
                           if (e : bool)
                           then raw ← readFileSync backupMetaPath; pure (Some raw)
                           else pure None)
                          (fun _ => pure None);
  now ← nowIso;
  writeFileSync backupMetaPath (backupMetaJson existingMeta now backupDir);;
  pure (RestoreOk restoredAttachments preRestoreSnapshotId).

(** Where a snapshot writes: the envelope paths, through the persist it
    starts with, and the snapshot tree with the directories above it. *)
Definition snapshotArea (q : Path) : Prop :=
  envelopeArea q \/ q `prefix_of` snapshotsRoot \/ snapshotsRoot `prefix_of` q.

(** The manifest of a snapshot, as found on a disk. *)
Definition manifestOnDisk (disk : gmap Path Node) (id reason : string) : Prop :=
  exists m, m_snapshotId m = id /\ m_reason m = reason /\
    disk !! (snapshotsRoot ++ [id; "manifest.json"]) = Some (NFile (manifestJson m)).

End RestoreSpec.

(** The session state of the process: the in-memory database, the lock and
    the key material. *)
Definition session (w : World) : option Db * bool * option Vault :=
  (w_db w, w_locked w, w_vault w).

(** [m] leaves the part [f] of the world as it found it. *)
Definition Preserves {X A} (f : World -> X) (m : M A) : Prop :=
  forall w r w', m w = (r, w') -> f w' = f w.

(** [m] leaves the session state as it found it. *)
Definition KeepsSession {A} (m : M A) : Prop := Preserves session m.

(** [m] keeps the property [P] of the world once it holds. *)
Definition Maintains {A} (P : World -> Prop) (m : M A) : Prop :=
  forall w r w', P w -> m w = (r, w') -> P w'.

(** The session is open under the key material [v]: unlocked, with [v] and
    a database in memory. *)
Definition openUnder (v : Vault) (w : World) : Prop :=
  w_locked w = false /\ w_vault w = Some v /\ is_Some (w_db w).

(** * Properties *)

(** Splitting a list whose length is known into explicit cells. *)
Tactic Notation "explode_list" ident(l) integer(n) :=
  do n (destruct l as [|? l]; [simpl in *; lia|]).

(** ** Codec lemmas *)

Lemma zOfByte_range (b : byte) : (0 <= zOfByte b < 256)%Z.
Proof.
  unfold zOfByte. pose proof (Byte.to_N_bounded b). lia.
Qed.

Lemma byteOfZ_zOfByte (b : byte) : byteOfZ (zOfByte b) = b.
Proof.
  unfold byteOfZ, zOfByte.
  rewrite Z.mod_small by (pose proof (Byte.to_N_bounded b); lia).
  rewrite N2Z.id, Byte.of_to_N. reflexivity.
Qed.

Lemma zOfByte_byteOfZ (z : Z) : zOfByte (byteOfZ z) = (z mod 256)%Z.
Proof.
  unfold byteOfZ, zOfByte.
  pose proof (Z.mod_pos_bound z 256 ltac:(lia)) as Hb.
  destruct (Byte.of_N (Z.to_N (z mod 256))) as [b|] eqn:E.
  - apply Byte.to_of_N in E. simpl. rewrite E. lia.
  - apply Byte.of_N_None_iff in E. lia.
Qed.

Lemma byteOfZ_mod (z : Z) : byteOfZ (z mod 256) = byteOfZ z.
Proof. unfold byteOfZ. rewrite Z.mod_mod by lia. reflexivity. Qed.

Lemma byteOfZ_shift (a z : Z) : byteOfZ (a * 256 + z) = byteOfZ z.
Proof.
  unfold byteOfZ. rewrite Z.add_comm, Z.mod_add by lia. reflexivity.
Qed.

Lemma u32_length (v : Z) : length (u32 v) = 4.
Proof. reflexivity. Qed.

(** Reading back a field written by [u32] gives the value modulo 2^32. *)
Lemma readU32_u32 (pre post : bytes) (v : Z) :
  readU32 (pre ++ u32 v ++ post) (length pre) = ROk (v mod 2 ^ 32)%Z.
Proof.
  unfold readU32. rewrite drop_app_length. unfold u32. cbn [app].
  f_equal. rewrite !zOfByte_byteOfZ.
  set (w := (v mod 2 ^ 32)%Z).
  assert (0 <= w < 2 ^ 32)%Z as Hw by (apply Z.mod_pos_bound; lia).
  change (2 ^ 24)%Z with (2 ^ 8 * 2 ^ 8 * 2 ^ 8)%Z.
  change (2 ^ 16)%Z with (2 ^ 8 * 2 ^ 8)%Z.
  change (2 ^ 8)%Z with 256%Z in *.
  rewrite <- !Z.div_div by lia.
  assert (w / 256 / 256 / 256 < 256)%Z as Htop.
  { repeat (apply Z.div_lt_upper_bound; [lia|]). lia. }
  assert (0 <= w / 256 / 256 / 256)%Z by (repeat apply Z.div_pos; lia).
  rewrite (Z.mod_small (w / 256 / 256 / 256)) by lia.
  pose proof (Z.div_mod w 256 ltac:(lia)).
  pose proof (Z.div_mod (w / 256) 256 ltac:(lia)).
  pose proof (Z.div_mod (w / 256 / 256) 256 ltac:(lia)).
  lia.
Qed.

Lemma u32_of_bytes (b0 b1 b2 b3 : byte) :
  u32 (((zOfByte b0 * 256 + zOfByte b1) * 256 + zOfByte b2) * 256 + zOfByte b3)
  = [b0; b1; b2; b3].
Proof.
  pose proof (zOfByte_range b0). pose proof (zOfByte_range b1).
  pose proof (zOfByte_range b2). pose proof (zOfByte_range b3).
  unfold u32.
  set (v := (((zOfByte b0 * 256 + zOfByte b1) * 256 + zOfByte b2) * 256 + zOfByte b3)%Z).
  assert (v mod 2 ^ 32 = v)%Z as -> by (apply Z.mod_small; subst v; lia).
  assert (v / 2 ^ 8 = (zOfByte b0 * 256 + zOfByte b1) * 256 + zOfByte b2)%Z as ->.
  { symmetry. apply (Z.div_unique_pos v (2 ^ 8) _ (zOfByte b3)); subst v; lia. }
  assert (v / 2 ^ 16 = zOfByte b0 * 256 + zOfByte b1)%Z as ->.
  { symmetry.
    apply (Z.div_unique_pos v (2 ^ 16) _ (zOfByte b2 * 256 + zOfByte b3)); subst v; lia. }
  assert (v / 2 ^ 24 = zOfByte b0)%Z as ->.
  { symmetry.
    apply (Z.div_unique_pos v (2 ^ 24) _
             ((zOfByte b1 * 256 + zOfByte b2) * 256 + zOfByte b3)); subst v; lia. }
  subst v. rewrite !byteOfZ_shift, !byteOfZ_zOfByte. reflexivity.
Qed.


Section CodecFacts.
Context `{NodeCrypto}.


Lemma buildDbHeader_aad params salt iv :
    buildDbHeader params salt iv = dbAad params salt ++ iv.
  Proof. unfold buildDbHeader, dbAad. rewrite <- !app_assoc. reflexivity. Qed.

Lemma dbAad_length params salt : length (dbAad params salt) = 21 + length salt.
  Proof. unfold dbAad. rewrite !length_app. reflexivity. Qed.

Lemma subarray_all_but (x y : bytes) :
    subarray (x ++ y) 0 (length (x ++ y) - length y) = x.
  Proof.
    unfold subarray. rewrite length_app, drop_0.
    replace (length x + length y - length y - 0) with (length x) by lia.
    apply take_app_length.
  Qed.


Lemma open_too_small buf passphrase :
    length buf < 65 -> openVaultFromDatabaseEnvelope buf passphrase = RErr ErrDbTooSmall.
  Proof.
    intros Hlen. unfold openVaultFromDatabaseEnvelope.
    change (length DB_MAGIC + 1 + 12 + SALT_LEN + IV_LEN + TAG_LEN) with 65.
    destruct (Nat.ltb_spec (length buf) 65); [reflexivity | lia].
  Qed.

Lemma open_parts buf passphrase :
    65 <= length buf ->
    openVaultFromDatabaseEnvelope buf passphrase
    = openParts (take 37 buf) (subarray buf 37 49) (subarray buf 49 65)
        (drop 65 buf) passphrase.
  Proof.
    intros Hlen. unfold openVaultFromDatabaseEnvelope.
    change (length DB_MAGIC + 1 + 12 + SALT_LEN + IV_LEN + TAG_LEN) with 65.
    destruct (Nat.ltb_spec (length buf) 65); [lia|].
    unfold openParts.
    assert (subarray buf 37 49 = take 12 (drop 37 buf)) as -> by reflexivity.
    assert (subarray buf 49 65 = take 16 (drop 12 (drop 37 buf))) as ->
      by (unfold subarray; rewrite drop_drop; reflexivity).
    assert (drop 65 buf = drop 16 (drop 12 (drop 37 buf))) as ->
      by (rewrite !drop_drop; reflexivity).
    pose proof (take_drop 37 buf) as Hsplit.
    assert (length (take 37 buf) = 37) as Hh by (rewrite length_take; lia).
    set (hdr := take 37 buf) in *. set (tail := drop 37 buf) in *.
    clearbody hdr tail. subst buf.
    explode_list hdr 37. destruct hdr; [|simpl in Hh; lia].
    cbn [length DB_MAGIC SALT_LEN IV_LEN TAG_LEN Nat.add subarray Nat.sub drop take app].
    case_bool_decide as Hm; [|reflexivity].
    cbn [negb]. unfold readUInt8. cbn [lookup list_lookup mbind res_bind].
    case_bool_decide as Hv; [|reflexivity].
    cbn [negb]. unfold readU32. cbn [drop mbind res_bind].
    unfold buildDbHeader. cbn [spN spR spP].
    rewrite !u32_of_bytes.
    injection Hm as -> -> -> -> -> -> -> ->. subst.
    reflexivity.
  Qed.

End CodecFacts.

Lemma subarray_app_mid (a b c : bytes) (n m : nat) :
  length a = n -> length b = m - n -> subarray (a ++ b ++ c) n m = b.
Proof.
  intros Ha Hb. unfold subarray.
  rewrite drop_app_length' by (symmetry; exact Ha).
  rewrite take_app_length' by (symmetry; exact Hb). reflexivity.
Qed.


Section RoundTrip.
Context `{NodeCrypto}.

Lemma derive_dbKey_length passphrase salt params v :
    deriveKeysFromPassphrase passphrase salt params = ROk v ->
    length (dbKey v) = 32 /\ length (fileKey v) = 32 /\
    kdfSalt v = salt /\ kdfParams v = params.
  Proof.
    unfold deriveKeysFromPassphrase. intros Hd.
    destruct (scryptSync _ _ _ _ _ _ _) as [mk|e]; [|discriminate].
    cbn in Hd. injection Hd as <-. cbn.
    unfold hkdfSubkey. rewrite !hkdf_length. auto.
  Qed.

Lemma seal_db_shape plaintext v g :
    length (dbKey v) = 32 ->
    exists ct tag,
      gcmEncrypt (dbKey v) (randomBytes IV_LEN g)
        (dbAad (kdfParams v) (kdfSalt v)) plaintext = ROk (ct, tag) /\
      length ct = length plaintext /\ length tag = 16 /\
      gcmDecrypt (dbKey v) (randomBytes IV_LEN g) tag ct
        (dbAad (kdfParams v) (kdfSalt v)) = ROk plaintext /\
      sealDatabaseBytes plaintext (Some v) g
      = ROk (dbAad (kdfParams v) (kdfSalt v) ++ randomBytes IV_LEN g ++ tag ++ ct).
  Proof.
    intros Hk.
    destruct (gcm_encrypt_decrypt (dbKey v) (randomBytes IV_LEN g)
                (dbAad (kdfParams v) (kdfSalt v)) plaintext Hk
                (random_length _ _)) as (ct & tg & He & Hc & Ht & Hd).
    exists ct, tg. repeat split; try assumption.
    unfold sealDatabaseBytes, aesGcmEncrypt.
    rewrite buildDbHeader_aad.
    assert (length (alloc IV_LEN) = IV_LEN) as Hz by apply length_replicate.
    rewrite <- Hz at 2. rewrite subarray_all_but.
    rewrite He. cbn [mbind res_bind iv tag ciphertext].
    rewrite buildDbHeader_aad, <- app_assoc. reflexivity.
  Qed.

Lemma openParts_sealed passphrase salt params v iv tag ct plaintext :
    deriveKeysFromPassphrase passphrase salt params = ROk v ->
    validParams params ->
    gcmDecrypt (dbKey v) iv tag ct (dbAad params salt) = ROk plaintext ->
    openParts (dbAad params salt) iv tag ct passphrase
    = ROk {| plaintext := plaintext; vault := v |}.
  Proof.
    intros Hd (Hn & Hr & Hp) Hdec. unfold openParts.
    assert (take 8 (dbAad params salt) = DB_MAGIC) as -> by reflexivity.
    rewrite bool_decide_eq_true_2 by reflexivity. cbn [negb].
    assert (readUInt8 (dbAad params salt) 8 = ROk DB_VERSION) as -> by reflexivity.
    cbn [mbind res_bind]. rewrite bool_decide_eq_true_2 by reflexivity. cbn [negb].
    assert (readU32 (dbAad params salt) 9 = ROk (spN params)) as ->.
    { pose proof (readU32_u32 (DB_MAGIC ++ [DB_VERSION])
                    (u32 (spR params) ++ u32 (spP params) ++ salt) (spN params)) as E.
      rewrite Z.mod_small in E by apply Hn. exact E. }
    assert (readU32 (dbAad params salt) 13 = ROk (spR params)) as ->.
    { pose proof (readU32_u32 (DB_MAGIC ++ [DB_VERSION] ++ u32 (spN params))
                    (u32 (spP params) ++ salt) (spR params)) as E.
      rewrite Z.mod_small in E by apply Hr. exact E. }
    assert (readU32 (dbAad params salt) 17 = ROk (spP params)) as ->.
    { pose proof (readU32_u32
                    (DB_MAGIC ++ [DB_VERSION] ++ u32 (spN params) ++ u32 (spR params))
                    salt (spP params)) as E.
      rewrite Z.mod_small in E by apply Hp. exact E. }
    cbn [mbind res_bind].
    assert (drop 21 (dbAad params salt) = salt) as -> by reflexivity.
    destruct params as [n r p]. cbn [spN spR spP].
    rewrite Hd. cbn [mbind res_bind]. unfold aesGcmDecrypt. rewrite Hdec.
    reflexivity.
  Qed.

  (** A sealed database image opens, under the passphrase of its vault, to
      the bytes that were sealed. *)
Lemma sealed_db_opens (b : bytes) passphrase salt params v g :
    deriveKeysFromPassphrase passphrase salt params = ROk v ->
    length salt = SALT_LEN -> validParams params ->
    exists env,
      sealDatabaseBytes b (Some v) g = ROk env /\
      openVaultFromDatabaseEnvelope env passphrase
      = ROk {| plaintext := b; vault := v |}.
  Proof.
    intros Hd Hs Hp.
    destruct (derive_dbKey_length _ _ _ _ Hd) as (Hk & _ & Hsalt & Hparams).
    destruct (seal_db_shape b v g Hk) as (ct & tg & He & Hc & Ht & Hdec & Hseal).
    rewrite Hsalt, Hparams in *.
    eexists. split; [exact Hseal|].
    assert (length (dbAad params salt) = 37) as Ha by (rewrite dbAad_length, Hs; reflexivity).
    rewrite open_parts.
    2:{ rewrite !length_app, Ha, random_length, Ht. unfold IV_LEN. lia. }
    rewrite take_app_length' by (symmetry; exact Ha).
    rewrite (subarray_app_mid _ (randomBytes IV_LEN g) _ 37 49)
      by (try exact Ha; apply random_length).
    replace (dbAad params salt ++ randomBytes IV_LEN g ++ tg ++ ct)
      with ((dbAad params salt ++ randomBytes IV_LEN g) ++ tg ++ ct)
      by (rewrite <- app_assoc; reflexivity).
    rewrite (subarray_app_mid _ tg ct 49 65)
      by (rewrite ?length_app, ?Ha, ?random_length; try reflexivity; exact Ht).
    replace ((dbAad params salt ++ randomBytes IV_LEN g) ++ tg ++ ct)
      with (((dbAad params salt ++ randomBytes IV_LEN g) ++ tg) ++ ct)
      by (rewrite <- !app_assoc; reflexivity).
    rewrite drop_app_length'
      by (rewrite !length_app, Ha, random_length, Ht; reflexivity).
    apply openParts_sealed; assumption.
  Qed.

End RoundTrip.


(** ** Reasoning in the monad *)

Lemma bind_unfold {A B} (m : M A) (f : A -> M B) w :
  (m ≫= f) w = match m w with
               | (Ok a, w') => f a w'
               | (Throw e, w') => (Throw e, w')
               | (Halt, w') => (Halt, w')
               end.
Proof. reflexivity. Qed.

Lemma bind_ok {A B} (m : M A) (f : A -> M B) w a w' :
  m w = (Ok a, w') -> (m ≫= f) w = f a w'.
Proof. intros E. rewrite bind_unfold, E. reflexivity. Qed.

Lemma bind_throw {A B} (m : M A) (f : A -> M B) w e w' :
  m w = (Throw e, w') -> (m ≫= f) w = (Throw e, w').
Proof. intros E. rewrite bind_unfold, E. reflexivity. Qed.

Lemma bind_halt {A B} (m : M A) (f : A -> M B) w w' :
  m w = (Halt, w') -> (m ≫= f) w = (Halt, w').
Proof. intros E. rewrite bind_unfold, E. reflexivity. Qed.

(** Inversion of a bind on its first computation. *)
Lemma bind_inv {A B} (m : M A) (f : A -> M B) w r w' :
  (m ≫= f) w = (r, w') ->
  (exists a w1, m w = (Ok a, w1) /\ f a w1 = (r, w')) \/
  (exists e, m w = (Throw e, w') /\ r = Throw e) \/
  (m w = (Halt, w') /\ r = Halt).
Proof.
  rewrite bind_unfold. destruct (m w) as [[a|e|] w1]; intros E.
  - left. eauto.
  - right. left. injection E as <- <-. eauto.
  - right. right. injection E as <- <-. eauto.
Qed.

Lemma tryCatch_inv {A} (m : M A) (h : Error -> M A) w r w' :
  tryCatch m h w = (r, w') ->
  (exists e w1, m w = (Throw e, w1) /\ h e w1 = (r, w')) \/
  (m w = (r, w') /\ forall e, r <> Throw e).
Proof.
  unfold tryCatch. destruct (m w) as [[a|e|] w1]; intros E.
  - right. split; [exact E|]. injection E as <- <-. discriminate.
  - left. eauto.
  - right. split; [exact E|]. injection E as <- <-. discriminate.
Qed.

Lemma pair_eta_fst {A B} (p : A * B) (a : A) : fst p = a -> p = (a, snd p).
Proof. destruct p. cbn. intros ->. reflexivity. Qed.

Section MonadFacts.
Context `{NodeCrypto} `{HostEnv}.

(** *** Exceptions *)

Lemma ThrowsOnly_bind {A B} P (m : M A) (f : A -> M B) :
  ThrowsOnly P m -> (forall a, ThrowsOnly P (f a)) -> ThrowsOnly P (m ≫= f).
Proof.
  intros Hm Hf w e w' E. apply bind_inv in E as [(a & w1 & _ & E)|[(e' & E & Er)|[_ Er]]].
  - exact (Hf a w1 e w' E).
  - injection Er as ->. exact (Hm w e' w' E).
  - discriminate.
Qed.

Lemma ThrowsOnly_pure {A} P (a : A) : ThrowsOnly P (pure a).
Proof. intros w e w' E. discriminate. Qed.

Lemma ThrowsOnly_throw {A} (P : Error -> Prop) e : P e -> ThrowsOnly P (@throw A e).
Proof. intros Hp w e' w' E. injection E as <- _. exact Hp. Qed.

Lemma ThrowsOnly_gets {A} P (f : World -> A) : ThrowsOnly P (gets f).
Proof. intros w e w' E. discriminate. Qed.

Lemma ThrowsOnly_modify P f : ThrowsOnly P (modify f).
Proof. intros w e w' E. discriminate. Qed.

Lemma ThrowsOnly_tryCatch {A} P (m : M A) h :
  (forall e, ThrowsOnly P (h e)) -> ThrowsOnly P (tryCatch m h).
Proof.
  intros Hh w e w' E. apply tryCatch_inv in E as [(e' & w1 & _ & E)|[_ Hn]].
  - exact (Hh e' w1 e w' E).
  - exfalso. exact (Hn e eq_refl).
Qed.

Lemma ThrowsOnly_weaken {A} (P Q : Error -> Prop) (m : M A) :
  (forall e, P e -> Q e) -> ThrowsOnly P m -> ThrowsOnly Q m.
Proof. intros HPQ Hm w e w' E. apply HPQ. exact (Hm w e w' E). Qed.

Lemma ThrowsOnly_drawTape P : ThrowsOnly P drawTape.
Proof. intros w e w' E. discriminate. Qed.

Lemma ThrowsOnly_consoleError P e : ThrowsOnly P (consoleError e).
Proof. apply ThrowsOnly_modify. Qed.


Lemma persistDb_never_throws P : ThrowsOnly P persistDb.
Proof.
  apply ThrowsOnly_tryCatch. intros e. apply ThrowsOnly_consoleError.
Qed.

Lemma ThrowsOnly_foldM {A B} P (body : B -> A -> M B) xs :
  (forall acc x, ThrowsOnly P (body acc x)) ->
  forall acc, ThrowsOnly P (foldM body acc xs).
Proof.
  intros Hb. induction xs as [|x xs IH]; intros acc; cbn [foldM].
  - apply ThrowsOnly_pure.
  - apply ThrowsOnly_bind; [apply Hb | intros a; apply IH].
Qed.

End MonadFacts.

(** Inversion of a run that returned, at its first bind. *)
Ltac ok_inv E :=
  let a := fresh "a" in
  let w1 := fresh "w" in
  let E1 := fresh "E" in
  apply bind_inv in E as [(a & w1 & E1 & E)|[(? & _ & ?)|[_ ?]]];
  [|discriminate|discriminate].



(** ** Runs of the file-system calls *)

Section Runs.
Context `{NodeCrypto} `{HostEnv}.

Lemma fsGuard_outcome op p w r w1 :
  fsGuard op p w = (r, w1) ->
  w_fs w1 = w_fs w /\ (r = Ok tt \/ r = Throw (ErrIo op p) \/ r = Halt).
Proof.
  unfold fsGuard. intros E.
  destruct (w_faults w) as [|[| |] rest]; injection E as <- <-; auto.
Qed.

Lemma fsGuard_free op p w : w_faults w = [] -> fsGuard op p w = (Ok tt, w).
Proof. intros E. unfold fsGuard. rewrite E. reflexivity. Qed.

Lemma ThrowsOnly_fsGuard op p : ThrowsOnly isIoError (fsGuard op p).
Proof.
  intros w e w' E. destruct (fsGuard_outcome _ _ _ _ _ E) as (_ & [?|[?|?]]);
    try discriminate. injection H1 as ->. eexists _, _. reflexivity.
Qed.

Lemma ThrowsOnly_io_throw {A} op p : ThrowsOnly isIoError (@throw A (ErrIo op p)).
Proof. apply ThrowsOnly_throw. eexists _, _. reflexivity. Qed.

Lemma ThrowsOnly_statSync p : ThrowsOnly isIoError (statSync p).
Proof.
  unfold statSync. apply ThrowsOnly_bind; [apply ThrowsOnly_fsGuard|intros _].
  apply ThrowsOnly_bind; [apply ThrowsOnly_gets|intros [n|]];
    [apply ThrowsOnly_pure | apply ThrowsOnly_io_throw].
Qed.

Lemma ThrowsOnly_readFileSync p : ThrowsOnly isIoError (readFileSync p).
Proof.
  unfold readFileSync. apply ThrowsOnly_bind; [apply ThrowsOnly_fsGuard|intros _].
  apply ThrowsOnly_bind; [apply ThrowsOnly_gets|intros [[d|]|]];
    first [apply ThrowsOnly_pure | apply ThrowsOnly_io_throw].
Qed.

Lemma ThrowsOnly_writeFileSync p d : ThrowsOnly isIoError (writeFileSync p d).
Proof.
  unfold writeFileSync. apply ThrowsOnly_bind; [apply ThrowsOnly_fsGuard|intros _].
  apply ThrowsOnly_bind; [apply ThrowsOnly_gets|intros [[x|]|]];
    first [apply ThrowsOnly_modify | apply ThrowsOnly_io_throw].
Qed.

Lemma ThrowsOnly_unlinkSync p : ThrowsOnly isIoError (unlinkSync p).
Proof.
  unfold unlinkSync. apply ThrowsOnly_bind; [apply ThrowsOnly_fsGuard|intros _].
  apply ThrowsOnly_bind; [apply ThrowsOnly_gets|intros [[x|]|]];
    first [apply ThrowsOnly_modify | apply ThrowsOnly_io_throw].
Qed.

Lemma ThrowsOnly_renameSync src dst : ThrowsOnly isIoError (renameSync src dst).
Proof.
  unfold renameSync. apply ThrowsOnly_bind; [apply ThrowsOnly_fsGuard|intros _].
  apply ThrowsOnly_bind; [apply ThrowsOnly_gets|intros [[x|]|]];
    (apply ThrowsOnly_bind; [apply ThrowsOnly_gets|intros [[y|]|]]);
    try first [apply ThrowsOnly_modify | apply ThrowsOnly_io_throw];
    (destruct (bool_decide (src = dst)); [apply ThrowsOnly_pure|]);
    (apply ThrowsOnly_bind; [apply ThrowsOnly_gets|intros occupied]);
    (destruct (isBelow src dst || occupied);
       [apply ThrowsOnly_io_throw | apply ThrowsOnly_modify]).
Qed.

Lemma ThrowsOnly_copyFileSync src dst : ThrowsOnly isIoError (copyFileSync src dst).
Proof.
  unfold copyFileSync. apply ThrowsOnly_bind; [apply ThrowsOnly_fsGuard|intros _].
  apply ThrowsOnly_bind; [apply ThrowsOnly_gets|intros [[x|]|]];
    (apply ThrowsOnly_bind; [apply ThrowsOnly_gets|intros [[y|]|]]);
    first [apply ThrowsOnly_modify | apply ThrowsOnly_io_throw].
Qed.

Lemma ThrowsOnly_mkdirSync p : ThrowsOnly isIoError (mkdirSync p).
Proof.
  unfold mkdirSync. apply ThrowsOnly_bind; [apply ThrowsOnly_fsGuard|intros _].
  apply ThrowsOnly_bind; [apply ThrowsOnly_gets|intros [|]];
    first [apply ThrowsOnly_modify | apply ThrowsOnly_io_throw].
Qed.

Lemma ThrowsOnly_rmSync p : ThrowsOnly isIoError (rmSync p).
Proof.
  unfold rmSync. apply ThrowsOnly_bind; [apply ThrowsOnly_fsGuard|intros _].
  apply ThrowsOnly_modify.
Qed.

(** *** What a call that returned has done *)

Lemma statSync_ok p w n w1 :
  statSync p w = (Ok n, w1) -> w_fs w1 = w_fs w /\ w_fs w !! p = Some n.
Proof.
  unfold statSync. intros E.
  apply bind_inv in E as [([] & wg & G & E)|[(? & _ & ?)|[_ ?]]]; try discriminate.
  destruct (fsGuard_outcome _ _ _ _ _ G) as [Hfs _].
  rewrite bind_unfold in E. unfold gets at 1 in E. rewrite Hfs in E.
  destruct (w_fs w !! p) as [x|]; [|discriminate].
  injection E as <- <-. auto.
Qed.

Lemma readFileSync_ok p w d w1 :
  readFileSync p w = (Ok d, w1) -> w_fs w1 = w_fs w /\ w_fs w !! p = Some (NFile d).
Proof.
  unfold readFileSync. intros E.
  apply bind_inv in E as [([] & wg & G & E)|[(? & _ & ?)|[_ ?]]]; try discriminate.
  destruct (fsGuard_outcome _ _ _ _ _ G) as [Hfs _].
  rewrite bind_unfold in E. unfold gets at 1 in E. rewrite Hfs in E.
  destruct (w_fs w !! p) as [[x|]|]; try discriminate.
  injection E as <- <-. auto.
Qed.

Lemma writeFileSync_ok p d w w' :
  writeFileSync p d w = (Ok tt, w') -> w_fs w' = <[p := NFile d]> (w_fs w).
Proof.
  unfold writeFileSync. intros E.
  apply bind_inv in E as [([] & w1 & G & E)|[(? & _ & ?)|[_ ?]]]; try discriminate.
  destruct (fsGuard_outcome _ _ _ _ _ G) as [Hfs _].
  rewrite bind_unfold in E. unfold gets at 1 in E.
  destruct (w_fs w1 !! p) as [[x|]|]; try discriminate;
    injection E as <-; cbn [w_fs setFs]; rewrite Hfs; reflexivity.
Qed.

Lemma unlinkSync_ok p w w' :
  unlinkSync p w = (Ok tt, w') ->
  w_fs w' = delete p (w_fs w) /\ exists x, w_fs w !! p = Some (NFile x).
Proof.
  unfold unlinkSync. intros E.
  apply bind_inv in E as [([] & w1 & G & E)|[(? & _ & ?)|[_ ?]]]; try discriminate.
  destruct (fsGuard_outcome _ _ _ _ _ G) as [Hfs _].
  rewrite bind_unfold in E. unfold gets at 1 in E. rewrite Hfs in E.
  destruct (w_fs w !! p) as [[x|]|]; try discriminate.
  injection E as <-. cbn [w_fs setFs]. rewrite Hfs. eauto.
Qed.

(** The rename of a regular file. *)
Lemma renameSync_file src dst w x :
  w_fs w !! src = Some (NFile x) ->
  renameSync src dst w
  = (fsGuard OpRename src;;
     target ← gets (fun w => w_fs w !! dst);
     match target with
     | Some NDir => throw (ErrIo OpRename src)
     | _ => modify (fun w => setFs (<[dst := NFile x]> (delete src (w_fs w))) w)
     end) w.
Proof.
  intros Hx. unfold renameSync. rewrite !bind_unfold. unfold fsGuard.
  destruct (w_faults w) as [|[| |] rest]; try reflexivity;
    rewrite !bind_unfold; unfold gets at 1 2 3; cbn [w_fs setFaults]; rewrite Hx;
    destruct (w_fs w !! dst) as [[y|]|]; reflexivity.
Qed.

Lemma renameSync_ok src dst w w' x :
  w_fs w !! src = Some (NFile x) ->
  renameSync src dst w = (Ok tt, w') ->
  w_fs w' = <[dst := NFile x]> (delete src (w_fs w)).
Proof.
  intros Hx E. rewrite (renameSync_file _ _ _ _ Hx) in E.
  apply bind_inv in E as [([] & w1 & G & E)|[(? & _ & ?)|[_ ?]]]; try discriminate.
  destruct (fsGuard_outcome _ _ _ _ _ G) as [Hfs _].
  rewrite bind_unfold in E. unfold gets at 1 in E.
  destruct (w_fs w1 !! dst) as [[y|]|]; try discriminate;
    injection E as <-; cbn [w_fs setFs]; rewrite Hfs; reflexivity.
Qed.

Lemma copyFileSync_ok src dst w w' :
  copyFileSync src dst w = (Ok tt, w') ->
  exists x, w_fs w !! src = Some (NFile x) /\ w_fs w' = <[dst := NFile x]> (w_fs w).
Proof.
  unfold copyFileSync. intros E.
  apply bind_inv in E as [([] & w1 & G & E)|[(? & _ & ?)|[_ ?]]]; try discriminate.
  destruct (fsGuard_outcome _ _ _ _ _ G) as [Hfs _].
  rewrite bind_unfold in E. unfold gets at 1 in E. rewrite Hfs in E.
  destruct (w_fs w !! src) as [[x|]|]; try discriminate.
  rewrite bind_unfold in E. unfold gets at 1 in E.
  destruct (w_fs w1 !! dst) as [[y|]|]; try discriminate;
    injection E as <-; exists x; (split; [reflexivity|]);
    cbn [w_fs setFs]; rewrite Hfs; reflexivity.
Qed.

Lemma statSync_outcome p w r w1 :
  statSync p w = (r, w1) ->
  w_fs w1 = w_fs w /\
  match r with
  | Ok n => w_fs w !! p = Some n
  | Throw e => e = ErrIo OpStat p
  | Halt => True
  end.
Proof.
  unfold statSync. intros E.
  apply bind_inv in E as [([] & wg & G & E)|[(e & G & ->)|[G ->]]];
    destruct (fsGuard_outcome _ _ _ _ _ G) as [Hfs Hr].
  - rewrite bind_unfold in E. unfold gets at 1 in E. rewrite Hfs in E.
    destruct (w_fs w !! p) as [x|]; injection E as <- <-; auto.
  - split; [exact Hfs|]. destruct Hr as [?|[?|?]]; congruence.
  - auto.
Qed.

Lemma readFileSync_outcome p w r w1 :
  readFileSync p w = (r, w1) ->
  w_fs w1 = w_fs w /\
  match r with
  | Ok d => w_fs w !! p = Some (NFile d)
  | Throw e => e = ErrIo OpRead p
  | Halt => True
  end.
Proof.
  unfold readFileSync. intros E.
  apply bind_inv in E as [([] & wg & G & E)|[(e & G & ->)|[G ->]]];
    destruct (fsGuard_outcome _ _ _ _ _ G) as [Hfs Hr].
  - rewrite bind_unfold in E. unfold gets at 1 in E. rewrite Hfs in E.
    destruct (w_fs w !! p) as [[x|]|]; injection E as <- <-; auto.
  - split; [exact Hfs|]. destruct Hr as [?|[?|?]]; congruence.
  - auto.
Qed.

Lemma writeFileSync_lookup p d w w' :
  writeFileSync p d w = (Ok tt, w') -> w_fs w' !! p = Some (NFile d).
Proof. intros E. rewrite (writeFileSync_ok _ _ _ _ E). apply lookup_insert_eq. Qed.

Lemma renameSync_lookup src dst w w' x :
  w_fs w !! src = Some (NFile x) ->
  renameSync src dst w = (Ok tt, w') -> w_fs w' !! dst = Some (NFile x).
Proof.
  intros Hx E. rewrite (renameSync_ok _ _ _ _ _ Hx E). apply lookup_insert_eq.
Qed.

End Runs.


(** ** What a computation may change on disk *)

Section TouchesFacts.
Context `{NodeCrypto} `{HostEnv}.

Lemma Touches_weaken {A} (S S' : Path -> Prop) (m : M A) :
  (forall q, S q -> S' q) -> Touches S m -> Touches S' m.
Proof. intros HS Hm w r w' q E Hq. apply (Hm w r w' q E). intros Hs. exact (Hq (HS q Hs)). Qed.

Lemma Touches_bind {A B} S (m : M A) (f : A -> M B) :
  Touches S m -> (forall a, Touches S (f a)) -> Touches S (m ≫= f).
Proof.
  intros Hm Hf w r w' q E Hq.
  apply bind_inv in E as [(a & w1 & E1 & E2)|[(e & E1 & _)|[E1 _]]].
  - rewrite (Hf a w1 r w' q E2 Hq). exact (Hm w _ w1 q E1 Hq).
  - exact (Hm w _ w' q E1 Hq).
  - exact (Hm w _ w' q E1 Hq).
Qed.

Lemma Touches_tryCatch {A} S (m : M A) h :
  Touches S m -> (forall e, Touches S (h e)) -> Touches S (tryCatch m h).
Proof.
  intros Hm Hh w r w' q E Hq.
  apply tryCatch_inv in E as [(e & w1 & E1 & E2)|[E1 _]].
  - rewrite (Hh e w1 r w' q E2 Hq). exact (Hm w _ w1 q E1 Hq).
  - exact (Hm w _ w' q E1 Hq).
Qed.

Lemma Touches_pure {A} S (a : A) : Touches S (pure a).
Proof. intros w r w' q [= <- <-] _. reflexivity. Qed.

Lemma Touches_throw {A} S e : Touches S (@throw A e).
Proof. intros w r w' q [= <- <-] _. reflexivity. Qed.

Lemma Touches_gets {A} S (f : World -> A) : Touches S (gets f).
Proof. intros w r w' q [= <- <-] _. reflexivity. Qed.

Lemma Touches_modify S f : (forall w, w_fs (f w) = w_fs w) -> Touches S (modify f).
Proof. intros Hf w r w' q [= <- <-] _. rewrite Hf. reflexivity. Qed.

Lemma Touches_liftRes {A} S (r : res A) : Touches S (liftRes r).
Proof. destruct r; [apply Touches_pure | apply Touches_throw]. Qed.

Lemma Touches_drawTape S : Touches S drawTape.
Proof. intros w r w' q [= <- <-] _. reflexivity. Qed.

Lemma Touches_consoleError S e : Touches S (consoleError e).
Proof. apply Touches_modify. reflexivity. Qed.

Lemma Touches_fsGuard S op p : Touches S (fsGuard op p).
Proof.
  intros w r w' q E _. unfold fsGuard in E.
  destruct (w_faults w) as [|[| |] rest]; injection E as <- <-; reflexivity.
Qed.

Lemma Touches_foldM {A B} S (body : B -> A -> M B) xs :
  (forall acc x, Touches S (body acc x)) -> forall acc, Touches S (foldM body acc xs).
Proof.
  intros Hb. induction xs as [|x xs IH]; intros acc; cbn [foldM].
  - apply Touches_pure.
  - apply Touches_bind; [apply Hb | intros a; apply IH].
Qed.

Lemma Touches_existsSync S p : Touches S (existsSync p).
Proof. apply Touches_gets. Qed.

Lemma Touches_statSync S p : Touches S (statSync p).
Proof.
  unfold statSync. apply Touches_bind; [apply Touches_fsGuard|intros _].
  apply Touches_bind; [apply Touches_gets|intros [n|]];
    [apply Touches_pure | apply Touches_throw].
Qed.

Lemma Touches_readFileSync S p : Touches S (readFileSync p).
Proof.
  unfold readFileSync. apply Touches_bind; [apply Touches_fsGuard|intros _].
  apply Touches_bind; [apply Touches_gets|intros [[d|]|]];
    first [apply Touches_pure | apply Touches_throw].
Qed.

Lemma Touches_insert S p n :
  S p -> Touches S (modify (fun w => setFs (<[p := n]> (w_fs w)) w)).
Proof.
  intros Hp w r w' q [= <- <-] Hq. cbn [w_fs setFs].
  apply lookup_insert_ne. intros ->. exact (Hq Hp).
Qed.

Lemma Touches_delete S p :
  S p -> Touches S (modify (fun w => setFs (delete p (w_fs w)) w)).
Proof.
  intros Hp w r w' q [= <- <-] Hq. cbn [w_fs setFs].
  apply lookup_delete_ne. intros ->. exact (Hq Hp).
Qed.

Lemma Touches_writeFileSync S p data : S p -> Touches S (writeFileSync p data).
Proof.
  intros Hp. unfold writeFileSync.
  apply Touches_bind; [apply Touches_fsGuard|intros _].
  apply Touches_bind; [apply Touches_gets|intros [[d|]|]];
    first [apply Touches_throw | apply Touches_insert; exact Hp].
Qed.

Lemma Touches_unlinkSync S p : S p -> Touches S (unlinkSync p).
Proof.
  intros Hp. unfold unlinkSync.
  apply Touches_bind; [apply Touches_fsGuard|intros _].
  apply Touches_bind; [apply Touches_gets|intros [[d|]|]];
    first [apply Touches_throw | apply Touches_delete; exact Hp].
Qed.

(** A moved tree leaves alone what is neither below its old place nor
    below its new one. *)
Lemma moveTree_lookup_other (src dst : Path) (f : gmap Path Node) q :
  ~ src `prefix_of` q -> ~ dst `prefix_of` q -> moveTree src dst f !! q = f !! q.
Proof.
  intros Hs Hd. unfold moveTree. rewrite lookup_union_r.
  - destruct (f !! q) as [n|] eqn:En.
    + apply map_lookup_filter_Some. split; [exact En|]. cbn.
      unfold isBelow. apply bool_decide_eq_false_2. exact Hs.
    + apply map_lookup_filter_None. left. exact En.
  - apply not_elem_of_list_to_map_1. intros Hin.
    apply list_elem_of_fmap in Hin as ([k n] & Hk & Hin). cbn in Hk. subst k.
    apply list_elem_of_omap in Hin as ([k' n'] & _ & Hkv). cbn in Hkv.
    destruct (isBelow src k'); [|discriminate]. injection Hkv as <- _.
    apply Hd. apply prefix_app_r. reflexivity.
Qed.

Lemma Touches_renameSync S src dst :
  (forall q, src `prefix_of` q -> S q) -> (forall q, dst `prefix_of` q -> S q) ->
  Touches S (renameSync src dst).
Proof.
  intros Hs Hd. unfold renameSync.
  assert (S src) as Hs0 by (apply Hs; reflexivity).
  assert (S dst) as Hd0 by (apply Hd; reflexivity).
  apply Touches_bind; [apply Touches_fsGuard|intros _].
  apply Touches_bind; [apply Touches_gets|intros node].
  apply Touches_bind; [apply Touches_gets|intros target].
  assert (forall d, Touches S
            (modify (fun w => setFs (<[dst := NFile d]> (delete src (w_fs w))) w)))
    as Hmv.
  { intros d w r w' q [= <- <-] Hq. cbn [w_fs setFs].
    rewrite lookup_insert_ne by (intros ->; exact (Hq Hd0)).
    apply lookup_delete_ne. intros ->. exact (Hq Hs0). }
  assert (Touches S
            (if bool_decide (src = dst) then pure tt else
             occupied ← gets (fun w => match descendants dst (w_fs w) with
                                       | [] => false
                                       | _ :: _ => true
                                       end);
             if isBelow src dst || occupied
             then throw (ErrIo OpRename src)
             else modify (fun w => setFs (moveTree src dst (w_fs w)) w))) as Hdir.
  { destruct (bool_decide (src = dst)); [apply Touches_pure|].
    apply Touches_bind; [apply Touches_gets|intros occupied].
    destruct (isBelow src dst || occupied); [apply Touches_throw|].
    intros w r w' q [= <- <-] Hq. cbn [w_fs setFs].
    apply moveTree_lookup_other; intros Hp; apply Hq; auto. }
  destruct node as [[d|]|]; [| |apply Touches_throw];
    destruct target as [[t|]|]; first [apply Hmv | apply Touches_throw | exact Hdir].
Qed.

(** The move of something that is not a directory changes the two paths
    only. *)
Lemma renameSync_files S src dst w r w' q :
  w_fs w !! src <> Some NDir -> S src -> S dst ->
  renameSync src dst w = (r, w') -> ~ S q -> w_fs w' !! q = w_fs w !! q.
Proof.
  intros Hsrc Hs Hd E Hq. unfold renameSync in E.
  apply bind_inv in E as [([] & w1 & G & E)|[(e & G & _)|[G _]]];
    [|exact (Touches_fsGuard S _ _ _ _ _ q G Hq)..].
  pose proof (Touches_fsGuard S _ _ _ _ _ q G Hq) as Hq1.
  assert (w_fs w1 !! src <> Some NDir) as Hsrc1.
  { unfold fsGuard in G. destruct (w_faults w) as [|[| |] rest];
      try discriminate G; injection G as <-; exact Hsrc. }
  rewrite <- Hq1. clear Hq1 G Hsrc.
  rewrite bind_unfold in E. unfold gets at 1 in E.
  rewrite bind_unfold in E. unfold gets at 1 in E.
  destruct (w_fs w1 !! src) as [[d|]|]; [| contradiction |].
  - destruct (w_fs w1 !! dst) as [[t|]|]; injection E as <- <-; cbn [w_fs setFs];
      try reflexivity;
      (rewrite lookup_insert_ne by (intros ->; exact (Hq Hd)));
      apply lookup_delete_ne; intros ->; exact (Hq Hs).
  - injection E as <- <-. reflexivity.
Qed.

Lemma Touches_copyFileSync S src dst : S dst -> Touches S (copyFileSync src dst).
Proof.
  intros Hd. unfold copyFileSync.
  apply Touches_bind; [apply Touches_fsGuard|intros _].
  apply Touches_bind; [apply Touches_gets|intros node].
  apply Touches_bind; [apply Touches_gets|intros target].
  destruct node as [[d|]|]; try apply Touches_throw.
  destruct target as [[t|]|];
    first [apply Touches_insert; exact Hd | apply Touches_throw].
Qed.

Lemma mkdir_fold_lookup (dirs : list Path) (f : gmap Path Node) q :
  q ∉ dirs ->
  foldr (fun d f => match f !! d with
                    | None => <[d := NDir]> f
                    | Some _ => f
                    end) f dirs !! q = f !! q.
Proof.
  induction dirs as [|d dirs IH]; intros Hq; [reflexivity|].
  cbn [foldr]. apply not_elem_of_cons in Hq as [Hne Hq].
  destruct (foldr _ f dirs !! d); [apply IH, Hq|].
  rewrite lookup_insert_ne by congruence. apply IH, Hq.
Qed.

Lemma ancestors_prefix (p q : Path) : q ∈ ancestors p -> q `prefix_of` p.
Proof.
  unfold ancestors. intros Hq. apply list_elem_of_fmap in Hq as (n & -> & _).
  exists (drop n p). symmetry. apply take_drop.
Qed.

Lemma Touches_mkdirSync S p :
  (forall q, q `prefix_of` p -> S q) -> Touches S (mkdirSync p).
Proof.
  intros Hp. unfold mkdirSync.
  apply Touches_bind; [apply Touches_fsGuard|intros _].
  apply Touches_bind; [apply Touches_gets|intros [|]]; [apply Touches_throw|].
  intros w r w' q [= <- <-] Hq. cbn [w_fs setFs].
  apply mkdir_fold_lookup. intros Hin. apply Hq, Hp, ancestors_prefix, Hin.
Qed.

Lemma Touches_ensureDir S p :
  (forall q, q `prefix_of` p -> S q) -> Touches S (ensureDir p).
Proof.
  intros Hp. unfold ensureDir.
  apply Touches_bind; [apply Touches_existsSync|intros [|]];
    [apply Touches_pure | apply Touches_mkdirSync, Hp].
Qed.

Lemma Touches_rmSync S p : (forall q, p `prefix_of` q -> S q) -> Touches S (rmSync p).
Proof.
  intros Hp. unfold rmSync.
  apply Touches_bind; [apply Touches_fsGuard|intros _].
  intros w r w' q [= <- <-] Hq. cbn [w_fs setFs].
  destruct (w_fs w !! q) as [n|] eqn:En.
  - apply map_lookup_filter_Some. split; [exact En|]. cbn.
    unfold isBelow. apply bool_decide_eq_false_2. intros Hb. exact (Hq (Hp q Hb)).
  - apply map_lookup_filter_None. left. exact En.
Qed.

(** [copyDirRecursive] writes only at and below the target and creates
    missing directories above it. *)
Lemma Touches_copyDirRecursive S sourceDir targetDir :
  (forall q, q `prefix_of` targetDir -> S q) ->
  (forall q, targetDir `prefix_of` q -> S q) ->
  Touches S (copyDirRecursive sourceDir targetDir).
Proof.
  intros Hup Hdown. unfold copyDirRecursive.
  apply Touches_bind; [apply Touches_existsSync|intros ex].
  destruct (negb ex); [apply Touches_pure|].
  apply Touches_bind; [apply Touches_ensureDir, Hup|intros _].
  apply Touches_bind; [apply Touches_gets|intros entries].
  apply Touches_foldM. intros copied [rel [d|]]; cbn [fst snd].
  - apply Touches_bind; [|intros _; apply Touches_pure].
    apply Touches_copyFileSync, Hdown. exists rel. reflexivity.
  - apply Touches_bind; [|intros _; apply Touches_pure].
    apply Touches_ensureDir. intros q Hq.
    destruct (decide (length q <= length targetDir)) as [Hle|Hgt].
    + apply Hup. destruct Hq as [k Hk].
      exists (take (length targetDir - length q) k).
      apply (f_equal (take (length targetDir))) in Hk.
      rewrite take_app_length, take_app_ge in Hk by lia. exact Hk.
    + apply Hdown. destruct Hq as [k Hk].
      exists (drop (length targetDir) q).
      apply (f_equal (take (length targetDir))) in Hk.
      rewrite take_app_length, take_app_le in Hk by lia.
      rewrite Hk at 1. symmetry. apply take_drop.
Qed.

End TouchesFacts.

Ltac touches_step :=
  match goal with
  | |- Touches _ (pure _) => apply Touches_pure
  | |- Touches _ (throw _) => apply Touches_throw
  | |- Touches _ (gets _) => apply Touches_gets
  | |- Touches _ (liftRes _) => apply Touches_liftRes
  | |- Touches _ drawTape => apply Touches_drawTape
  | |- Touches _ nowIso => apply Touches_gets
  | |- Touches _ (consoleError _) => apply Touches_consoleError
  | |- Touches _ (existsSync _) => apply Touches_existsSync
  | |- Touches _ (statSync _) => apply Touches_statSync
  | |- Touches _ (readFileSync _) => apply Touches_readFileSync
  | |- Touches _ (fsGuard _ _) => apply Touches_fsGuard
  | |- Touches _ (modify _) => apply Touches_modify; reflexivity
  | |- Touches _ (writeFileSync _ _) => apply Touches_writeFileSync
  | |- Touches _ (unlinkSync _) => apply Touches_unlinkSync
  | |- Touches _ (renameSync _ _) => apply Touches_renameSync
  | |- Touches _ (copyFileSync _ _) => apply Touches_copyFileSync
  | |- Touches _ (mkdirSync _) => apply Touches_mkdirSync
  | |- Touches _ (ensureDir _) => apply Touches_ensureDir
  | |- Touches _ (rmSync _) => apply Touches_rmSync
  | |- Touches _ (copyDirRecursive _ _) => apply Touches_copyDirRecursive
  | |- Touches _ (mbind _ _) => apply Touches_bind; [|intros ?]
  | |- Touches _ (tryCatch _ _) => apply Touches_tryCatch; [|intros ?]
  | |- Touches _ (match ?x with _ => _ end) => destruct x
  | |- Touches _ (if ?b then _ else _) => destruct b
  end.

Ltac touches := repeat touches_step.

Section TouchesMain.
Context `{NodeCrypto} `{HostEnv}.

Lemma Touches_removeBackupIfPresent S p : S p -> Touches S (removeBackupIfPresent p).
Proof.
  intros Hp. unfold removeBackupIfPresent. touches. exact Hp.
Qed.

Lemma pathSuffix_last (dir : Path) (name suffix : string) :
  pathSuffix (dir ++ [name]) suffix = dir ++ [name +:+ suffix].
Proof.
  induction dir as [|d dir IH]; [reflexivity|].
  cbn [app pathSuffix]. rewrite IH.
  destruct (dir ++ [name]) eqn:E; [|reflexivity].
  destruct dir; discriminate.
Qed.

Lemma envelope_paths_distinct :
  dbEncPath <> dbBakPath /\ dbEncPath <> dbTmpPath /\ dbBakPath <> dbTmpPath.
Proof.
  unfold dbBakPath, dbTmpPath, dbEncPath. rewrite !pathSuffix_last.
  repeat split; intros E; apply app_inv_head in E; discriminate.
Qed.

Lemma envelope_paths_length :
  length dbBakPath = length dbEncPath /\ length dbTmpPath = length dbEncPath.
Proof.
  unfold dbBakPath, dbTmpPath, dbEncPath. rewrite !pathSuffix_last.
  rewrite !length_app. auto.
Qed.

(** None of the three envelope paths lies below another. *)
Lemma envelope_paths_apart p q :
  p ∈ [dbEncPath; dbBakPath; dbTmpPath] -> q ∈ [dbEncPath; dbBakPath; dbTmpPath] ->
  p `prefix_of` q -> p = q.
Proof.
  intros Hp Hq Hpq. apply prefix_length_eq; [exact Hpq|].
  destruct envelope_paths_length as [Lb Lt].
  assert (forall x, x ∈ [dbEncPath; dbBakPath; dbTmpPath] ->
                    length x = length dbEncPath) as Hl.
  { intros x Hx. repeat (apply elem_of_cons in Hx as [->|Hx]; [auto|]).
    apply elem_of_nil in Hx. contradiction. }
  rewrite (Hl p Hp), (Hl q Hq). reflexivity.
Qed.

Lemma envelopeArea_tmp : envelopeArea dbTmpPath.
Proof. left. reflexivity. Qed.

Lemma envelopeArea_enc : envelopeArea dbEncPath.
Proof. right. left. reflexivity. Qed.

Lemma envelopeArea_bak : envelopeArea dbBakPath.
Proof. right. right. reflexivity. Qed.

(** [persistDbInternal] changes only the envelope, its temporary file and
    its backup, and what lies below them. *)
Lemma Touches_persistDbInternal : Touches envelopeArea persistDbInternal.
Proof.
  unfold persistDbInternal. cbn [ENCRYPTION_ENABLED negb].
  fold dbTmpPath. fold dbBakPath.
  touches; try apply Touches_removeBackupIfPresent;
    first [ apply envelopeArea_tmp | apply envelopeArea_enc | apply envelopeArea_bak
          | intros q Hq; unfold envelopeArea; auto ].
Qed.

Lemma Touches_listEncryptedDbCandidates S : Touches S listEncryptedDbCandidates.
Proof.
  unfold listEncryptedDbCandidates. apply Touches_foldM. intros acc x. touches.
Qed.

Lemma Touches_openFirstCandidate S passphrase cands :
  forall lastError, Touches S (openFirstCandidate passphrase cands lastError).
Proof.
  induction cands as [|c rest IH]; intros lastError; cbn [openFirstCandidate].
  - apply Touches_pure.
  - apply Touches_bind; [touches|].
    intros [found|err]; [apply Touches_pure | apply IH].
Qed.

(** The first part of unlock only reads the disk. *)
Lemma Touches_unlockOpen S passphrase : Touches S (unlockOpen passphrase).
Proof.
  unfold unlockOpen.
  destruct (passphraseLength passphrase) as [len|]; [|apply Touches_throw].
  destruct (len <? MIN_PASSPHRASE_LEN); [apply Touches_throw|].
  apply Touches_bind; [apply Touches_listEncryptedDbCandidates|intros cands].
  destruct (0 <? length cands).
  - apply Touches_bind; [apply Touches_openFirstCandidate|]. intros [opened lastError].
    touches.
  - touches.
Qed.

Lemma Touches_unlockLoadAndPersist unlockSource dbBytes :
  Touches envelopeOrAttachments (unlockLoadAndPersist unlockSource dbBytes).
Proof.
  unfold unlockLoadAndPersist, initDatabase, countFilesRecursive, persistDbOrThrow.
  touches;
    try (eapply Touches_weaken; [|apply Touches_persistDbInternal]);
    unfold envelopeOrAttachments; auto.
Qed.

Lemma Touches_verifyWrittenEnvelope S passphrase :
  Touches S (verifyWrittenEnvelope passphrase).
Proof. unfold verifyWrittenEnvelope. touches. Qed.

End TouchesMain.


(** ** Computations that leave a part of the world alone *)

Section PreservesFacts.
Context `{NodeCrypto} `{HostEnv}.
Context {X : Type} (f : World -> X).

Lemma Preserves_bind {A B} (m : M A) (k : A -> M B) :
  Preserves f m -> (forall a, Preserves f (k a)) -> Preserves f (m ≫= k).
Proof.
  intros Hm Hk w r w' E.
  apply bind_inv in E as [(a & w1 & E1 & E2)|[(e & E1 & _)|[E1 _]]].
  - rewrite (Hk a w1 r w' E2). exact (Hm w _ w1 E1).
  - exact (Hm w _ w' E1).
  - exact (Hm w _ w' E1).
Qed.

Lemma Preserves_tryCatch {A} (m : M A) h :
  Preserves f m -> (forall e, Preserves f (h e)) -> Preserves f (tryCatch m h).
Proof.
  intros Hm Hh w r w' E.
  apply tryCatch_inv in E as [(e & w1 & E1 & E2)|[E1 _]].
  - rewrite (Hh e w1 r w' E2). exact (Hm w _ w1 E1).
  - exact (Hm w _ w' E1).
Qed.

Lemma Preserves_pure {A} (a : A) : Preserves f (pure a).
Proof. intros w r w' [= <- <-]. reflexivity. Qed.

Lemma Preserves_throw {A} e : Preserves f (@throw A e).
Proof. intros w r w' [= <- <-]. reflexivity. Qed.

Lemma Preserves_gets {A} (g : World -> A) : Preserves f (gets g).
Proof. intros w r w' [= <- <-]. reflexivity. Qed.

Lemma Preserves_modify g : (forall w, f (g w) = f w) -> Preserves f (modify g).
Proof. intros Hg w r w' [= <- <-]. apply Hg. Qed.

Lemma Preserves_liftRes {A} (r : res A) : Preserves f (liftRes r).
Proof. destruct r; [apply Preserves_pure | apply Preserves_throw]. Qed.

Lemma Preserves_drawTape :
  (forall w n, f (setTape n w) = f w) -> Preserves f drawTape.
Proof. intros Hf w r w' [= <- <-]. apply Hf. Qed.

Lemma Preserves_fsGuard op p :
  (forall w l, f (setFaults l w) = f w) -> Preserves f (fsGuard op p).
Proof.
  intros Hf w r w' E. unfold fsGuard in E.
  destruct (w_faults w) as [|[| |] rest]; injection E as <- <-;
    first [reflexivity | apply Hf].
Qed.

Lemma Preserves_foldM {A B} (body : B -> A -> M B) xs :
  (forall acc x, Preserves f (body acc x)) ->
  forall acc, Preserves f (foldM body acc xs).
Proof.
  intros Hb. induction xs as [|x xs IH]; intros acc; cbn [foldM].
  - apply Preserves_pure.
  - apply Preserves_bind; [apply Hb | intros a; apply IH].
Qed.

End PreservesFacts.

(** Structural steps; the calls of node:fs are unfolded to their guard,
    reads and writes of the disk. *)
Ltac keeps_step :=
  match goal with
  | |- Preserves _ (pure _) => apply Preserves_pure
  | |- Preserves _ (throw _) => apply Preserves_throw
  | |- Preserves _ (gets _) => apply Preserves_gets
  | |- Preserves _ (liftRes _) => apply Preserves_liftRes
  | |- Preserves _ drawTape => apply Preserves_drawTape; intros ? ?; reflexivity
  | |- Preserves _ (fsGuard _ _) => apply Preserves_fsGuard; intros ? ?; reflexivity
  | |- Preserves _ (modify _) => apply Preserves_modify; intros ?; reflexivity
  | |- Preserves _ (foldM _ _ _) => apply Preserves_foldM; intros ? ?
  | |- Preserves _ (mbind _ _) => apply Preserves_bind; [|intros ?]
  | |- Preserves _ (tryCatch _ _) => apply Preserves_tryCatch; [|intros ?]
  | |- Preserves _ (match ?x with _ => _ end) => destruct x
  | |- Preserves _ (if ?b then _ else _) => destruct b
  end.

Ltac keeps :=
  unfold KeepsSession, nowIso, consoleError, existsSync, statSync, readFileSync,
    writeFileSync, renameSync, unlinkSync, copyFileSync, mkdirSync, rmSync, ensureDir,
    copyDirRecursive, countFilesRecursive;
  repeat keeps_step.

Section KeepsMain.
Context `{NodeCrypto} `{HostEnv}.

Lemma Keeps_persistDbInternal : KeepsSession persistDbInternal.
Proof. unfold persistDbInternal, removeBackupIfPresent. keeps. Qed.

Lemma Keeps_persistDb : KeepsSession persistDb.
Proof.
  unfold persistDb. apply Preserves_tryCatch; [apply Keeps_persistDbInternal|].
  intros e. keeps.
Qed.

Lemma Keeps_listEncryptedDbCandidates : KeepsSession listEncryptedDbCandidates.
Proof. unfold listEncryptedDbCandidates. keeps. Qed.

End KeepsMain.


(** ** Computations that at most add directories outside an area *)

Lemma addsDirsOutside_refl (S : Path -> Prop) (disk : gmap Path Node) : addsDirsOutside S disk disk.
Proof. intros q _. left. reflexivity. Qed.

Lemma addsDirsOutside_trans (S : Path -> Prop) (d1 d2 d3 : gmap Path Node) :
  addsDirsOutside S d1 d2 -> addsDirsOutside S d2 d3 -> addsDirsOutside S d1 d3.
Proof.
  intros H1 H2 q Hq.
  destruct (H1 q Hq) as [E1|[E1 E1']], (H2 q Hq) as [E2|[E2 E2']].
  - left. congruence.
  - right. split; congruence.
  - right. split; congruence.
  - congruence.
Qed.

Lemma addsDirsOutside_weaken (S S' : Path -> Prop) (d1 d2 : gmap Path Node) :
  (forall q, S q -> S' q) -> addsDirsOutside S d1 d2 -> addsDirsOutside S' d1 d2.
Proof. intros HS H q Hq. apply H. intros Hs. exact (Hq (HS q Hs)). Qed.

(** A file found outside the area was there from the start. *)
Lemma addsDirsOutside_file (S : Path -> Prop) (d1 d2 : gmap Path Node) q data :
  addsDirsOutside S d1 d2 -> ~ S q -> d2 !! q = Some (NFile data) ->
  d1 !! q = Some (NFile data).
Proof. intros H Hq E. destruct (H q Hq) as [<-|[_ E']]; congruence. Qed.

(** A source that is rejected stays so when directories appear. *)
Lemma rejectedSource_stable (d1 d2 : gmap Path Node) p :
  (forall q, d2 !! q = d1 !! q \/ (d1 !! q = None /\ d2 !! q = Some NDir)) ->
  rejectedSource d1 p -> rejectedSource d2 p.
Proof.
  intros H. unfold rejectedSource.
  destruct (H p) as [->|[_ ->]]; [auto|]. intros _. left. reflexivity.
Qed.

Lemma mkdir_fold_cases (dirs : list Path) (f : gmap Path Node) q :
  let f' := foldr (fun d f => match f !! d with
                              | None => <[d := NDir]> f
                              | Some _ => f
                              end) f dirs in
  f' !! q = f !! q \/ (f !! q = None /\ f' !! q = Some NDir).
Proof.
  cbv zeta. induction dirs as [|d dirs IH]; [left; reflexivity|].
  cbn [foldr]. destruct (foldr _ f dirs !! d) eqn:Ed; [exact IH|].
  destruct (decide (d = q)) as [->|Hne].
  - rewrite lookup_insert_eq. right. split; [|reflexivity].
    destruct IH as [<-|[E _]]; assumption.
  - rewrite lookup_insert_ne by exact Hne. exact IH.
Qed.

Section ExtendsFacts.
Context `{NodeCrypto} `{HostEnv}.

Lemma Extends_of_Touches {A} (S : Path -> Prop) (m : M A) : Touches S m -> Extends S m.
Proof. intros Hm w r w' E q Hq. left. exact (Hm w r w' q E Hq). Qed.

Lemma Extends_weaken {A} (S S' : Path -> Prop) (m : M A) :
  (forall q, S q -> S' q) -> Extends S m -> Extends S' m.
Proof. intros HS Hm w r w' E. exact (addsDirsOutside_weaken _ _ _ _ HS (Hm w r w' E)). Qed.

Lemma Extends_bind {A B} (S : Path -> Prop) (m : M A) (f : A -> M B) :
  Extends S m -> (forall a, Extends S (f a)) -> Extends S (m ≫= f).
Proof.
  intros Hm Hf w r w' E.
  apply bind_inv in E as [(a & w1 & E1 & E2)|[(e & E1 & _)|[E1 _]]].
  - exact (addsDirsOutside_trans _ _ _ _ (Hm _ _ _ E1) (Hf _ _ _ _ E2)).
  - exact (Hm _ _ _ E1).
  - exact (Hm _ _ _ E1).
Qed.

Lemma Extends_tryCatch {A} (S : Path -> Prop) (m : M A) h :
  Extends S m -> (forall e, Extends S (h e)) -> Extends S (tryCatch m h).
Proof.
  intros Hm Hh w r w' E.
  apply tryCatch_inv in E as [(e & w1 & E1 & E2)|[E1 _]].
  - exact (addsDirsOutside_trans _ _ _ _ (Hm _ _ _ E1) (Hh _ _ _ _ E2)).
  - exact (Hm _ _ _ E1).
Qed.

Lemma Extends_foldM {A B} (S : Path -> Prop) (body : B -> A -> M B) xs :
  (forall acc x, Extends S (body acc x)) -> forall acc, Extends S (foldM body acc xs).
Proof.
  intros Hb. induction xs as [|x xs IH]; intros acc; cbn [foldM].
  - apply Extends_of_Touches, Touches_pure.
  - apply Extends_bind; [apply Hb | intros a; apply IH].
Qed.

(** [mkdirSync] creates directories, wherever they are. *)
Lemma Extends_mkdirSync (S : Path -> Prop) p : Extends S (mkdirSync p).
Proof.
  unfold mkdirSync.
  apply Extends_bind; [apply Extends_of_Touches, Touches_fsGuard|intros _].
  apply Extends_bind; [apply Extends_of_Touches, Touches_gets|intros [|]];
    [apply Extends_of_Touches, Touches_throw|].
  intros w r w' [= <- <-] q _. cbn [w_fs setFs]. apply mkdir_fold_cases.
Qed.

Lemma Extends_ensureDir (S : Path -> Prop) p : Extends S (ensureDir p).
Proof.
  unfold ensureDir.
  apply Extends_bind; [apply Extends_of_Touches, Touches_existsSync|intros [|]];
    [apply Extends_of_Touches, Touches_pure | apply Extends_mkdirSync].
Qed.

Lemma dirname_child (dir : Path) (name : string) : dirname (dir ++ [name]) = dir.
Proof.
  unfold dirname. rewrite length_app. cbn [length].
  replace (length dir + 1 - 1) with (length dir) by lia.
  apply take_app_length.
Qed.

(** [encryptAttachmentFile] into a directory writes in that directory and
    creates the directories that lead to it. *)
Lemma Extends_encryptAttachmentFile sourcePath (dir : Path) (name : string) fileKey :
  Extends (fun q => dir `prefix_of` q)
    (encryptAttachmentFile sourcePath (dir ++ [name]) fileKey).
Proof.
  assert (forall n q, dir ++ [n] `prefix_of` q -> dir `prefix_of` q) as Hdown.
  { intros n q Hq. etransitivity; [|exact Hq]. apply prefix_app_r. reflexivity. }
  unfold encryptAttachmentFile. rewrite pathSuffix_last, dirname_child.
  apply Extends_bind; [apply Extends_of_Touches, Touches_drawTape|intros g].
  cbv zeta.
  apply Extends_bind; [apply Extends_mkdirSync|intros _].
  apply Extends_of_Touches. touches; eauto using prefix_app_r.
Qed.

End ExtendsFacts.


(** ** Runs of the checks and helpers the handlers share *)

Section HandlerRuns.
Context `{NodeCrypto} `{HostEnv}.

Lemma filter_none {A} (P : A -> Prop) `{forall x, Decision (P x)} (l : list A) :
  Forall (fun x => ~ P x) l -> filter P l = [].
Proof.
  induction 1 as [|x l Hx _ IH]; [reflexivity|].
  rewrite filter_cons_False by exact Hx. exact IH.
Qed.

Lemma assertUnlocked_ok w u w' :
  assertUnlocked w = (Ok u, w') ->
  w' = w /\ w_locked w = false /\ is_Some (w_vault w) /\ is_Some (w_db w).
Proof.
  unfold assertUnlocked, mbind, M_bind, bind, gets.
  cbn [ENCRYPTION_ENABLED negb]. cbv iota.
  destruct (w_locked w); [discriminate|].
  destruct (w_vault w) as [v|]; [|discriminate].
  destruct (w_db w) as [db|]; [|discriminate].
  intros [= <- <-]. repeat split; eauto.
Qed.

Lemma assertUuid_ok value fieldName w s w' :
  assertUuid value fieldName w = (Ok s, w') ->
  w' = w /\ value = JStr s /\ matchClasses UUID_V4_REGEX s = true.
Proof.
  unfold assertUuid. destruct value as [t| | |]; try discriminate.
  destruct (matchClasses UUID_V4_REGEX t) eqn:Em; [|discriminate].
  intros [= <- <-]. auto.
Qed.

(** [recordAudit] in an open session appends one row. *)
Lemma recordAudit_ok action entityType entityId projectId details w db r w' :
  w_db w = Some db -> w_locked w = false ->
  recordAudit action entityType entityId projectId details false w = (r, w') ->
  exists id,
    r = Ok (Some id) /\
    w_db w' = Some (insertAudit
                      {| au_id := id; au_timestamp := w_now w; au_action := action;
                         au_entityType := entityType; au_entityId := entityId;
                         au_projectId := projectId; au_details := details |} db) /\
    w_locked w' = false /\ w_vault w' = w_vault w /\ w_fs w' = w_fs w /\
    w_now w' = w_now w.
Proof.
  intros Hdb Hl. unfold recordAudit, randomUUID, nowIso, mbind, M_bind, bind, gets,
    drawTape, modify, pure.
  rewrite Hdb, Hl. cbn [ENCRYPTION_ENABLED andb]. cbv iota.
  intros [= <- <-]. eexists. repeat split; try reflexivity; exact Hl.
Qed.

Lemma assertUnlocked_open w :
  w_locked w = false -> is_Some (w_vault w) -> is_Some (w_db w) ->
  assertUnlocked w = (Ok tt, w).
Proof.
  intros Hl [v Hv] [db Hdb]. unfold assertUnlocked, mbind, M_bind, bind, gets.
  cbn [ENCRYPTION_ENABLED negb]. cbv iota. rewrite Hl, Hv, Hdb. reflexivity.
Qed.

Lemma head_filter_cases {A} (P : A -> Prop) `{forall x, Decision (P x)} (l : list A) :
  (head (filter P l) = None /\ Forall (fun x => ~ P x) l) \/
  (exists a, head (filter P l) = Some a /\ a ∈ l /\ P a).
Proof.
  destruct (filter P l) as [|a l'] eqn:E.
  - left. split; [reflexivity|]. apply Forall_forall. intros x Hx Hp.
    assert (x ∈ filter P l) as X by (apply list_elem_of_filter; auto).
    rewrite E in X. inversion X.
  - right. exists a. split; [reflexivity|].
    assert (a ∈ filter P l) as X by (rewrite E; apply list_elem_of_here).
    apply list_elem_of_filter in X as [Hp Hin]. auto.
Qed.


Lemma assertUnlocked_throw w e w' :
  assertUnlocked w = (Throw e, w') -> e = ErrVaultLocked /\ w' = w.
Proof.
  unfold assertUnlocked, mbind, M_bind, bind, gets.
  cbn [ENCRYPTION_ENABLED negb]. cbv iota.
  destruct (w_locked w || negb (bool_decide (is_Some (w_vault w)))
            || negb (bool_decide (is_Some (w_db w)))).
  - intros [= <- <-]. auto.
  - discriminate.
Qed.

Lemma assertUnlocked_no_halt w w' : assertUnlocked w <> (Halt, w').
Proof.
  unfold assertUnlocked, mbind, M_bind, bind, gets.
  cbn [ENCRYPTION_ENABLED negb]. cbv iota.
  destruct (w_locked w || negb (bool_decide (is_Some (w_vault w)))
            || negb (bool_decide (is_Some (w_db w)))); discriminate.
Qed.

Lemma assertUuid_throw value fieldName w e w' :
  assertUuid value fieldName w = (Throw e, w') -> e = ErrInvalid fieldName /\ w' = w.
Proof.
  unfold assertUuid. destruct value as [t| | |];
    try (intros [= <- <-]; auto).
  destruct (matchClasses UUID_V4_REGEX t); [discriminate|].
  intros [= <- <-]. auto.
Qed.

Lemma assertUuid_no_halt value fieldName w w' : assertUuid value fieldName w <> (Halt, w').
Proof.
  unfold assertUuid. destruct value as [t| | |]; try discriminate.
  destruct (matchClasses UUID_V4_REGEX t); discriminate.
Qed.

(** [ensureDir] that throws has failed to create the directory and has
    changed nothing. *)
Lemma ensureDir_throw p w e w' :
  ensureDir p w = (Throw e, w') ->
  e = ErrIo OpMkdir p /\ w_fs w' = w_fs w /\ session w' = session w.
Proof.
  unfold ensureDir, mkdirSync. intros E.
  rewrite bind_unfold in E. unfold existsSync, gets at 1 in E.
  destruct (bool_decide (is_Some (w_fs w !! p))); [discriminate E|].
  apply bind_inv in E as [([] & w1 & G & E)|[(e' & G & [= <-])|[_ ?]]];
    [| |discriminate].
  - rewrite bind_unfold in E. unfold gets at 1 in E.
    destruct (existsb _ _); [|discriminate E].
    injection E as <- <-.
    assert (w_fs w1 = w_fs w /\ session w1 = session w) as [? ?].
    { unfold fsGuard in G. destruct (w_faults w) as [|[| |] rest];
        try discriminate G; injection G as <-; auto. }
    auto.
  - unfold fsGuard in G. destruct (w_faults w) as [|[| |] rest];
      try discriminate G. injection G as <- <-. auto.
Qed.

Lemma getSafeProjectAttachmentDir_valid s :
  matchClasses UUID_V4_REGEX s = true ->
  getSafeProjectAttachmentDir (JStr s) = Some (attachmentsRoot ++ [s]).
Proof.
  intros Em. unfold getSafeProjectAttachmentDir. cbn [isValidProjectId].
  rewrite Em. cbn [negb]. cbv zeta.
  rewrite bool_decide_eq_false_2.
  2:{ intros X. apply (f_equal length) in X. rewrite length_app in X. cbn in X. lia. }
  unfold isBelow. rewrite bool_decide_eq_true_2 by (apply prefix_app_r; reflexivity).
  reflexivity.
Qed.

End HandlerRuns.


(** ** The reference platform satisfies the interface *)

Module RefFacts.

Lemma stream_length n : forall h, length (Ref.stream n h) = n.
  Proof. induction n as [|n IH]; intros h; [reflexivity|]. cbn. rewrite IH. reflexivity. Qed.

Lemma spread_length n seed : length (Ref.spread n seed) = n.
  Proof. apply stream_length. Qed.

Lemma keystream_length key iv n : length (Ref.keystream key iv n) = n.
  Proof. unfold Ref.keystream, Ref.codes. rewrite length_map. apply spread_length. Qed.

Lemma addStream_length data ks :
    length ks = length data -> length (Ref.addStream data ks) = length data.
  Proof.
    unfold Ref.addStream. revert ks.
    induction data as [|b data IH]; intros [|k ks] Hl; simpl in *; try lia.
    rewrite IH by lia. reflexivity.
  Qed.

Lemma sub_add_stream data ks :
    length ks = length data ->
    Ref.subStream (Ref.addStream data ks) ks = data.
  Proof.
    unfold Ref.subStream, Ref.addStream. revert ks.
    induction data as [|b data IH]; intros [|k ks] Hl; simpl in *; try lia;
      [reflexivity|].
    rewrite IH by lia. f_equal.
    rewrite zOfByte_byteOfZ, <- byteOfZ_mod, Zminus_mod_idemp_l.
    replace (zOfByte b + k - k)%Z with (zOfByte b) by lia.
    rewrite byteOfZ_mod. apply byteOfZ_zOfByte.
  Qed.

Lemma compatibility_of_canonical c :
    flat_map Unicode.compatibility (Unicode.canonical c) = Unicode.compatibility c.
  Proof.
    unfold Unicode.compatibility at 2. unfold Unicode.canonical.
    destruct (Z.eqb_spec c 0xB2) as [->|]; [reflexivity|].
    destruct (Z.eqb_spec c 0x2460) as [->|]; [reflexivity|].
    destruct (Z.eqb_spec c 0xFB01) as [->|]; [reflexivity|].
    destruct (Z.eqb_spec c 0xC5) as [->|]; [reflexivity|].
    destruct (Z.eqb_spec c 0xE9) as [->|]; [reflexivity|].
    destruct (Z.eqb_spec c 0x212B) as [->|]; [reflexivity|].
    cbn [flat_map app]. unfold Unicode.compatibility, Unicode.canonical.
    repeat match goal with
           | |- context [(c =? ?k)%Z] => destruct (Z.eqb_spec c k); [lia|]
           end.
    reflexivity.
  Qed.

Lemma nfkd_of_nfd s : Unicode.nfkd (Unicode.nfd s) = Unicode.nfkd s.
  Proof.
    unfold Unicode.nfkd, Unicode.nfd.
    induction s as [|c s IH]; [reflexivity|].
    cbn [flat_map]. rewrite flat_map_app, IH, compatibility_of_canonical.
    reflexivity.
  Qed.

Lemma normalize_nfkc_canonical a b :
    Unicode.normalize NFD a = Unicode.normalize NFD b ->
    Unicode.normalize NFKC a = Unicode.normalize NFKC b.
  Proof.
    cbn [Unicode.normalize]. intros E.
    rewrite <- (nfkd_of_nfd a), <- (nfkd_of_nfd b), E. reflexivity.
  Qed.

Lemma scrypt_error_params_only pw pw' salt len n r p mm e :
    Ref.scryptSync pw salt len n r p mm = RErr e ->
    Ref.scryptSync pw' salt len n r p mm = RErr e.
  Proof.
    unfold Ref.scryptSync. cbv zeta.
    destruct (Ref.scryptRefuses _ _ _ _); [trivial | discriminate].
  Qed.

Lemma scrypt_rejects_bad_N pw salt len n r p mm :
    isUint32 n -> n <> 0%Z -> isUint32 r -> isUint32 p -> (0 <= mm)%Z ->
    isPow2gt1 n = false ->
    Ref.scryptSync pw salt len n r p mm = RErr (ErrCrypto ScryptInvalidParams).
  Proof.
    intros _ Hn _ _ _ Hbad. unfold Ref.scryptSync. cbv zeta.
    unfold Ref.orDefault at 1. destruct (Z.eqb_spec n 0) as [|_]; [contradiction|].
    unfold Ref.scryptRefuses. rewrite Hbad. reflexivity.
  Qed.

Lemma cipher_init_ok key iv :
    length key = 32 -> length iv = 12 -> Ref.cipherInit key iv = ROk tt.
  Proof. intros Hk Hi. unfold Ref.cipherInit. rewrite Hk, Hi. reflexivity. Qed.

Lemma cipher_init_key key iv : Ref.cipherInit key iv = ROk tt -> length key = 32.
  Proof.
    unfold Ref.cipherInit. destruct (Nat.eqb_spec (length key) 32); [trivial|discriminate].
  Qed.

Lemma gcm_encrypt_total key iv aad pt :
    Ref.cipherInit key iv = ROk tt ->
    exists ct tag, Ref.gcmEncrypt key iv aad pt = ROk (ct, tag).
  Proof. intros E. unfold Ref.gcmEncrypt. rewrite E. eexists _, _. reflexivity. Qed.

Lemma gcm_decrypt_update key iv tag ct aad pt :
    Ref.gcmDecrypt key iv tag ct aad = ROk pt -> Ref.gcmUpdate key iv ct = pt.
  Proof.
    unfold Ref.gcmDecrypt. destruct (Ref.cipherInit key iv) as [[]|]; [|discriminate].
    cbn [mbind res_bind]. destruct (negb _); [discriminate|].
    case_bool_decide; [|discriminate]. intros [= <-]. reflexivity.
  Qed.

Lemma gcm_encrypt_decrypt key iv aad pt :
    length key = 32 -> length iv = 12 ->
    exists ct tag,
      Ref.gcmEncrypt key iv aad pt = ROk (ct, tag) /\
      length ct = length pt /\ length tag = 16 /\
      Ref.gcmDecrypt key iv tag ct aad = ROk pt.
  Proof.
    intros Hk Hi.
    exists (Ref.addStream pt (Ref.keystream key iv (length pt))).
    exists (Ref.mac key iv aad (Ref.addStream pt (Ref.keystream key iv (length pt)))).
    assert (length (Ref.addStream pt (Ref.keystream key iv (length pt))) = length pt)
      as Hl by (apply addStream_length, keystream_length).
    unfold Ref.gcmEncrypt, Ref.gcmDecrypt, Ref.gcmUpdate.
    rewrite (cipher_init_ok key iv Hk Hi). cbn [mbind res_bind].
    assert (length (Ref.mac key iv aad
              (Ref.addStream pt (Ref.keystream key iv (length pt)))) = 16) as Hm
      by apply spread_length.
    split; [reflexivity|]. split; [exact Hl|]. split; [exact Hm|].
    rewrite Hm. cbn [Nat.eqb negb].
    rewrite bool_decide_eq_true_2 by reflexivity.
    rewrite Hl, sub_add_stream by apply keystream_length. reflexivity.
  Qed.

Lemma gcm_decrypt_error key iv tag ct aad e :
    length key = 32 -> length iv = 12 -> length tag = 16 ->
    Ref.gcmDecrypt key iv tag ct aad = RErr e -> e = ErrCrypto AuthFailed.
  Proof.
    intros Hk Hi Ht. unfold Ref.gcmDecrypt.
    rewrite (cipher_init_ok key iv Hk Hi), Ht. cbn [mbind res_bind Nat.eqb negb].
    case_bool_decide; [discriminate|]. intros [= <-]. reflexivity.
  Qed.

End RefFacts.

Definition refCrypto : NodeCrypto := {|
  normalize := Unicode.normalize;
  scryptSync := Ref.scryptSync;
  hkdfSync := Ref.hkdfSync;
  gcmEncrypt := Ref.gcmEncrypt;
  gcmDecrypt := Ref.gcmDecrypt;
  cipherInit := Ref.cipherInit;
  gcmUpdate := Ref.gcmUpdate;
  randomBytes := Ref.randomBytes;
  normalize_nfkc_canonical := RefFacts.normalize_nfkc_canonical;
  scrypt_error_params_only := RefFacts.scrypt_error_params_only;
  scrypt_rejects_bad_N := RefFacts.scrypt_rejects_bad_N;
  hkdf_length := fun key salt info len => RefFacts.spread_length len _;
  gcm_encrypt_decrypt := RefFacts.gcm_encrypt_decrypt;
  gcm_decrypt_error := RefFacts.gcm_decrypt_error;
  cipher_init_ok := RefFacts.cipher_init_ok;
  cipher_init_key := RefFacts.cipher_init_key;
  gcm_encrypt_total := RefFacts.gcm_encrypt_total;
  gcm_decrypt_update := RefFacts.gcm_decrypt_update;
  random_length := fun n g => RefFacts.spread_length n _
|}.

Definition refHost : HostEnv := {|
  userData := Ref.userData;
  tempDir := Ref.tempDir;
  sqlExport := Ref.sqlExport;
  sqlOpen := Ref.sqlOpen;
  uuidOf := Ref.uuidOf;
  pathResolve := Ref.pathResolve;
  extname := Ref.extname;
  dateIsValid := Ref.dateIsValid;
  manifestJson := Ref.manifestJson;
  backupMetaJson := Ref.backupMetaJson
|}.


(** ** Concrete inputs on the reference platform *)

Module Demo.

(** "correct-horse-battery-staple12" *)
Definition passphrase : PassArg :=
  PStr (Ref.stringCodes "correct-horse-battery-staple12").

(** One character off. *)
Definition wrongPassphrase : PassArg :=
  PStr (Ref.stringCodes "correct-horse-battery-staple13").

Definition salt : bytes := Ref.randomBytes 16 0.

Definition vault : Vault :=
  Eval vm_compute in
    match @deriveKeysFromPassphrase refCrypto passphrase salt DEFAULT_SCRYPT_PARAMS with
    | ROk v => v
    | RErr _ => {| masterKey := []; dbKey := []; fileKey := []; kdfSalt := [];
                   kdfParams := DEFAULT_SCRYPT_PARAMS |}
    end.

(** The database image of the empty database, and its envelope. *)
Definition image : bytes := Ref.sqlExport Ref.emptyDb.

Definition envelope : bytes :=
  Eval vm_compute in
    match @sealDatabaseBytes refCrypto image (Some vault) 1 with
    | ROk e => e
    | RErr _ => []
    end.


(** The envelope with its last ciphertext byte changed. *)
Definition envelopeBadCiphertext : bytes :=
  <[length envelope - 1 := xff]> envelope.

(** Every envelope that differs from [envelope] in exactly one bit of the
    cost parameters or the salt (bytes 9 to 36). *)
Definition headerVariants : list bytes :=
  flat_map
    (fun i =>
       match envelope !! i with
       | None => []
       | Some b =>
           map (fun k => <[i := byteOfZ (Z.lxor (zOfByte b) (2 ^ Z.of_nat k))]> envelope)
             (seq 0 8)
       end)
    (seq 9 28).

(** Opening with [passphrase] fails with the authentication error or with
    the parameter error of scrypt. *)
Definition isRejected (buf : bytes) : bool :=
  match @openVaultFromDatabaseEnvelope refCrypto buf passphrase with
  | ROk _ => false
  | RErr e => bool_decide (e = ErrCrypto AuthFailed)
              || bool_decide (e = ErrCrypto ScryptInvalidParams)
  end.

End Demo.

Module DemoWorld.

Definition encPath : Path := @dbEncPath refHost.
Definition bakPath : Path := pathSuffix encPath ".bak".
Definition tmpPath : Path := pathSuffix encPath ".tmp".
Definition plainPath : Path := @dbPlainPath refHost.

(** A valid project identifier. *)
Definition projectId : string := "3f2b8c1e-5d4a-4b6f-9a7e-0c1d2e3f4a5b".

(** A session unlocked with [Demo.passphrase] over a disk that holds the
    envelope of the empty database, facing the given schedule. *)
Definition unlocked (faults : list Fault) : World :=
  {| w_fs := {[ encPath := NFile Demo.envelope ]};
     w_faults := faults; w_tape := 2; w_now := "2026-03-01T09:30:00.000Z";
     w_db := Some Ref.emptyDb; w_locked := false; w_vault := Some Demo.vault;
     w_tempOpenFiles := []; w_console := [] |}.

(** The same session over a disk where a directory with one file in it
    stands at the envelope path. *)
Definition overDirectory (faults : list Fault) : World :=
  setFs (<[ encPath ++ ["stray.txt"] := NFile [x01] ]> {[ encPath := NDir ]})
    (unlocked faults).

(** A process that has just started, over the given disk. *)
Definition started (disk : gmap Path Node) (faults : list Fault) : World :=
  {| w_fs := disk; w_faults := faults; w_tape := 0;
     w_now := "2026-03-01T09:30:00.000Z";
     w_db := None; w_locked := true; w_vault := None;
     w_tempOpenFiles := []; w_console := [] |}.

(** A file of one byte more than 1 GiB (never enumerated). *)
Definition hugeFile : bytes := replicate (Z.to_nat (MAX_ATTACHMENT_BYTES + 1)) x00.

(** The unlocked session over a disk that also holds a directory and the
    huge file, and nothing at /data/missing.pdf. *)
Definition withSources (faults : list Fault) : World :=
  setFs (<[ ["data"; "huge.bin"] := NFile hugeFile ]>
           (<[ ["data"; "folder"] := NDir ]> (w_fs (unlocked faults))))
    (unlocked faults).

Definition noteData : option NoteData :=
  Some {| d_title := JStr (Ref.stringCodes "Kickoff call");
          d_noteDate := JStr "2026-03-01";
          d_contentMarkdown := JStr (Ref.stringCodes "Custodian list agreed.") |}.

(** A note whose title is 200 euro signs after a no-break space and
    before a byte-order mark. *)
Definition euroNoteData : option NoteData :=
  Some {| d_title := JStr ([0xA0%Z] ++ replicate 200 0x20AC%Z ++ [0xFEFF%Z]);
          d_noteDate := JStr "2026-03-01";
          d_contentMarkdown := JStr [] |}.

(** *** A disk with something to restore *)

Definition backupDir : Path := ["media"; "usb"; "backup"].

Definition attachmentPath : Path :=
  @attachmentsRoot refHost ++ [projectId; "exhibit.bin"].

(** The envelope kept in the backup folder: the same database image under
    the same vault, sealed with another nonce. *)
Definition backupEnvelope : bytes :=
  Eval vm_compute in
    match @sealDatabaseBytes refCrypto Demo.image (Some Demo.vault) 7 with
    | ROk e => e
    | RErr _ => []
    end.

(** The current envelope, one attachment, and the backup folder. *)
Definition restoreDisk : gmap Path Node :=
  <[ backupDir ++ ["edisconotes.sqlite.enc"] := NFile backupEnvelope ]>
  (<[ backupDir := NDir ]>
  (<[ attachmentPath := NFile [x01; x02] ]>
  (<[ @attachmentsRoot refHost ++ [projectId] := NDir ]>
  (<[ @attachmentsRoot refHost := NDir ]>
  {[ encPath := NFile Demo.envelope ]})))).

(** The unlocked session over a disk that also holds the three bytes "abc"
    at /data/abc.txt. *)
Definition abcPath : Path := ["data"; "abc.txt"].

Definition withAbc (faults : list Fault) : World :=
  setFs (<[ abcPath := NFile [x61; x62; x63] ]> (w_fs (unlocked faults)))
    (unlocked faults).

(** The unlocked session over a disk that also holds a directory at
    /data/folder and the three bytes at /data/abc.txt. *)
Definition withFolderAndAbc (faults : list Fault) : World :=
  setFs (<[ ["data"; "folder"] := NDir ]> (w_fs (withAbc faults))) (withAbc faults).

Definition attachmentId : string := "9a1c7e52-3b6d-4f80-8e2a-5c4d3b2a1f0e".

Definition storedDb : Db :=
  {| notes := [];
     attachments :=
       [ {| a_id := attachmentId; a_projectId := projectId;
            a_originalFileName := "exhibit.bin"; a_storedFileName := "exhibit.bin";
            a_storedRelativePath := [projectId; "exhibit.bin"];
            a_sizeBytes := 2; a_addedAt := "2026-02-27T16:00:00.000Z" |} ];
     audit_log := [] |}.

(** An open session whose database lists the stored attachment. *)
Definition withStored (faults : list Fault) : World :=
  setDb (Some storedDb) (setFs restoreDisk (unlocked faults)).

End DemoWorld.


(** ** Claims about the envelope codec *)

Section FileCodec.
Context `{NodeCrypto}.

Lemma seal_file_shape plaintext fileKey g :
    length fileKey = 32 ->
    exists ct tg,
      gcmEncrypt fileKey (randomBytes IV_LEN g) (FILE_MAGIC ++ [FILE_VERSION]) plaintext
      = ROk (ct, tg) /\
      length ct = length plaintext /\ length tg = 16 /\
      gcmDecrypt fileKey (randomBytes IV_LEN g) tg ct (FILE_MAGIC ++ [FILE_VERSION])
      = ROk plaintext /\
      sealFileBytes plaintext fileKey g
      = ROk (FILE_MAGIC ++ [FILE_VERSION] ++ randomBytes IV_LEN g ++ tg ++ ct).
  Proof.
    intros Hk.
    destruct (gcm_encrypt_decrypt fileKey (randomBytes IV_LEN g)
                (FILE_MAGIC ++ [FILE_VERSION]) plaintext Hk (random_length _ _))
      as (ct & tg & He & Hc & Ht & Hd).
    exists ct, tg. repeat split; try assumption.
    unfold sealFileBytes, aesGcmEncrypt.
    assert (subarray (buildFileHeader (alloc IV_LEN)) 0
              (length (buildFileHeader (alloc IV_LEN)) - IV_LEN)
            = FILE_MAGIC ++ [FILE_VERSION]) as -> by reflexivity.
    rewrite He. reflexivity.
  Qed.

Lemma open_file_parts (nonce tg ct : bytes) fileKey :
    length nonce = 12 -> length tg = 16 ->
    openFileBytes (FILE_MAGIC ++ [FILE_VERSION] ++ nonce ++ tg ++ ct) fileKey
    = if length ct <? 1 then RErr ErrFileTooSmall
      else gcmDecrypt fileKey nonce tg ct (FILE_MAGIC ++ [FILE_VERSION]).
  Proof.
    intros Hn Ht. unfold openFileBytes.
    assert (length (FILE_MAGIC ++ [FILE_VERSION] ++ nonce ++ tg ++ ct)
            = 37 + length ct) as Hl.
    { rewrite !length_app, Hn, Ht. cbn. lia. }
    rewrite Hl.
    change (length FILE_MAGIC + 1 + IV_LEN + TAG_LEN + 1) with 38.
    destruct (Nat.ltb_spec (length ct) 1) as [Hc|Hc];
      destruct (Nat.ltb_spec (37 + length ct) 38); try lia; [reflexivity|].
    assert (subarray (FILE_MAGIC ++ [FILE_VERSION] ++ nonce ++ tg ++ ct) 0
              (length FILE_MAGIC) = FILE_MAGIC) as -> by reflexivity.
    rewrite bool_decide_eq_true_2 by reflexivity. cbn [negb].
    assert (readUInt8 (FILE_MAGIC ++ [FILE_VERSION] ++ nonce ++ tg ++ ct)
              (length FILE_MAGIC) = ROk FILE_VERSION) as -> by reflexivity.
    cbn [mbind res_bind]. rewrite bool_decide_eq_true_2 by reflexivity. cbn [negb].
    unfold aesGcmDecrypt.
    change (length FILE_MAGIC + 1) with 9.
    change (9 + IV_LEN) with 21. change (21 + TAG_LEN) with 37.
    replace (FILE_MAGIC ++ [FILE_VERSION] ++ nonce ++ tg ++ ct)
      with ((FILE_MAGIC ++ [FILE_VERSION]) ++ nonce ++ tg ++ ct)
      by (rewrite <- app_assoc; reflexivity).
    rewrite (subarray_app_mid _ nonce _ 9 21) by (try reflexivity; exact Hn).
    replace ((FILE_MAGIC ++ [FILE_VERSION]) ++ nonce ++ tg ++ ct)
      with (((FILE_MAGIC ++ [FILE_VERSION]) ++ nonce) ++ tg ++ ct)
      by (rewrite <- !app_assoc; reflexivity).
    rewrite (subarray_app_mid _ tg ct 21 37)
      by (rewrite ?length_app, ?Hn; try reflexivity; exact Ht).
    replace (((FILE_MAGIC ++ [FILE_VERSION]) ++ nonce) ++ tg ++ ct)
      with ((((FILE_MAGIC ++ [FILE_VERSION]) ++ nonce) ++ tg) ++ ct)
      by (rewrite <- !app_assoc; reflexivity).
    rewrite drop_app_length' by (rewrite !length_app, Hn, Ht; reflexivity).
    reflexivity.
  Qed.

  (** Whatever the platform, the envelope of the empty buffer has 37 bytes
      and is refused by the length check of [openFileBytes]. *)
Lemma seal_empty_file_rejected fileKey g :
    length fileKey = 32 ->
    exists env, sealFileBytes [] fileKey g = ROk env /\ length env = 37 /\
                openFileBytes env fileKey = RErr ErrFileTooSmall.
  Proof.
    intros Hk.
    destruct (seal_file_shape [] fileKey g Hk) as (ct & tg & _ & Hc & Ht & _ & Hs).
    eexists. split; [exact Hs|].
    destruct ct; [|discriminate]. split.
    - rewrite !length_app, random_length, Ht. reflexivity.
    - rewrite open_file_parts by (try apply random_length; exact Ht). reflexivity.
  Qed.

End FileCodec.

(** C1, as amended.  Sealing and opening are inverse: for the database
    envelope, for every plaintext (the empty one included) and every vault
    derived from the passphrase with a 16-byte salt and cost parameters that
    fit 32 bits; for the attachment envelope of the codec, for every
    non-empty plaintext and 32-byte key. *)
Theorem seal_open_roundtrip `{NodeCrypto} :
  (forall (b : bytes) passphrase salt params v g,
      deriveKeysFromPassphrase passphrase salt params = ROk v ->
      length salt = SALT_LEN -> validParams params ->
      exists env,
        sealDatabaseBytes b (Some v) g = ROk env /\
        openVaultFromDatabaseEnvelope env passphrase
        = ROk {| plaintext := b; vault := v |})
  /\
  (forall (b fileKey : bytes) g,
      length fileKey = 32 -> b <> [] ->
      exists env,
        sealFileBytes b fileKey g = ROk env /\ openFileBytes env fileKey = ROk b).
Proof.
  split.
  - intros b passphrase salt params v g Hd Hs Hp.
    exact (sealed_db_opens b passphrase salt params v g Hd Hs Hp).
  - intros b fileKey g Hk Hb.
    destruct (seal_file_shape b fileKey g Hk) as (ct & tg & _ & Hc & Ht & Hdec & Hs).
    eexists. split; [exact Hs|].
    rewrite open_file_parts by (try apply random_length; exact Ht).
    destruct (Nat.ltb_spec (length ct) 1) as [Hlt|_]; [|exact Hdec].
    destruct b; [congruence|]. simpl in Hc. lia.
Qed.

Lemma seal_open_roundtrip_witness :
  (exists env,
      @sealDatabaseBytes refCrypto [] (Some Demo.vault) 1 = ROk env /\
      @openVaultFromDatabaseEnvelope refCrypto env Demo.passphrase
      = ROk {| plaintext := []; vault := Demo.vault |})
  /\
  (exists env,
      @sealFileBytes refCrypto [x61] (fileKey Demo.vault) 3 = ROk env /\
      @openFileBytes refCrypto env (fileKey Demo.vault) = ROk [x61]).
Proof.
  destruct (@seal_open_roundtrip refCrypto) as [Hdb Hfile]. split.
  - apply (Hdb [] Demo.passphrase Demo.salt DEFAULT_SCRYPT_PARAMS Demo.vault 1).
    + vm_compute. reflexivity.
    + reflexivity.
    + unfold validParams, u32Range. cbn. lia.
  - apply (Hfile [x61] (fileKey Demo.vault) 3).
    + reflexivity.
    + discriminate.
Defined.

(** C1, as stated, fails for the empty attachment: its 37-byte envelope is
    below the 38-byte minimum that [openFileBytes] demands. *)
Lemma empty_attachment_does_not_round_trip :
  exists env,
    @sealFileBytes refCrypto [] (fileKey Demo.vault) 3 = ROk env /\
    length env = 37 /\
    @openFileBytes refCrypto env (fileKey Demo.vault) = RErr ErrFileTooSmall.
Proof.
  apply (@seal_empty_file_rejected refCrypto). reflexivity.
Qed.

(** ** Passphrase normalisation *)

(** C9, as amended.  The passphrase is put in form NFKC (compatibility
    decomposition, then canonical composition) before stretching, a
    non-string counts as the empty passphrase, and two canonically
    equivalent passphrases derive the same key material for the same salt
    and cost parameters. *)
Theorem passphrase_normalized_nfkc `{NodeCrypto} :
  (forall s, normalizePassphrase (PStr s) = normalize NFKC s) /\
  normalizePassphrase PNotString = [] /\
  (forall a b salt params,
      normalize NFD a = normalize NFD b ->
      deriveKeysFromPassphrase (PStr a) salt params
      = deriveKeysFromPassphrase (PStr b) salt params).
Proof.
  split; [reflexivity|]. split; [reflexivity|].
  intros a b salt params Hab. unfold deriveKeysFromPassphrase, normalizePassphrase.
  rewrite (normalize_nfkc_canonical a b Hab). reflexivity.
Qed.

(** "é" precomposed and as "e" followed by the combining acute accent. *)
Lemma passphrase_normalized_nfkc_witness :
  @deriveKeysFromPassphrase refCrypto (PStr [0xE9%Z]) Demo.salt DEFAULT_SCRYPT_PARAMS
  = @deriveKeysFromPassphrase refCrypto (PStr [0x65%Z; 0x301%Z]) Demo.salt
      DEFAULT_SCRYPT_PARAMS.
Proof.
  destruct (@passphrase_normalized_nfkc refCrypto) as (_ & _ & Hcanon).
  apply (Hcanon [0xE9%Z] [0x65%Z; 0x301%Z] Demo.salt DEFAULT_SCRYPT_PARAMS).
  reflexivity.
Defined.

(** C9, as stated, fails: the ligature U+FB01 is left alone by canonical
    composition but replaced by "fi" in the normalised passphrase. *)
Lemma normalizePassphrase_is_not_nfc :
  @normalizePassphrase refCrypto (PStr [0xFB01%Z]) = [0x66%Z; 0x69%Z] /\
  @normalize refCrypto NFC [0xFB01%Z] = [0xFB01%Z] /\
  @normalizePassphrase refCrypto (PStr [0xFB01%Z]) <> @normalize refCrypto NFC [0xFB01%Z].
Proof.
  split; [reflexivity|]. split; [reflexivity|]. discriminate.
Qed.

(** ** Layout of the attachment envelope *)

(** The codec's [sealFileBytes] writes the tag between nonce and ciphertext. *)
Lemma sealFileBytes_layout `{NodeCrypto} (b fileKey : bytes) g env :
  sealFileBytes b fileKey g = ROk env ->
  exists ct tg,
    gcmEncrypt fileKey (randomBytes IV_LEN g) (FILE_MAGIC ++ [FILE_VERSION]) b
    = ROk (ct, tg) /\
    env = FILE_MAGIC ++ [FILE_VERSION] ++ randomBytes IV_LEN g ++ tg ++ ct.
Proof.
  unfold sealFileBytes, aesGcmEncrypt.
  assert (subarray (buildFileHeader (alloc IV_LEN)) 0
            (length (buildFileHeader (alloc IV_LEN)) - IV_LEN)
          = FILE_MAGIC ++ [FILE_VERSION]) as -> by reflexivity.
  destruct (gcmEncrypt _ _ _ _) as [[ct tg]|e]; [|discriminate].
  intros [= <-]. exists ct, tg. split; reflexivity.
Qed.

(** ** The authenticated header *)

Section AuthenticatedHeader.
Context `{NodeCrypto}.






End AuthenticatedHeader.



(** With N set to 0 (byte 11 changed from 80 to 00) the key derivation
    takes its default N and succeeds with another key; the envelope is
    refused by the tag check. *)
Lemma zero_cost_parameter_fails_the_tag_check :
  let env' := <[11 := x00]> Demo.envelope in
  spN (headerParams env') = 0%Z /\
  @openVaultFromDatabaseEnvelope refCrypto env' Demo.passphrase
  = RErr (ErrCrypto AuthFailed).
Proof.
  split; vm_compute; reflexivity.
Qed.

(** On the reference platform, each of the 28 * 8 envelopes that differ from
    the envelope of the empty database in one bit of the cost parameters or
    the salt is rejected when opened with the passphrase that sealed it. *)
Lemma every_single_bit_flip_of_the_header_is_rejected :
  length Demo.headerVariants = 28 * 8 /\
  Forall (fun env' =>
            exists e,
              @openVaultFromDatabaseEnvelope refCrypto env' Demo.passphrase = RErr e /\
              (e = ErrCrypto AuthFailed \/ e = ErrCrypto ScryptInvalidParams))
    Demo.headerVariants.
Proof.
  assert (length Demo.headerVariants = 28 * 8 /\
          forallb Demo.isRejected Demo.headerVariants = true) as [Hlen Hall]
      by (vm_compute; split; reflexivity).
  split; [exact Hlen|].
  apply Forall_forall. intros env' Hin.
  rewrite forallb_forall in Hall.
  specialize (Hall env' (proj1 (list_elem_of_In _ _) Hin)).
  unfold Demo.isRejected in Hall.
  destruct (@openVaultFromDatabaseEnvelope refCrypto env' Demo.passphrase) as [o|e];
    [discriminate|].
  exists e. split; [reflexivity|].
  apply orb_prop in Hall as [X|X]; apply bool_decide_eq_true_1 in X; auto.
Qed.



(** ** Claims about the handlers *)

Ltac throws_only_step :=
  first
    [ apply ThrowsOnly_pure
    | apply ThrowsOnly_gets
    | apply ThrowsOnly_modify
    | apply ThrowsOnly_drawTape
    | apply ThrowsOnly_consoleError
    | apply persistDb_never_throws
    | apply ThrowsOnly_throw; intros (? & ? & ?); discriminate
    | apply ThrowsOnly_bind; [|intros ?]
    | match goal with
      | |- ThrowsOnly _ (match ?x with _ => _ end) => destruct x
      | |- ThrowsOnly _ (if ?b then _ else _) => destruct b
      end ].


Section HandlerFacts.
Context `{NodeCrypto} `{HostEnv}.


End HandlerFacts.




Section AttachmentsAdd.
Context `{NodeCrypto} `{HostEnv}.

Lemma fsGuard_cases op p w :
  (exists w1, fsGuard op p w = (Ok tt, w1) /\ w_fs w1 = w_fs w /\ w_db w1 = w_db w /\
              w_locked w1 = w_locked w /\ w_vault w1 = w_vault w /\
              w_tape w1 = w_tape w /\ w_console w1 = w_console w /\
              exists k, w_faults w = take k (w_faults w) ++ w_faults w1) \/
  (exists w1, fsGuard op p w = (Throw (ErrIo op p), w1) /\ w_fs w1 = w_fs w /\
              w_db w1 = w_db w /\ w_faults w = FThrow :: w_faults w1) \/
  (exists w1, fsGuard op p w = (Halt, w1) /\ w_fs w1 = w_fs w /\ w_db w1 = w_db w).
Proof.
  unfold fsGuard. destruct (w_faults w) as [|[| |] rest] eqn:E.
  - left. exists w. repeat split; try reflexivity. exists 0. rewrite E. reflexivity.
  - left. eexists. repeat split; try reflexivity. exists 1. reflexivity.
  - right. left. eexists. repeat split; reflexivity.
  - right. right. eexists. repeat split; reflexivity.
Qed.

(** One turn of the loop for an element that is passed over. *)
Lemma addOneAttachment_skipped safeProjectId attachmentsDir inserted src w r w' :
  skippedSource (w_fs w) src ->
  addOneAttachment safeProjectId attachmentsDir inserted src w = (r, w') ->
  (r = Ok inserted \/ r = Halt) /\ w_fs w' = w_fs w /\ w_db w' = w_db w.
Proof.
  unfold skippedSource, rejectedSource, addOneAttachment, addOneAttachmentTry, tryCatch.
  destruct src as [s| | |]; try (intros _ [= <- <-]; auto).
  intros Hrej.
  destruct (String.length s =? 0) eqn:El.
  { intros [= <- <-]. auto. }
  destruct Hrej as [->|Hrej]; [discriminate El|].
  rewrite bind_unfold. unfold existsSync at 1. unfold gets at 1.
  destruct (w_fs w !! pathResolve s) as [n|] eqn:En.
  2:{ rewrite bool_decide_eq_false_2 by (intros [? ?]; discriminate).
      intros [= <- <-]. auto. }
  rewrite bool_decide_eq_true_2 by eauto. cbn [negb].
  rewrite bind_unfold. unfold statSync. rewrite bind_unfold.
  destruct (fsGuard_cases OpStat (pathResolve s) w)
    as [(w1 & -> & Hfs & Hdb & _)|[(w1 & -> & Hfs & Hdb & _)|(w1 & -> & Hfs & Hdb)]].
  - rewrite bind_unfold. unfold gets at 1. rewrite Hfs, En. unfold pure at 1.
    destruct Hrej as [Hf|Hsz].
    + rewrite Hf. cbn [negb]. intros [= <- <-]. auto.
    + destruct (isFile n); cbn [negb]; [|intros [= <- <-]; auto].
      apply Z.ltb_lt in Hsz. rewrite Hsz. intros [= <- <-]. auto.
  - unfold consoleError, modify. rewrite bind_unfold. intros [= <- <-]. auto.
  - intros [= <- <-]. auto.
Qed.

Lemma addAttachments_all_skipped safeProjectId attachmentsDir paths :
  forall inserted w r w',
    Forall (skippedSource (w_fs w)) paths ->
    foldM (addOneAttachment safeProjectId attachmentsDir) inserted paths w = (r, w') ->
    (r = Ok inserted \/ r = Halt) /\ w_fs w' = w_fs w /\ w_db w' = w_db w.
Proof.
  induction paths as [|s paths IH]; intros inserted w r w' Hall.
  - intros [= <- <-]. auto.
  - inversion Hall as [|? ? Hs Hrest]; subst. cbn [foldM]. intros E.
    apply bind_inv in E as [(a & w1 & E1 & E2)|[(e & E1 & ->)|[E1 ->]]].
    + destruct (addOneAttachment_skipped _ _ _ _ _ _ _ Hs E1) as ([Ha|Ha] & Hfs & Hdb);
        [|discriminate].
      injection Ha as ->.
      destruct (IH inserted w1 r w') as (Hr & Hfs' & Hdb'); [|exact E2|].
      * rewrite Hfs. exact Hrest.
      * rewrite Hfs', Hdb'. auto.
    + destruct (addOneAttachment_skipped _ _ _ _ _ _ _ Hs E1) as ([Ha|Ha] & _);
        discriminate.
    + destruct (addOneAttachment_skipped _ _ _ _ _ _ _ Hs E1) as (_ & Hfs & Hdb). auto.
Qed.

(** The catch of the loop body leaves nothing to throw. *)
Lemma addOneAttachment_never_throws safeProjectId attachmentsDir inserted src :
  ThrowsOnly (fun _ => False) (addOneAttachment safeProjectId attachmentsDir inserted src).
Proof.
  unfold addOneAttachment. apply ThrowsOnly_tryCatch. intros e.
  apply ThrowsOnly_bind; [apply ThrowsOnly_consoleError|intros _; apply ThrowsOnly_pure].
Qed.

(** The loop body writes in the project's directory and creates the
    directories that lead to it. *)
Lemma Extends_addOneAttachment safeProjectId attachmentsDir inserted src :
  Extends (fun q => attachmentsDir `prefix_of` q)
    (addOneAttachment safeProjectId attachmentsDir inserted src).
Proof.
  unfold addOneAttachment. apply Extends_tryCatch;
    [|intros e; apply Extends_of_Touches; touches].
  unfold addOneAttachmentTry.
  destruct src as [s| | |]; try (apply Extends_of_Touches; touches; fail).
  destruct (String.length s =? 0); [apply Extends_of_Touches; touches|].
  cbv zeta.
  apply Extends_bind; [apply Extends_of_Touches; touches|intros e].
  destruct (negb e); [apply Extends_of_Touches; touches|].
  apply Extends_bind; [apply Extends_of_Touches; touches|intros sourceStat].
  destruct (negb (isFile sourceStat)); [apply Extends_of_Touches; touches|].
  destruct (MAX_ATTACHMENT_BYTES <? fileSize sourceStat)%Z;
    [apply Extends_of_Touches; touches|].
  apply Extends_bind; [apply Extends_of_Touches; unfold randomUUID; touches|intros uuid].
  destruct (negb (isContainedPath _ _)); [apply Extends_of_Touches; touches|].
  cbn [ENCRYPTION_ENABLED]. cbv iota.
  apply Extends_bind.
  { apply Extends_bind; [apply Extends_of_Touches; unfold currentFileKey; touches|].
    intros key. apply Extends_encryptAttachmentFile. }
  intros _. apply Extends_of_Touches.
  unfold insertAttachment, recordAudit, getAttachment, randomUUID.
  cbn [ENCRYPTION_ENABLED andb]. touches.
Qed.

(** A run of the [try] block in an open session: the process stops; or the
    block ends, by [continue] or by an exception, with the database as it
    was; or it has stored a source that is a regular file of at most 1 GiB
    and has added the row for it, which is the entry it appends. *)
Lemma addOneAttachmentTry_run safeProjectId attachmentsDir inserted src w r w' db :
  w_db w = Some db -> w_locked w = false ->
  addOneAttachmentTry safeProjectId attachmentsDir inserted src w = (r, w') ->
  r = Halt \/
  (((exists e, r = Throw e) \/ r = Ok inserted) /\
   w_db w' = Some db /\ w_locked w' = false) \/
  (exists s data a db',
     src = JStr s /\ w_fs w !! pathResolve s = Some (NFile data) /\
     (fileSize (NFile data) <= MAX_ATTACHMENT_BYTES)%Z /\
     r = Ok (inserted ++ [Some a]) /\
     w_db w' = Some db' /\ w_locked w' = false /\
     attachments db' = attachments db ++ [a] /\ notes db' = notes db /\
     a_projectId a = safeProjectId /\
     a_originalFileName a = basename (pathResolve s) /\
     a_sizeBytes a = fileSize (NFile data)).
Proof.
  intros Hdb Hl E. unfold addOneAttachmentTry in E.
  assert (forall w0 : World, session w0 = session w ->
            w_db w0 = Some db /\ w_locked w0 = false) as Hsame.
  { intros w0 Hs. unfold session in Hs. injection Hs as -> -> _. auto. }
  destruct src as [s| | |];
    try (injection E as <- <-; right; left; auto).
  destruct (String.length s =? 0); [injection E as <- <-; right; left; auto|].
  cbv zeta in E.
  rewrite bind_unfold in E. unfold existsSync, gets at 1 in E.
  destruct (bool_decide (is_Some (w_fs w !! pathResolve s))); cbn [negb] in E;
    [|injection E as <- <-; right; left; auto].
  assert (KeepsSession (statSync (pathResolve s))) as Ks by (unfold statSync; keeps).
  apply bind_inv in E as [(n & w1 & Es & E)|[(e & Es & ->)|[_ ->]]];
    [| |left; reflexivity].
  2:{ right. left. split; [left; eauto|]. exact (Hsame _ (Ks _ _ _ Es)). }
  destruct (statSync_ok _ _ _ _ Es) as [Hfs1 Hn].
  pose proof (Ks _ _ _ Es) as S1. clear Ks Es.
  destruct n as [data|]; cbn [isFile negb] in E;
    [|injection E as <- <-; right; left; split; [auto|exact (Hsame _ S1)]].
  destruct (Z.ltb_spec MAX_ATTACHMENT_BYTES (fileSize (NFile data))) as [|Hsz];
    [injection E as <- <-; right; left; split; [auto|exact (Hsame _ S1)]|].
  rewrite bind_unfold in E. unfold randomUUID at 1 in E.
  rewrite bind_unfold in E. unfold drawTape at 1 in E. unfold pure at 1 in E.
  set (uuid := uuidOf (randomBytes 16 (w_tape w1))) in E.
  set (w2 := setTape (S (w_tape w1)) w1) in E.
  assert (session w2 = session w) as S2 by exact S1. clearbody w2.
  set (storedFileName := if ENCRYPTION_ENABLED
                         then uuid +:+ extname (basename (pathResolve s)) +:+ ".enc"
                         else uuid +:+ extname (basename (pathResolve s))) in E.
  destruct (isContainedPath (attachmentsDir ++ [storedFileName]) attachmentsDir);
    cbn [negb] in E;
    [|injection E as <- <-; right; left; split; [auto|exact (Hsame _ S2)]].
  cbn [ENCRYPTION_ENABLED] in E. cbv iota in E.
  match type of E with
  | (?m ≫= _) _ = _ => assert (KeepsSession m) as Ke
  end.
  { unfold currentFileKey, encryptAttachmentFile, readFileSync, writeFileSync,
      renameSync, mkdirSync. keeps. }
  apply bind_inv in E as [([] & w3 & Ee & E)|[(e & Ee & ->)|[_ ->]]];
    [| |left; reflexivity].
  2:{ right. left. split; [left; eauto|].
      apply Hsame. rewrite (Ke _ _ _ Ee). exact S2. }
  assert (session w3 = session w) as S3 by (rewrite (Ke _ _ _ Ee); exact S2).
  clear Ke Ee.
  rewrite bind_unfold in E. unfold randomUUID at 1 in E.
  rewrite bind_unfold in E. unfold drawTape at 1 in E. unfold pure at 1 in E.
  set (id := uuidOf (randomBytes 16 (w_tape w3))) in E.
  set (w4 := setTape (S (w_tape w3)) w3) in E.
  assert (session w4 = session w) as S4 by exact S3.
  assert (w_now w4 = w_now w3) as Hnow by reflexivity. clearbody w4.
  rewrite bind_unfold in E. unfold nowIso, gets at 1 in E.
  destruct (Hsame _ S4) as [Hdb4 Hl4].
  set (row := {| a_id := id; a_projectId := safeProjectId;
                 a_originalFileName := basename (pathResolve s);
                 a_storedFileName := storedFileName;
                 a_storedRelativePath := [safeProjectId; storedFileName];
                 a_sizeBytes := fileSize (NFile data); a_addedAt := w_now w4 |}) in E.
  apply bind_inv in E as [([] & w5 & Ei & E)|[(e & Ei & ->)|[Ei ->]]].
  2:{ right. left. split; [left; eauto|].
      unfold insertAttachment in Ei. rewrite bind_unfold in Ei. unfold gets at 1 in Ei.
      rewrite Hdb4 in Ei.
      destruct (existsb _ _); [|discriminate Ei]. injection Ei as _ <-. auto. }
  2:{ unfold insertAttachment in Ei. rewrite bind_unfold in Ei. unfold gets at 1 in Ei.
      rewrite Hdb4 in Ei. destruct (existsb _ _); discriminate Ei. }
  unfold insertAttachment in Ei. rewrite bind_unfold in Ei. unfold gets at 1 in Ei.
  rewrite Hdb4 in Ei.
  destruct (existsb (fun a => bool_decide (a_id a = a_id row)) (attachments db))
    eqn:Eex; [discriminate Ei|].
  injection Ei as <-.
  assert (Forall (fun a => a_id a <> id) (attachments db)) as Hfresh.
  { apply Forall_forall. intros a Ha Heq.
    assert (existsb (fun a0 => bool_decide (a_id a0 = a_id row)) (attachments db) = true)
      as X.
    { apply existsb_exists. exists a. split; [apply list_elem_of_In; exact Ha|].
      apply bool_decide_eq_true_2. exact Heq. }
    congruence. }
  apply bind_inv in E as [(aid & w6 & Er & E)|[(x & Er & _)|[Er _]]].
  2,3: eapply recordAudit_ok in Er as (? & X & _);
       [discriminate X|reflexivity|exact Hl4].
  eapply recordAudit_ok in Er as (aid' & _ & Hdb6 & Hl6 & _); [|reflexivity|exact Hl4].
  rewrite bind_unfold in E. unfold getAttachment, gets at 1 in E.
  rewrite Hdb6 in E. cbn [mbind option_bind attachments insertAudit] in E.
  rewrite filter_app, (filter_none _ _ Hfresh) in E.
  rewrite filter_cons_True in E by reflexivity. cbn [app head] in E.
  injection E as <- <-.
  right. right. eexists s, data, row, _.
  split; [reflexivity|]. split; [exact Hn|]. split; [exact Hsz|].
  split; [reflexivity|]. split; [exact Hdb6|]. split; [exact Hl6|].
  repeat split.
Qed.

(** The loop of attachments:add in an open session: every entry it adds to
    the list, and every row it adds to the database, stands for a source it
    accepted. *)
Lemma addAttachments_loop (safeProjectId : string) (dir : Path) (filePaths : list JsVal)
    (disk0 : gmap Path Node) (db0 : Db) :
  forall paths inserted w r w' db,
    (forall x, x ∈ paths -> x ∈ filePaths) ->
    w_db w = Some db -> w_locked w = false ->
    addsDirsOutside (fun q => dir `prefix_of` q) disk0 (w_fs w) ->
    (forall entry, entry ∈ inserted ->
       exists a, entry = Some a /\ a ∈ attachments db /\
                 rowOfAcceptedSource disk0 dir filePaths a) ->
    (forall a, a ∈ attachments db ->
       a ∈ attachments db0 \/ rowOfAcceptedSource disk0 dir filePaths a) ->
    notes db = notes db0 ->
    foldM (addOneAttachment safeProjectId dir) inserted paths w = (Ok r, w') ->
    exists db',
      w_db w' = Some db' /\ w_locked w' = false /\
      addsDirsOutside (fun q => dir `prefix_of` q) disk0 (w_fs w') /\
      (forall entry, entry ∈ r ->
         exists a, entry = Some a /\ a ∈ attachments db' /\
                   rowOfAcceptedSource disk0 dir filePaths a) /\
      (forall a, a ∈ attachments db' ->
         a ∈ attachments db0 \/ rowOfAcceptedSource disk0 dir filePaths a) /\
      notes db' = notes db0.
Proof.
  induction paths as [|src paths IH]; intros inserted w r w' db Hsub Hdb Hl Hdisk Hins Hrows Hnotes E.
  { injection E as <- <-. exists db. auto 7. }
  cbn [foldM] in E.
  apply bind_inv in E as [(acc & w1 & E1 & E2)|[(? & _ & ?)|[_ ?]]]; try discriminate.
  pose proof (addsDirsOutside_trans _ _ _ _ Hdisk
                (Extends_addOneAttachment _ _ _ _ _ _ _ E1)) as Hdisk1.
  assert (forall x, x ∈ paths -> x ∈ filePaths) as Hsub'
      by (intros x Hx; apply Hsub; right; exact Hx).
  unfold addOneAttachment in E1.
  assert ((acc = inserted /\ w_db w1 = Some db /\ w_locked w1 = false) \/
          (exists s data a db',
              src = JStr s /\ w_fs w !! pathResolve s = Some (NFile data) /\
              (fileSize (NFile data) <= MAX_ATTACHMENT_BYTES)%Z /\
              acc = inserted ++ [Some a] /\
              w_db w1 = Some db' /\ w_locked w1 = false /\
              attachments db' = attachments db ++ [a] /\ notes db' = notes db /\
              a_projectId a = safeProjectId /\
              a_originalFileName a = basename (pathResolve s) /\
              a_sizeBytes a = fileSize (NFile data))) as [(-> & Hdb1 & Hl1)|Hadd].
  { apply tryCatch_inv in E1 as [(e & wt & Et & Eh)|[Et _]].
    - left. unfold consoleError, modify in Eh. rewrite bind_unfold in Eh.
      injection Eh as <- <-. cbn [w_db w_locked logError].
      destruct (addOneAttachmentTry_run _ _ _ _ _ _ _ _ Hdb Hl Et)
        as [?|[(_ & ? & ?)|(? & ? & ? & ? & _ & _ & _ & ? & _)]];
        try discriminate; auto.
    - destruct (addOneAttachmentTry_run _ _ _ _ _ _ _ _ Hdb Hl Et)
        as [?|[([[? ?]|Hr] & ? & ?)|(s & data & a & db' & ? & ? & ? & Hr & ?)]];
        try discriminate.
      + injection Hr as ->. auto.
      + injection Hr as ->. right. exists s, data, a, db'. auto 12. }
  - exact (IH inserted w1 r w' db Hsub' Hdb1 Hl1 Hdisk1 Hins Hrows Hnotes E2).
  - destruct Hadd as (s & data & a & db' & -> & Hsrc & Hsz & -> & Hdb1 & Hl1
                      & Hatt & Hno & Hpid & Hname & Hsize).
    assert (rowOfAcceptedSource disk0 dir filePaths a) as Hrow.
    { exists s. split; [apply Hsub; left|]. split; [exact Hname|].
      destruct (decide (dir `prefix_of` pathResolve s)) as [Hin|Hout]; [right; exact Hin|].
      left. exists data. split; [|split].
      - exact (addsDirsOutside_file _ _ _ _ _ Hdisk Hout Hsrc).
      - exact Hsize.
      - rewrite Hsize. exact Hsz. }
    apply (IH (inserted ++ [Some a]) w1 r w' db' Hsub' Hdb1 Hl1 Hdisk1); [| |congruence|exact E2].
    + intros entry Hentry. apply elem_of_app in Hentry as [Hentry|Hentry].
      * destruct (Hins entry Hentry) as (a0 & -> & Ha0 & Hp0).
        exists a0. split; [reflexivity|]. split; [|exact Hp0].
        rewrite Hatt. apply elem_of_app. left. exact Ha0.
      * apply list_elem_of_singleton in Hentry as ->.
        exists a. split; [reflexivity|]. split; [|exact Hrow].
        rewrite Hatt. apply elem_of_app. right. apply list_elem_of_singleton. reflexivity.
    + intros a0 Ha0. rewrite Hatt in Ha0. apply elem_of_app in Ha0 as [Ha0|Ha0].
      * exact (Hrows a0 Ha0).
      * apply list_elem_of_singleton in Ha0 as ->. right. exact Hrow.
Qed.

End AttachmentsAdd.

(** C10.  A call of attachments:add raises no error on account of a source:
    it raises only the errors of its own entry (the vault is locked, the
    project identifier is not a version-4 UUID, the project's directory
    cannot be created), each before any source is looked at and with the
    disk and the database left as they were.  Whatever it returns, every
    entry of the list is a row of the database that stands for a source of
    the list that is a regular file of at most 1 GiB (it carries its base
    name and size), and so does every row the call has added; notes are not
    touched.  A call whose sources are all passed over (not a string, the
    empty string, nothing at the path, not a regular file, more than
    1024*1024*1024 bytes) returns the empty list if it returns, leaves the
    database as it was, and changes the disk only by creating directories
    and by re-sealing the database envelope.  One turn of the loop over such
    a source raises nothing and leaves list, disk and database as they
    were. *)
Theorem rejected_sources_are_skipped `{NodeCrypto} `{HostEnv} :
  (forall projectId filePaths w r w',
      attachmentsAdd projectId (Some filePaths) w = (r, w') ->
      (forall e, r = Throw e ->
         (e = ErrVaultLocked \/ e = ErrInvalid "project ID" \/
          exists dir, getSafeProjectAttachmentDir projectId = Some dir /\
                      e = ErrIo OpMkdir dir) /\
         w_fs w' = w_fs w /\ w_db w' = w_db w) /\
      (forall inserted, r = Ok inserted ->
         exists dir db db',
           getSafeProjectAttachmentDir projectId = Some dir /\
           w_db w = Some db /\ w_db w' = Some db' /\ notes db' = notes db /\
           (forall entry, entry ∈ inserted ->
              exists a, entry = Some a /\ a ∈ attachments db' /\
                        rowOfAcceptedSource (w_fs w) dir filePaths a) /\
           (forall a, a ∈ attachments db' ->
              a ∈ attachments db \/ rowOfAcceptedSource (w_fs w) dir filePaths a)) /\
      (Forall (skippedSource (w_fs w)) filePaths ->
         (forall inserted, r = Ok inserted -> inserted = []) /\
         w_db w' = w_db w /\
         addsDirsOutside envelopeArea (w_fs w) (w_fs w')))
  /\
  (forall safeProjectId attachmentsDir inserted sourcePath w r w',
      skippedSource (w_fs w) sourcePath ->
      addOneAttachment safeProjectId attachmentsDir inserted sourcePath w = (r, w') ->
      (r = Ok inserted \/ r = Halt) /\ w_fs w' = w_fs w /\ w_db w' = w_db w).
Proof.
  split; [|intros; eapply addOneAttachment_skipped; eassumption].
  intros projectId filePaths w r w' E. unfold attachmentsAdd in E.
  apply bind_inv in E as [([] & w0 & Ea & E)|[(e & Ea & ->)|[Ea _]]].
  3:{ destruct (assertUnlocked_no_halt _ _ Ea). }
  2:{ destruct (assertUnlocked_throw _ _ _ Ea) as [-> ->].
      split; [|split].
      - intros e0 [= <-]. auto.
      - intros ? ?. discriminate.
      - intros _. split; [intros ? ?; discriminate|].
        split; [reflexivity|apply addsDirsOutside_refl]. }
  destruct (assertUnlocked_ok _ _ _ Ea) as (-> & Hl & _ & [db Hdb]). clear Ea.
  apply bind_inv in E as [(pid & w0 & Eu & E)|[(e & Eu & ->)|[Eu _]]].
  3:{ destruct (assertUuid_no_halt _ _ _ _ Eu). }
  2:{ destruct (assertUuid_throw _ _ _ _ _ Eu) as [-> ->].
      split; [|split].
      - intros e0 [= <-]. auto.
      - intros ? ?. discriminate.
      - intros _. split; [intros ? ?; discriminate|].
        split; [reflexivity|apply addsDirsOutside_refl]. }
  destruct (assertUuid_ok _ _ _ _ _ Eu) as (-> & -> & Hpid). clear Eu.
  rewrite (getSafeProjectAttachmentDir_valid _ Hpid) in *.
  set (dir := attachmentsRoot ++ [pid]) in *.
  destruct ((length filePaths =? 0) || (100 <? length filePaths)).
  { injection E as <- <-. split; [|split].
    - intros ? ?. discriminate.
    - intros inserted [= <-]. exists dir, db, db.
      split; [reflexivity|]. split; [exact Hdb|]. split; [exact Hdb|].
      split; [reflexivity|]. split; [intros ? X; inversion X | auto].
    - intros _. split; [intros ? [= <-]; reflexivity|].
      split; [reflexivity|apply addsDirsOutside_refl]. }
  assert (KeepsSession (ensureDir dir)) as Kd by (unfold ensureDir, mkdirSync; keeps).
  pose proof (Extends_ensureDir (fun _ => False) dir) as Xd.
  apply bind_inv in E as [([] & w1 & Ed & E)|[(e & Ed & ->)|[Ed ->]]].
  3:{ pose proof (Kd _ _ _ Ed) as Hs. unfold session in Hs. injection Hs as Hdb' _ _.
      split; [intros ? ?; discriminate|]. split; [intros ? ?; discriminate|].
      intros _. split; [intros ? ?; discriminate|]. split; [exact Hdb'|].
      exact (addsDirsOutside_weaken _ _ _ _ (fun q (F : False) => match F with end)
               (Xd _ _ _ Ed)). }
  2:{ destruct (ensureDir_throw _ _ _ _ Ed) as (-> & Hfs & Hs).
      unfold session in Hs. injection Hs as Hdb' _ _.
      split; [|split].
      - intros e0 [= <-]. split; [|auto]. right. right. exists dir. auto.
      - intros ? ?. discriminate.
      - intros _. split; [intros ? ?; discriminate|]. split; [exact Hdb'|].
        rewrite Hfs. apply addsDirsOutside_refl. }
  pose proof (Kd _ _ _ Ed) as S1. unfold session in S1. injection S1 as Hdb1 Hl1 _.
  rewrite Hdb in Hdb1. rewrite Hl in Hl1.
  pose proof (Xd _ _ _ Ed) as Hgrow. clear Kd Xd Ed.
  apply bind_inv in E as [(inserted & w2 & Ef & E)|[(e & Ef & ->)|[Ef ->]]].
  2:{ destruct (ThrowsOnly_foldM (fun _ => False) _ _
                  (addOneAttachment_never_throws pid dir) _ _ _ _ Ef). }
  2:{ split; [intros ? ?; discriminate|]. split; [intros ? ?; discriminate|].
      intros Hall.
      assert (Forall (skippedSource (w_fs w1)) filePaths) as Hall1.
      { eapply Forall_impl; [exact Hall|]. intros [s| | |] Hs; cbn in *; try exact I.
        destruct Hs as [?|Hs]; [left; assumption|right].
        apply (rejectedSource_stable (w_fs w)); [|exact Hs].
        intros q. apply (Hgrow q). tauto. }
      destruct (addAttachments_all_skipped _ _ _ _ _ _ _ Hall1 Ef) as (_ & Hfs2 & Hdb2).
      split; [intros ? ?; discriminate|]. split; [congruence|].
      rewrite Hfs2.
      exact (addsDirsOutside_weaken _ _ _ _ (fun q (F : False) => match F with end)
               Hgrow). }
  assert (Touches envelopeArea persistDb) as Tp.
  { unfold persistDb. apply Touches_tryCatch; [apply Touches_persistDbInternal|].
    intros e. apply Touches_consoleError. }
  apply bind_inv in E as [([] & w3 & Ep & E)|[(e & Ep & ->)|[Ep ->]]].
  2:{ destruct (persistDb_never_throws (fun _ => False) _ _ _ Ep). }
  - (* the call returns *)
    injection E as <- <-.
    pose proof (Keeps_persistDb _ _ _ Ep) as S3. unfold session in S3.
    injection S3 as Hdb3 _ _.
    split; [intros ? ?; discriminate|]. split.
    + intros ins [= <-].
      destruct (addAttachments_loop pid dir filePaths (w_fs w) db
                  filePaths [] w1 inserted w2 db (fun x Hx => Hx) Hdb1 Hl1)
        as (db' & Hdb2 & _ & _ & Hins & Hrows & Hnotes); auto.
      { eapply addsDirsOutside_weaken; [|exact Hgrow]. intros q []. }
      { intros ? X. inversion X. }
      exists dir, db, db'. split; [reflexivity|]. split; [exact Hdb|].
      split; [congruence|]. auto.
    + intros Hall.
      assert (Forall (skippedSource (w_fs w1)) filePaths) as Hall1.
      { eapply Forall_impl; [exact Hall|]. intros [s| | |] Hs; cbn in *; try exact I.
        destruct Hs as [?|Hs]; [left; assumption|right].
        apply (rejectedSource_stable (w_fs w)); [|exact Hs].
        intros q. apply (Hgrow q). tauto. }
      destruct (addAttachments_all_skipped _ _ _ _ _ _ _ Hall1 Ef)
        as ([Hr|Hr] & Hfs2 & Hdb2); [|discriminate].
      injection Hr as ->.
      split; [intros ? [= <-]; reflexivity|]. split; [congruence|].
      intros q Hq. rewrite (Tp _ _ _ q Ep Hq), Hfs2. apply (Hgrow q). tauto.
  - (* the process stops inside the persist *)
    pose proof (Keeps_persistDb _ _ _ Ep) as S3. unfold session in S3.
    injection S3 as Hdb3 _ _.
    split; [intros ? ?; discriminate|]. split; [intros ? ?; discriminate|].
    intros Hall.
    assert (Forall (skippedSource (w_fs w1)) filePaths) as Hall1.
    { eapply Forall_impl; [exact Hall|]. intros [s| | |] Hs; cbn in *; try exact I.
      destruct Hs as [?|Hs]; [left; assumption|right].
      apply (rejectedSource_stable (w_fs w)); [|exact Hs].
      intros q. apply (Hgrow q). tauto. }
    destruct (addAttachments_all_skipped _ _ _ _ _ _ _ Hall1 Ef) as (_ & Hfs2 & Hdb2).
    split; [intros ? ?; discriminate|]. split; [congruence|].
    intros q Hq. rewrite (Tp _ _ _ q Ep Hq), Hfs2. apply (Hgrow q). tauto.
Qed.

(** Over a disk with a directory at /data/folder and three bytes at
    /data/abc.txt: a call with a missing path, the directory, the empty
    string and something that is not a string stores nothing; a call with
    the missing path and the file returns the row of the file alone; and a
    call that cannot create the project's directory raises that error. *)
Lemma rejected_sources_are_skipped_witness :
  let w := DemoWorld.withFolderAndAbc [] in
  let skipped := [JStr "/data/missing.pdf"; JStr "/data/folder"; JStr ""; JNull] in
  let mixed := [JStr "/data/missing.pdf"; JStr "/data/abc.txt"] in
  let dir := @attachmentsRoot refHost ++ [DemoWorld.projectId] in
  let run1 := @attachmentsAdd refCrypto refHost (JStr DemoWorld.projectId) (Some skipped) w in
  let run2 := @attachmentsAdd refCrypto refHost (JStr DemoWorld.projectId) (Some mixed) w in
  let run3 := @attachmentsAdd refCrypto refHost (JStr DemoWorld.projectId) (Some skipped)
                (DemoWorld.withFolderAndAbc [FThrow]) in
  (fst run1 = Ok [] /\ w_db (snd run1) = w_db w /\
   w_fs (snd run1) !! dir = Some NDir /\
   addsDirsOutside (@envelopeArea refHost) (w_fs w) (w_fs (snd run1))) /\
  (exists a, fst run2 = Ok [Some a] /\ a_originalFileName a = "abc.txt" /\
             @rowOfAcceptedSource refHost (w_fs w) dir mixed a) /\
  (fst run3 = Throw (ErrIo OpMkdir dir) /\ w_fs (snd run3) = w_fs w).
Proof.
  intros w skipped mixed dir run1 run2 run3.
  destruct (@rejected_sources_are_skipped refCrypto refHost) as [Hcall _].
  split; [|split].
  - destruct (Hcall (JStr DemoWorld.projectId) skipped w (fst run1) (snd run1)
                (surjective_pairing run1)) as (_ & _ & Hskip).
    destruct Hskip as (_ & Hdb & Hdisk).
    { repeat apply List.Forall_cons; try apply List.Forall_nil.
      - right. vm_compute. exact I.
      - right. vm_compute. left. reflexivity.
      - left. reflexivity.
      - exact I. }
    split; [vm_compute; reflexivity|]. split; [exact Hdb|].
    split; [vm_compute; reflexivity|exact Hdisk].
  - assert (exists a, fst run2 = Ok [Some a] /\ a_originalFileName a = "abc.txt")
      as (a & Hr & Hname).
    { eexists. split; vm_compute; reflexivity. }
    exists a. split; [exact Hr|]. split; [exact Hname|].
    destruct (Hcall (JStr DemoWorld.projectId) mixed w (fst run2) (snd run2)
                (surjective_pairing run2)) as (_ & Hok & _).
    destruct (Hok _ Hr) as (dir' & db & db' & Hdir & _ & _ & _ & Hins & _).
    assert (dir' = dir) as -> by (vm_compute in Hdir; injection Hdir as <-; reflexivity).
    destruct (Hins (Some a)) as (a' & Ha & _ & Hrow); [left|].
    injection Ha as <-. exact Hrow.
  - destruct (Hcall (JStr DemoWorld.projectId) skipped (DemoWorld.withFolderAndAbc [FThrow])
                (fst run3) (snd run3) (surjective_pairing run3)) as (Hthrow & _ & _).
    assert (fst run3 = Throw (ErrIo OpMkdir dir)) as Hr by (vm_compute; reflexivity).
    destruct (Hthrow _ Hr) as (_ & Hfs & _). split; [exact Hr|exact Hfs].
Defined.

(** A file of 1 GiB and one byte is passed over as well. *)
Lemma oversize_source_is_rejected :
  rejectedSource (w_fs (DemoWorld.withSources [])) ["data"; "huge.bin"].
Proof.
  unfold rejectedSource, DemoWorld.withSources, setFs. cbn [w_fs].
  rewrite lookup_insert_eq. right.
  unfold fileSize, DemoWorld.hugeFile. rewrite length_replicate.
  rewrite Z2Nat.id by (unfold MAX_ATTACHMENT_BYTES; lia). lia.
Qed.


(** ** Claims about unlock *)

Section UnlockFacts.
Context `{NodeCrypto} `{HostEnv}.

Lemma listEncryptedDbCandidates_spec w :
  listEncryptedDbCandidates w = (Ok (candidatesOf (w_fs w)), w).
Proof.
  unfold listEncryptedDbCandidates, listUserDataRootsForUnlock, candidatesOf,
    dbBakPath, dbEncPath.
  cbn [foldM]. unfold mbind, M_bind, bind, existsSync, gets, pure.
  rewrite (bool_decide_eq_true_2 (userData = userData)) by reflexivity.
  destruct (bool_decide (is_Some (w_fs w !! (userData ++ ["edisconotes.sqlite.enc"]))));
    destruct (bool_decide (is_Some (w_fs w !! pathSuffix
                (userData ++ ["edisconotes.sqlite.enc"]) ".bak"))); reflexivity.
Qed.

Lemma subarray_length (buf : bytes) a b :
  b <= length buf -> length (subarray buf a b) = b - a.
Proof. intros Hb. unfold subarray. rewrite length_take, length_drop. lia. Qed.

Lemma derive_error_any_passphrase p1 p2 salt params e :
  deriveKeysFromPassphrase p1 salt params = RErr e ->
  deriveKeysFromPassphrase p2 salt params = RErr e.
Proof.
  unfold deriveKeysFromPassphrase.
  destruct (scryptSync (normalizePassphrase p1) _ _ _ _ _ _) as [k|e1] eqn:E1;
    [discriminate|].
  intros [= <-].
  rewrite (scrypt_error_params_only _ (normalizePassphrase p2) _ _ _ _ _ _ _ E1).
  reflexivity.
Qed.

(** Two failures to open alike envelopes are the same failure, whatever the
    passphrases. *)
Lemma open_error_alike d1 d2 p1 p2 e1 e2 :
  envelopeAlike d1 d2 ->
  openVaultFromDatabaseEnvelope d1 p1 = RErr e1 ->
  openVaultFromDatabaseEnvelope d2 p2 = RErr e2 ->
  e1 = e2.
Proof.
  intros [[H1 H2]|(H1 & H2 & Hh)].
  - rewrite !open_too_small by assumption. congruence.
  - rewrite !open_parts by assumption. rewrite <- Hh. unfold openParts.
    destruct (negb (bool_decide (take 8 (take 37 d1) = DB_MAGIC))); [congruence|].
    destruct (readUInt8 (take 37 d1) 8) as [ver|e]; cbn [mbind res_bind]; [|congruence].
    destruct (negb (bool_decide (ver = DB_VERSION))); [congruence|].
    destruct (readU32 (take 37 d1) 9) as [n|e]; cbn [mbind res_bind]; [|congruence].
    destruct (readU32 (take 37 d1) 13) as [r|e]; cbn [mbind res_bind]; [|congruence].
    destruct (readU32 (take 37 d1) 17) as [p|e]; cbn [mbind res_bind]; [|congruence].
    destruct (deriveKeysFromPassphrase p1 _ _) as [v1|e] eqn:D1.
    2:{ rewrite (derive_error_any_passphrase p1 p2 _ _ _ D1). cbn [mbind res_bind].
        congruence. }
    destruct (deriveKeysFromPassphrase p2 _ _) as [v2|e] eqn:D2.
    2:{ rewrite (derive_error_any_passphrase p2 p1 _ _ _ D2) in D1. discriminate. }
    cbn [mbind res_bind]. unfold aesGcmDecrypt.
    destruct (derive_dbKey_length _ _ _ _ D1) as (K1 & _).
    destruct (derive_dbKey_length _ _ _ _ D2) as (K2 & _).
    destruct (gcmDecrypt (dbKey v1) _ _ _ _) as [pt1|x1] eqn:G1; [discriminate|].
    destruct (gcmDecrypt (dbKey v2) _ _ _ _) as [pt2|x2] eqn:G2; [discriminate|].
    apply gcm_decrypt_error in G1; [|assumption|apply subarray_length; lia..].
    apply gcm_decrypt_error in G2; [|assumption|apply subarray_length; lia..].
    cbn [mbind res_bind]. congruence.
Qed.

End UnlockFacts.

Section UnlockAlike.
Context `{NodeCrypto} `{HostEnv}.

Lemma openFirstCandidate_cons passphrase c rest lastError :
  openFirstCandidate passphrase (c :: rest) lastError
  = (r ← tryCandidate passphrase c;
     match r with
     | inl found => pure (Some found, lastError)
     | inr error => openFirstCandidate passphrase rest (Some error)
     end).
Proof. reflexivity. Qed.

(** A turn of the loop changes at most the schedule, and never raises. *)
Lemma tryCandidate_cases passphrase c w r w' :
  tryCandidate passphrase c w = (r, w') ->
  w_fs w' = w_fs w /\
  ((r = Halt /\ exists rest, w_faults w = FHalt :: rest /\ w_faults w' = rest) \/
   (r = Ok (inr (ErrIo OpRead (dbPath c))) /\
    exists rest, w_faults w = FThrow :: rest /\ w_faults w' = rest) \/
   ((w_faults w' = tail (w_faults w)) /\
    (forall rest, w_faults w <> FThrow :: rest) /\
    (forall rest, w_faults w <> FHalt :: rest) /\
    match w_fs w !! dbPath c with
    | Some (NFile d) =>
        match openVaultFromDatabaseEnvelope d passphrase with
        | ROk o => r = Ok (inl (o, c))
        | RErr e => r = Ok (inr e)
        end
    | _ => r = Ok (inr (ErrIo OpRead (dbPath c)))
    end)).
Proof.
  unfold tryCandidate, tryCatch, readFileSync. rewrite !bind_unfold.
  unfold fsGuard.
  destruct (w_faults w) as [|[| |] rest] eqn:Ef.
  - rewrite bind_unfold. unfold gets at 1.
    destruct (w_fs w !! dbPath c) as [[d|]|] eqn:En.
    + unfold pure at 1. unfold liftRes.
      destruct (openVaultFromDatabaseEnvelope d passphrase) as [o|e];
        intros [= <- <-]; (split; [reflexivity|]); right; right;
        rewrite Ef, ?En; repeat split; try reflexivity; discriminate.
    + intros [= <- <-]. split; [reflexivity|]. right. right.
      rewrite Ef, ?En. repeat split; try reflexivity; discriminate.
    + intros [= <- <-]. split; [reflexivity|]. right. right.
      rewrite Ef, ?En. repeat split; try reflexivity; discriminate.
  - rewrite bind_unfold. unfold gets at 1. cbn [w_fs setFaults].
    destruct (w_fs w !! dbPath c) as [[d|]|] eqn:En.
    + unfold pure at 1. unfold liftRes.
      destruct (openVaultFromDatabaseEnvelope d passphrase) as [o|e];
        intros [= <- <-]; (split; [reflexivity|]); right; right;
        repeat split; try reflexivity; discriminate.
    + intros [= <- <-]. split; [reflexivity|]. right. right.
      repeat split; try reflexivity; discriminate.
    + intros [= <- <-]. split; [reflexivity|]. right. right.
      repeat split; try reflexivity; discriminate.
  - intros [= <- <-]. split; [reflexivity|]. right. left. eauto.
  - intros [= <- <-]. split; [reflexivity|]. left. eauto.
Qed.

Lemma nodeAlike_files (f1 f2 : gmap Path Node) (p : Path) d1 :
  nodeAlike (f1 !! p) (f2 !! p) -> f1 !! p = Some (NFile d1) ->
  exists d2, f2 !! p = Some (NFile d2) /\ envelopeAlike d1 d2.
Proof.
  intros Ha E. rewrite E in Ha. unfold nodeAlike in Ha.
  destruct (f2 !! p) as [[d2|]|]; try contradiction. eauto.
Qed.

Lemma nodeAlike_not_file (f1 f2 : gmap Path Node) (p : Path) :
  nodeAlike (f1 !! p) (f2 !! p) ->
  (forall d, f1 !! p <> Some (NFile d)) -> forall d, f2 !! p <> Some (NFile d).
Proof.
  intros Ha Hn d E. rewrite E in Ha. unfold nodeAlike in Ha.
  destruct (f1 !! p) as [[d1|]|]; try contradiction. exact (Hn d1 eq_refl).
Qed.

(** On alike worlds a turn of the loop stops the process in both or in
    neither, and two failures are the same failure. *)
Lemma tryCandidate_alike p1 p2 c w1 w2 r1 r2 w1' w2' :
  worldsAlike w1 w2 ->
  dbPath c = dbEncPath \/ dbPath c = dbBakPath ->
  tryCandidate p1 c w1 = (r1, w1') ->
  tryCandidate p2 c w2 = (r2, w2') ->
  worldsAlike w1' w2' /\
  (r1 = Halt <-> r2 = Halt) /\
  (forall e1 e2, r1 = Ok (inr e1) -> r2 = Ok (inr e2) -> e1 = e2) /\
  (forall e, r1 <> Throw e) /\ (forall e, r2 <> Throw e).
Proof.
  intros [Hf [Hd1 Hd2]] Hc E1 E2.
  assert (nodeAlike (w_fs w1 !! dbPath c) (w_fs w2 !! dbPath c)) as Hn
      by (destruct Hc as [-> | ->]; assumption).
  apply tryCandidate_cases in E1 as [Hfs1 C1].
  apply tryCandidate_cases in E2 as [Hfs2 C2].
  assert (disksAlike (w_fs w1') (w_fs w2')) as Hd
      by (rewrite Hfs1, Hfs2; split; assumption).
  destruct C1 as [(-> & rest1 & F1 & T1)|[(-> & rest1 & F1 & T1)|(T1 & NT1 & NH1 & R1)]];
    destruct C2 as [(-> & rest2 & F2 & T2)|[(-> & rest2 & F2 & T2)|(T2 & NT2 & NH2 & R2)]].
  - (* both stopped *)
    assert (rest1 = rest2) by congruence.
    split; [split; [congruence | exact Hd]|].
    repeat split; intros; try discriminate; reflexivity.
  - exfalso. congruence.
  - exfalso. apply (NH2 rest1). congruence.
  - exfalso. congruence.
  - (* both reads refused *)
    assert (rest1 = rest2) by congruence.
    split; [split; [congruence | exact Hd]|].
    repeat split; intros; try discriminate; congruence.
  - exfalso. apply (NT2 rest1). congruence.
  - exfalso. apply (NH1 rest2). congruence.
  - exfalso. apply (NT1 rest2). congruence.
  - (* both reads done *)
    split; [split; [rewrite T1, T2, Hf; reflexivity | exact Hd]|].
    unfold nodeAlike in Hn.
    destruct (w_fs w1 !! dbPath c) as [[d1|]|]; destruct (w_fs w2 !! dbPath c) as [[d2|]|];
      try contradiction.
    + destruct (openVaultFromDatabaseEnvelope d1 p1) as [o1|x1] eqn:O1;
        destruct (openVaultFromDatabaseEnvelope d2 p2) as [o2|x2] eqn:O2; subst r1 r2;
        repeat split; intros; try discriminate.
      assert (x1 = e1) by congruence. assert (x2 = e2) by congruence. subst.
      exact (open_error_alike _ _ _ _ _ _ Hn O1 O2).
    + subst r1 r2. repeat split; intros; try discriminate; congruence.
    + subst r1 r2. repeat split; intros; try discriminate; congruence.
Qed.

End UnlockAlike.

Section UnlockIndistinguishable.
Context `{NodeCrypto} `{HostEnv}.

Lemma openFirstCandidate_never_throws passphrase cands :
  forall lastError w e w', openFirstCandidate passphrase cands lastError w <> (Throw e, w').
Proof.
  induction cands as [|c rest IH]; intros lastError w e w' E; [discriminate|].
  rewrite openFirstCandidate_cons in E.
  apply bind_inv in E as [(a & w1 & E1 & E2)|[(e' & E1 & _)|[_ ?]]]; [| |discriminate].
  - destruct a as [found|err]; [discriminate|]. exact (IH _ _ _ _ E2).
  - apply tryCandidate_cases in E1 as [_ [(? & _)|[(? & _)|(_ & _ & _ & R)]]];
      try discriminate.
    destruct (w_fs w !! dbPath c) as [[d|]|]; try discriminate.
    destruct (openVaultFromDatabaseEnvelope d passphrase); discriminate.
Qed.

Lemma openFirstCandidate_alike p1 p2 cands :
  forall lastError w1 w2 l1 l2 w1' w2',
    worldsAlike w1 w2 ->
    Forall (fun c => dbPath c = dbEncPath \/ dbPath c = dbBakPath) cands ->
    openFirstCandidate p1 cands lastError w1 = (Ok (None, l1), w1') ->
    openFirstCandidate p2 cands lastError w2 = (Ok (None, l2), w2') ->
    l1 = l2.
Proof.
  induction cands as [|c rest IH]; intros lastError w1 w2 l1 l2 w1' w2' Hw Hc E1 E2.
  - injection E1 as <- _. injection E2 as <- _. reflexivity.
  - inversion Hc as [|? ? Hc1 Hrest]; subst.
    rewrite openFirstCandidate_cons in E1, E2.
    apply bind_inv in E1 as [(a1 & v1 & S1 & K1)|[(? & _ & ?)|[_ ?]]]; try discriminate.
    apply bind_inv in E2 as [(a2 & v2 & S2 & K2)|[(? & _ & ?)|[_ ?]]]; try discriminate.
    destruct a1 as [found1|err1]; [discriminate|].
    destruct a2 as [found2|err2]; [discriminate|].
    destruct (tryCandidate_alike p1 p2 c w1 w2 _ _ _ _ Hw Hc1 S1 S2)
      as (Hw' & _ & Herr & _).
    assert (err1 = err2) as -> by (apply Herr; reflexivity).
    exact (IH _ _ _ _ _ _ _ Hw' Hrest K1 K2).
Qed.

Lemma candidatesOf_paths disk :
  Forall (fun c => dbPath c = dbEncPath \/ dbPath c = dbBakPath) (candidatesOf disk).
Proof.
  unfold candidatesOf.
  destruct (bool_decide (is_Some (disk !! dbEncPath)));
    destruct (bool_decide (is_Some (disk !! dbBakPath)));
    cbn [app]; repeat (apply List.Forall_cons; [cbn; auto|]); apply List.Forall_nil.
Qed.

Lemma nodeAlike_is_Some n1 n2 : nodeAlike n1 n2 -> (is_Some n1 <-> is_Some n2).
Proof.
  unfold nodeAlike. destruct n1 as [[?|]|], n2 as [[?|]|]; intros Ha; try contradiction;
    split; intros [? ?]; try discriminate; eauto.
Qed.

Lemma candidatesOf_alike f1 f2 : disksAlike f1 f2 -> candidatesOf f1 = candidatesOf f2.
Proof.
  intros [He Hb]. unfold candidatesOf.
  apply nodeAlike_is_Some in He. apply nodeAlike_is_Some in Hb.
  rewrite (bool_decide_ext _ _ He), (bool_decide_ext _ _ Hb). reflexivity.
Qed.

(** With an acceptable passphrase and an envelope or a backup on disk,
    [unlockOpen] throws only when no candidate opened, and what it throws is
    decided by the last failure. *)
Lemma unlockOpen_throw passphrase w e w' :
  acceptablePassphrase passphrase ->
  candidatesOf (w_fs w) <> [] ->
  unlockOpen passphrase w = (Throw e, w') ->
  exists lastError,
    openFirstCandidate passphrase (candidatesOf (w_fs w)) None w
    = (Ok (None, lastError), w') /\
    e = if isDecryptAuthError lastError then ErrUnlockGeneric
        else default ErrUnableToUnlock lastError.
Proof.
  intros (s & -> & Hlen) Hc. unfold unlockOpen. cbn [passphraseLength].
  destruct (Nat.ltb_spec (length s) MIN_PASSPHRASE_LEN) as [?|_]; [lia|].
  rewrite bind_unfold, listEncryptedDbCandidates_spec.
  destruct (candidatesOf (w_fs w)) as [|c rest] eqn:Ec; [congruence|].
  cbn [length Nat.ltb Nat.leb]. intros E.
  apply bind_inv in E as [([opened lastError] & w1 & E1 & E2)|[(e' & E1 & _)|[_ ?]]];
    [| |discriminate].
  - destruct opened as [[o src]|].
    + exfalso. revert E2. rewrite bind_unfold. unfold modify. discriminate.
    + exists lastError. destruct (isDecryptAuthError lastError);
        injection E2 as <- <-; (split; [exact E1 | reflexivity]).
  - exfalso. exact (openFirstCandidate_never_throws _ _ _ _ _ _ E1).
Qed.

Lemma unlockVault_throws_with_unlockOpen passphrase w e w' :
  unlockOpen passphrase w = (Throw e, w') -> unlockVault passphrase w = (Throw e, w').
Proof.
  intros E. unfold unlockVault. cbn [ENCRYPTION_ENABLED negb].
  rewrite bind_unfold, E. reflexivity.
Qed.

End UnlockIndistinguishable.

(** C6.  Over an existing envelope, two unlock attempts that fail to open it
    raise the same error when they face alike disks (the same header bytes in
    the envelope and the backup, whatever the nonce, tag and ciphertext) with
    passphrases of at least 12 characters, whatever the passphrases: a wrong
    passphrase on the intact envelope and the right one on an envelope with
    a damaged ciphertext or tag cannot be told apart. *)
Theorem unlock_failure_is_indistinguishable `{NodeCrypto} `{HostEnv} :
  forall p1 p2 w1 w2 e1 e2 w1' w2',
    acceptablePassphrase p1 -> acceptablePassphrase p2 ->
    worldsAlike w1 w2 ->
    is_Some (w_fs w1 !! dbEncPath) ->
    unlockOpen p1 w1 = (Throw e1, w1') ->
    unlockOpen p2 w2 = (Throw e2, w2') ->
    e1 = e2 /\
    unlockVault p1 w1 = (Throw e1, w1') /\ unlockVault p2 w2 = (Throw e2, w2').
Proof.
  intros p1 p2 w1 w2 e1 e2 w1' w2' Hp1 Hp2 Hw Hex E1 E2.
  split; [|split; apply unlockVault_throws_with_unlockOpen; assumption].
  pose proof (candidatesOf_alike _ _ (proj2 Hw)) as Hc.
  assert (candidatesOf (w_fs w1) <> []) as Hne.
  { unfold candidatesOf. rewrite bool_decide_eq_true_2 by exact Hex. discriminate. }
  destruct (unlockOpen_throw p1 w1 e1 w1' Hp1 Hne E1) as (l1 & O1 & ->).
  assert (candidatesOf (w_fs w2) <> []) as Hne2 by (rewrite <- Hc; exact Hne).
  destruct (unlockOpen_throw p2 w2 e2 w2' Hp2 Hne2 E2) as (l2 & O2 & ->).
  rewrite <- Hc in O2.
  rewrite (openFirstCandidate_alike p1 p2 _ _ _ _ _ _ _ _ Hw (candidatesOf_paths _) O1 O2).
  reflexivity.
Qed.

(** The wrong passphrase on the envelope of the empty database, and the
    right one on that envelope with its last ciphertext byte changed. *)
Lemma unlock_failure_is_indistinguishable_witness :
  let w1 := DemoWorld.started {[ DemoWorld.encPath := NFile Demo.envelope ]} [] in
  let w2 := DemoWorld.started
              {[ DemoWorld.encPath := NFile Demo.envelopeBadCiphertext ]} [] in
  @unlockVault refCrypto refHost Demo.wrongPassphrase w1 = (Throw ErrUnlockGeneric, w1) /\
  @unlockVault refCrypto refHost Demo.passphrase w2 = (Throw ErrUnlockGeneric, w2).
Proof.
  intros w1 w2.
  refine (proj2 (@unlock_failure_is_indistinguishable refCrypto refHost
            Demo.wrongPassphrase Demo.passphrase w1 w2
            ErrUnlockGeneric ErrUnlockGeneric w1 w2 _ _ _ _ _ _)).
  - eexists. split; [reflexivity|]. vm_compute. lia.
  - eexists. split; [reflexivity|]. vm_compute. lia.
  - split; [reflexivity|]. split.
    + unfold w1, w2, DemoWorld.started. cbn [w_fs].
      change (@dbEncPath refHost) with DemoWorld.encPath.
      rewrite !lookup_singleton_eq. right. vm_compute. repeat split; lia.
    + unfold w1, w2, DemoWorld.started. cbn [w_fs].
      rewrite !lookup_singleton_ne by (vm_compute; discriminate). exact I.
  - unfold w1, DemoWorld.started. cbn [w_fs].
    change (@dbEncPath refHost) with DemoWorld.encPath.
    rewrite lookup_singleton_eq. eauto.
  - vm_compute. reflexivity.
  - vm_compute. reflexivity.
Defined.

(** ** Write verification during unlock *)

Section UnlockVerify.
Context `{NodeCrypto} `{HostEnv}.

Lemma plain_not_envelopeOrAttachments : ~ envelopeOrAttachments dbPlainPath.
Proof.
  unfold envelopeOrAttachments, envelopeArea, dbTmpPath, dbBakPath, dbEncPath,
    dbPlainPath, attachmentsRoot.
  rewrite !pathSuffix_last.
  intros [[[k E]|[[k E]|[k E]]]|[[k E]|[k E]]];
    rewrite <- ?app_assoc in E; apply app_inv_head in E; discriminate.
Qed.

(** The verification step in any world: it reads the envelope path and
    opens what it read with the passphrase given; unless the process is
    stopped at the read, it returns exactly when both succeed and otherwise
    logs the error met and throws the verification error.  It changes
    neither the disk nor the session. *)
Lemma verifyWrittenEnvelope_run passphrase w r w' :
  verifyWrittenEnvelope passphrase w = (r, w') ->
  w_fs w' = w_fs w /\ session w' = session w /\
  ((haltsNext w /\ r = Halt) \/
   (~ haltsNext w /\
    match readBackError passphrase w with
    | None => r = Ok tt /\ w_console w' = w_console w
    | Some cause =>
        r = Throw ErrWriteVerification /\ w_console w' = w_console w ++ [cause]
    end)).
Proof.
  unfold verifyWrittenEnvelope, tryCatch, readFileSync, readBackError, haltsNext.
  rewrite !bind_unfold. unfold fsGuard.
  destruct (w_faults w) as [|[| |] rest]; cbn [head].
  - rewrite bind_unfold. unfold gets at 1.
    destruct (w_fs w !! dbEncPath) as [[d|]|] eqn:En.
    + unfold pure at 1. unfold liftRes.
      destruct (openVaultFromDatabaseEnvelope d passphrase) as [o|e] eqn:Eo;
        intros [= <- <-]; (split; [reflexivity|]); (split; [reflexivity|]);
        right; (split; [discriminate|]); split; reflexivity.
    + intros [= <- <-]. split; [reflexivity|]. split; [reflexivity|].
      right. split; [discriminate|]. split; reflexivity.
    + intros [= <- <-]. split; [reflexivity|]. split; [reflexivity|].
      right. split; [discriminate|]. split; reflexivity.
  - rewrite bind_unfold. unfold gets at 1. cbn [w_fs setFaults].
    destruct (w_fs w !! dbEncPath) as [[d|]|] eqn:En.
    + unfold pure at 1. unfold liftRes.
      destruct (openVaultFromDatabaseEnvelope d passphrase) as [o|e] eqn:Eo;
        intros [= <- <-]; (split; [reflexivity|]); (split; [reflexivity|]);
        right; (split; [discriminate|]); split; reflexivity.
    + intros [= <- <-]. split; [reflexivity|]. split; [reflexivity|].
      right. split; [discriminate|]. split; reflexivity.
    + intros [= <- <-]. split; [reflexivity|]. split; [reflexivity|].
      right. split; [discriminate|]. split; reflexivity.
  - intros [= <- <-]. split; [reflexivity|]. split; [reflexivity|].
    right. split; [discriminate|]. split; reflexivity.
  - intros [= <- <-]. split; [reflexivity|]. split; [reflexivity|].
    left. split; reflexivity.
Qed.

Lemma unlockVault_parts passphrase :
  unlockVault passphrase
  = ('(dbBytes, migratedDb, unlockSource) ← unlockOpen passphrase;
     seededLegacyAttachments ← unlockLoadAndPersist unlockSource dbBytes;
     verifyWrittenEnvelope passphrase;;
     unlockFinish passphrase migratedDb unlockSource seededLegacyAttachments).
Proof. reflexivity. Qed.

End UnlockVerify.

(** C3.  The verification step of [unlockVault] reads the envelope path
    back and opens what it finds with the passphrase given, in whatever
    state the disk is: it returns only if the read and the authenticated
    open both succeed; if either fails it logs the cause and throws the
    verification error; it writes nothing.  In a run of [unlockVault] it
    comes after the envelope was written and before anything touches the
    plaintext database file: if the read-back or the open fails in the
    world the write left, the call throws the verification error with the
    disk as the write left it and the plaintext file as it was at the
    start; and a run (ended, failed or stopped at any point) that leaves
    the plaintext file changed or gone has had a read-back that opened, with
    the file still untouched at that moment. *)
Theorem plaintext_deleted_only_after_verification `{NodeCrypto} `{HostEnv} :
  (forall passphrase w r w',
      verifyWrittenEnvelope passphrase w = (r, w') ->
      w_fs w' = w_fs w /\ session w' = session w /\
      ((haltsNext w /\ r = Halt) \/
       (~ haltsNext w /\
        match readBackError passphrase w with
        | None => r = Ok tt /\ w_console w' = w_console w
        | Some cause =>
            r = Throw ErrWriteVerification /\ w_console w' = w_console w ++ [cause]
        end))) /\
  (forall passphrase w r w',
      unlockVault passphrase w = (r, w') ->
      (forall dbBytes migratedDb src w1 seeded w2 cause,
          unlockOpen passphrase w = (Ok (dbBytes, migratedDb, src), w1) ->
          unlockLoadAndPersist src dbBytes w1 = (Ok seeded, w2) ->
          ~ haltsNext w2 ->
          readBackError passphrase w2 = Some cause ->
          r = Throw ErrWriteVerification /\
          w_fs w' = w_fs w2 /\ session w' = session w2 /\
          w_console w' = w_console w2 ++ [cause] /\
          w_fs w' !! dbPlainPath = w_fs w !! dbPlainPath) /\
      (w_fs w' !! dbPlainPath <> w_fs w !! dbPlainPath ->
       exists dbBytes migratedDb src w1 seeded w2,
         unlockOpen passphrase w = (Ok (dbBytes, migratedDb, src), w1) /\
         unlockLoadAndPersist src dbBytes w1 = (Ok seeded, w2) /\
         ~ haltsNext w2 /\
         readBackError passphrase w2 = None /\
         w_fs w2 !! dbPlainPath = w_fs w !! dbPlainPath)).
Proof.
  split; [intros passphrase w r w' E; exact (verifyWrittenEnvelope_run _ _ _ _ E)|].
  intros passphrase w r w' E. rewrite unlockVault_parts in E.
  pose proof plain_not_envelopeOrAttachments as Hplain.
  assert (forall dbBytes migratedDb src w1 seeded w2,
             unlockOpen passphrase w = (Ok (dbBytes, migratedDb, src), w1) ->
             unlockLoadAndPersist src dbBytes w1 = (Ok seeded, w2) ->
             w_fs w2 !! dbPlainPath = w_fs w !! dbPlainPath) as Hkeep.
  { intros dbBytes migratedDb src w1 seeded w2 E1 E2.
    rewrite (Touches_unlockLoadAndPersist src dbBytes w1 _ w2 _ E2 Hplain).
    exact (Touches_unlockOpen _ passphrase w _ w1 _ E1 Hplain). }
  split.
  - intros dbBytes migratedDb src w1 seeded w2 cause E1 E2 Hgo Hcause.
    pose proof (Hkeep _ _ _ _ _ _ E1 E2) as Hk.
    rewrite bind_unfold, E1 in E. cbn beta iota in E.
    rewrite bind_unfold, E2 in E. rewrite bind_unfold in E.
    destruct (verifyWrittenEnvelope passphrase w2) as [r3 w3] eqn:E3.
    destruct (verifyWrittenEnvelope_run _ _ _ _ E3)
      as (Hfs & Hse & [[Hh _]|[_ Hrun]]); [contradiction|].
    rewrite Hcause in Hrun. destruct Hrun as [-> Hcon].
    injection E as <- <-. rewrite Hfs. auto.
  - intros Hchanged.
    apply bind_inv in E as [([[dbBytes migratedDb] src] & w1 & E1 & E)|[(e & E1 & _)|[E1 _]]].
    2:{ exfalso. apply Hchanged.
        exact (Touches_unlockOpen _ passphrase w _ w' _ E1 Hplain). }
    2:{ exfalso. apply Hchanged.
        exact (Touches_unlockOpen _ passphrase w _ w' _ E1 Hplain). }
    assert (w_fs w1 !! dbPlainPath = w_fs w !! dbPlainPath) as K1
        by exact (Touches_unlockOpen _ passphrase w _ w1 _ E1 Hplain).
    apply bind_inv in E as [(seeded & w2 & E2 & E)|[(e & E2 & _)|[E2 _]]].
    2:{ exfalso. apply Hchanged. rewrite <- K1.
        exact (Touches_unlockLoadAndPersist src dbBytes w1 _ w' _ E2 Hplain). }
    2:{ exfalso. apply Hchanged. rewrite <- K1.
        exact (Touches_unlockLoadAndPersist src dbBytes w1 _ w' _ E2 Hplain). }
    pose proof (Hkeep _ _ _ _ _ _ E1 E2) as K2.
    exists dbBytes, migratedDb, src, w1, seeded, w2.
    split; [exact E1|]. split; [exact E2|].
    destruct (verifyWrittenEnvelope passphrase w2) as [r3 w3] eqn:E3.
    destruct (verifyWrittenEnvelope_run _ _ _ _ E3) as (Hfs & _ & Hrun).
    rewrite bind_unfold, E3 in E.
    destruct Hrun as [[_ ->]|[Hgo Hrun]].
    { exfalso. injection E as _ <-. apply Hchanged. rewrite Hfs. exact K2. }
    split; [exact Hgo|]. split; [|exact K2].
    destruct (readBackError passphrase w2) as [cause|]; [|reflexivity].
    exfalso. destruct Hrun as [-> _]. injection E as _ <-.
    apply Hchanged. rewrite Hfs. exact K2.
Qed.

(** A first unlock over a disk that holds only the legacy plaintext
    database: with a disk that refuses the read-back of the envelope the
    call throws and the plaintext file stays; with a disk that works the
    plaintext file goes, after a read-back that opened.  And the step alone
    over an envelope with a changed ciphertext byte. *)
Lemma plaintext_deleted_only_after_verification_witness :
  let disk : gmap Path Node := {[ DemoWorld.plainPath := NFile Demo.image ]} in
  let ok := @unlockVault refCrypto refHost Demo.passphrase (DemoWorld.started disk []) in
  let bad := @unlockVault refCrypto refHost Demo.passphrase
               (DemoWorld.started disk [FPass; FPass; FPass; FThrow]) in
  let damaged := DemoWorld.started
                   {[ DemoWorld.encPath := NFile Demo.envelopeBadCiphertext ]} [] in
  (fst bad = Throw ErrWriteVerification /\
   w_fs (snd bad) !! DemoWorld.plainPath = Some (NFile Demo.image)) /\
  (w_fs (snd ok) !! DemoWorld.plainPath = None /\
   exists w2,
     @readBackError refCrypto refHost Demo.passphrase w2 = None /\
     w_fs w2 !! DemoWorld.plainPath = Some (NFile Demo.image)) /\
  fst (@verifyWrittenEnvelope refCrypto refHost Demo.passphrase damaged)
  = Throw ErrWriteVerification.
Proof.
  intros disk ok bad damaged.
  destruct (@plaintext_deleted_only_after_verification refCrypto refHost)
    as [Hstep Hcall].
  split; [|split].
  - set (w := DemoWorld.started disk [FPass; FPass; FPass; FThrow]).
    set (r1 := @unlockOpen refCrypto refHost Demo.passphrase w).
    set (r2 := @unlockLoadAndPersist refCrypto refHost None (Some Demo.image) (snd r1)).
    assert (r1 = (Ok (Some Demo.image, true, None), snd r1)) as E1.
    { apply pair_eta_fst. vm_compute. reflexivity. }
    assert (r2 = (Ok 0, snd r2)) as E2.
    { apply pair_eta_fst. vm_compute. reflexivity. }
    destruct (proj1 (Hcall Demo.passphrase w (fst bad) (snd bad) (surjective_pairing bad))
                _ _ _ _ _ _ (ErrIo OpRead (@dbEncPath refHost)) E1 E2)
      as (Hr & _ & _ & _ & Hp).
    { vm_compute. discriminate. }
    { vm_compute. reflexivity. }
    split; [exact Hr|].
    transitivity (w_fs w !! @dbPlainPath refHost); [exact Hp|].
    vm_compute. reflexivity.
  - split; [vm_compute; reflexivity|].
    destruct (proj2 (Hcall Demo.passphrase (DemoWorld.started disk []) (fst ok) (snd ok)
                       (surjective_pairing ok)))
      as (dbBytes & migratedDb & src & w1 & seeded & w2 & E1 & E2 & _ & Hread & Hk).
    { vm_compute. discriminate. }
    exists w2. split; [exact Hread|].
    transitivity (w_fs (DemoWorld.started disk []) !! @dbPlainPath refHost); [exact Hk|].
    vm_compute. reflexivity.
  - destruct (Hstep Demo.passphrase damaged _ _
                (surjective_pairing
                   (@verifyWrittenEnvelope refCrypto refHost Demo.passphrase damaged)))
      as (_ & _ & [[Hh _]|[_ Hrun]]).
    + vm_compute in Hh. discriminate.
    + assert (@readBackError refCrypto refHost Demo.passphrase damaged
              = Some (ErrCrypto AuthFailed)) as Hc by (vm_compute; reflexivity).
      rewrite Hc in Hrun. exact (proj1 Hrun).
Defined.


(** ** Crash safety of the envelope replacement *)

Section PersistCrash.
Context `{NodeCrypto} `{HostEnv}.

Lemma fsGuard_run op p w r w' :
  fsGuard op p w = (r, w') -> crashOnly (w_faults w) ->
  w_fs w' = w_fs w /\ (r = Halt \/ (r = Ok tt /\ crashOnly (w_faults w'))).
Proof.
  unfold fsGuard, crashOnly. intros E Hc.
  destruct (w_faults w) as [|[| |] rest] eqn:Ef.
  - injection E as <- <-. rewrite Ef. auto.
  - injection E as <- <-. cbn. inversion Hc; subst. auto.
  - inversion Hc; subst. congruence.
  - injection E as <- <-. auto.
Qed.

Lemma writeFileSync_run p d w r w' :
  writeFileSync p d w = (r, w') -> crashOnly (w_faults w) ->
  (r = Halt /\ w_fs w' = w_fs w) \/
  (exists e, r = Throw e /\ w_fs w !! p = Some NDir) \/
  (r = Ok tt /\ w_fs w' = <[p := NFile d]> (w_fs w) /\ crashOnly (w_faults w')).
Proof.
  unfold writeFileSync. intros E Hc.
  apply bind_inv in E as [([] & w1 & G & E)|[(e & G & ->)|[G ->]]].
  - destruct (fsGuard_run _ _ _ _ _ G Hc) as (Hfs & [?|[_ Hc1]]); [discriminate|].
    rewrite bind_unfold in E. unfold gets at 1 in E. rewrite Hfs in E.
    destruct (w_fs w !! p) as [[x|]|] eqn:En; injection E as <- <-; cbn [w_fs setFs];
      rewrite ?Hfs; eauto 6.
  - destruct (fsGuard_run _ _ _ _ _ G Hc) as (_ & [?|[? _]]); discriminate.
  - destruct (fsGuard_run _ _ _ _ _ G Hc) as (Hfs & _). auto.
Qed.

Lemma unlinkSync_run p w r w' :
  unlinkSync p w = (r, w') -> crashOnly (w_faults w) ->
  (r = Halt /\ w_fs w' = w_fs w) \/
  (exists e, r = Throw e /\ w_fs w' = w_fs w /\ crashOnly (w_faults w') /\
             forall x, w_fs w !! p <> Some (NFile x)) \/
  (r = Ok tt /\ w_fs w' = delete p (w_fs w) /\ crashOnly (w_faults w')).
Proof.
  unfold unlinkSync. intros E Hc.
  apply bind_inv in E as [([] & w1 & G & E)|[(e & G & ->)|[G ->]]].
  - destruct (fsGuard_run _ _ _ _ _ G Hc) as (Hfs & [?|[_ Hc1]]); [discriminate|].
    rewrite bind_unfold in E. unfold gets at 1 in E. rewrite Hfs in E.
    destruct (w_fs w !! p) as [[x|]|] eqn:En; injection E as <- <-; cbn [w_fs setFs];
      rewrite ?Hfs.
    + right. right. auto.
    + right. left. eexists. repeat split; eauto; discriminate.
    + right. left. eexists. repeat split; eauto; discriminate.
  - destruct (fsGuard_run _ _ _ _ _ G Hc) as (_ & [?|[? _]]); discriminate.
  - destruct (fsGuard_run _ _ _ _ _ G Hc) as (Hfs & _). auto.
Qed.

(** The move of a regular file. *)
Lemma renameSync_run src dst w r w' x0 :
  renameSync src dst w = (r, w') -> crashOnly (w_faults w) ->
  w_fs w !! src = Some (NFile x0) ->
  (r = Halt /\ w_fs w' = w_fs w) \/
  (exists e, r = Throw e /\ w_fs w' = w_fs w /\ crashOnly (w_faults w') /\
             ((forall x, w_fs w !! src <> Some (NFile x)) \/ w_fs w !! dst = Some NDir)) \/
  (exists x, r = Ok tt /\ w_fs w !! src = Some (NFile x) /\
             w_fs w' = <[dst := NFile x]> (delete src (w_fs w)) /\
             crashOnly (w_faults w')).
Proof.
  unfold renameSync. intros E Hc Hsrc.
  apply bind_inv in E as [([] & w1 & G & E)|[(e & G & ->)|[G ->]]].
  - destruct (fsGuard_run _ _ _ _ _ G Hc) as (Hfs & [?|[_ Hc1]]); [discriminate|].
    rewrite bind_unfold in E. unfold gets at 1 in E. rewrite Hfs, Hsrc in E.
    rewrite bind_unfold in E; unfold gets at 1 in E; rewrite ?Hfs in E.
    destruct (w_fs w !! dst) as [[y|]|] eqn:Ed; injection E as <- <-;
      cbn [w_fs setFs]; rewrite ?Hfs.
    + right. right. eauto 6.
    + right. left. eexists. repeat split; eauto.
    + right. right. eauto 6.
  - destruct (fsGuard_run _ _ _ _ _ G Hc) as (_ & [?|[? _]]); discriminate.
  - destruct (fsGuard_run _ _ _ _ _ G Hc) as (Hfs & _). auto.
Qed.

Lemma removeBackupIfPresent_run p w r w' :
  removeBackupIfPresent p w = (r, w') -> crashOnly (w_faults w) ->
  w_fs w !! p <> Some NDir ->
  (r = Halt /\ w_fs w' = w_fs w) \/
  (r = Ok tt /\ w_fs w' = delete p (w_fs w) /\ crashOnly (w_faults w')).
Proof.
  unfold removeBackupIfPresent. intros E Hc Hd.
  apply tryCatch_inv in E as [(e & w1 & E1 & E2)|[E1 Hn]].
  - exfalso. injection E2 as <- <-.
    apply bind_inv in E1 as [(b & w2 & X & E1)|[(? & X & _)|[_ ?]]]; try discriminate.
    injection X as <- <-.
    destruct (bool_decide (is_Some (w_fs w !! p))) eqn:Eb; [|discriminate].
    apply bool_decide_eq_true_1 in Eb as [n En].
    destruct (unlinkSync_run _ _ _ _ E1 Hc) as [[? _]|[(? & _ & _ & _ & Hx)|[? _]]];
      try discriminate.
    destruct n as [d|]; [exact (Hx d En) | exact (Hd En)].
  - apply bind_inv in E1 as [(b & w2 & X & E1)|[(? & X & _)|[X _]]]; try discriminate.
    injection X as <- <-.
    destruct (bool_decide (is_Some (w_fs w !! p))) eqn:Eb.
    + destruct (unlinkSync_run _ _ _ _ E1 Hc) as [[-> ?]|[(e & -> & _)|(-> & ? & ?)]]; auto.
      exfalso. exact (Hn e eq_refl).
    + injection E1 as <- <-. right. split; [reflexivity|]. split; [|exact Hc].
      symmetry. apply delete_id.
      apply bool_decide_eq_false_1 in Eb.
      destruct (w_fs w !! p) eqn:En; [|reflexivity]. exfalso. apply Eb. eauto.
Qed.

Ltac disk_lookup :=
  repeat first [ rewrite lookup_insert_eq | rewrite lookup_delete_eq
               | rewrite lookup_insert_ne by congruence
               | rewrite lookup_delete_ne by congruence ].

(** The run of [persistDbInternal] that a stop interrupts leaves the disk
    recoverable, when no file operation failed before the stop. *)
Lemma persist_halt_recoverable w w' db v old :
  w_db w = Some db -> w_locked w = false -> w_vault w = Some v ->
  crashOnly (w_faults w) ->
  w_fs w !! dbEncPath = Some (NFile old) ->
  w_fs w !! dbBakPath <> Some NDir ->
  persistDbInternal w = (Halt, w') ->
  exists new,
    sealDatabaseBytes (sqlExport db) (Some v) (w_tape w) = ROk new /\
    recoverable old new (w_fs w').
Proof.
  intros Hdb Hl Hv Hc Henc Hbak E.
  destruct envelope_paths_distinct as (Neb & Net & Nbt).
  unfold persistDbInternal in E. rewrite bind_unfold in E. unfold gets at 1 in E.
  rewrite Hdb in E. cbn [ENCRYPTION_ENABLED negb] in E. cbv iota in E.
  rewrite bind_unfold in E. unfold gets at 1 in E.
  rewrite bind_unfold in E. unfold gets at 1 in E.
  rewrite Hl, Hv in E. rewrite bool_decide_eq_true_2 in E by eauto.
  cbn [orb negb] in E. cbv iota in E.
  rewrite bind_unfold in E. unfold drawTape at 1 in E.
  rewrite bind_unfold in E.
  destruct (sealDatabaseBytes (sqlExport db) (Some v) (w_tape w)) as [new|e] eqn:Es;
    [|discriminate E].
  exists new. split; [reflexivity|].
  unfold liftRes, pure at 1 in E. cbv zeta in E.
  fold dbBakPath dbTmpPath in E.
  set (w0 := setTape (S (w_tape w)) w) in E.
  assert (crashOnly (w_faults w0)) as Hc0 by exact Hc.
  assert (w_fs w0 = w_fs w) as Hf0 by reflexivity.
  clearbody w0.
  (* the temporary file *)
  apply bind_inv in E as [([] & w1 & E1 & E)|[(? & _ & ?)|[E1 _]]]; [|discriminate|].
  2:{ destruct (writeFileSync_run _ _ _ _ _ E1 Hc0) as [[_ Hf]|[(? & ? & _)|[? _]]];
        try discriminate.
      left. rewrite Hf, Hf0. exact Henc. }
  destruct (writeFileSync_run _ _ _ _ _ E1 Hc0) as [[? _]|[(? & ? & _)|(_ & Hf1 & Hc1)]];
    try discriminate.
  rewrite Hf0 in Hf1. clear E1 Hc0 Hf0 w0.
  assert (w_fs w1 !! dbBakPath <> Some NDir) as Hb1 by (rewrite Hf1; disk_lookup; exact Hbak).
  (* the stale backup *)
  apply bind_inv in E as [([] & w2 & E2 & E)|[(? & _ & ?)|[E2 _]]]; [|discriminate|].
  2:{ destruct (removeBackupIfPresent_run _ _ _ _ E2 Hc1 Hb1) as [[_ Hf]|[? _]];
        try discriminate.
      left. rewrite Hf, Hf1. disk_lookup. exact Henc. }
  destruct (removeBackupIfPresent_run _ _ _ _ E2 Hc1 Hb1) as [[? _]|(_ & Hf2 & Hc2)];
    try discriminate.
  assert (w_fs w2 !! dbEncPath = Some (NFile old)) as L2e
    by (rewrite Hf2, Hf1; disk_lookup; exact Henc).
  assert (w_fs w2 !! dbBakPath = None) as L2b by (rewrite Hf2; disk_lookup; reflexivity).
  assert (w_fs w2 !! dbTmpPath = Some (NFile new)) as L2t
    by (rewrite Hf2, Hf1; disk_lookup; reflexivity).
  clear E2 Hc1 Hf1 Hf2 Hb1 w1.
  (* the envelope moved aside *)
  rewrite bind_unfold in E. unfold existsSync, gets at 1 in E. rewrite L2e in E.
  rewrite bool_decide_eq_true_2 in E by eauto.
  apply bind_inv in E as [([] & w3 & E3 & E)|[(? & _ & ?)|[E3 _]]]; [|discriminate|].
  2:{ apply tryCatch_inv in E3 as [(e & w3 & E3 & _)|[E3 _]].
      - destruct (renameSync_run _ _ _ _ _ _ E3 Hc2 L2e)
          as [[? _]|[(? & _ & _ & _ & [Hx|Hx])|(? & ? & _)]]; try discriminate.
        + exfalso. exact (Hx _ L2e).
        + congruence.
      - destruct (renameSync_run _ _ _ _ _ _ E3 Hc2 L2e) as [[_ Hf]|[(? & ? & _)|(? & ? & _)]];
          try discriminate.
        left. rewrite Hf. exact L2e. }
  apply tryCatch_inv in E3 as [(e & w3' & E3 & _)|[E3 _]].
  { exfalso. destruct (renameSync_run _ _ _ _ _ _ E3 Hc2 L2e)
      as [[? _]|[(? & _ & _ & _ & [Hx|Hx])|(? & ? & _)]]; try discriminate.
    - exact (Hx _ L2e).
    - congruence. }
  destruct (renameSync_run _ _ _ _ _ _ E3 Hc2 L2e)
    as [[? _]|[(? & ? & _)|(x & _ & Hx & Hf3 & Hc3)]]; try discriminate.
  assert (x = old) as -> by congruence.
  assert (w_fs w3 !! dbEncPath = None) as L3e by (rewrite Hf3; disk_lookup; reflexivity).
  assert (w_fs w3 !! dbBakPath = Some (NFile old)) as L3b
    by (rewrite Hf3; disk_lookup; reflexivity).
  assert (w_fs w3 !! dbTmpPath = Some (NFile new)) as L3t
    by (rewrite Hf3; disk_lookup; exact L2t).
  clear E3 Hx Hf3 Hc2 L2e L2b L2t w2.
  (* the new envelope put in place *)
  apply bind_inv in E as [([] & w4 & E4 & E)|[(? & _ & ?)|[E4 _]]]; [|discriminate|].
  2:{ destruct (renameSync_run _ _ _ _ _ _ E4 Hc3 L3t) as [[_ Hf]|[(? & ? & _)|(? & ? & _)]];
        try discriminate.
      right. left. rewrite Hf. auto. }
  destruct (renameSync_run _ _ _ _ _ _ E4 Hc3 L3t)
    as [[? _]|[(? & ? & _)|(x & _ & Hx & Hf4 & Hc4)]]; try discriminate.
  assert (x = new) as -> by congruence.
  assert (w_fs w4 !! dbEncPath = Some (NFile new)) as L4e
    by (rewrite Hf4; disk_lookup; reflexivity).
  assert (w_fs w4 !! dbBakPath = Some (NFile old)) as L4b
    by (rewrite Hf4; disk_lookup; exact L3b).
  (* the backup removed *)
  destruct (removeBackupIfPresent_run _ _ _ _ E Hc4) as [[_ Hf]|[? _]];
    try discriminate.
  { rewrite L4b. discriminate. }
  right. right. rewrite Hf. auto.
Qed.

Lemma tryCandidate_found passphrase c w d o :
  w_faults w = [] -> w_fs w !! dbPath c = Some (NFile d) ->
  openVaultFromDatabaseEnvelope d passphrase = ROk o ->
  tryCandidate passphrase c w = (Ok (inl (o, c)), w).
Proof.
  intros Hf Hn Ho. unfold tryCandidate, tryCatch, readFileSync.
  rewrite !bind_unfold. unfold fsGuard. rewrite Hf.
  rewrite bind_unfold. unfold gets at 1. rewrite Hn.
  unfold pure at 1. unfold liftRes. rewrite Ho. reflexivity.
Qed.

(** With no fault pending, the first part of [unlockVault] opens the first
    candidate whose envelope opens. *)
Lemma unlockOpen_first passphrase w c rest d o :
  acceptablePassphrase passphrase -> w_faults w = [] ->
  candidatesOf (w_fs w) = c :: rest ->
  w_fs w !! dbPath c = Some (NFile d) ->
  openVaultFromDatabaseEnvelope d passphrase = ROk o ->
  unlockOpen passphrase w
  = (Ok (Some (plaintext o), false, Some c), setVault (Some (vault o)) w).
Proof.
  intros (s & -> & Hlen) Hf Hcs Hn Ho. unfold unlockOpen. cbn [passphraseLength].
  destruct (Nat.ltb_spec (length s) MIN_PASSPHRASE_LEN) as [?|_]; [lia|].
  rewrite (bind_ok _ _ _ _ _ (listEncryptedDbCandidates_spec w)).
  rewrite Hcs. cbn [length Nat.ltb Nat.leb].
  rewrite openFirstCandidate_cons.
  rewrite (bind_ok _ _ _ _ _
             (bind_ok _ _ _ _ _ (tryCandidate_found _ _ _ _ _ Hf Hn Ho))).
  reflexivity.
Qed.

End PersistCrash.

(** If the process stops during the persist sequence and no
    file operation has failed before the stop, the envelope that was on disk
    still exists at the envelope path or at the backup path, and an unlock
    with the passphrase after the restart succeeds: it opens that envelope
    or, when the stop came after the final rename, the new envelope that is
    already in place, the previous one being still in the backup. *)
Theorem persist_crash_keeps_an_openable_envelope `{NodeCrypto} `{HostEnv}
    (w w' : World) db v old o passphrase :
  w_db w = Some db -> w_locked w = false -> w_vault w = Some v ->
  acceptablePassphrase passphrase ->
  deriveKeysFromPassphrase passphrase (kdfSalt v) (kdfParams v) = ROk v ->
  length (kdfSalt v) = SALT_LEN -> validParams (kdfParams v) ->
  w_fs w !! dbEncPath = Some (NFile old) ->
  w_fs w !! dbBakPath <> Some NDir ->
  openVaultFromDatabaseEnvelope old passphrase = ROk o ->
  crashOnly (w_faults w) ->
  persistDbInternal w = (Halt, w') ->
  (w_fs w' !! dbEncPath = Some (NFile old) \/
   w_fs w' !! dbBakPath = Some (NFile old)) /\
  exists dbBytes src w'',
    unlockOpen passphrase (restart w') = (Ok (Some dbBytes, false, Some src), w'') /\
    ((dbBytes = plaintext o /\ w_fs w' !! dbPath src = Some (NFile old)) \/
     (dbBytes = sqlExport db /\ dbPath src = dbEncPath /\
      w_fs w' !! dbBakPath = Some (NFile old))).
Proof.
  intros Hdb Hl Hv Hpass Hd Hs Hp Henc Hbak Ho Hc E.
  destruct (persist_halt_recoverable w w' db v old Hdb Hl Hv Hc Henc Hbak E)
    as (new & Es & Hrec).
  destruct (sealed_db_opens (sqlExport db) passphrase _ _ v (w_tape w) Hd Hs Hp)
    as (env & Es' & Hnew).
  assert (env = new) as -> by congruence. clear Es'.
  assert (w_faults (restart w') = []) as Hf by reflexivity.
  destruct Hrec as [He|[[He Hb]|[He Hb]]].
  - split; [left; exact He|].
    eexists _, _, _. split.
    + eapply (unlockOpen_first passphrase (restart w') _ _ old o Hpass Hf);
        [ unfold candidatesOf; cbn [restart w_fs]; rewrite He;
          rewrite bool_decide_eq_true_2 by eauto; reflexivity
        | exact He | exact Ho ].
    + left. split; [reflexivity|exact He].
  - split; [right; exact Hb|].
    eexists _, _, _. split.
    + eapply (unlockOpen_first passphrase (restart w') _ _ old o Hpass Hf);
        [ unfold candidatesOf; cbn [restart w_fs]; rewrite He, Hb;
          rewrite bool_decide_eq_false_2 by (intros [? ?]; discriminate);
          rewrite bool_decide_eq_true_2 by eauto; reflexivity
        | exact Hb | exact Ho ].
    + left. split; [reflexivity|exact Hb].
  - split; [right; exact Hb|].
    eexists _, _, _. split.
    + eapply (unlockOpen_first passphrase (restart w') _ _ new _ Hpass Hf);
        [ unfold candidatesOf; cbn [restart w_fs]; rewrite He;
          rewrite bool_decide_eq_true_2 by eauto; reflexivity
        | exact He | exact Hnew ].
    + right. split; [reflexivity|]. split; [reflexivity|exact Hb].
Qed.

(** The session of [DemoWorld.unlocked], stopped at the final rename: the
    envelope has been moved to the backup and the unlock opens it there. *)
Lemma persist_crash_keeps_an_openable_envelope_witness :
  let w := DemoWorld.unlocked [FPass; FPass; FHalt] in
  let r := @persistDbInternal refCrypto refHost w in
  (w_fs (snd r) !! @dbEncPath refHost = Some (NFile Demo.envelope) \/
   w_fs (snd r) !! @dbBakPath refHost = Some (NFile Demo.envelope)) /\
  exists dbBytes src w'',
    @unlockOpen refCrypto refHost Demo.passphrase (@restart (snd r))
    = (Ok (Some dbBytes, false, Some src), w'') /\
    ((dbBytes = Demo.image /\
      w_fs (snd r) !! dbPath src = Some (NFile Demo.envelope)) \/
     (dbBytes = Demo.image /\ dbPath src = @dbEncPath refHost /\
      w_fs (snd r) !! @dbBakPath refHost = Some (NFile Demo.envelope))).
Proof.
  intros w r.
  apply (@persist_crash_keeps_an_openable_envelope refCrypto refHost
           w (snd r) Ref.emptyDb Demo.vault Demo.envelope
           {| plaintext := Demo.image; vault := Demo.vault |} Demo.passphrase).
  - reflexivity.
  - reflexivity.
  - reflexivity.
  - eexists. split; [reflexivity|]. vm_compute. lia.
  - vm_compute. reflexivity.
  - reflexivity.
  - unfold validParams, u32Range. cbn. lia.
  - vm_compute. reflexivity.
  - vm_compute. discriminate.
  - vm_compute. reflexivity.
  - repeat (apply List.Forall_cons; [discriminate|]). apply List.Forall_nil.
  - apply pair_eta_fst. vm_compute. reflexivity.
Defined.

(** When the move of the envelope to the backup path fails, the fallback
    deletes the envelope, and a stop before the final rename leaves neither
    the envelope nor a backup; the new envelope waits under the temporary
    name, which the unlock does not look at, and the unlock after the
    restart starts from an empty vault. *)
Lemma failed_move_aside_then_stop_loses_the_envelope :
  let w := DemoWorld.unlocked [FPass; FThrow; FPass; FHalt] in
  let r := @persistDbInternal refCrypto refHost w in
  w_fs w !! DemoWorld.encPath = Some (NFile Demo.envelope) /\
  fst r = Halt /\
  w_fs (snd r) !! DemoWorld.encPath = None /\
  w_fs (snd r) !! DemoWorld.bakPath = None /\
  is_Some (w_fs (snd r) !! DemoWorld.tmpPath) /\
  fst (@unlockOpen refCrypto refHost Demo.passphrase (restart (snd r)))
  = Ok (None, false, None).
Proof.
  vm_compute. repeat split. eauto.
Qed.


(** ** The snapshot taken before a restore *)

Section Restore.
Context `{NodeCrypto} `{HostEnv}.

Lemma restoreFromBackupFolder_parts backupDir reason :
  restoreFromBackupFolder backupDir reason
  = (src ← resolveBackupDatabaseSource backupDir;
     match src with
     | None =>
         pure (RestoreFailed
                 "Selected folder does not contain a valid backup database file.")
     | Some src =>
         preRestoreSnapshotId ← preRestoreSnapshot reason;
         restoreReplace backupDir src preRestoreSnapshotId
     end).
Proof. reflexivity. Qed.

Lemma resolveBackupDatabaseSource_reads backupDir w :
  exists src, resolveBackupDatabaseSource backupDir w = (Ok src, w).
Proof.
  unfold resolveBackupDatabaseSource. cbv zeta.
  unfold mbind, M_bind, bind, existsSync, gets, pure.
  destruct (w_fs w !! (backupDir ++ ["edisconotes.sqlite.enc"]));
    destruct (w_fs w !! (backupDir ++ ["edisconotes.sqlite"]));
    eexists; reflexivity.
Qed.

Lemma prefix_of_extension (l ext q : Path) :
  q `prefix_of` l ++ ext -> q `prefix_of` l \/ l `prefix_of` q.
Proof.
  intros Hq. apply (prefix_weak_total _ _ (l ++ ext)); [exact Hq|].
  apply prefix_app_r. reflexivity.
Qed.

Lemma Touches_createLocalSnapshot reason :
  Touches snapshotArea (createLocalSnapshot reason).
Proof.
  unfold createLocalSnapshot, persistDbOrThrow, getDatabaseFileStatus, randomUUID.
  touches;
    try (eapply Touches_weaken; [|apply Touches_persistDbInternal];
         unfold snapshotArea; tauto);
    try apply Touches_listEncryptedDbCandidates.
  - intros q Hq. right. left. exact Hq.
  - intros q Hq. right. exact (prefix_of_extension _ _ _ Hq).
  - right. right. rewrite <- app_assoc. apply prefix_app_r. reflexivity.
  - intros q Hq. right. rewrite <- app_assoc in Hq.
    exact (prefix_of_extension _ _ _ Hq).
  - intros q Hq. right. right. etransitivity; [|exact Hq].
    rewrite <- app_assoc. apply prefix_app_r. reflexivity.
  - right. right. rewrite <- app_assoc. apply prefix_app_r. reflexivity.
Qed.

(** A snapshot that returns has written its manifest, tagged with the
    reason it was given. *)
Lemma createLocalSnapshot_ok reason w snapshot ws :
  reason <> "" ->
  createLocalSnapshot reason w = (Ok snapshot, ws) ->
  si_reason snapshot = reason /\
  manifestOnDisk (w_fs ws) (si_id snapshot) reason.
Proof.
  intros Hr E. unfold createLocalSnapshot in E.
  rewrite bool_decide_eq_false_2 in E by exact Hr.
  do 4 ok_inv E.
  destruct (statusDbPath a2) as [dbFile|]; [|discriminate].
  ok_inv E. destruct (negb a3); [discriminate|].
  do 7 ok_inv E.
  apply bind_inv in E as [([] & wm & Ew & E)|[(? & _ & ?)|[_ ?]]]; try discriminate.
  injection E as <- <-. cbn [si_reason si_id]. split; [reflexivity|].
  pose proof (writeFileSync_lookup _ _ _ _ Ew) as K. rewrite <- app_assoc in K.
  eexists. split; [|split; [|exact K]]; reflexivity.
Qed.

(** The result of the replacement carries the identifier it was given. *)
Lemma restoreReplace_result backupDir src id w v w' :
  restoreReplace backupDir src id w = (Ok v, w') ->
  exists n, v = RestoreOk n id.
Proof.
  intros E. unfold restoreReplace in E. cbv zeta in E.
  do 10 ok_inv E. injection E as <- <-. eauto.
Qed.

End Restore.

(** A restore from a folder without a database file
    changes nothing.  Otherwise the restore first attempts the safety
    snapshot tagged pre-restore:<reason>, an attempt that changes nothing
    outside the envelope paths (the envelope, its backup and its temporary
    file, with what lies below them should one be a directory) and the
    snapshot tree with the directories above it.  When the attempt
    returns, the manifest of the snapshot is on disk, with that tag, before
    the vault is locked and the current files are replaced, and the result
    reports its identifier.  When the attempt fails, the error is logged,
    the current files are replaced all the same and the result reports no
    snapshot. *)
Theorem restore_attempts_the_safety_snapshot_first `{NodeCrypto} `{HostEnv}
    backupDir reason w r w' :
  restoreFromBackupFolder backupDir reason w = (r, w') ->
  exists src,
    resolveBackupDatabaseSource backupDir w = (Ok src, w) /\
    match src with
    | None =>
        r = Ok (RestoreFailed
                  "Selected folder does not contain a valid backup database file.")
        /\ w' = w
    | Some src =>
        exists rs ws,
          createLocalSnapshot ("pre-restore:" +:+ reason) w = (rs, ws) /\
          (forall q, ~ snapshotArea q -> w_fs ws !! q = w_fs w !! q) /\
          match rs with
          | Ok snapshot =>
              manifestOnDisk (w_fs ws) (si_id snapshot) ("pre-restore:" +:+ reason) /\
              restoreReplace backupDir src (Some (si_id snapshot)) ws = (r, w') /\
              (forall v, r = Ok v ->
                 exists n, v = RestoreOk n (Some (si_id snapshot)))
          | Throw e =>
              restoreReplace backupDir src None (logError e ws) = (r, w') /\
              (forall v, r = Ok v -> exists n, v = RestoreOk n None)
          | Halt => r = Halt /\ w' = ws
          end
    end.
Proof.
  intros E. rewrite restoreFromBackupFolder_parts in E.
  destruct (resolveBackupDatabaseSource_reads backupDir w) as [src Hs].
  exists src. split; [exact Hs|].
  rewrite (bind_ok _ _ _ _ _ Hs) in E.
  destruct src as [src|]; [|injection E as <- <-; auto].
  destruct (createLocalSnapshot ("pre-restore:" +:+ reason) w) as [rs ws] eqn:Ec.
  exists rs, ws. split; [reflexivity|]. split.
  { intros q Hq. exact (Touches_createLocalSnapshot _ w rs ws q Ec Hq). }
  rewrite bind_unfold in E. unfold preRestoreSnapshot, tryCatch in E.
  rewrite bind_unfold, Ec in E.
  destruct rs as [snapshot|e|].
  - split.
    { apply (createLocalSnapshot_ok _ w snapshot ws); [discriminate|exact Ec]. }
    split; [exact E|].
    intros v ->. exact (restoreReplace_result _ _ _ _ _ _ E).
  - split; [exact E|].
    intros v ->. exact (restoreReplace_result _ _ _ _ _ _ E).
  - injection E as <- <-. auto.
Qed.

(** A restore over [DemoWorld.restoreDisk] with a disk that works. *)
Lemma restore_attempts_the_safety_snapshot_first_witness :
  let w := DemoWorld.started DemoWorld.restoreDisk [] in
  let run := @restoreFromBackupFolder refCrypto refHost DemoWorld.backupDir "manual" w in
  exists src,
    resolveBackupDatabaseSource DemoWorld.backupDir w = (Ok src, w) /\
    match src with
    | None =>
        fst run
        = Ok (RestoreFailed
                "Selected folder does not contain a valid backup database file.")
        /\ snd run = w
    | Some src =>
        exists rs ws,
          @createLocalSnapshot refCrypto refHost "pre-restore:manual" w = (rs, ws) /\
          (forall q, ~ @snapshotArea refHost q -> w_fs ws !! q = w_fs w !! q) /\
          match rs with
          | Ok snapshot =>
              @manifestOnDisk refHost (w_fs ws) (si_id snapshot) "pre-restore:manual" /\
              @restoreReplace refCrypto refHost DemoWorld.backupDir src
                (Some (si_id snapshot)) ws = (fst run, snd run) /\
              (forall v, fst run = Ok v ->
                 exists n, v = RestoreOk n (Some (si_id snapshot)))
          | Throw e =>
              @restoreReplace refCrypto refHost DemoWorld.backupDir src None
                (logError e ws) = (fst run, snd run) /\
              (forall v, fst run = Ok v -> exists n, v = RestoreOk n None)
          | Halt => fst run = Halt /\ snd run = ws
          end
    end.
Proof.
  intros w run.
  exact (@restore_attempts_the_safety_snapshot_first refCrypto refHost
           DemoWorld.backupDir "manual" w (fst run) (snd run)
           (surjective_pairing run)).
Defined.

(** A restore whose snapshot cannot be made goes on all the same.  Over
    [DemoWorld.restoreDisk], once with a disk that refuses the copy of the
    database into the snapshot directory, once with no database file to
    snapshot: the failure is logged, the restore replaces the envelope,
    removes the attachment, reports no snapshot identifier, and the
    snapshot tree holds no file. *)
Lemma restore_replaces_current_data_without_a_snapshot :
  let restore w :=
    @restoreFromBackupFolder refCrypto refHost DemoWorld.backupDir "manual" w in
  let w1 := DemoWorld.started DemoWorld.restoreDisk [FPass; FPass; FPass; FThrow] in
  let w2 := DemoWorld.started (delete DemoWorld.encPath DemoWorld.restoreDisk) [] in
  (w_fs w1 !! DemoWorld.encPath = Some (NFile Demo.envelope) /\
   w_fs w1 !! DemoWorld.attachmentPath = Some (NFile [x01; x02]) /\
   fst (restore w1) = Ok (RestoreOk 0 None) /\
   w_console (snd (restore w1)) = [ErrIo OpCopy DemoWorld.encPath] /\
   w_fs (snd (restore w1)) !! DemoWorld.encPath = Some (NFile DemoWorld.backupEnvelope) /\
   w_fs (snd (restore w1)) !! DemoWorld.attachmentPath = None /\
   fst (@countFilesRecursive (@snapshotsRoot refHost) (snd (restore w1))) = Ok 0) /\
  (w_fs w2 !! DemoWorld.attachmentPath = Some (NFile [x01; x02]) /\
   fst (restore w2) = Ok (RestoreOk 0 None) /\
   w_console (snd (restore w2)) = [ErrNoDatabaseFile] /\
   w_fs (snd (restore w2)) !! DemoWorld.attachmentPath = None /\
   fst (@countFilesRecursive (@snapshotsRoot refHost) (snd (restore w2))) = Ok 0).
Proof.
  vm_compute. repeat split.
Qed.



(** ** Layout of the attachment file written by the store *)

(** The two attachment seal operations disagree on the layout.  For the
    three bytes "abc", the same key and the same nonce, the codec's
    [sealFileBytes] returns magic, version, nonce, the 16-byte tag and then
    the 3-byte ciphertext, while the store's [encryptAttachmentFile] leaves
    on disk magic, version, nonce, the ciphertext and then the tag. *)
Lemma sealFileBytes_puts_tag_before_ciphertext :
  let key := fileKey Demo.vault in
  let iv := @randomBytes refCrypto IV_LEN 2 in
  let w := DemoWorld.withAbc [] in
  let dest := DemoWorld.attachmentPath in
  exists ct tg,
    @gcmEncrypt refCrypto key iv (FILE_MAGIC ++ [FILE_VERSION]) [x61; x62; x63]
    = ROk (ct, tg) /\
    length ct = 3 /\ length tg = 16 /\
    @sealFileBytes refCrypto [x61; x62; x63] key 2
    = ROk (FILE_MAGIC ++ [FILE_VERSION] ++ iv ++ tg ++ ct) /\
    w_tape w = 2 /\
    fst (@encryptAttachmentFile refCrypto DemoWorld.abcPath dest key w) = Ok tt /\
    w_fs (snd (@encryptAttachmentFile refCrypto DemoWorld.abcPath dest key w)) !! dest
    = Some (NFile (FILE_MAGIC ++ [FILE_VERSION] ++ iv ++ ct ++ tg)) /\
    tg ++ ct <> ct ++ tg.
Proof.
  do 2 eexists. split; [reflexivity|].
  vm_compute. repeat split. discriminate.
Qed.


(** ** Further properties of the envelope codec *)

(** The 32-bit fields of the header: [u32] writes four bytes, [readU32] at
    the offset where they were written reads the value back modulo 2^32 (the
    [>>> 0] of the source), and a read that leaves less than four bytes is a
    range error. *)
Theorem u32_fields_round_trip :
  (forall v, length (u32 v) = 4) /\
  (forall (pre post : bytes) v,
      readU32 (pre ++ u32 v ++ post) (length pre) = ROk (v mod 2 ^ 32)%Z) /\
  (forall (buf : bytes) offset,
      length buf < offset + 4 -> readU32 buf offset = RErr ErrRange).
Proof.
  split; [exact u32_length|]. split; [exact readU32_u32|].
  intros buf offset Hlen. unfold readU32.
  destruct (drop offset buf) as [|b0 [|b1 [|b2 [|b3 l]]]] eqn:E; try reflexivity.
  exfalso. apply (f_equal length) in E. rewrite length_drop in E. simpl in E. lia.
Qed.

Lemma u32_fields_round_trip_witness :
  readU32 ([x45; x44] ++ u32 32768 ++ [x07]) 2 = ROk 32768%Z /\
  readU32 (u32 (2 ^ 32 + 5)) 0 = ROk 5%Z /\
  readU32 [x00; x00; x80] 0 = RErr ErrRange.
Proof.
  destruct u32_fields_round_trip as (_ & Hread & Hshort).
  split; [exact (Hread [x45; x44] [x07] 32768%Z)|].
  split; [exact (Hread [] [] (2 ^ 32 + 5)%Z)|].
  apply Hshort. simpl. lia.
Defined.

Section CodecRejections.
Context `{NodeCrypto}.

(** [openVaultFromDatabaseEnvelope] checks, in this order and before it looks
    at the passphrase: the length (65 bytes at least), the magic, the
    version byte. *)
Theorem openVault_rejects_malformed_envelopes (buf : bytes) passphrase :
  (length buf < 65 ->
   openVaultFromDatabaseEnvelope buf passphrase = RErr ErrDbTooSmall) /\
  (65 <= length buf -> take 8 buf <> DB_MAGIC ->
   openVaultFromDatabaseEnvelope buf passphrase = RErr ErrDbBadMagic) /\
  (forall v, 65 <= length buf -> take 8 buf = DB_MAGIC ->
     buf !! 8 = Some v -> v <> DB_VERSION ->
     openVaultFromDatabaseEnvelope buf passphrase = RErr (ErrDbVersion v)).
Proof.
  unfold openVaultFromDatabaseEnvelope.
  change (length DB_MAGIC + 1 + 12 + SALT_LEN + IV_LEN + TAG_LEN) with 65.
  change (subarray buf 0 (length DB_MAGIC)) with (take 8 buf).
  change (length DB_MAGIC) with 8.
  split; [|split].
  - intros Hlen. destruct (Nat.ltb_spec (length buf) 65); [reflexivity|lia].
  - intros Hlen Hm. destruct (Nat.ltb_spec (length buf) 65); [lia|].
    rewrite bool_decide_eq_false_2 by exact Hm. reflexivity.
  - intros v Hlen Hm Hv Hne. destruct (Nat.ltb_spec (length buf) 65); [lia|].
    rewrite bool_decide_eq_true_2 by exact Hm. cbn [negb].
    unfold readUInt8. rewrite Hv. cbn [mbind res_bind].
    rewrite bool_decide_eq_false_2 by exact Hne. reflexivity.
Qed.

(** [openFileBytes] likewise: the length (38 bytes at least, so that the
    ciphertext is not empty), the magic, the version byte, before the key is
    used. *)
Theorem openFileBytes_rejects_malformed_envelopes (buf fileKey : bytes) :
  (length buf < 38 -> openFileBytes buf fileKey = RErr ErrFileTooSmall) /\
  (38 <= length buf -> take 8 buf <> FILE_MAGIC ->
   openFileBytes buf fileKey = RErr ErrFileBadMagic) /\
  (forall v, 38 <= length buf -> take 8 buf = FILE_MAGIC ->
     buf !! 8 = Some v -> v <> FILE_VERSION ->
     openFileBytes buf fileKey = RErr (ErrFileVersion v)).
Proof.
  unfold openFileBytes.
  change (length FILE_MAGIC + 1 + IV_LEN + TAG_LEN + 1) with 38.
  change (subarray buf 0 (length FILE_MAGIC)) with (take 8 buf).
  change (length FILE_MAGIC) with 8.
  split; [|split].
  - intros Hlen. destruct (Nat.ltb_spec (length buf) 38); [reflexivity|lia].
  - intros Hlen Hm. destruct (Nat.ltb_spec (length buf) 38); [lia|].
    rewrite bool_decide_eq_false_2 by exact Hm. reflexivity.
  - intros v Hlen Hm Hv Hne. destruct (Nat.ltb_spec (length buf) 38); [lia|].
    rewrite bool_decide_eq_true_2 by exact Hm. cbn [negb].
    unfold readUInt8. rewrite Hv. cbn [mbind res_bind].
    rewrite bool_decide_eq_false_2 by exact Hne. reflexivity.
Qed.

End CodecRejections.

Lemma openVault_rejects_malformed_envelopes_witness :
  @openVaultFromDatabaseEnvelope refCrypto (take 64 Demo.envelope) Demo.passphrase
  = RErr ErrDbTooSmall /\
  @openVaultFromDatabaseEnvelope refCrypto (<[3 := x46]> Demo.envelope) Demo.passphrase
  = RErr ErrDbBadMagic /\
  @openVaultFromDatabaseEnvelope refCrypto (<[8 := x02]> Demo.envelope) Demo.passphrase
  = RErr (ErrDbVersion x02).
Proof.
  split; [|split].
  - apply (@openVault_rejects_malformed_envelopes refCrypto). simpl. lia.
  - apply (@openVault_rejects_malformed_envelopes refCrypto).
    + simpl. lia.
    + discriminate.
  - apply (proj2 (proj2 (@openVault_rejects_malformed_envelopes refCrypto
                            (<[8 := x02]> Demo.envelope) Demo.passphrase)) x02).
    + simpl. lia.
    + reflexivity.
    + reflexivity.
    + discriminate.
Defined.

Lemma openFileBytes_rejects_malformed_envelopes_witness :
  @openFileBytes refCrypto (FILE_MAGIC ++ [FILE_VERSION] ++ alloc 28) (fileKey Demo.vault)
  = RErr ErrFileTooSmall /\
  @openFileBytes refCrypto (DB_MAGIC ++ [FILE_VERSION] ++ alloc 29) (fileKey Demo.vault)
  = RErr ErrFileBadMagic /\
  @openFileBytes refCrypto (FILE_MAGIC ++ [x02] ++ alloc 29) (fileKey Demo.vault)
  = RErr (ErrFileVersion x02).
Proof.
  split; [|split].
  - apply (@openFileBytes_rejects_malformed_envelopes refCrypto). simpl. lia.
  - apply (@openFileBytes_rejects_malformed_envelopes refCrypto).
    + simpl. lia.
    + discriminate.
  - apply (proj2 (proj2 (@openFileBytes_rejects_malformed_envelopes refCrypto
                            (FILE_MAGIC ++ [x02] ++ alloc 29) (fileKey Demo.vault))) x02).
    + simpl. lia.
    + reflexivity.
    + reflexivity.
    + discriminate.
Defined.

Section CodecShapes.
Context `{NodeCrypto}.

(** A sealed database envelope describes itself: without a vault,
    [sealDatabaseBytes] refuses; with one, the envelope is 65 bytes longer
    than the image, starts with the magic and the version, carries the nonce
    that was drawn, and its header fields decode to the cost parameters and
    the salt of the vault. *)
Theorem sealed_envelope_describes_its_vault (b : bytes) v g :
  sealDatabaseBytes b None g = RErr ErrVaultNotInitialized /\
  (length (dbKey v) = 32 -> length (kdfSalt v) = SALT_LEN ->
   validParams (kdfParams v) ->
   exists env,
     sealDatabaseBytes b (Some v) g = ROk env /\
     length env = 65 + length b /\
     take 9 env = DB_MAGIC ++ [DB_VERSION] /\
     headerParams env = kdfParams v /\
     headerSalt env = kdfSalt v /\
     subarray env 37 49 = randomBytes IV_LEN g).
Proof.
  split; [reflexivity|]. intros Hk Hs (Hn & Hr & Hp).
  destruct (seal_db_shape b v g Hk) as (ct & tg & He & Hc & Ht & _ & Hseal).
  eexists. split; [exact Hseal|].
  assert (length (dbAad (kdfParams v) (kdfSalt v)) = 37) as Ha
      by (rewrite dbAad_length, Hs; reflexivity).
  split; [rewrite !length_app, Ha, random_length, Ht, Hc; unfold IV_LEN; lia|].
  split; [reflexivity|].
  split; [|split].
  - unfold headerParams, u32At. destruct (kdfParams v) as [n r p].
    cbn [spN spR spP] in *.
    set (rest := randomBytes IV_LEN g ++ tg ++ ct).
    assert (readU32 (dbAad {| spN := n; spR := r; spP := p |} (kdfSalt v) ++ rest) 9
            = ROk n) as ->.
    { pose proof (readU32_u32 (DB_MAGIC ++ [DB_VERSION])
                    (u32 r ++ u32 p ++ kdfSalt v ++ rest) n) as E.
      rewrite Z.mod_small in E by exact Hn. exact E. }
    assert (readU32 (dbAad {| spN := n; spR := r; spP := p |} (kdfSalt v) ++ rest) 13
            = ROk r) as ->.
    { pose proof (readU32_u32 (DB_MAGIC ++ [DB_VERSION] ++ u32 n)
                    (u32 p ++ kdfSalt v ++ rest) r) as E.
      rewrite Z.mod_small in E by exact Hr. exact E. }
    assert (readU32 (dbAad {| spN := n; spR := r; spP := p |} (kdfSalt v) ++ rest) 17
            = ROk p) as ->.
    { pose proof (readU32_u32 (DB_MAGIC ++ [DB_VERSION] ++ u32 n ++ u32 r)
                    (kdfSalt v ++ rest) p) as E.
      rewrite Z.mod_small in E by exact Hp. exact E. }
    reflexivity.
  - unfold headerSalt.
    change (dbAad (kdfParams v) (kdfSalt v)
              ++ randomBytes IV_LEN g ++ tg ++ ct)
      with ((DB_MAGIC ++ [DB_VERSION] ++ u32 (spN (kdfParams v))
               ++ u32 (spR (kdfParams v)) ++ u32 (spP (kdfParams v)))
              ++ kdfSalt v ++ randomBytes IV_LEN g ++ tg ++ ct).
    apply subarray_app_mid; [reflexivity | exact Hs].
  - apply subarray_app_mid; [exact Ha | apply random_length].
Qed.

(** The attachment envelope of the codec is magic, version, nonce, then the
    tag and then the ciphertext, with magic and version as additional
    authenticated data: [sealFileBytes] writes it so, 37 bytes longer than
    the plaintext, and [openFileBytes] reads it so. *)
Theorem file_envelope_has_tag_before_ciphertext (b fileKey : bytes) g :
  (length fileKey = 32 ->
   exists ct tg,
     gcmEncrypt fileKey (randomBytes IV_LEN g) (FILE_MAGIC ++ [FILE_VERSION]) b
     = ROk (ct, tg) /\
     sealFileBytes b fileKey g
     = ROk (FILE_MAGIC ++ [FILE_VERSION] ++ randomBytes IV_LEN g ++ tg ++ ct) /\
     length (FILE_MAGIC ++ [FILE_VERSION] ++ randomBytes IV_LEN g ++ tg ++ ct)
     = 37 + length b) /\
  (forall nonce tg ct : bytes,
     length nonce = 12 -> length tg = 16 -> ct <> [] ->
     openFileBytes (FILE_MAGIC ++ [FILE_VERSION] ++ nonce ++ tg ++ ct) fileKey
     = gcmDecrypt fileKey nonce tg ct (FILE_MAGIC ++ [FILE_VERSION])).
Proof.
  split.
  - intros Hk.
    destruct (seal_file_shape b fileKey g Hk) as (ct & tg & He & Hc & Ht & _ & Hs).
    exists ct, tg. split; [exact He|]. split; [exact Hs|].
    rewrite !length_app, random_length, Ht, Hc. reflexivity.
  - intros nonce tg ct Hn Ht Hc. rewrite open_file_parts by assumption.
    destruct ct; [congruence|reflexivity].
Qed.

End CodecShapes.

Lemma sealed_envelope_describes_its_vault_witness :
  exists env,
    @sealDatabaseBytes refCrypto Demo.image (Some Demo.vault) 1 = ROk env /\
    length env = 65 + length Demo.image /\
    take 9 env = DB_MAGIC ++ [DB_VERSION] /\
    @headerParams env = kdfParams Demo.vault /\
    headerSalt env = kdfSalt Demo.vault /\
    subarray env 37 49 = @randomBytes refCrypto IV_LEN 1.
Proof.
  apply (@sealed_envelope_describes_its_vault refCrypto Demo.image Demo.vault 1).
  - reflexivity.
  - reflexivity.
  - unfold validParams, u32Range. cbn. lia.
Defined.

Lemma file_envelope_has_tag_before_ciphertext_witness :
  (exists ct tg,
     @gcmEncrypt refCrypto (fileKey Demo.vault) (@randomBytes refCrypto IV_LEN 3)
       (FILE_MAGIC ++ [FILE_VERSION]) [x61; x62; x63] = ROk (ct, tg) /\
     @sealFileBytes refCrypto [x61; x62; x63] (fileKey Demo.vault) 3
     = ROk (FILE_MAGIC ++ [FILE_VERSION] ++ @randomBytes refCrypto IV_LEN 3 ++ tg ++ ct) /\
     length (FILE_MAGIC ++ [FILE_VERSION] ++ @randomBytes refCrypto IV_LEN 3 ++ tg ++ ct)
     = 37 + 3) /\
  @openFileBytes refCrypto
    (FILE_MAGIC ++ [FILE_VERSION] ++ alloc 12 ++ alloc 16 ++ [x00]) (fileKey Demo.vault)
  = @gcmDecrypt refCrypto (fileKey Demo.vault) (alloc 12) (alloc 16) [x00]
      (FILE_MAGIC ++ [FILE_VERSION]).
Proof.
  destruct (@file_envelope_has_tag_before_ciphertext refCrypto
              [x61; x62; x63] (fileKey Demo.vault) 3) as [Hseal Hopen].
  split.
  - apply Hseal. reflexivity.
  - apply (Hopen (alloc 12) (alloc 16) [x00]); [reflexivity|reflexivity|discriminate].
Defined.


(** ** The attachment files of the store *)

Lemma append_empty_r (s : string) : s +:+ "" = s.
Proof.
  induction s as [|c s IH]; [reflexivity|].
  change (String c (s +:+ "") = String c s). rewrite IH. reflexivity.
Qed.

Lemma pathSuffix_ne (p : Path) (suffix : string) :
  suffix <> "" -> pathSuffix p suffix <> p.
Proof.
  intros Hs. induction p as [|d rest IH]; [discriminate|].
  destruct rest as [|r rest'].
  - cbn. intros [= E]. rewrite <- (append_empty_r d) in E at 2.
    apply String.app_inj in E. exact (Hs E).
  - cbn [pathSuffix]. intros [= E]. exact (IH E).
Qed.

Lemma mkdir_fold_keeps (dirs : list Path) (f : gmap Path Node) q n :
  f !! q = Some n ->
  foldr (fun d f => match f !! d with
                    | None => <[d := NDir]> f
                    | Some _ => f
                    end) f dirs !! q = Some n.
Proof.
  intros Hq. induction dirs as [|d dirs IH]; [exact Hq|].
  cbn [foldr]. destruct (foldr _ f dirs !! d) eqn:Ed; [exact IH|].
  rewrite lookup_insert_ne by congruence. exact IH.
Qed.

Lemma mkdir_fold_file (dirs : list Path) (f : gmap Path Node) q x :
  foldr (fun d f => match f !! d with
                    | None => <[d := NDir]> f
                    | Some _ => f
                    end) f dirs !! q = Some (NFile x) ->
  f !! q = Some (NFile x).
Proof.
  induction dirs as [|d dirs IH]; [auto|].
  cbn [foldr]. destruct (foldr _ f dirs !! d) eqn:Ed; [exact IH|].
  destruct (decide (d = q)) as [->|Hne].
  - rewrite lookup_insert_eq. discriminate.
  - rewrite lookup_insert_ne by exact Hne. exact IH.
Qed.

Section Store.
Context `{NodeCrypto} `{HostEnv}.

(** [mkdirSync] that returned has added directories only. *)
Lemma mkdirSync_ok p w w' :
  mkdirSync p w = (Ok tt, w') ->
  (forall q n, w_fs w !! q = Some n -> w_fs w' !! q = Some n) /\
  (forall q x, w_fs w' !! q = Some (NFile x) -> w_fs w !! q = Some (NFile x)).
Proof.
  unfold mkdirSync. intros E.
  apply bind_inv in E as [([] & w1 & G & E)|[(? & _ & ?)|[_ ?]]]; try discriminate.
  destruct (fsGuard_outcome _ _ _ _ _ G) as [Hfs _].
  rewrite bind_unfold in E. unfold gets at 1 in E.
  destruct (existsb _ _); [discriminate|].
  injection E as <-. cbn [w_fs setFs]. rewrite Hfs. split.
  - intros q n. apply mkdir_fold_keeps.
  - intros q x. apply mkdir_fold_file.
Qed.

(** A run of [encryptAttachmentFile] that returned: the directories made,
    the source read, the file written under the temporary name and renamed. *)
Lemma encryptAttachmentFile_ok sourcePath destPath fileKey w w' :
  encryptAttachmentFile sourcePath destPath fileKey w = (Ok tt, w') ->
  exists input ct tg disk,
    (forall q n, w_fs w !! q = Some n -> disk !! q = Some n) /\
    w_fs w !! sourcePath = Some (NFile input) /\
    gcmEncrypt fileKey (randomBytes IV_LEN (w_tape w)) (FILE_MAGIC ++ [FILE_VERSION]) input
    = ROk (ct, tg) /\
    let file := FILE_MAGIC ++ [FILE_VERSION] ++ randomBytes IV_LEN (w_tape w) ++ ct ++ tg in
    w_fs w' = <[destPath := NFile file]>
                (delete (pathSuffix destPath ".tmp")
                   (<[pathSuffix destPath ".tmp" := NFile file]> disk)).
Proof.
  intros E. unfold encryptAttachmentFile in E.
  rewrite bind_unfold in E. unfold drawTape at 1 in E. cbv zeta in E.
  apply bind_inv in E as [([] & wm & Em & E)|[(? & _ & ?)|[_ ?]]]; try discriminate.
  rewrite bind_unfold in E. unfold liftRes at 1 in E.
  destruct (cipherInit fileKey (randomBytes IV_LEN (w_tape w))) as [[]|ec];
    [|discriminate E].
  unfold pure at 1 in E.
  apply bind_inv in E as [(src & wr & Er & E)|[(? & _ & ?)|[_ ?]]]; try discriminate.
  apply bind_inv in E as [([] & wh & Eh & E)|[(? & _ & ?)|[_ ?]]]; try discriminate.
  destruct src as [input|error]; [|discriminate E].
  apply tryCatch_inv in Er as [(e & w1 & _ & Er)|[Er _]]; [discriminate Er|].
  apply bind_inv in Er as [(data & wr' & Er & Ep)|[(? & _ & ?)|[_ ?]]];
    try discriminate.
  injection Ep as -> ->.
  destruct (gcmEncrypt fileKey (randomBytes IV_LEN (w_tape w))
              (FILE_MAGIC ++ [FILE_VERSION]) input) as [[ct tg]|e] eqn:Eg;
    [|discriminate E].
  unfold liftRes in E. rewrite bind_unfold in E. unfold pure at 1 in E.
  apply bind_inv in E as [([] & wt & Ew & E)|[(? & _ & ?)|[_ ?]]]; try discriminate.
  pose proof (renameSync_ok _ _ _ _ _ (writeFileSync_lookup _ _ _ _ Ew) E) as Hd.
  destruct (readFileSync_ok _ _ _ _ Er) as [Hfr Hr].
  destruct (mkdirSync_ok _ _ _ Em) as [Hkeep Hfile].
  exists input, ct, tg, (w_fs wm).
  split; [exact Hkeep|]. split; [exact (Hfile _ _ Hr)|]. split; [exact Eg|].
  cbv zeta. rewrite Hd, (writeFileSync_ok _ _ _ _ Ew), (writeFileSync_ok _ _ _ _ Eh), Hfr.
  rewrite insert_insert_eq. rewrite <- !app_assoc. reflexivity.
Qed.

(** The file that [encryptAttachmentFile] leaves at [destPath] is magic,
    version, nonce, the ciphertext of the source and then the tag (with a
    32-byte key: as many ciphertext bytes as the source has, and 16 of tag);
    the temporary file it was written to is gone, and every other file is
    as it was. *)
Theorem stored_attachment_has_tag_at_the_end sourcePath destPath fileKey w w' :
  encryptAttachmentFile sourcePath destPath fileKey w = (Ok tt, w') ->
  exists input ct tg,
    w_fs w !! sourcePath = Some (NFile input) /\
    gcmEncrypt fileKey (randomBytes IV_LEN (w_tape w)) (FILE_MAGIC ++ [FILE_VERSION]) input
    = ROk (ct, tg) /\
    w_fs w' !! destPath
    = Some (NFile (FILE_MAGIC ++ [FILE_VERSION] ++ randomBytes IV_LEN (w_tape w)
                     ++ ct ++ tg)) /\
    w_fs w' !! pathSuffix destPath ".tmp" = None /\
    (length fileKey = 32 -> length ct = length input /\ length tg = 16) /\
    (forall q x, q <> destPath -> q <> pathSuffix destPath ".tmp" ->
       w_fs w !! q = Some (NFile x) -> w_fs w' !! q = Some (NFile x)).
Proof.
  intros E.
  destruct (encryptAttachmentFile_ok _ _ _ _ _ E)
    as (input & ct & tg & disk & Hkeep & Hin & Eg & Hfs).
  cbv zeta in Hfs. exists input, ct, tg.
  split; [exact Hin|]. split; [exact Eg|]. rewrite Hfs. split; [|split; [|split]].
  - apply lookup_insert_eq.
  - rewrite lookup_insert_ne by (apply not_eq_sym, pathSuffix_ne; discriminate).
    apply lookup_delete_eq.
  - intros Hk.
    destruct (gcm_encrypt_decrypt fileKey (randomBytes IV_LEN (w_tape w))
                (FILE_MAGIC ++ [FILE_VERSION]) input Hk (random_length _ _))
      as (ct' & tg' & Eg' & Hc & Ht & _).
    rewrite Eg in Eg'. injection Eg' as <- <-. auto.
  - intros q x Hd Ht Hq.
    rewrite lookup_insert_ne, lookup_delete_ne, lookup_insert_ne by congruence.
    exact (Hkeep _ _ Hq).
Qed.

(** The parts [decryptAttachmentFile] cuts out of a stored file. *)
Lemma stored_file_parts (nonce ct tg : bytes) :
  length nonce = 12 -> length tg = 16 ->
  let file := FILE_MAGIC ++ [FILE_VERSION] ++ nonce ++ ct ++ tg in
  length file = 37 + length ct /\
  subarray (subarray file 0 21) 0 8 = FILE_MAGIC /\
  readUInt8 (subarray file 0 21) 8 = ROk FILE_VERSION /\
  drop 9 (subarray file 0 21) = nonce /\
  subarray file (length file - 16) (length file) = tg /\
  subarray file 21 (length file - 16 - 1 + 1) = ct.
Proof.
  intros Hn Ht file.
  set (hdr := FILE_MAGIC ++ [FILE_VERSION]).
  assert (file = (hdr ++ nonce) ++ ct ++ tg) as Hf1
      by (unfold file, hdr; rewrite <- !app_assoc; reflexivity).
  assert (file = ((hdr ++ nonce) ++ ct) ++ tg) as Hf2
      by (rewrite Hf1, <- !app_assoc; reflexivity).
  assert (length (hdr ++ nonce) = 21) as Hh by (rewrite length_app, Hn; reflexivity).
  assert (length file = 37 + length ct) as Hl.
  { rewrite Hf1, length_app, Hh, length_app, Ht. lia. }
  assert (subarray file 0 21 = hdr ++ nonce) as Hs.
  { unfold subarray. cbn [drop]. rewrite Hf1. apply take_app_length'.
    symmetry. exact Hh. }
  split; [exact Hl|]. rewrite Hs.
  split; [reflexivity|]. split; [reflexivity|]. split; [reflexivity|].
  split.
  - unfold subarray. rewrite Hl, Hf2.
    rewrite drop_app_length' by (rewrite length_app, Hh; lia).
    apply take_ge. lia.
  - rewrite Hl. replace (37 + length ct - 16 - 1 + 1) with (21 + length ct) by lia.
    rewrite Hf1. apply subarray_app_mid; [exact Hh | lia].
Qed.

(** [decryptAttachmentFile] on a file of that layout: the tag is taken from
    the last 16 bytes, the ciphertext from between nonce and tag. *)
Lemma decryptAttachmentFile_stored encryptedPath destPath fileKey w
    (nonce ct tg : bytes) r w' :
  length fileKey = 32 -> length nonce = 12 -> length tg = 16 ->
  w_fs w !! encryptedPath
  = Some (NFile (FILE_MAGIC ++ [FILE_VERSION] ++ nonce ++ ct ++ tg)) ->
  decryptAttachmentFile encryptedPath destPath fileKey w = (r, w') ->
  match r with
  | Ok _ =>
      ct <> [] /\
      exists output,
        gcmDecrypt fileKey nonce tg ct (FILE_MAGIC ++ [FILE_VERSION]) = ROk output /\
        w_fs w' !! destPath = Some (NFile output)
  | Throw e =>
      (ct = [] /\ e = ErrFileTooSmall) \/
      (ct <> [] /\
       gcmDecrypt fileKey nonce tg ct (FILE_MAGIC ++ [FILE_VERSION]) = RErr e) \/
      isIoError e
  | Halt => True
  end.
Proof.
  intros Hk Hn Ht Hfile E.
  destruct (stored_file_parts nonce ct tg Hn Ht) as (Hl & Hm & Hv & Hiv & Htag & Hct).
  set (file := FILE_MAGIC ++ [FILE_VERSION] ++ nonce ++ ct ++ tg) in *.
  unfold decryptAttachmentFile in E.
  apply bind_inv in E as [(stat & ws & Es & E)|[(e & Es & ->)|[_ ->]]]; [| |exact I].
  2:{ right. right. exact (ThrowsOnly_statSync _ _ _ _ Es). }
  destruct (statSync_ok _ _ _ _ Es) as [Hfs Hst].
  rewrite Hfile in Hst. injection Hst as <-.
  cbn [fileSize] in E. rewrite Nat2Z.id in E. cbv zeta in E.
  change (length FILE_MAGIC + 1 + IV_LEN) with 21 in E.
  change (21 + TAG_LEN + 1) with 38 in E. change TAG_LEN with 16 in E.
  change (length FILE_MAGIC) with 8 in E. change (8 + 1) with 9 in E.
  destruct (Nat.ltb_spec (length file) 38) as [Hlt|Hge].
  { injection E as <- <-. left. split; [|reflexivity].
    destruct ct; [reflexivity|]. rewrite Hl in Hlt. cbn [length] in Hlt. lia. }
  assert (ct <> []) as Hne.
  { intros ->. rewrite Hl in Hge. cbn [length] in Hge. lia. }
  apply bind_inv in E as [(file0 & wr & Er & E)|[(e & Er & ->)|[_ ->]]]; [| |exact I].
  2:{ right. right. exact (ThrowsOnly_readFileSync _ _ _ _ Er). }
  destruct (readFileSync_ok _ _ _ _ Er) as [Hfr Hrd].
  rewrite Hfs, Hfile in Hrd. injection Hrd as <-. fold file in E.
  rewrite Hm, Hv, Hiv, Htag, Hct in E.
  rewrite bool_decide_eq_true_2 in E by reflexivity. cbn [negb] in E.
  rewrite bind_unfold in E. unfold liftRes at 1 in E. unfold pure at 1 in E.
  cbn beta iota in E.
  rewrite bool_decide_eq_true_2 in E by reflexivity. cbn [negb] in E.
  rewrite bind_unfold in E. rewrite (cipher_init_ok _ _ Hk Hn) in E.
  unfold liftRes at 1 in E. unfold pure at 1 in E.
  apply bind_inv in E as [([] & wm & Em & E)|[(e & Em & ->)|[_ ->]]]; [| |exact I].
  2:{ right. right. exact (ThrowsOnly_mkdirSync _ _ _ _ Em). }
  apply bind_inv in E as [([] & wt & Ew & E)|[(e & Ew & ->)|[_ ->]]]; [| |exact I].
  2:{ right. right. exact (ThrowsOnly_writeFileSync _ _ _ _ _ Ew). }
  rewrite bind_unfold in E.
  destruct (gcmDecrypt fileKey nonce tg ct (FILE_MAGIC ++ [FILE_VERSION]))
    as [output|e] eqn:Eg.
  2:{ injection E as <- <-. right. left. auto. }
  unfold liftRes at 1 in E. unfold pure at 1 in E.
  destruct r as [[]|e|]; [| |exact I].
  - split; [exact Hne|]. exists output. split; [reflexivity|].
    rewrite (renameSync_lookup _ _ _ _ _ (writeFileSync_lookup _ _ _ _ Ew) E).
    rewrite (gcm_decrypt_update _ _ _ _ _ _ Eg). reflexivity.
  - right. right. exact (ThrowsOnly_renameSync _ _ _ _ _ E).
Qed.

(** What the store encrypts it decrypts: a file written by
    [encryptAttachmentFile] and not changed since is turned back into the
    bytes of the source by [decryptAttachmentFile] under the same 32-byte
    key, whatever the world around it.  The decryption can fail only on a
    file-system call, except for the empty source, whose 37-byte file is
    refused as too small. *)
Theorem stored_attachment_round_trip sourcePath destPath fileKey w w1 :
  length fileKey = 32 ->
  encryptAttachmentFile sourcePath destPath fileKey w = (Ok tt, w1) ->
  exists input,
    w_fs w !! sourcePath = Some (NFile input) /\
    forall w2 outPath r w3,
      w_fs w2 !! destPath = w_fs w1 !! destPath ->
      decryptAttachmentFile destPath outPath fileKey w2 = (r, w3) ->
      match r with
      | Ok _ => input <> [] /\ w_fs w3 !! outPath = Some (NFile input)
      | Throw e => (input = [] /\ e = ErrFileTooSmall) \/ isIoError e
      | Halt => True
      end.
Proof.
  intros Hk E.
  destruct (encryptAttachmentFile_ok _ _ _ _ _ E)
    as (input & ct & tg & disk & _ & Hin & Eg & Hfs).
  assert (w_fs w1 !! destPath
          = Some (NFile (FILE_MAGIC ++ [FILE_VERSION] ++ randomBytes IV_LEN (w_tape w)
                           ++ ct ++ tg))) as Hd
      by (rewrite Hfs; apply lookup_insert_eq).
  exists input. split; [exact Hin|].
  destruct (gcm_encrypt_decrypt fileKey (randomBytes IV_LEN (w_tape w))
              (FILE_MAGIC ++ [FILE_VERSION]) input Hk (random_length _ _))
    as (ct' & tg' & Eg' & Hc & Ht & Hdec).
  rewrite Eg in Eg'. injection Eg' as <- <-.
  intros w2 outPath r w3 Hsame E2. rewrite Hd in Hsame.
  pose proof (decryptAttachmentFile_stored destPath outPath fileKey w2
                (randomBytes IV_LEN (w_tape w)) ct tg r w3
                Hk (random_length _ _) Ht Hsame E2) as K.
  destruct r as [[]|e|]; [| |exact I].
  - destruct K as (Hne & output & Ho & Hout). rewrite Hdec in Ho.
    injection Ho as <-. split; [|exact Hout].
    intros ->. apply Hne. destruct ct; [reflexivity|discriminate].
  - destruct K as [[-> ->]|[[_ Hbad]|Hio]].
    + left. split; [|reflexivity]. destruct input; [reflexivity|discriminate].
    + congruence.
    + right. exact Hio.
Qed.

(** [decryptAttachmentFile] refuses a file that is too short, has another
    magic or another version before it creates or writes anything. *)
Theorem decryptAttachmentFile_rejects_malformed_files
    encryptedPath destPath fileKey w (file : bytes) r w' :
  w_fs w !! encryptedPath = Some (NFile file) ->
  length file < 38 \/ take 8 file <> FILE_MAGIC \/ file !! 8 <> Some FILE_VERSION ->
  decryptAttachmentFile encryptedPath destPath fileKey w = (r, w') ->
  w_fs w' = w_fs w /\
  match r with
  | Ok _ => False
  | Throw e =>
      (length file < 38 /\ e = ErrFileTooSmall) \/
      (38 <= length file /\ take 8 file <> FILE_MAGIC /\ e = ErrFileBadMagic) \/
      (38 <= length file /\ take 8 file = FILE_MAGIC /\
       exists v, file !! 8 = Some v /\ v <> FILE_VERSION /\ e = ErrFileVersion v) \/
      e = ErrIo OpStat encryptedPath \/ e = ErrIo OpRead encryptedPath
  | Halt => True
  end.
Proof.
  intros Hfile Hbad E. unfold decryptAttachmentFile in E.
  assert (subarray (subarray file 0 21) 0 8 = take 8 file) as Hm.
  { change (subarray (subarray file 0 21) 0 8) with (take 8 (take 21 file)).
    rewrite take_take. reflexivity. }
  assert (readUInt8 (subarray file 0 21) 8
          = match file !! 8 with Some b => ROk b | None => RErr ErrRange end) as Hv.
  { unfold readUInt8. change (subarray file 0 21) with (take 21 file).
    rewrite lookup_take_lt by lia. reflexivity. }
  apply bind_inv in E as [(stat & ws & Es & E)|[(e & Es & ->)|[Es ->]]];
    destruct (statSync_outcome _ _ _ _ Es) as [Hfs Hst].
  2:{ split; [exact Hfs|]. auto 6. }
  2:{ split; [exact Hfs|exact I]. }
  rewrite Hfile in Hst. injection Hst as <-.
  cbn [fileSize] in E. rewrite Nat2Z.id in E. cbv zeta in E.
  change (length FILE_MAGIC + 1 + IV_LEN) with 21 in E.
  change (21 + TAG_LEN + 1) with 38 in E.
  change (length FILE_MAGIC) with 8 in E.
  destruct (Nat.ltb_spec (length file) 38) as [Hlt|Hge].
  { injection E as <- <-. split; [exact Hfs|]. auto. }
  apply bind_inv in E as [(file0 & wr & Er & E)|[(e & Er & ->)|[Er ->]]];
    destruct (readFileSync_outcome _ _ _ _ Er) as [Hfr Hrd].
  2:{ split; [congruence|]. auto 7. }
  2:{ split; [congruence|exact I]. }
  rewrite Hfs, Hfile in Hrd. injection Hrd as <-.
  rewrite Hm, Hv in E.
  destruct (decide (take 8 file = FILE_MAGIC)) as [Hmagic|Hmagic].
  2:{ rewrite bool_decide_eq_false_2 in E by exact Hmagic.
      injection E as <- <-. split; [congruence|]. auto 6. }
  rewrite bool_decide_eq_true_2 in E by exact Hmagic. cbn [negb] in E.
  destruct (file !! 8) as [v|] eqn:E8.
  2:{ exfalso. apply lookup_ge_None in E8. lia. }
  rewrite bind_unfold in E. unfold liftRes at 1 in E. unfold pure at 1 in E.
  cbn beta iota in E.
  destruct (decide (v = FILE_VERSION)) as [->|Hver].
  { exfalso. destruct Hbad as [?|[?|?]]; [lia|contradiction|contradiction]. }
  rewrite bool_decide_eq_false_2 in E by exact Hver.
  injection E as <- <-. split; [congruence|].
  right. right. left. eauto 8.
Qed.

End Store.

Lemma stored_attachment_has_tag_at_the_end_witness :
  let w := DemoWorld.withAbc [] in
  let run := @encryptAttachmentFile refCrypto DemoWorld.abcPath DemoWorld.attachmentPath
               (fileKey Demo.vault) w in
  exists input ct tg,
    w_fs w !! DemoWorld.abcPath = Some (NFile input) /\
    @gcmEncrypt refCrypto (fileKey Demo.vault) (@randomBytes refCrypto IV_LEN (w_tape w))
      (FILE_MAGIC ++ [FILE_VERSION]) input = ROk (ct, tg) /\
    w_fs (snd run) !! DemoWorld.attachmentPath
    = Some (NFile (FILE_MAGIC ++ [FILE_VERSION]
                     ++ @randomBytes refCrypto IV_LEN (w_tape w) ++ ct ++ tg)) /\
    w_fs (snd run) !! pathSuffix DemoWorld.attachmentPath ".tmp" = None /\
    (length (fileKey Demo.vault) = 32 -> length ct = length input /\ length tg = 16) /\
    (forall q x, q <> DemoWorld.attachmentPath ->
       q <> pathSuffix DemoWorld.attachmentPath ".tmp" ->
       w_fs w !! q = Some (NFile x) -> w_fs (snd run) !! q = Some (NFile x)).
Proof.
  intros w run.
  apply (@stored_attachment_has_tag_at_the_end refCrypto DemoWorld.abcPath
           DemoWorld.attachmentPath (fileKey Demo.vault) w (snd run)).
  apply pair_eta_fst. vm_compute. reflexivity.
Defined.

(** The three bytes "abc", stored and opened again. *)
Lemma stored_attachment_round_trip_witness :
  let w := DemoWorld.withAbc [] in
  let stored := @encryptAttachmentFile refCrypto DemoWorld.abcPath DemoWorld.attachmentPath
                  (fileKey Demo.vault) w in
  let outPath := ["tmp"; "edisconotes-decrypted"; "abc.txt"] in
  let opened := @decryptAttachmentFile refCrypto DemoWorld.attachmentPath outPath
                  (fileKey Demo.vault) (snd stored) in
  fst opened = Ok tt /\
  w_fs (snd opened) !! outPath = Some (NFile [x61; x62; x63]).
Proof.
  intros w stored outPath opened.
  destruct (@stored_attachment_round_trip refCrypto DemoWorld.abcPath
              DemoWorld.attachmentPath (fileKey Demo.vault) w (snd stored))
    as (input & Hin & Hall).
  - reflexivity.
  - apply pair_eta_fst. vm_compute. reflexivity.
  - assert (fst opened = Ok tt) as Hok by (vm_compute; reflexivity).
    specialize (Hall (snd stored) outPath (fst opened) (snd opened) eq_refl
                  (surjective_pairing opened)).
    rewrite Hok in Hall. destruct Hall as [_ Hout].
    split; [exact Hok|]. rewrite Hout.
    assert (w_fs w !! DemoWorld.abcPath = Some (NFile [x61; x62; x63])) as Habc
        by (vm_compute; reflexivity).
    congruence.
Defined.

(** The database envelope handed to [decryptAttachmentFile]: another magic. *)
Lemma decryptAttachmentFile_rejects_malformed_files_witness :
  let w := DemoWorld.unlocked [] in
  let run := @decryptAttachmentFile refCrypto DemoWorld.encPath ["tmp"; "out.bin"]
               (fileKey Demo.vault) w in
  fst run = Throw ErrFileBadMagic /\ w_fs (snd run) = w_fs w.
Proof.
  intros w run.
  destruct (@decryptAttachmentFile_rejects_malformed_files refCrypto
              DemoWorld.encPath ["tmp"; "out.bin"] (fileKey Demo.vault) w
              Demo.envelope (fst run) (snd run)) as [Hfs _].
  - vm_compute. reflexivity.
  - right. left. discriminate.
  - apply surjective_pairing.
  - split; [vm_compute; reflexivity|exact Hfs].
Defined.


(** ** Further properties of the persist sequence *)

Section PersistFacts.
Context `{NodeCrypto} `{HostEnv}.

(** Without a database in memory, with the vault locked or without key
    material, the three persist functions return at once: nothing is written,
    no random number is drawn and no file-system call is made. *)
Theorem persist_without_open_session_does_nothing w :
  w_db w = None \/ w_locked w = true \/ w_vault w = None ->
  persistDbInternal w = (Ok tt, w) /\
  persistDb w = (Ok tt, w) /\
  persistDbOrThrow w = (Ok tt, w).
Proof.
  intros Hw.
  assert (persistDbInternal w = (Ok tt, w)) as E.
  { unfold persistDbInternal. rewrite bind_unfold. unfold gets at 1.
    destruct (w_db w) as [db|]; [|reflexivity].
    cbn [ENCRYPTION_ENABLED negb]. cbv iota.
    rewrite bind_unfold. unfold gets at 1. rewrite bind_unfold. unfold gets at 1.
    destruct Hw as [?|[Hl|Hv]]; [discriminate| |].
    - rewrite Hl. reflexivity.
    - rewrite Hv. rewrite bool_decide_eq_false_2 by (intros [? ?]; discriminate).
      rewrite orb_true_r. reflexivity. }
  split; [exact E|]. split; [|exact E].
  unfold persistDb, tryCatch. rewrite E. reflexivity.
Qed.

(** Whenever [persistDbInternal] returns in an open session, whatever the
    file-system calls on the way did: the envelope path holds the image of
    the in-memory database sealed under the vault with the nonce drawn at
    this call, that envelope opens with the passphrase of the vault, the
    temporary file is gone and the session is as it was. *)
Theorem persist_leaves_the_sealed_database_in_place w w' db v passphrase :
  w_db w = Some db -> w_locked w = false -> w_vault w = Some v ->
  deriveKeysFromPassphrase passphrase (kdfSalt v) (kdfParams v) = ROk v ->
  length (kdfSalt v) = SALT_LEN -> validParams (kdfParams v) ->
  persistDbInternal w = (Ok tt, w') ->
  exists env,
    sealDatabaseBytes (sqlExport db) (Some v) (w_tape w) = ROk env /\
    w_fs w' !! dbEncPath = Some (NFile env) /\
    openVaultFromDatabaseEnvelope env passphrase
    = ROk {| plaintext := sqlExport db; vault := v |} /\
    w_fs w' !! dbTmpPath = None /\
    session w' = session w.
Proof.
  intros Hdb Hl Hv Hd Hs Hp E.
  destruct envelope_paths_distinct as (Neb & Net & Nbt).
  destruct (sealed_db_opens (sqlExport db) passphrase _ _ v (w_tape w) Hd Hs Hp)
    as (env & Es & Hopen).
  exists env. split; [exact Es|].
  pose proof (Keeps_persistDbInternal w _ w' E) as Hsession.
  unfold persistDbInternal in E. rewrite bind_unfold in E. unfold gets at 1 in E.
  rewrite Hdb in E. cbn [ENCRYPTION_ENABLED negb] in E. cbv iota in E.
  rewrite bind_unfold in E. unfold gets at 1 in E.
  rewrite bind_unfold in E. unfold gets at 1 in E.
  rewrite Hl, Hv in E. rewrite bool_decide_eq_true_2 in E by eauto.
  cbn [orb negb] in E. cbv iota in E.
  rewrite bind_unfold in E. unfold drawTape at 1 in E.
  rewrite bind_unfold, Es in E.
  unfold liftRes, pure at 1 in E. cbv zeta in E.
  fold dbBakPath dbTmpPath in E.
  set (w0 := setTape (S (w_tape w)) w) in E. clearbody w0.
  apply bind_inv in E as [([] & w1 & Ew & E)|[(? & _ & ?)|[_ ?]]]; try discriminate.
  apply bind_inv in E as [([] & w2 & Eb & E)|[(? & _ & ?)|[_ ?]]]; try discriminate.
  apply bind_inv in E as [(t & w2' & Ee & E)|[(? & _ & ?)|[_ ?]]]; try discriminate.
  injection Ee as <- <-.
  apply bind_inv in E as [([] & w3 & Ea & E)|[(? & _ & ?)|[_ ?]]]; try discriminate.
  apply bind_inv in E as [([] & w4 & Er & E)|[(? & _ & ?)|[_ ?]]]; try discriminate.
  (* the temporary file holds the envelope until it is renamed *)
  pose proof (writeFileSync_lookup _ _ _ _ Ew) as T1.
  assert (w_fs w2 !! dbTmpPath = Some (NFile env)) as T2.
  { rewrite <- T1.
    apply (Touches_removeBackupIfPresent (fun q => q = dbBakPath) dbBakPath eq_refl
             w1 _ w2 dbTmpPath Eb). congruence. }
  assert (w_fs w3 !! dbTmpPath = Some (NFile env)) as T3.
  { rewrite <- T2.
    match type of Ea with
    | ?m _ = _ =>
        assert (Touches (fun q => dbEncPath `prefix_of` q \/ dbBakPath `prefix_of` q) m)
          as Hm
          by (destruct (bool_decide _); touches; auto; left; reflexivity)
    end.
    apply (Hm w2 _ w3 dbTmpPath Ea).
    intros [Hq|Hq]; apply envelope_paths_apart in Hq;
      try congruence; set_solver. }
  pose proof (renameSync_ok _ _ _ _ _ T3 Er) as Hf4.
  assert (forall q, q <> dbBakPath -> w_fs w' !! q = w_fs w4 !! q) as Hlast.
  { intros q Hq.
    apply (Touches_removeBackupIfPresent (fun q => q = dbBakPath) dbBakPath eq_refl
             w4 _ w' q E). exact Hq. }
  split; [|split; [exact Hopen|split; [|exact Hsession]]].
  - rewrite Hlast by exact Neb. rewrite Hf4. apply lookup_insert_eq.
  - rewrite Hlast by congruence. rewrite Hf4.
    rewrite lookup_insert_ne by exact Net. apply lookup_delete_eq.
Qed.

(** Without a directory at the envelope path, [persistDbInternal] changes
    no path but the envelope, its backup and its temporary file. *)
Lemma persistDbInternal_files w r w' q :
  w_fs w !! dbEncPath <> Some NDir -> persistDbInternal w = (r, w') ->
  q <> dbEncPath -> q <> dbBakPath -> q <> dbTmpPath ->
  w_fs w' !! q = w_fs w !! q.
Proof.
  intros Hfile E He Hb Ht.
  destruct envelope_paths_distinct as (Neb & Net & Nbt).
  unfold persistDbInternal in E. rewrite bind_unfold in E. unfold gets at 1 in E.
  destruct (w_db w) as [db|]; [|injection E as _ <-; reflexivity].
  cbn [ENCRYPTION_ENABLED negb] in E. cbv iota in E.
  rewrite bind_unfold in E. unfold gets at 1 in E.
  rewrite bind_unfold in E. unfold gets at 1 in E.
  destruct (w_locked w || negb (bool_decide (is_Some (w_vault w))));
    [injection E as _ <-; reflexivity|].
  rewrite bind_unfold in E. unfold drawTape at 1 in E. rewrite bind_unfold in E.
  destruct (sealDatabaseBytes (sqlExport db) (w_vault w) (w_tape w)) as [env|e];
    [|injection E as _ <-; reflexivity].
  unfold liftRes, pure at 1 in E. cbv zeta in E.
  fold dbBakPath dbTmpPath in E.
  set (w0 := setTape (S (w_tape w)) w) in E.
  change (w_fs w) with (w_fs w0) in Hfile |- *. clearbody w0.
  set (only := fun (a b : Path) (q : Path) => q = a \/ q = b).
  assert (~ only dbTmpPath dbTmpPath q) as Qt by (intros [?|?]; contradiction).
  assert (~ only dbBakPath dbBakPath q) as Qb by (intros [?|?]; contradiction).
  assert (~ only dbEncPath dbBakPath q) as Qeb by (intros [?|?]; contradiction).
  assert (~ only dbTmpPath dbEncPath q) as Qte by (intros [?|?]; contradiction).
  assert (forall a b, only a b a) as Ol by (intros; left; reflexivity).
  assert (forall a b, only a b b) as Or by (intros; right; reflexivity).
  (* the temporary file *)
  pose proof (Touches_writeFileSync (only dbTmpPath dbTmpPath) dbTmpPath env (Ol _ _))
    as Tw.
  apply bind_inv in E as [([] & w1 & E1 & E)|[(? & E1 & _)|[E1 _]]];
    [|exact (Tw _ _ _ q E1 Qt)..].
  rewrite <- (Tw _ _ _ q E1 Qt).
  assert (w_fs w1 !! dbEncPath <> Some NDir) as Hfile1.
  { rewrite (Tw _ _ _ dbEncPath E1) by (intros [?|?]; congruence). exact Hfile. }
  pose proof (writeFileSync_lookup _ _ _ _ E1) as T1.
  clear E1 Hfile w0.
  (* the stale backup *)
  pose proof (Touches_removeBackupIfPresent (only dbBakPath dbBakPath) dbBakPath (Ol _ _))
    as Tb.
  apply bind_inv in E as [([] & w2 & E2 & E)|[(? & E2 & _)|[E2 _]]];
    [|exact (Tb _ _ _ q E2 Qb)..].
  rewrite <- (Tb _ _ _ q E2 Qb).
  assert (w_fs w2 !! dbEncPath <> Some NDir) as Hfile2.
  { rewrite (Tb _ _ _ dbEncPath E2) by (intros [?|?]; congruence). exact Hfile1. }
  assert (w_fs w2 !! dbTmpPath = Some (NFile env)) as T2.
  { rewrite (Tb _ _ _ dbTmpPath E2) by (intros [?|?]; congruence). exact T1. }
  clear E2 Hfile1 T1 w1.
  (* the envelope moved aside *)
  rewrite bind_unfold in E. unfold existsSync, gets at 1 in E.
  assert (forall m r3 w3 x,
             m = (if bool_decide (is_Some (w_fs w2 !! dbEncPath))
                  then tryCatch (renameSync dbEncPath dbBakPath)
                         (fun _ => tryCatch (unlinkSync dbEncPath) (fun _ => pure tt))
                  else pure tt) ->
             m w2 = (r3, w3) -> ~ only dbEncPath dbBakPath x ->
             w_fs w3 !! x = w_fs w2 !! x) as Ta.
  { intros m r3 w3 x -> Em Hx.
    destruct (bool_decide (is_Some (w_fs w2 !! dbEncPath))).
    2:{ injection Em as _ <-. reflexivity. }
    apply tryCatch_inv in Em as [(e & wa & Em1 & Em2)|[Em1 _]].
    - rewrite <- (renameSync_files (only dbEncPath dbBakPath) _ _ _ _ _ x
                    Hfile2 (Ol _ _) (Or _ _) Em1 Hx).
      assert (Touches (only dbEncPath dbBakPath)
                (tryCatch (unlinkSync dbEncPath) (fun _ => pure tt))) as Tu
          by (touches; apply Ol).
      exact (Tu _ _ _ x Em2 Hx).
    - exact (renameSync_files (only dbEncPath dbBakPath) _ _ _ _ _ x
               Hfile2 (Ol _ _) (Or _ _) Em1 Hx). }
  apply bind_inv in E as [([] & w3 & E3 & E)|[(? & E3 & _)|[E3 _]]];
    [|exact (Ta _ _ _ q eq_refl E3 Qeb)..].
  rewrite <- (Ta _ _ _ q eq_refl E3 Qeb).
  assert (w_fs w3 !! dbTmpPath <> Some NDir) as T3.
  { rewrite (Ta _ _ _ dbTmpPath eq_refl E3) by (intros [?|?]; congruence).
    rewrite T2. discriminate. }
  clear Ta E3 T2 Hfile2 w2.
  (* the new envelope put in place *)
  apply bind_inv in E as [([] & w4 & E4 & E)|[(? & E4 & _)|[E4 _]]];
    [|exact (renameSync_files (only dbTmpPath dbEncPath) _ _ _ _ _ q
                T3 (Ol _ _) (Or _ _) E4 Qte)..].
  rewrite <- (renameSync_files (only dbTmpPath dbEncPath) _ _ _ _ _ q
                T3 (Ol _ _) (Or _ _) E4 Qte).
  exact (Tb _ _ _ q E Qb).
Qed.

Lemma Touches_persistDb_files w r w' q :
  w_fs w !! dbEncPath <> Some NDir -> persistDb w = (r, w') ->
  q <> dbEncPath -> q <> dbBakPath -> q <> dbTmpPath ->
  w_fs w' !! q = w_fs w !! q.
Proof.
  intros Hfile E He Hb Ht. unfold persistDb in E.
  apply tryCatch_inv in E as [(e & w1 & E1 & E2)|[E1 _]].
  - injection E2 as _ <-. cbn [w_fs logError].
    exact (persistDbInternal_files _ _ _ _ Hfile E1 He Hb Ht).
  - exact (persistDbInternal_files _ _ _ _ Hfile E1 He Hb Ht).
Qed.

(** [persistDb], the variant the handlers call, never raises and is
    confined: it changes nothing on disk but the envelope, its backup and
    its temporary file, with what lies below one of these paths where a
    directory stands in the place of the file, and it leaves the in-memory
    database, the lock and the key material alone.  Where none of the three
    paths holds a directory, it changes no path but these three. *)
Theorem persistDb_is_confined_to_the_envelope_files w r w' :
  persistDb w = (r, w') ->
  (forall e, r <> Throw e) /\
  session w' = session w /\
  (forall q, ~ dbEncPath `prefix_of` q -> ~ dbBakPath `prefix_of` q ->
     ~ dbTmpPath `prefix_of` q -> w_fs w' !! q = w_fs w !! q) /\
  (w_fs w !! dbEncPath <> Some NDir ->
   forall q, q <> dbEncPath -> q <> dbBakPath -> q <> dbTmpPath ->
     w_fs w' !! q = w_fs w !! q).
Proof.
  intros E. split; [|split; [|split]].
  - intros e ->. exact (persistDb_never_throws (fun _ => False) w e w' E).
  - exact (Keeps_persistDb w r w' E).
  - intros q He Hb Ht.
    assert (Touches envelopeArea persistDb) as Hp.
    { unfold persistDb. apply Touches_tryCatch; [apply Touches_persistDbInternal|].
      intros e. apply Touches_consoleError. }
    apply (Hp w r w' q E). unfold envelopeArea. intros [?|[?|?]]; contradiction.
  - intros Hfile q He Hb Ht.
    exact (Touches_persistDb_files w r w' q Hfile E He Hb Ht).
Qed.

End PersistFacts.

Lemma persist_without_open_session_does_nothing_witness :
  let w := DemoWorld.started {[ DemoWorld.encPath := NFile Demo.envelope ]} [FThrow] in
  @persistDbInternal refCrypto refHost w = (Ok tt, w) /\
  @persistDb refCrypto refHost w = (Ok tt, w) /\
  @persistDbOrThrow refCrypto refHost w = (Ok tt, w).
Proof.
  intros w. apply (@persist_without_open_session_does_nothing refCrypto refHost w).
  left. reflexivity.
Defined.


(** Over a disk where a directory with a file in it stands at the envelope
    path: the directory is moved aside with its contents and the envelope
    put in its place. *)
Lemma persist_leaves_the_sealed_database_in_place_witness :
  let w := DemoWorld.overDirectory [] in
  let run := @persistDbInternal refCrypto refHost w in
  w_fs w !! @dbEncPath refHost = Some NDir /\
  w_fs (snd run) !! (@dbBakPath refHost ++ ["stray.txt"]) = Some (NFile [x01]) /\
  exists env,
    @sealDatabaseBytes refCrypto (@sqlExport refHost Ref.emptyDb) (Some Demo.vault) (w_tape w)
    = ROk env /\
    w_fs (snd run) !! @dbEncPath refHost = Some (NFile env) /\
    @openVaultFromDatabaseEnvelope refCrypto env Demo.passphrase
    = ROk {| plaintext := @sqlExport refHost Ref.emptyDb; vault := Demo.vault |} /\
    w_fs (snd run) !! @dbTmpPath refHost = None /\
    session (snd run) = session w.
Proof.
  intros w run.
  split; [vm_compute; reflexivity|]. split; [vm_compute; reflexivity|].
  apply (@persist_leaves_the_sealed_database_in_place refCrypto refHost w (snd run)
           Ref.emptyDb Demo.vault Demo.passphrase).
  - reflexivity.
  - reflexivity.
  - reflexivity.
  - vm_compute. reflexivity.
  - reflexivity.
  - unfold validParams, u32Range. cbn. lia.
  - apply pair_eta_fst. vm_compute. reflexivity.
Defined.

Lemma persistDb_is_confined_to_the_envelope_files_witness :
  let w := DemoWorld.withAbc [FThrow] in
  let run := @persistDb refCrypto refHost w in
  (forall e, fst run <> Throw e) /\
  session (snd run) = session w /\
  (forall q, ~ @dbEncPath refHost `prefix_of` q -> ~ @dbBakPath refHost `prefix_of` q ->
     ~ @dbTmpPath refHost `prefix_of` q -> w_fs (snd run) !! q = w_fs w !! q) /\
  (forall q, q <> @dbEncPath refHost -> q <> @dbBakPath refHost ->
     q <> @dbTmpPath refHost -> w_fs (snd run) !! q = w_fs w !! q).
Proof.
  intros w run.
  destruct (@persistDb_is_confined_to_the_envelope_files refCrypto refHost w
              (fst run) (snd run) (surjective_pairing run)) as (H1 & H2 & H3 & H4).
  split; [exact H1|]. split; [exact H2|]. split; [exact H3|].
  apply H4. vm_compute. discriminate.
Defined.


(** ** Unlocking and locking *)

Section SessionFacts.
Context `{NodeCrypto} `{HostEnv}.

(** [unlockVault] refuses a passphrase that is not a string or has fewer
    than 12 code units before it looks at the disk: nothing changes. *)
Theorem unlockVault_rejects_short_passphrases passphrase w :
  passphrase = PNotString \/
  (exists s, passphrase = PStr s /\ length s < MIN_PASSPHRASE_LEN) ->
  unlockVault passphrase w = (Throw ErrPassphraseTooShort, w).
Proof.
  intros Hp. apply unlockVault_throws_with_unlockOpen. unfold unlockOpen.
  destruct Hp as [->|(s & -> & Hlen)]; [reflexivity|].
  cbn [passphraseLength].
  destruct (Nat.ltb_spec (length s) MIN_PASSPHRASE_LEN); [reflexivity|lia].
Qed.

(** The candidates for unlocking are read off the disk without changing
    anything: the envelope if it exists, then its backup if it exists, both
    of the current user-data root. *)
Theorem unlock_candidates_are_envelope_then_backup w :
  exists candidates,
    listEncryptedDbCandidates w = (Ok candidates, w) /\
    map dbPath candidates
    = (if bool_decide (is_Some (w_fs w !! dbEncPath)) then [dbEncPath] else [])
        ++ (if bool_decide (is_Some (w_fs w !! dbBakPath)) then [dbBakPath] else []) /\
    map isBackup candidates
    = (if bool_decide (is_Some (w_fs w !! dbEncPath)) then [false] else [])
        ++ (if bool_decide (is_Some (w_fs w !! dbBakPath)) then [true] else []) /\
    Forall (fun c => source c = SrcCurrent /\ userDataRoot c = userData) candidates.
Proof.
  exists (candidatesOf (w_fs w)). split; [apply listEncryptedDbCandidates_spec|].
  unfold candidatesOf.
  destruct (bool_decide (is_Some (w_fs w !! dbEncPath)));
    destruct (bool_decide (is_Some (w_fs w !! dbBakPath)));
    repeat split; repeat (apply List.Forall_cons; [split; reflexivity|]);
    apply List.Forall_nil.
Qed.

Lemma Keeps_openFirstCandidate passphrase cands :
  forall lastError, KeepsSession (openFirstCandidate passphrase cands lastError).
Proof.
  induction cands as [|c rest IH]; intros lastError; cbn [openFirstCandidate].
  - keeps.
  - apply Preserves_bind; [keeps|].
    intros [found|err]; [apply Preserves_pure | apply IH].
Qed.

(** When no candidate opens, the loop ends without a vault. *)
Lemma openFirstCandidate_none passphrase cands :
  forall lastError w r w',
    (forall c d, c ∈ cands -> w_fs w !! dbPath c = Some (NFile d) ->
       exists e, openVaultFromDatabaseEnvelope d passphrase = RErr e) ->
    openFirstCandidate passphrase cands lastError w = (r, w') ->
    r = Halt \/ exists lastError', r = Ok (None, lastError').
Proof.
  induction cands as [|c rest IH]; intros lastError w r w' Hno E.
  - injection E as <- <-. eauto.
  - rewrite openFirstCandidate_cons in E.
    apply bind_inv in E as [(a & w1 & E1 & E2)|[(e & E1 & _)|[_ ->]]]; [| |auto].
    2:{ exfalso. apply tryCandidate_cases in E1
          as [_ [(? & _)|[(? & _)|(_ & _ & _ & R)]]]; try discriminate.
        destruct (w_fs w !! dbPath c) as [[d|]|]; try discriminate.
        destruct (openVaultFromDatabaseEnvelope d passphrase); discriminate. }
    pose proof (tryCandidate_cases _ _ _ _ _ E1) as [Hfs K].
    assert (exists err, a = inr err) as [err ->].
    { destruct K as [(? & _)|[([= ->] & _)|(_ & _ & _ & R)]]; [discriminate|eauto|].
      destruct (w_fs w !! dbPath c) as [[d|]|] eqn:En; try (injection R as ->; eauto).
      destruct (Hno c d (list_elem_of_here _ _) En) as [e He]. rewrite He in R.
      injection R as ->. eauto. }
    apply (IH _ _ _ _ (fun c' d Hc Hd =>
                         Hno c' d (list_elem_of_further _ _ _ Hc)
                           (eq_trans (f_equal (fun f => f !! dbPath c') (eq_sym Hfs)) Hd))
             E2).
Qed.

(** An unlock over an envelope that does not open under the passphrase (a
    wrong passphrase, a damaged file) throws and leaves the process as it
    was: the vault stays locked or unlocked as it was, with the key material
    and database it had, and no file is touched. *)
Theorem failed_unlock_changes_nothing passphrase w r w' :
  acceptablePassphrase passphrase ->
  candidatesOf (w_fs w) <> [] ->
  (forall c d, c ∈ candidatesOf (w_fs w) -> w_fs w !! dbPath c = Some (NFile d) ->
     exists e, openVaultFromDatabaseEnvelope d passphrase = RErr e) ->
  unlockVault passphrase w = (r, w') ->
  (r = Halt \/ exists e, r = Throw e) /\
  session w' = session w /\
  w_fs w' = w_fs w.
Proof.
  intros Hp Hc Hno E. rewrite unlockVault_parts in E.
  assert (forall ro wo, unlockOpen passphrase w = (ro, wo) ->
            (ro = Halt \/ exists e, ro = Throw e) /\ session wo = session w) as Hopen.
  { intros ro wo Eo. destruct Hp as (s & -> & Hlen).
    unfold unlockOpen in Eo. cbn [passphraseLength] in Eo.
    destruct (Nat.ltb_spec (length s) MIN_PASSPHRASE_LEN) as [?|_]; [lia|].
    rewrite bind_unfold, listEncryptedDbCandidates_spec in Eo.
    destruct (candidatesOf (w_fs w)) as [|c0 rest] eqn:Ec; [congruence|].
    cbn [length Nat.ltb Nat.leb] in Eo.
    apply bind_inv in Eo as [([opened le] & w1 & E1 & E2)|[(e & E1 & _)|[E1 ->]]].
    - pose proof (Keeps_openFirstCandidate _ _ _ _ _ _ E1) as Hs.
      destruct (openFirstCandidate_none _ _ _ _ _ _ Hno E1) as [?|[le' [= -> ->]]];
        [discriminate|].
      destruct (isDecryptAuthError le'); injection E2 as <- <-; eauto.
    - exfalso. exact (openFirstCandidate_never_throws _ _ _ _ _ _ E1).
    - split; [auto|]. exact (Keeps_openFirstCandidate _ _ _ _ _ _ E1). }
  assert (forall ro wo, unlockOpen passphrase w = (ro, wo) -> w_fs wo = w_fs w) as Hfs.
  { intros ro wo Eo. apply map_eq. intros q.
    apply (Touches_unlockOpen (fun _ => False) passphrase w ro wo q Eo). tauto. }
  apply bind_inv in E as [(a & w1 & E1 & _)|[(e & E1 & ->)|[E1 ->]]].
  - exfalso. destruct (Hopen _ _ E1) as [[?|[? ?]] _]; discriminate.
  - split; [eauto|]. split; [exact (proj2 (Hopen _ _ E1))|exact (Hfs _ _ E1)].
  - split; [eauto|]. split; [exact (proj2 (Hopen _ _ E1))|exact (Hfs _ _ E1)].
Qed.

Lemma tryCleanupTempFiles_never_throws P : ThrowsOnly P tryCleanupTempFiles.
Proof.
  unfold tryCleanupTempFiles.
  apply ThrowsOnly_bind; [apply ThrowsOnly_gets|intros files].
  apply ThrowsOnly_bind.
  { apply ThrowsOnly_foldM. intros acc x. apply ThrowsOnly_tryCatch. intros e.
    apply ThrowsOnly_pure. }
  intros _. apply ThrowsOnly_bind; [apply ThrowsOnly_modify|intros _].
  apply ThrowsOnly_bind; [apply ThrowsOnly_gets|intros [|]]; [|apply ThrowsOnly_pure].
  apply ThrowsOnly_bind; [apply ThrowsOnly_gets|intros names].
  apply ThrowsOnly_foldM. intros acc x. apply ThrowsOnly_tryCatch. intros e.
  apply ThrowsOnly_pure.
Qed.

Lemma Keeps_tryCleanupTempFiles : KeepsSession tryCleanupTempFiles.
Proof. unfold tryCleanupTempFiles. keeps. Qed.

Lemma tryCleanupTempFiles_clears w r w' :
  tryCleanupTempFiles w = (r, w') -> (forall e, r <> Throw e) ->
  r = Halt \/ w_tempOpenFiles w' = [].
Proof.
  intros E Hr. unfold tryCleanupTempFiles in E.
  apply bind_inv in E as [(files & w1 & _ & E)|[(e & _ & ->)|[_ ->]]];
    [|exfalso; exact (Hr e eq_refl)|auto].
  apply bind_inv in E as [([] & w2 & _ & E)|[(e & _ & ->)|[_ ->]]];
    [|exfalso; exact (Hr e eq_refl)|auto].
  apply bind_inv in E as [([] & w3 & Em & E)|[(e & _ & ->)|[_ ->]]];
    [|exfalso; exact (Hr e eq_refl)|auto].
  injection Em as <-. right.
  match type of E with
  | ?m _ = _ => assert (Preserves w_tempOpenFiles m) as Hm by keeps
  end.
  rewrite (Hm _ _ _ E). reflexivity.
Qed.

(** [lockVault] never raises, and when it returns the process is locked:
    no database in memory, no key material, the lock set, and no decrypted
    temporary file on record. *)
Theorem lockVault_leaves_the_vault_locked w r w' :
  lockVault w = (r, w') ->
  (forall e, r <> Throw e) /\
  (forall b, r = Ok b ->
     b = true /\ w_db w' = None /\ w_vault w' = None /\ w_locked w' = true /\
     w_tempOpenFiles w' = []).
Proof.
  intros E.
  assert (forall e, r <> Throw e) as Hnt.
  { intros e ->.
    assert (ThrowsOnly (fun _ => False) lockVault) as Ht.
    { unfold lockVault, recordAudit, randomUUID, nowIso.
      repeat first [ apply tryCleanupTempFiles_never_throws | throws_only_step ]. }
    exact (Ht w e w' E). }
  split; [exact Hnt|]. intros b ->.
  unfold lockVault in E. cbn [ENCRYPTION_ENABLED negb] in E.
  do 3 ok_inv E.
  apply bind_inv in E as [([] & w3 & E3 & E)|[(? & _ & ?)|[_ ?]]]; try discriminate.
  apply bind_inv in E as [([] & w4 & E4 & E)|[(? & _ & ?)|[_ ?]]]; try discriminate.
  apply bind_inv in E as [([] & w5 & E5 & E)|[(? & _ & ?)|[_ ?]]]; try discriminate.
  apply bind_inv in E as [([] & w6 & E6 & E)|[(? & _ & ?)|[_ ?]]]; try discriminate.
  apply bind_inv in E as [([] & w7 & E7 & E)|[(? & _ & ?)|[_ ?]]]; try discriminate.
  injection E as <- <-. injection E3 as <-. injection E4 as <-.
  injection E5 as <-. injection E6 as <-.
  pose proof (Keeps_tryCleanupTempFiles _ _ _ E7) as Hs.
  unfold session in Hs. cbn in Hs. injection Hs as Hd Hl Hv.
  destruct (tryCleanupTempFiles_clears _ _ _ E7) as [?|Ht]; [discriminate|discriminate|].
  auto.
Qed.

(** The mutating handlers start with [assertUnlocked]: on a locked vault,
    or one without key material or database, notes:create, attachments:add
    and attachments:delete raise "Vault locked." and change nothing,
    whatever their arguments. *)
Theorem handlers_refuse_a_locked_vault w projectId data filePaths attachmentId :
  w_locked w = true \/ w_vault w = None \/ w_db w = None ->
  notesCreate projectId data w = (Throw ErrVaultLocked, w) /\
  attachmentsAdd projectId filePaths w = (Throw ErrVaultLocked, w) /\
  attachmentsDelete attachmentId w = (Throw ErrVaultLocked, w).
Proof.
  intros Hw.
  assert (assertUnlocked w = (Throw ErrVaultLocked, w)) as Ea.
  { unfold assertUnlocked, mbind, M_bind, bind, gets.
    cbn [ENCRYPTION_ENABLED negb]. cbv iota.
    destruct Hw as [Hl|[Hv|Hd]].
    - rewrite Hl. reflexivity.
    - rewrite Hv. rewrite (bool_decide_eq_false_2 (is_Some None))
        by (intros [? ?]; discriminate).
      cbn [negb]. rewrite orb_true_r. reflexivity.
    - rewrite Hd. rewrite (bool_decide_eq_false_2 (is_Some None))
        by (intros [? ?]; discriminate).
      cbn [negb]. rewrite orb_true_r. reflexivity. }
  split; [|split].
  - unfold notesCreate. rewrite bind_unfold, Ea. reflexivity.
  - unfold attachmentsAdd. rewrite bind_unfold, Ea. reflexivity.
  - unfold attachmentsDelete. rewrite bind_unfold, Ea. reflexivity.
Qed.

End SessionFacts.

Lemma unlockVault_rejects_short_passphrases_witness :
  let w := DemoWorld.started {[ DemoWorld.encPath := NFile Demo.envelope ]} [] in
  @unlockVault refCrypto refHost (PStr (Ref.stringCodes "hunter2")) w
  = (Throw ErrPassphraseTooShort, w).
Proof.
  intros w. apply (@unlockVault_rejects_short_passphrases refCrypto refHost).
  right. eexists. split; [reflexivity|]. vm_compute. lia.
Defined.

(** The passphrase off by one character, over the demo envelope. *)
Lemma failed_unlock_changes_nothing_witness :
  let w := DemoWorld.started {[ DemoWorld.encPath := NFile Demo.envelope ]} [] in
  let run := @unlockVault refCrypto refHost Demo.wrongPassphrase w in
  fst run = Throw ErrUnlockGeneric /\
  session (snd run) = session w /\ w_fs (snd run) = w_fs w.
Proof.
  intros w run.
  destruct (@failed_unlock_changes_nothing refCrypto refHost Demo.wrongPassphrase w
              (fst run) (snd run)) as (_ & Hs & Hf).
  - eexists. split; [reflexivity|]. vm_compute. lia.
  - vm_compute. discriminate.
  - intros c d Hc Hd. vm_compute in Hc.
    apply list_elem_of_singleton in Hc. subst c.
    vm_compute in Hd. injection Hd as <-.
    eexists. vm_compute. reflexivity.
  - apply surjective_pairing.
  - split; [vm_compute; reflexivity|]. split; [exact Hs|exact Hf].
Defined.

(** Locking the demo session while the disk refuses the write. *)
Lemma lockVault_leaves_the_vault_locked_witness :
  let w := DemoWorld.unlocked [FThrow] in
  let run := @lockVault refCrypto refHost w in
  fst run = Ok true /\
  w_db (snd run) = None /\ w_vault (snd run) = None /\ w_locked (snd run) = true /\
  w_tempOpenFiles (snd run) = [].
Proof.
  intros w run.
  destruct (@lockVault_leaves_the_vault_locked refCrypto refHost w (fst run) (snd run)
              (surjective_pairing run)) as [_ Hok].
  assert (fst run = Ok true) as Hrun by (vm_compute; reflexivity).
  split; [exact Hrun|]. exact (proj2 (Hok true Hrun)).
Defined.

Lemma handlers_refuse_a_locked_vault_witness :
  let w := DemoWorld.started {[ DemoWorld.encPath := NFile Demo.envelope ]} [] in
  @notesCreate refCrypto refHost (JStr DemoWorld.projectId) DemoWorld.noteData w
  = (Throw ErrVaultLocked, w) /\
  @attachmentsAdd refCrypto refHost (JStr DemoWorld.projectId)
    (Some [JStr "/data/abc.txt"]) w
  = (Throw ErrVaultLocked, w) /\
  @attachmentsDelete refCrypto refHost (JStr DemoWorld.projectId) w
  = (Throw ErrVaultLocked, w).
Proof.
  intros w. apply (@handlers_refuse_a_locked_vault refCrypto refHost).
  left. reflexivity.
Defined.


(** ** Snapshots and the folders a restore reads *)

Section SnapshotFacts.
Context `{NodeCrypto} `{HostEnv}.

(** [resolveBackupDatabaseSource] only looks: it prefers the encrypted
    database of the folder, falls back to the plaintext one, and finds
    nothing exactly when neither exists; the restore is to the encrypted
    path exactly when the encrypted file was chosen. *)
Theorem backup_source_prefers_the_encrypted_database (backupDir : Path) w :
  let enc := backupDir ++ ["edisconotes.sqlite.enc"] in
  let plain := backupDir ++ ["edisconotes.sqlite"] in
  resolveBackupDatabaseSource backupDir w
  = (Ok (if bool_decide (is_Some (w_fs w !! enc))
         then Some {| dbSourcePath := enc; restoreToEncrypted := true |}
         else if bool_decide (is_Some (w_fs w !! plain))
              then Some {| dbSourcePath := plain; restoreToEncrypted := false |}
              else None), w).
Proof.
  intros enc plain. unfold resolveBackupDatabaseSource. cbv zeta.
  unfold mbind, M_bind, bind, existsSync, gets, pure. fold enc plain.
  destruct (bool_decide (is_Some (w_fs w !! enc))).
  - f_equal. f_equal. f_equal. f_equal. unfold enc, basename.
    rewrite List.last_last. reflexivity.
  - destruct (bool_decide (is_Some (w_fs w !! plain))); [|reflexivity].
    f_equal. f_equal. f_equal. f_equal. unfold plain, basename.
    rewrite List.last_last. reflexivity.
Qed.

(** [resolveSnapshotDir] accepts only an identifier of 8 to 128 characters
    from [a-zA-Z0-9._-] that names an existing directory directly under the
    snapshot root, and it changes nothing. *)
Theorem resolveSnapshotDir_stays_under_the_snapshot_root snapshotId w r w' :
  resolveSnapshotDir snapshotId w = (r, w') ->
  w_fs w' = w_fs w /\ session w' = session w /\
  match r with
  | Ok dir =>
      exists id,
        snapshotId = JStr id /\ dir = snapshotsRoot ++ [id] /\
        8 <= String.length id <= 128 /\
        Forall (fun c => isSnapshotIdChar c = true) (String.list_ascii_of_string id) /\
        w_fs w !! dir = Some NDir
  | Throw e =>
      e = ErrValidation "Invalid snapshot ID." \/
      e = ErrValidation "Snapshot not found." \/
      exists id, e = ErrIo OpStat (snapshotsRoot ++ [id])
  | Halt => True
  end.
Proof.
  intros E. unfold resolveSnapshotDir, sanitizeSnapshotId in E.
  destruct snapshotId as [id| | |];
    try (injection E as <- <-; split; [reflexivity|]; split; [reflexivity|]; auto).
  destruct (SNAPSHOT_ID_REGEX_test id) eqn:Et; cbn [negb] in E.
  2:{ injection E as <- <-. split; [reflexivity|]. split; [reflexivity|]. auto. }
  rewrite bind_unfold in E. unfold pure at 1 in E. cbv zeta in E.
  destruct (isContainedPath (snapshotsRoot ++ [id]) snapshotsRoot); cbn [negb] in E.
  2:{ injection E as <- <-. split; [reflexivity|]. split; [reflexivity|]. auto. }
  rewrite bind_unfold in E. unfold existsSync, gets at 1 in E.
  destruct (bool_decide (is_Some (w_fs w !! (snapshotsRoot ++ [id])))); cbn [negb] in E.
  2:{ injection E as <- <-. split; [reflexivity|]. split; [reflexivity|]. auto. }
  apply bind_inv in E as [(stat & ws & Es & E)|[(e & Es & ->)|[Es ->]]].
  - destruct (statSync_outcome _ _ _ _ Es) as [Hfs Hst].
    assert (session ws = session w) as Hse.
    { assert (KeepsSession (statSync (snapshotsRoot ++ [id]))) as K by keeps.
      exact (K _ _ _ Es). }
    destruct stat as [d|]; cbn [isFile] in E; injection E as <- <-;
      (split; [exact Hfs|]); (split; [exact Hse|]); [auto|].
    exists id. split; [reflexivity|]. split; [reflexivity|].
    unfold SNAPSHOT_ID_REGEX_test in Et.
    apply andb_prop in Et as [Et Hmax]. apply andb_prop in Et as [Hall Hmin].
    apply Nat.leb_le in Hmin, Hmax. split; [lia|]. split; [|exact Hst].
    apply Forall_forall. intros c Hc. rewrite forallb_forall in Hall.
    apply Hall. apply list_elem_of_In. exact Hc.
  - destruct (statSync_outcome _ _ _ _ Es) as [Hfs Hst].
    assert (KeepsSession (statSync (snapshotsRoot ++ [id]))) as K by keeps.
    split; [exact Hfs|]. split; [exact (K _ _ _ Es)|]. eauto.
  - destruct (statSync_outcome _ _ _ _ Es) as [Hfs Hst].
    assert (KeepsSession (statSync (snapshotsRoot ++ [id]))) as K by keeps.
    split; [exact Hfs|]. split; [exact (K _ _ _ Es)|]. exact I.
Qed.

(** With no database in memory to write out and no database file on disk
    (no envelope, no backup of it, no plaintext database),
    [createLocalSnapshot] raises "No database file found." before it creates
    anything. *)
Theorem snapshot_needs_a_database_file reason w :
  w_db w = None \/ w_locked w = true ->
  w_fs w !! dbEncPath = None -> w_fs w !! dbBakPath = None ->
  w_fs w !! dbPlainPath = None ->
  createLocalSnapshot reason w = (Throw ErrNoDatabaseFile, w).
Proof.
  intros Hs He Hb Hp. unfold createLocalSnapshot.
  rewrite bind_unfold. unfold gets at 1. rewrite bind_unfold. unfold gets at 1.
  assert (bool_decide (is_Some (w_db w)) && (negb ENCRYPTION_ENABLED || negb (w_locked w))
          = false) as ->.
  { destruct Hs as [->| ->].
    - rewrite bool_decide_eq_false_2 by (intros [? ?]; discriminate). reflexivity.
    - cbn. apply andb_false_r. }
  rewrite bind_unfold. unfold pure at 1.
  assert (getDatabaseFileStatus w
          = (Ok {| encrypted := false; statusDbPath := None |}, w)) as Eg.
  { unfold getDatabaseFileStatus.
    rewrite bind_unfold, listEncryptedDbCandidates_spec.
    unfold candidatesOf. rewrite He, Hb.
    rewrite (bool_decide_eq_false_2 (is_Some None)) by (intros [? ?]; discriminate).
    cbn [app]. cbv zeta. rewrite bind_unfold. unfold existsSync, gets at 1.
    rewrite Hp.
    rewrite (bool_decide_eq_false_2 (is_Some None)) by (intros [? ?]; discriminate).
    reflexivity. }
  rewrite bind_unfold, Eg. reflexivity.
Qed.

Lemma getDatabaseFileStatus_ok w dbStatus w' :
  getDatabaseFileStatus w = (Ok dbStatus, w') ->
  w_fs w' = w_fs w /\
  match statusDbPath dbStatus with
  | Some dbFile =>
      dbFile = databaseFileOn (w_fs w) /\
      (dbFile = dbEncPath \/ dbFile = dbBakPath \/ dbFile = dbPlainPath) /\
      encrypted dbStatus = bool_decide (dbFile <> dbPlainPath)
  | None => True
  end.
Proof.
  intros E. unfold getDatabaseFileStatus in E.
  rewrite bind_unfold, listEncryptedDbCandidates_spec in E.
  assert (dbEncPath <> dbPlainPath /\ dbBakPath <> dbPlainPath) as [Nep Nbp].
  { unfold dbBakPath, dbEncPath, dbPlainPath. rewrite pathSuffix_last.
    split; intros X; apply app_inv_head in X; discriminate. }
  unfold candidatesOf, databaseFileOn in *.
  destruct (bool_decide (is_Some (w_fs w !! dbEncPath))); cbn [app] in E.
  { apply bind_inv in E as [(n & w1 & Es & E)|[(? & _ & ?)|[_ ?]]]; try discriminate.
    injection E as <- <-. cbn [statusDbPath encrypted dbPath].
    split; [exact (proj1 (statSync_ok _ _ _ _ Es))|].
    split; [reflexivity|]. split; [auto|].
    rewrite bool_decide_eq_true_2 by exact Nep. reflexivity. }
  destruct (bool_decide (is_Some (w_fs w !! dbBakPath))); cbn [app] in E.
  { apply bind_inv in E as [(n & w1 & Es & E)|[(? & _ & ?)|[_ ?]]]; try discriminate.
    injection E as <- <-. cbn [statusDbPath encrypted dbPath].
    split; [exact (proj1 (statSync_ok _ _ _ _ Es))|].
    split; [reflexivity|]. split; [auto|].
    rewrite bool_decide_eq_true_2 by exact Nbp. reflexivity. }
  cbv zeta in E. rewrite bind_unfold in E. unfold existsSync, gets at 1 in E.
  destruct (bool_decide (is_Some (w_fs w !! dbPlainPath))).
  - apply bind_inv in E as [(n & w1 & Es & E)|[(? & _ & ?)|[_ ?]]]; try discriminate.
    injection E as <- <-. cbn [statusDbPath encrypted].
    split; [exact (proj1 (statSync_ok _ _ _ _ Es))|].
    split; [reflexivity|]. split; [auto|].
    rewrite bool_decide_eq_false_2 by tauto. reflexivity.
  - injection E as <- <-. split; [reflexivity|exact I].
Qed.

(** None of the three database files lies in the snapshot tree or above
    it. *)
Lemma database_files_outside_snapshots (p : Path) :
  p = dbEncPath \/ p = dbBakPath \/ p = dbPlainPath ->
  ~ (p `prefix_of` snapshotsRoot \/ snapshotsRoot `prefix_of` p).
Proof.
  unfold dbBakPath, dbEncPath, dbPlainPath, snapshotsRoot. rewrite pathSuffix_last.
  intros [Hp|[Hp|Hp]] [X|X]; subst p; apply prefix_app_inv in X;
    apply prefix_cons_inv_1 in X; discriminate.
Qed.

(** The paths of a snapshot are apart from the database file it copies. *)
Lemma snapshot_paths_apart (n id : string) :
  n <> "snapshots" -> n <> "attachments" -> n <> "manifest.json" ->
  let dbFile := userData ++ [n] in
  let snapshotDir := snapshotsRoot ++ [id] in
  let target := snapshotDir ++ ["attachments"] in
  ~ (dbFile `prefix_of` target \/ target `prefix_of` dbFile) /\
  ~ (snapshotDir ++ [n] `prefix_of` target \/ target `prefix_of` snapshotDir ++ [n]) /\
  dbFile <> snapshotDir ++ ["manifest.json"] /\
  snapshotDir ++ [n] <> snapshotDir ++ ["manifest.json"] /\
  dbFile <> snapshotDir ++ [n].
Proof.
  intros H1 H2 H3 dbFile snapshotDir target.
  unfold target, snapshotDir, dbFile, snapshotsRoot. rewrite <- !app_assoc.
  cbn [app]. repeat split.
  - intros [X|X]; apply prefix_app_inv in X.
    + apply prefix_cons_inv_1 in X. contradiction.
    + apply prefix_cons_inv_2 in X. apply prefix_length in X. cbn in X. lia.
  - intros [X|X]; apply prefix_app_inv in X; do 2 apply prefix_cons_inv_2 in X;
      apply prefix_cons_inv_1 in X; congruence.
  - intros X. apply app_inv_head in X. discriminate.
  - intros X. apply app_inv_head in X. congruence.
  - intros X. apply app_inv_head in X. discriminate.
Qed.

(** A snapshot that was made holds a byte-for-byte copy of the database
    file that is on disk, chosen in this order: the envelope if there is
    something at its path, else its backup if there is something at that
    path, else the plaintext database (the snapshot itself writes only in
    the snapshot tree, so the three paths are at the end as the choice
    found them).  The copy is under the file's own name, and the manifest
    records the reason ("manual" for the empty one), the file name and
    whether it is encrypted. *)
Theorem snapshot_holds_a_copy_of_the_database_file reason w snapshot ws :
  createLocalSnapshot reason w = (Ok snapshot, ws) ->
  exists dbFile data,
    dbFile = databaseFileOn (w_fs ws) /\
    si_dbFileName snapshot = basename dbFile /\
    si_encryptedDatabase snapshot = bool_decide (dbFile <> dbPlainPath) /\
    si_reason snapshot = (if bool_decide (reason = "") then "manual" else reason) /\
    w_fs ws !! dbFile = Some (NFile data) /\
    w_fs ws !! (snapshotsRoot ++ [si_id snapshot; si_dbFileName snapshot])
    = Some (NFile data) /\
    manifestOnDisk (w_fs ws) (si_id snapshot) (si_reason snapshot).
Proof.
  intros E. unfold createLocalSnapshot in E.
  do 4 ok_inv E. rename a2 into dbStatus.
  destruct (getDatabaseFileStatus_ok _ _ _ E3) as [Hfs3 Hst].
  destruct (statusDbPath dbStatus) as [dbFile|]; [|discriminate].
  destruct Hst as (Hchoice & Hfile & Henc).
  assert (dbFile = databaseFileOn (w_fs ws)) as Horder.
  { match type of E with
    | ?m _ = _ =>
        assert (Touches (fun q => q `prefix_of` snapshotsRoot \/
                                  snapshotsRoot `prefix_of` q) m) as Htail
    end.
    { unfold randomUUID. touches.
      - intros q Hq. left. exact Hq.
      - intros q Hq. exact (prefix_of_extension _ _ _ Hq).
      - right. rewrite <- app_assoc. apply prefix_app_r. reflexivity.
      - intros q Hq. rewrite <- app_assoc in Hq.
        exact (prefix_of_extension _ _ _ Hq).
      - intros q Hq. right. etransitivity; [|exact Hq].
        rewrite <- app_assoc. apply prefix_app_r. reflexivity.
      - right. rewrite <- app_assoc. apply prefix_app_r. reflexivity. }
    rewrite Hchoice. unfold databaseFileOn.
    rewrite !(Htail _ _ _ _ E) by (apply database_files_outside_snapshots; auto).
    rewrite Hfs3. reflexivity. }
  ok_inv E. destruct (negb a2); [discriminate|].
  apply bind_inv in E as [([] & w5 & _ & E)|[(? & _ & ?)|[_ ?]]]; try discriminate.
  apply bind_inv in E as [(now & w6 & _ & E)|[(? & _ & ?)|[_ ?]]]; try discriminate.
  apply bind_inv in E as [(uuid & w7 & _ & E)|[(? & _ & ?)|[_ ?]]]; try discriminate.
  set (id := dashed now +:+ "-" +:+ slice8 uuid) in E.
  apply bind_inv in E as [([] & w8 & _ & E)|[(? & _ & ?)|[_ ?]]]; try discriminate.
  apply bind_inv in E as [([] & wc & Ec & E)|[(? & _ & ?)|[_ ?]]]; try discriminate.
  apply bind_inv in E as [(files & wd & Ed & E)|[(? & _ & ?)|[_ ?]]]; try discriminate.
  apply bind_inv in E as [(createdAt & wn & En & E)|[(? & _ & ?)|[_ ?]]];
    try discriminate.
  injection En as <- <-.
  apply bind_inv in E as [([] & wm & Ew & E)|[(? & _ & ?)|[_ ?]]]; try discriminate.
  injection E as <- <-. cbn [si_id si_reason si_dbFileName si_encryptedDatabase].
  assert (exists n, dbFile = userData ++ [n] /\ n <> "snapshots" /\
                    n <> "attachments" /\ n <> "manifest.json") as (n & Hn & N1 & N2 & N3).
  { destruct Hfile as [Hf|[Hf|Hf]]; rewrite Hf; unfold dbBakPath, dbEncPath, dbPlainPath;
      rewrite ?pathSuffix_last; eexists; (split; [reflexivity|]);
      repeat split; discriminate. }
  assert (basename dbFile = n) as Hb
      by (rewrite Hn; unfold basename; apply List.last_last).
  rewrite Hb in *.
  destruct (snapshot_paths_apart n id N1 N2 N3) as (A1 & A2 & A3 & A4 & A5).
  cbv zeta in A1, A2, A3, A4, A5. rewrite <- Hn in A1, A3, A5.
  destruct (copyFileSync_ok _ _ _ _ Ec) as (x & Hx & Hfc).
  pose proof (writeFileSync_ok _ _ _ _ Ew) as Hfm.
  assert (forall q,
            ~ (q `prefix_of` (snapshotsRoot ++ [id]) ++ ["attachments"] \/
               (snapshotsRoot ++ [id]) ++ ["attachments"] `prefix_of` q) ->
            w_fs wd !! q = w_fs wc !! q) as Hframe.
  { intros q Hq.
    apply (Touches_copyDirRecursive
             (fun q => q `prefix_of` (snapshotsRoot ++ [id]) ++ ["attachments"] \/
                       (snapshotsRoot ++ [id]) ++ ["attachments"] `prefix_of` q)
             attachmentsRoot _ (fun q Hq => or_introl Hq) (fun q Hq => or_intror Hq)
             wc _ wd q Ed Hq). }
  exists dbFile, x. split; [exact Horder|]. split; [symmetry; exact Hb|].
  split; [exact Henc|]. split; [reflexivity|]. split; [|split].
  - rewrite Hfm, lookup_insert_ne by (apply not_eq_sym; exact A3).
    rewrite (Hframe _ A1), Hfc, lookup_insert_ne by (apply not_eq_sym; exact A5).
    exact Hx.
  - change (snapshotsRoot ++ [id; n]) with (snapshotsRoot ++ [id] ++ [n]).
    rewrite app_assoc.
    rewrite Hfm, lookup_insert_ne by (apply not_eq_sym; exact A4).
    rewrite (Hframe _ A2), Hfc. apply lookup_insert_eq.
  - eexists. split; [|split]; [| |
      change (snapshotsRoot ++ [id; "manifest.json"])
        with (snapshotsRoot ++ [id] ++ ["manifest.json"]);
      rewrite app_assoc, Hfm; apply lookup_insert_eq]; reflexivity.
Qed.

End SnapshotFacts.

Lemma snapshot_needs_a_database_file_witness :
  let w := DemoWorld.started (delete DemoWorld.encPath DemoWorld.restoreDisk) [] in
  @createLocalSnapshot refCrypto refHost "manual" w = (Throw ErrNoDatabaseFile, w).
Proof.
  intros w. apply (@snapshot_needs_a_database_file refCrypto refHost).
  - left. reflexivity.
  - vm_compute. reflexivity.
  - vm_compute. reflexivity.
  - vm_compute. reflexivity.
Defined.

Lemma resolveSnapshotDir_stays_under_the_snapshot_root_witness :
  let id := "2026-03-01T09-30-00-000Z-002a8e62" in
  let w := DemoWorld.started {[ @snapshotsRoot refHost ++ [id] := NDir ]} [] in
  let run := @resolveSnapshotDir refHost (JStr id) w in
  fst run = Ok (@snapshotsRoot refHost ++ [id]) /\
  w_fs (snd run) = w_fs w /\ session (snd run) = session w.
Proof.
  intros id w run.
  destruct (@resolveSnapshotDir_stays_under_the_snapshot_root refHost (JStr id) w
              (fst run) (snd run) (surjective_pairing run)) as (Hfs & Hse & _).
  split; [vm_compute; reflexivity|]. split; [exact Hfs|exact Hse].
Defined.

(** A locked process over a disk without the envelope, with its backup and
    with a plaintext database: the backup is the file copied. *)
Lemma snapshot_holds_a_copy_of_the_database_file_witness :
  let disk : gmap Path Node :=
    {[ DemoWorld.bakPath := NFile Demo.envelope;
       DemoWorld.plainPath := NFile Demo.image ]} in
  let w := DemoWorld.started disk [] in
  let run := @createLocalSnapshot refCrypto refHost "" w in
  exists snapshot,
    fst run = Ok snapshot /\
    si_dbFileName snapshot = "edisconotes.sqlite.enc.bak" /\
    exists dbFile data,
      dbFile = @databaseFileOn refHost (w_fs (snd run)) /\
      si_dbFileName snapshot = basename dbFile /\
      si_encryptedDatabase snapshot = bool_decide (dbFile <> @dbPlainPath refHost) /\
      si_reason snapshot = "manual" /\
      w_fs (snd run) !! dbFile = Some (NFile data) /\
      w_fs (snd run) !! (@snapshotsRoot refHost ++ [si_id snapshot; si_dbFileName snapshot])
      = Some (NFile data) /\
      @manifestOnDisk refHost (w_fs (snd run)) (si_id snapshot) (si_reason snapshot).
Proof.
  intros disk w run.
  assert (exists s, run = (Ok s, snd run)) as [s Hs].
  { eexists. apply pair_eta_fst. vm_compute. reflexivity. }
  exists s. split; [rewrite Hs; reflexivity|].
  split.
  { assert (fst run = Ok s) as Hf by (rewrite Hs; reflexivity).
    vm_compute in Hf. injection Hf as <-. reflexivity. }
  exact (@snapshot_holds_a_copy_of_the_database_file refCrypto refHost "" w s (snd run) Hs).
Defined.


(** ** Input checks and handlers *)

Section InputFacts.
Context `{NodeCrypto} `{HostEnv}.

(** The attachment directory of a project is given for a version-4 UUID and
    for nothing else, and it is the child of the attachment root with that
    name: inside the root and not the root itself. *)
Theorem project_attachment_dir_is_a_child_of_the_root (projectId : JsVal) :
  (forall dir, getSafeProjectAttachmentDir projectId = Some dir ->
     exists s, projectId = JStr s /\ matchClasses UUID_V4_REGEX s = true /\
               dir = attachmentsRoot ++ [s] /\
               isContainedPath dir attachmentsRoot = true /\ dir <> attachmentsRoot) /\
  (forall s, projectId = JStr s -> matchClasses UUID_V4_REGEX s = true ->
     getSafeProjectAttachmentDir projectId = Some (attachmentsRoot ++ [s])).
Proof.
  assert (forall s, attachmentsRoot ++ [s] <> attachmentsRoot) as Hne.
  { intros s X. apply (f_equal length) in X. rewrite length_app in X. cbn in X. lia. }
  assert (forall s, isBelow attachmentsRoot (attachmentsRoot ++ [s]) = true) as Hb.
  { intros s. unfold isBelow. apply bool_decide_eq_true_2. apply prefix_app_r. reflexivity. }
  split.
  - intros dir E. unfold getSafeProjectAttachmentDir in E.
    destruct projectId as [s| | |]; try discriminate.
    cbn [isValidProjectId] in E.
    destruct (matchClasses UUID_V4_REGEX s) eqn:Em; [|discriminate].
    cbn [negb] in E. cbv zeta in E.
    rewrite bool_decide_eq_false_2, Hb in E by apply Hne. cbn in E.
    injection E as <-. exists s. split; [reflexivity|]. split; [exact Em|].
    split; [reflexivity|]. split; [|apply Hne].
    unfold isContainedPath. rewrite Hb. apply orb_true_r.
  - intros s -> Em. unfold getSafeProjectAttachmentDir. cbn [isValidProjectId].
    rewrite Em. cbn [negb]. cbv zeta.
    rewrite bool_decide_eq_false_2, Hb by apply Hne. reflexivity.
Qed.

(** What [sanitizeNoteInput] lets through. *)
Lemma sanitizeNoteInput_ok data w payload w' :
  sanitizeNoteInput data w = (Ok payload, w') ->
  w' = w /\
  exists d title noteDate content,
    data = Some d /\
    d_title d = JStr title /\ p_title payload = trim title /\
    1 <= length (trim title) <= 200 /\
    d_noteDate d = JStr noteDate /\ p_noteDate payload = noteDate /\
    matchClasses ISO_DATE_REGEX noteDate = true /\ dateIsValid noteDate = true /\
    d_contentMarkdown d = JStr content /\ p_contentMarkdown payload = content /\
    (Z.of_nat (length content) <= 2000000)%Z.
Proof.
  intros E. unfold sanitizeNoteInput in E.
  destruct data as [d|]; [|discriminate].
  apply bind_inv in E as [(title & w1 & Et & E)|[(? & _ & ?)|[_ ?]]]; try discriminate.
  apply bind_inv in E as [(date & w2 & Ed & E)|[(? & _ & ?)|[_ ?]]]; try discriminate.
  apply bind_inv in E as [(content & w3 & Ec & E)|[(? & _ & ?)|[_ ?]]]; try discriminate.
  injection E as <- <-.
  unfold ensureText in Et, Ec. unfold ensureIsoDate in Ed.
  destruct (d_title d) as [t| | |] eqn:Ht; try discriminate.
  cbn [negb andb] in Et.
  destruct (Z.ltb_spec (Z.of_nat (length (trim t))) 1); [discriminate|].
  destruct (Z.ltb_spec 200 (Z.of_nat (length (trim t)))); [discriminate|].
  injection Et as <- <-.
  destruct (d_contentMarkdown d) as [c| | |] eqn:Hc; try discriminate.
  cbn [negb andb] in Ec.
  destruct (Z.ltb_spec 2000000 (Z.of_nat (length c))); [discriminate|].
  injection Ec as <- <-.
  destruct (d_noteDate d) as [dt| | |] eqn:Hd; try discriminate.
  destruct dt as [|ch dt']; [discriminate|].
  destruct (matchClasses ISO_DATE_REGEX (String ch dt')) eqn:Em; [|discriminate].
  destruct (dateIsValid (String ch dt')) eqn:Ev; [|discriminate].
  injection Ed as <- <-. cbn [negb] in *. split; [reflexivity|].
  exists d, t, (String ch dt'), c. cbn [p_title p_noteDate p_contentMarkdown default].
  repeat split; try reflexivity; try assumption; lia.
Qed.

(** A notes:create that returns has added exactly one note to the
    in-memory database: for the project given (a version-4 UUID), with the
    title trimmed as [String.prototype.trim] does (1 to 200 UTF-16 code
    units after trimming), the date (YYYY-MM-DD and valid) and the content
    as given (at most 2000000 code units), created and updated now, under
    an identifier no other note has; it is the note returned.  One audit
    row for it was added; attachments were not touched. *)
Theorem notesCreate_adds_exactly_the_note_it_returns projectId data w row w' :
  notesCreate projectId data w = (Ok row, w') ->
  exists db db' note pid d title noteDate content au,
    w_db w = Some db /\ w_db w' = Some db' /\ row = Some note /\
    projectId = JStr pid /\ matchClasses UUID_V4_REGEX pid = true /\
    data = Some d /\ d_title d = JStr title /\ d_noteDate d = JStr noteDate /\
    d_contentMarkdown d = JStr content /\
    note = {| n_id := n_id note; n_projectId := pid; n_title := trim title;
              n_noteDate := noteDate; n_contentMarkdown := content;
              n_createdAt := w_now w; n_updatedAt := w_now w |} /\
    1 <= length (trim title) <= 200 /\
    (Z.of_nat (length content) <= 2000000)%Z /\
    matchClasses ISO_DATE_REGEX noteDate = true /\
    Forall (fun n => n_id n <> n_id note) (notes db) /\
    notes db' = notes db ++ [note] /\
    attachments db' = attachments db /\
    audit_log db' = audit_log db ++ [au] /\
    au_action au = "note.create" /\ au_entityId au = Some (n_id note) /\
    au_projectId au = Some pid.
Proof.
  intros E. unfold notesCreate in E.
  apply bind_inv in E as [([] & w1 & Ea & E)|[(? & _ & ?)|[_ ?]]]; try discriminate.
  destruct (assertUnlocked_ok _ _ _ Ea) as (-> & Hl & _ & [db Hdb]).
  apply bind_inv in E as [(pid & w2 & Eu & E)|[(? & _ & ?)|[_ ?]]]; try discriminate.
  destruct (assertUuid_ok _ _ _ _ _ Eu) as (-> & -> & Hpid).
  apply bind_inv in E as [(payload & w3 & Es & E)|[(? & _ & ?)|[_ ?]]]; try discriminate.
  destruct (sanitizeNoteInput_ok _ _ _ _ Es)
    as (-> & d & title & noteDate & content & -> & Ht & Hpt & Hlen & Hd & Hpd & Hiso
        & _ & Hc & Hpc & Hclen).
  apply bind_inv in E as [(id & w4 & Ei & E)|[(? & _ & ?)|[_ ?]]]; try discriminate.
  unfold randomUUID, mbind, M_bind, bind, drawTape, pure in Ei. injection Ei as <- <-.
  apply bind_inv in E as [(now & w5 & En & E)|[(? & _ & ?)|[_ ?]]]; try discriminate.
  injection En as <- <-.
  set (id := uuidOf (randomBytes 16 (w_tape w))) in *.
  set (w4 := setTape (S (w_tape w)) w) in *.
  apply bind_inv in E as [([] & w6 & Ein & E)|[(? & _ & ?)|[_ ?]]]; try discriminate.
  unfold insertNote in Ein. rewrite bind_unfold in Ein. unfold gets at 1 in Ein.
  change (w_db w4) with (w_db w) in Ein. rewrite Hdb in Ein.
  cbn [n_id] in Ein.
  destruct (existsb (fun n => bool_decide (n_id n = id)) (notes db)) eqn:Eex;
    [discriminate|].
  injection Ein as <-.
  apply bind_inv in E as [(aid & w7 & Er & E)|[(? & _ & ?)|[_ ?]]]; try discriminate.
  eapply recordAudit_ok in Er as (aid' & _ & Hdb7 & _ & _ & _ & _);
    [|reflexivity|exact Hl].
  apply bind_inv in E as [([] & w8 & Ep & E)|[(? & _ & ?)|[_ ?]]]; try discriminate.
  pose proof (Keeps_persistDb _ _ _ Ep) as Hs. injection Hs as Hdb8 _ _.
  unfold getNote, gets in E. injection E as <- <-.
  rewrite Hdb8, Hdb7. cbn [mbind option_bind notes insertAudit].
  assert (Forall (fun n => n_id n <> id) (notes db)) as Hfresh.
  { apply Forall_forall. intros n Hn Heq.
    assert (existsb (fun n0 => bool_decide (n_id n0 = id)) (notes db) = true) as X.
    { apply existsb_exists. exists n. split; [apply list_elem_of_In; exact Hn|].
      apply bool_decide_eq_true_2. exact Heq. }
    congruence. }
  rewrite Hpt, Hpd, Hpc.
  eexists db, _, _, pid, d, title, noteDate, content, _.
  split; [exact Hdb|]. split; [reflexivity|]. split.
  { rewrite filter_app, (filter_none _ _ Hfresh).
    rewrite filter_cons_True by reflexivity. reflexivity. }
  split; [reflexivity|]. split; [exact Hpid|]. split; [reflexivity|].
  split; [exact Ht|]. split; [exact Hd|]. split; [exact Hc|].
  split; [reflexivity|]. split; [exact Hlen|]. split; [exact Hclen|].
  split; [exact Hiso|].
  split; [exact Hfresh|]. repeat split.
Qed.

(** attachments:delete in an open session, given a version-4 UUID, raises
    no exception whatever the file system does: it returns false, with
    nothing changed, when no attachment has that identifier, and otherwise
    returns true with that row removed from the in-memory database (also
    when removing the stored file failed), the notes kept and one
    "attachment.delete" audit row added for it; or the process stopped. *)
Theorem attachmentsDelete_removes_the_row_whatever_the_disk_does
    id db w r w' :
  w_locked w = false -> is_Some (w_vault w) -> w_db w = Some db ->
  matchClasses UUID_V4_REGEX id = true ->
  attachmentsDelete (JStr id) w = (r, w') ->
  r = Halt \/
  (r = Ok false /\ w' = w /\ Forall (fun a => a_id a <> id) (attachments db)) \/
  (r = Ok true /\
   exists a au db',
     a ∈ attachments db /\ a_id a = id /\ w_db w' = Some db' /\
     attachments db' = filter (fun x => a_id x <> id) (attachments db) /\
     Forall (fun x => a_id x <> id) (attachments db') /\
     notes db' = notes db /\
     audit_log db' = audit_log db ++ [au] /\
     au_action au = "attachment.delete" /\ au_entityId au = Some id /\
     au_projectId au = Some (a_projectId a) /\
     au_details au = DAttachment (a_originalFileName a) (a_sizeBytes a)).
Proof.
  intros Hl Hv Hdb Hid E. unfold attachmentsDelete in E.
  rewrite (bind_ok _ _ _ _ _ (assertUnlocked_open w Hl Hv (ex_intro _ db Hdb))) in E.
  assert (assertUuid (JStr id) "attachment ID" w = (Ok id, w)) as Eu.
  { unfold assertUuid. rewrite Hid. reflexivity. }
  rewrite (bind_ok _ _ _ _ _ Eu) in E.
  rewrite bind_unfold in E. unfold getAttachment, gets at 1 in E. rewrite Hdb in E.
  cbn [mbind option_bind] in E.
  destruct (head_filter_cases (fun a => a_id a = id) (attachments db))
    as [[Hh Hall]|(a & Hh & Hin & Ha)]; rewrite Hh in E.
  { injection E as <- <-. right. left. auto. }
  cbv zeta in E.
  apply bind_inv in E as [(e & w1 & Ee & E)|[(? & X & _)|[X _]]]; try discriminate X.
  injection Ee as _ <-.
  set (step := if isContainedPath (attachmentsRoot ++ a_storedRelativePath a) attachmentsRoot
                  && e
               then tryCatch (unlinkSync (attachmentsRoot ++ a_storedRelativePath a))
                      (fun error => consoleError error)
               else pure tt) in E.
  assert (KeepsSession step) as Hks.
  { unfold step. destruct (_ && _); [|apply Preserves_pure]. keeps. }
  assert (ThrowsOnly (fun _ => False) step) as Hts.
  { unfold step. destruct (_ && _); [|apply ThrowsOnly_pure].
    apply ThrowsOnly_tryCatch. intros ?. apply ThrowsOnly_consoleError. }
  apply bind_inv in E as [([] & w2 & Es & E)|[(x & Es & _)|[_ ->]]];
    [| destruct (Hts _ _ _ Es) | left; reflexivity].
  pose proof (Hks _ _ _ Es) as Hs. injection Hs as Hdb2 Hl2 _.
  rewrite Hdb in Hdb2. rewrite Hl in Hl2.
  apply bind_inv in E as [([] & w3 & Er & E)|[(x & Er & _)|[Er _]]].
  2,3: unfold run, mbind, M_bind, bind, gets, modify in Er; rewrite Hdb2 in Er;
       discriminate Er.
  unfold run, mbind, M_bind, bind, gets, modify in Er. rewrite Hdb2 in Er.
  injection Er as <-.
  apply bind_inv in E as [(aid & w4 & Ea & E)|[(x & Ea & _)|[Ea _]]].
  2,3: eapply recordAudit_ok in Ea as (? & X & _); [discriminate X|reflexivity|exact Hl2].
  eapply recordAudit_ok in Ea as (aid' & _ & Hdb4 & _); [|reflexivity|exact Hl2].
  apply bind_inv in E as [([] & w5 & Ep & E)|[(x & Ep & _)|[_ ->]]];
    [| destruct (persistDb_never_throws (fun _ => False) _ _ _ Ep) | left; reflexivity].
  injection E as <- <-. right. right. split; [reflexivity|].
  pose proof (Keeps_persistDb _ _ _ Ep) as Hs. injection Hs as Hdb5 _ _.
  eexists a, _, _. split; [exact Hin|]. split; [exact Ha|].
  split; [rewrite Hdb5; exact Hdb4|]. cbn [insertAudit deleteAttachmentRow attachments
    notes audit_log au_action au_entityId au_projectId au_details].
  split; [reflexivity|]. split.
  { apply Forall_forall. intros x Hx. apply list_elem_of_filter in Hx as [Hx _]. exact Hx. }
  repeat split.
Qed.

(** attachments:add in an open session, given a version-4 UUID, returns the
    empty list and changes nothing (no directory made, nothing written)
    when the paths are not an array, or are an empty array, or are more
    than 100. *)
Theorem attachmentsAdd_outside_its_bounds_does_nothing id filePaths w :
  w_locked w = false -> is_Some (w_vault w) -> is_Some (w_db w) ->
  matchClasses UUID_V4_REGEX id = true ->
  match filePaths with
  | None => True
  | Some l => l = [] \/ 100 < length l
  end ->
  attachmentsAdd (JStr id) filePaths w = (Ok [], w).
Proof.
  intros Hl Hv Hdb Hid Hp. unfold attachmentsAdd.
  rewrite (bind_ok _ _ _ _ _ (assertUnlocked_open w Hl Hv Hdb)).
  assert (assertUuid (JStr id) "project ID" w = (Ok id, w)) as Eu.
  { unfold assertUuid. rewrite Hid. reflexivity. }
  rewrite (bind_ok _ _ _ _ _ Eu).
  destruct (getSafeProjectAttachmentDir (JStr id)); [|reflexivity].
  destruct filePaths as [paths|]; [|reflexivity].
  destruct Hp as [->|Hp]; [reflexivity|].
  destruct (Nat.ltb_spec 100 (length paths)); [|lia].
  rewrite orb_true_r. reflexivity.
Qed.

End InputFacts.

Lemma project_attachment_dir_is_a_child_of_the_root_witness :
  let s := DemoWorld.projectId in
  exists dir,
    @getSafeProjectAttachmentDir refHost (JStr s) = Some dir /\
    dir = @attachmentsRoot refHost ++ [s] /\
    @isContainedPath dir (@attachmentsRoot refHost) = true /\
    dir <> @attachmentsRoot refHost.
Proof.
  intros s.
  destruct (@project_attachment_dir_is_a_child_of_the_root refHost (JStr s)) as [H1 H2].
  pose proof (H2 s eq_refl eq_refl) as Hd.
  destruct (H1 _ Hd) as (s' & Hs & _ & _ & Hc & Hn).
  injection Hs as <-. eexists. split; [exact Hd|]. auto.
Defined.

(** A title of 200 euro signs (600 bytes in UTF-8) between a no-break space
    and a byte-order mark. *)
Lemma notesCreate_adds_exactly_the_note_it_returns_witness :
  let w := DemoWorld.unlocked [] in
  let run := @notesCreate refCrypto refHost (JStr DemoWorld.projectId)
               DemoWorld.euroNoteData w in
  exists note db db',
    fst run = Ok (Some note) /\
    w_db w = Some db /\ w_db (snd run) = Some db' /\
    notes db' = notes db ++ [note] /\
    n_projectId note = DemoWorld.projectId /\
    n_title note = replicate 200 0x20AC%Z /\
    Forall (fun n => n_id n <> n_id note) (notes db).
Proof.
  intros w run.
  assert (exists r, run = (Ok r, snd run)) as [r Hr].
  { eexists. apply pair_eta_fst. vm_compute. reflexivity. }
  destruct (@notesCreate_adds_exactly_the_note_it_returns refCrypto refHost _ _ _ _ _ Hr)
    as (db & db' & note & pid & d & title & noteDate & content & au & Hdb & Hdb' & Hrow &
        Hp & _ & Hdata & Ht & _ & _ & Hn & _ & _ & _ & Hfresh & Hnotes & _).
  injection Hp as <-. injection Hdata as <-. injection Ht as <-.
  exists note, db, db'.
  split; [rewrite Hr, Hrow; reflexivity|]. split; [exact Hdb|]. split; [exact Hdb'|].
  split; [exact Hnotes|]. split; [rewrite Hn; reflexivity|].
  split; [rewrite Hn; vm_compute; reflexivity | exact Hfresh].
Defined.

Lemma attachmentsDelete_removes_the_row_whatever_the_disk_does_witness :
  let w := DemoWorld.withStored [FThrow] in
  let run := @attachmentsDelete refCrypto refHost (JStr DemoWorld.attachmentId) w in
  fst run = Ok true /\
  w_fs (snd run) !! DemoWorld.attachmentPath = Some (NFile [x01; x02]) /\
  exists db', w_db (snd run) = Some db' /\
    Forall (fun x => a_id x <> DemoWorld.attachmentId) (attachments db').
Proof.
  intros w run.
  assert (fst run = Ok true) as Hf by (vm_compute; reflexivity).
  split; [exact Hf|]. split; [vm_compute; reflexivity|].
  destruct (@attachmentsDelete_removes_the_row_whatever_the_disk_does refCrypto refHost
              DemoWorld.attachmentId DemoWorld.storedDb w (fst run) (snd run)
              eq_refl (ex_intro _ _ eq_refl) eq_refl eq_refl (surjective_pairing run))
    as [X|[(X & _)|(_ & a & au & db' & _ & _ & Hdb' & _ & Hall & _)]].
  - rewrite Hf in X. discriminate X.
  - rewrite Hf in X. discriminate X.
  - exists db'. split; [exact Hdb' | exact Hall].
Defined.

Lemma attachmentsAdd_outside_its_bounds_does_nothing_witness :
  let w := DemoWorld.unlocked [FThrow] in
  @attachmentsAdd refCrypto refHost (JStr DemoWorld.projectId)
    (Some (replicate 101 (JStr "/data/abc.txt"))) w = (Ok [], w) /\
  @attachmentsAdd refCrypto refHost (JStr DemoWorld.projectId) (Some []) w = (Ok [], w) /\
  @attachmentsAdd refCrypto refHost (JStr DemoWorld.projectId) None w = (Ok [], w).
Proof.
  intros w.
  split; [|split];
    apply (@attachmentsAdd_outside_its_bounds_does_nothing refCrypto refHost);
    try reflexivity; try (eexists; reflexivity); try exact I.
  - right. rewrite length_replicate. lia.
  - left. reflexivity.
Defined.


(** ** A successful unlock *)

Section MaintainsFacts.
Context (P : World -> Prop).

Lemma Maintains_bind {A B} (m : M A) (k : A -> M B) :
  Maintains P m -> (forall a, Maintains P (k a)) -> Maintains P (m ≫= k).
Proof.
  intros Hm Hk w r w' Hp E.
  apply bind_inv in E as [(a & w1 & E1 & E2)|[(e & E1 & _)|[E1 _]]].
  - exact (Hk a w1 r w' (Hm w _ w1 Hp E1) E2).
  - exact (Hm w _ w' Hp E1).
  - exact (Hm w _ w' Hp E1).
Qed.

Lemma Maintains_tryCatch {A} (m : M A) h :
  Maintains P m -> (forall e, Maintains P (h e)) -> Maintains P (tryCatch m h).
Proof.
  intros Hm Hh w r w' Hp E.
  apply tryCatch_inv in E as [(e & w1 & E1 & E2)|[E1 _]].
  - exact (Hh e w1 r w' (Hm w _ w1 Hp E1) E2).
  - exact (Hm w _ w' Hp E1).
Qed.

Lemma Maintains_pure {A} (a : A) : Maintains P (pure a).
Proof. intros w r w' Hp [= <- <-]. exact Hp. Qed.

Lemma Maintains_throw {A} e : Maintains P (@throw A e).
Proof. intros w r w' Hp [= <- <-]. exact Hp. Qed.

Lemma Maintains_gets {A} (g : World -> A) : Maintains P (gets g).
Proof. intros w r w' Hp [= <- <-]. exact Hp. Qed.

Lemma Maintains_modify g : (forall w, P w -> P (g w)) -> Maintains P (modify g).
Proof. intros Hg w r w' Hp [= <- <-]. apply Hg. exact Hp. Qed.

Lemma Maintains_liftRes {A} (r : res A) : Maintains P (liftRes r).
Proof. destruct r; [apply Maintains_pure | apply Maintains_throw]. Qed.

Lemma Maintains_foldM {A B} (body : B -> A -> M B) xs :
  (forall acc x, Maintains P (body acc x)) ->
  forall acc, Maintains P (foldM body acc xs).
Proof.
  intros Hb. induction xs as [|x xs IH]; intros acc; cbn [foldM].
  - apply Maintains_pure.
  - apply Maintains_bind; [apply Hb | intros a; apply IH].
Qed.

End MaintainsFacts.

Section UnlockFacts.
Context `{NodeCrypto} `{HostEnv}.

(** What keeps the session state keeps an open session open. *)
Lemma Maintains_of_Keeps {A} v (m : M A) : KeepsSession m -> Maintains (openUnder v) m.
Proof.
  intros Hk w r w' (Hl & Hv & Hd) E. pose proof (Hk w r w' E) as Hs. unfold session in Hs.
  injection Hs as Hd' Hl' Hv'. unfold openUnder. rewrite Hd', Hl', Hv'. auto.
Qed.

Lemma openUnder_setDb v db w : openUnder v w -> openUnder v (setDb (Some db) w).
Proof. intros (Hl & Hv & _). repeat split; [exact Hl | exact Hv | eexists; reflexivity]. Qed.

End UnlockFacts.

(** Structural steps for [Maintains (openUnder v)]: what does not write the
    session state keeps it; a write of the database keeps it present. *)
Ltac maintains_step :=
  match goal with
  | |- Maintains _ persistDbInternal => apply Maintains_of_Keeps, Keeps_persistDbInternal
  | |- Maintains _ persistDb => apply Maintains_of_Keeps, Keeps_persistDb
  | |- Maintains _ (pure _) => apply Maintains_pure
  | |- Maintains _ (throw _) => apply Maintains_throw
  | |- Maintains _ (gets _) => apply Maintains_gets
  | |- Maintains _ (liftRes _) => apply Maintains_liftRes
  | |- Maintains _ (modify (setDb (Some _))) =>
      apply Maintains_modify; intros ?; apply openUnder_setDb
  | |- Maintains _ (modify _) => apply Maintains_modify; intros ? Hp; exact Hp
  | |- Maintains _ drawTape => apply Maintains_of_Keeps; keeps
  | |- Maintains _ (fsGuard _ _) => apply Maintains_of_Keeps; keeps
  | |- Maintains _ (foldM _ _ _) => apply Maintains_foldM; intros ? ?
  | |- Maintains _ (mbind _ _) => apply Maintains_bind; [|intros ?]
  | |- Maintains _ (tryCatch _ _) => apply Maintains_tryCatch; [|intros ?]
  | |- Maintains _ (match ?x with _ => _ end) => destruct x
  | |- Maintains _ (if ?b then _ else _) => destruct b
  end.

Ltac maintains :=
  unfold copyDirRecursive, countFilesRecursive, ensureDir, nowIso, randomUUID,
    consoleError, existsSync, statSync, readFileSync, writeFileSync, renameSync,
    unlinkSync, copyFileSync, mkdirSync, rmSync;
  repeat maintains_step.

Section UnlockResult.
Context `{NodeCrypto} `{HostEnv}.

Lemma derive_fields passphrase salt params v :
  deriveKeysFromPassphrase passphrase salt params = ROk v ->
  kdfSalt v = salt /\ kdfParams v = params.
Proof.
  unfold deriveKeysFromPassphrase. cbv zeta.
  destruct (scryptSync _ _ _ _ _ _ _); [|discriminate].
  cbn [mbind res_bind]. intros [= <-]. auto.
Qed.

(** The key material that opening an envelope returns is what the
    passphrase derives under the salt and cost parameters it carries. *)
Lemma opened_vault_is_derived buf passphrase o :
  openVaultFromDatabaseEnvelope buf passphrase = ROk o ->
  deriveKeysFromPassphrase passphrase (kdfSalt (vault o)) (kdfParams (vault o))
  = ROk (vault o).
Proof.
  unfold openVaultFromDatabaseEnvelope. cbv zeta.
  destruct (_ <? _); [discriminate|].
  destruct (negb _); [discriminate|].
  destruct (readUInt8 _ _) as [version|?]; cbn [mbind res_bind]; [|discriminate].
  destruct (negb _); [discriminate|].
  destruct (readU32 buf (length DB_MAGIC + 1)) as [n|?]; cbn [mbind res_bind];
    [|discriminate].
  destruct (readU32 buf (length DB_MAGIC + 1 + 4)) as [r|?]; cbn [mbind res_bind];
    [|discriminate].
  destruct (readU32 buf (length DB_MAGIC + 1 + 8)) as [p|?]; cbn [mbind res_bind];
    [|discriminate].
  destruct (deriveKeysFromPassphrase _ _ _) as [v|?] eqn:Ed; cbn [mbind res_bind];
    [|discriminate].
  destruct (aesGcmDecrypt _ _ _ _ _); cbn [mbind res_bind]; [|discriminate].
  intros [= <-]. cbn [vault].
  destruct (derive_fields _ _ _ _ Ed) as [-> ->]. exact Ed.
Qed.

Lemma openFirstCandidate_found passphrase cands :
  forall lastError w o c le w',
    openFirstCandidate passphrase cands lastError w = (Ok (Some (o, c), le), w') ->
    exists d, openVaultFromDatabaseEnvelope d passphrase = ROk o.
Proof.
  induction cands as [|c0 rest IH]; intros lastError w o c le w' E.
  - discriminate E.
  - rewrite openFirstCandidate_cons in E.
    apply bind_inv in E as [(r & w1 & Et & E)|[(? & _ & X)|[_ X]]]; try discriminate X.
    destruct r as [found|err]; [|exact (IH _ _ _ _ _ _ E)].
    injection E as -> _ _.
    apply tryCandidate_cases in Et as [_ [(X & _)|[(X & _)|(_ & _ & _ & Hm)]]];
      try discriminate X.
    destruct (w_fs w !! dbPath c0) as [[d|]|]; try discriminate Hm.
    destruct (openVaultFromDatabaseEnvelope d passphrase) as [o'|?] eqn:Eo;
      [|discriminate Hm].
    injection Hm as <- _. exists d. exact Eo.
Qed.

(** When the open phase of [unlockVault] returns, the key material in
    memory is what the passphrase derives. *)
Lemma unlockOpen_ok passphrase w x w1 :
  unlockOpen passphrase w = (Ok x, w1) ->
  acceptablePassphrase passphrase /\
  exists v, w_vault w1 = Some v /\
    deriveKeysFromPassphrase passphrase (kdfSalt v) (kdfParams v) = ROk v.
Proof.
  unfold unlockOpen. destruct passphrase as [s|]; cbn [passphraseLength]; [|discriminate].
  destruct (Nat.ltb_spec (length s) MIN_PASSPHRASE_LEN); [discriminate|].
  cbv zeta. intros E. split; [exists s; auto|].
  rewrite (bind_ok _ _ _ _ _ (listEncryptedDbCandidates_spec w)) in E.
  destruct (0 <? length (candidatesOf (w_fs w))).
  - apply bind_inv in E as [([opened lastError] & w2 & Eo & E)|[(? & _ & X)|[_ X]]];
      try discriminate X.
    destruct opened as [[o c]|]; [|destruct (isDecryptAuthError lastError); discriminate E].
    injection E as _ <-. exists (vault o). split; [reflexivity|].
    destruct (openFirstCandidate_found _ _ _ _ _ _ _ _ Eo) as [d Hd].
    exact (opened_vault_is_derived _ _ _ Hd).
  - apply bind_inv in E as [(g & w2 & Eg & E)|[(? & _ & X)|[_ X]]]; try discriminate X.
    injection Eg as <- <-.
    apply bind_inv in E as [(v & w3 & Ev & E)|[(? & _ & X)|[_ X]]]; try discriminate X.
    destruct (deriveKeysFromPassphrase _ _ _) as [v'|?] eqn:Ed; [|discriminate Ev].
    injection Ev as <- <-.
    apply bind_inv in E as [([] & w4 & Em & E)|[(? & _ & X)|[_ X]]]; try discriminate X.
    injection Em as <-.
    apply bind_inv in E as [(e & w5 & Ee & E)|[(? & _ & X)|[_ X]]]; try discriminate X.
    injection Ee as <- <-.
    assert (w_vault w1 = Some v') as Hv.
    { destruct (bool_decide _).
      - apply bind_inv in E as [(b & w6 & Er & E)|[(? & _ & X)|[_ X]]]; try discriminate X.
        injection E as _ <-.
        assert (Preserves w_vault (readFileSync dbPlainPath)) as Hk by keeps.
        rewrite (Hk _ _ _ Er). reflexivity.
      - injection E as _ <-. reflexivity. }
    exists v'. split; [exact Hv|].
    destruct (derive_fields _ _ _ _ Ed) as [-> ->]. exact Ed.
Qed.

Lemma Maintains_unlockLoadRest v unlockSource :
  Maintains (openUnder v)
    (seededLegacyAttachments ←
       match unlockSource with
       | Some src =>
           match source src with
           | SrcLegacy =>
               let sourceAttachmentsRoot := userDataRoot src ++ ["attachments"] in
               let targetAttachmentsRoot := attachmentsRoot in
               e ← existsSync sourceAttachmentsRoot;
               n ← countFilesRecursive targetAttachmentsRoot;
               if negb (bool_decide (sourceAttachmentsRoot = targetAttachmentsRoot))
                  && e && (n =? 0)
               then copyDirRecursive sourceAttachmentsRoot targetAttachmentsRoot
               else pure 0
           | SrcCurrent => pure 0
           end
       | None => pure 0
       end;
     persistDbOrThrow;;
     pure seededLegacyAttachments).
Proof. unfold persistDbOrThrow. cbv zeta. maintains. Qed.

Lemma Maintains_verifyWrittenEnvelope v passphrase :
  Maintains (openUnder v) (verifyWrittenEnvelope passphrase).
Proof. unfold verifyWrittenEnvelope. maintains. Qed.

Lemma Maintains_unlockFinish v passphrase migratedDb unlockSource seeded :
  Maintains (openUnder v) (unlockFinish passphrase migratedDb unlockSource seeded).
Proof.
  unfold unlockFinish, deletePlaintextDbAfterVerifiedMigration,
    migrateAttachmentsToEncryptedIfNeeded, migrateOneAttachment, assertUnlocked,
    currentFileKey, encryptAttachmentFile, run, recordAudit, persistDbOrThrow.
  cbv zeta. maintains.
Qed.

(** When [unlockVault] returns, the session is open: the vault is unlocked,
    a database is in memory, the key material in memory is what the
    passphrase (of at least 12 code units) derives under its salt and cost
    parameters, and the guard of the handlers passes.  This holds whichever
    of the best-effort steps after the verification (migration of
    attachments, audit row, its persist) failed. *)
Theorem successful_unlock_opens_the_session passphrase w res w' :
  unlockVault passphrase w = (Ok res, w') ->
  acceptablePassphrase passphrase /\
  exists v,
    w_locked w' = false /\ w_vault w' = Some v /\ is_Some (w_db w') /\
    deriveKeysFromPassphrase passphrase (kdfSalt v) (kdfParams v) = ROk v /\
    assertUnlocked w' = (Ok tt, w').
Proof.
  intros E. rewrite unlockVault_parts in E.
  apply bind_inv in E as [([[dbBytes migratedDb] src] & w1 & Eo & E)|[(? & _ & X)|[_ X]]];
    try discriminate X.
  destruct (unlockOpen_ok _ _ _ _ Eo) as (Hp & v & Hv & Hd).
  split; [exact Hp|]. exists v.
  apply bind_inv in E as [(seeded & w2 & El & E)|[(? & _ & X)|[_ X]]]; try discriminate X.
  unfold unlockLoadAndPersist in El.
  apply bind_inv in El as [([] & w3 & Ei & El)|[(? & _ & X)|[_ X]]]; try discriminate X.
  unfold initDatabase in Ei.
  apply bind_inv in Ei as [(db & w4 & Es & Ei)|[(? & _ & X)|[_ X]]]; try discriminate X.
  destruct (sqlOpen dbBytes) as [db'|?]; [|discriminate Es].
  injection Es as <- <-. injection Ei as <-.
  apply bind_inv in El as [([] & w5 & Em & El)|[(? & _ & X)|[_ X]]]; try discriminate X.
  injection Em as <-.
  assert (openUnder v (setLocked false (setDb (Some db') w1))) as H5.
  { repeat split; [exact Hv | eexists; reflexivity]. }
  pose proof (Maintains_unlockLoadRest v src _ _ _ H5 El) as H2.
  apply bind_inv in E as [([] & w6 & Ev & E)|[(? & _ & X)|[_ X]]]; try discriminate X.
  pose proof (Maintains_verifyWrittenEnvelope v passphrase _ _ _ H2 Ev) as H6.
  destruct (Maintains_unlockFinish v _ _ _ _ _ _ _ H6 E) as (Hl' & Hv' & Hdb').
  split; [exact Hl'|]. split; [exact Hv'|]. split; [exact Hdb'|]. split; [exact Hd|].
  apply assertUnlocked_open; [exact Hl' | rewrite Hv'; eexists; reflexivity | exact Hdb'].
Qed.

End UnlockResult.

Lemma successful_unlock_opens_the_session_witness :
  let w := DemoWorld.started {[ DemoWorld.encPath := NFile Demo.envelope ]} [] in
  let run := @unlockVault refCrypto refHost Demo.passphrase w in
  exists res v,
    fst run = Ok res /\
    w_locked (snd run) = false /\ w_vault (snd run) = Some v /\
    is_Some (w_db (snd run)) /\
    assertUnlocked (snd run) = (Ok tt, snd run).
Proof.
  intros w run.
  assert (exists r, run = (Ok r, snd run)) as [r Hr].
  { eexists. apply pair_eta_fst. vm_compute. reflexivity. }
  destruct (@successful_unlock_opens_the_session refCrypto refHost _ _ _ _ Hr)
    as (_ & v & Hl & Hv & Hdb & _ & Ha).
  exists r, v. split; [rewrite Hr; reflexivity|]. auto.
Defined.
